(* ===== verification/_CoqProject ===== *)
-Q . S2P
Prelude.v
Bytes.v
PyFloat.v
FloatBounds.v
FloatEnclosure.v
PyStruct.v
PyStatistics.v
PyText.v
Protocol.v
EngineProtocol.v
OrderBook.v
Client.v
WireAgreement.v
RustProtocol.v
Server.v
Ticks.v
Strategy.v
PricingClient.v
Pricing.v
NaiveBlackScholes.v
DeltaHedger.v
TradeLog.v
SessionRunner.v
Feeds.v
BacktestReport.v
RiskPosition.v
PricedHedge.v
HedgeReport.v
Sessions.v
EndToEnd.v
HedgeSession.v
PricedSession.v
LiveClient.v
Drivers.v
RiskEngine.v
FlattenLoop.v
RustText.v
FixParser.v
