(* ===== verification/Prelude.v ===== *)
(** * velo: a verification library for the trading pipeline of the repository

    ** The program

    velo is a small trading system of cooperating processes.  A C++ order book
    server ([engine/]) matches orders.  Python strategies ([strategy/]) take
    prices from a feed, decide on quotes or hedges, and trade through a TCP
    client.  Rust processes ([risk/]) monitor the position and flatten it, price
    options over a second socket, and parse FIX messages.  One binary protocol,
    implemented three times, connects Python, C++ and Rust.

    ** The files

    Each file models one part and names its sources.  Definitions keep the
    source's names; a definition with a leading file name below is the model of
    the function of that name.

    - Foundations.  [Prelude] (exceptions, the monads [res] and [M], totality,
      lists), [Bytes], [PyStruct] ([struct]), [PyFloat], [FloatBounds] and
      [FloatEnclosure] (binary64: exactness, bounds, signed enclosures),
      [PyStatistics] (numbers and [statistics]), [PyText] (the text of numbers),
      [RustText] (the operations on [&str]).
    - Wire.  [Protocol] ([protocol.py]), [EngineProtocol] ([protocol.cpp]),
      [RustProtocol] ([protocol.rs]), [WireAgreement] (that they agree).
    - Engine.  [OrderBook] ([order_book.cpp]: [submit], [cancel], [matchBuy],
      [matchSell], [snapshot]), [Server] ([server.cpp]: [handle_readable],
      [dispatch_new_order], [remove_connection]; [server_step] is one turn of
      the [poll] loop).
    - Python client and session.  [Client] ([client.py]: the reader thread, the
      queue, the sends), [Strategy] ([strategy.py]), [Feeds] (the three feeds
      and the downloader), [Ticks], [TradeLog], [SessionRunner]
      ([run_strategy_loop]), [Sessions] ([run_session], [run_backtest],
      [run_live_session]), [LiveClient] ([live_ib_client.py], two threads as a
      step relation), [Drivers] (the [main] of the four [run_*.py]).
    - Reports.  [BacktestReport], [HedgeReport].
    - Options.  [PricingClient] ([pricing_client.py], [pricing_protocol.rs], the
      request loop of [pricing_server.rs]), [Pricing] ([pricing.rs], scalar and
      SIMD), [NaiveBlackScholes] (the Python benchmark), [DeltaHedger]
      ([options.py], [delta_hedger.py]), [PricedHedge] (a tick of hedger, wire
      and pricer together), [HedgeSession] ([run_delta_hedge_backtest.py]),
      [PricedSession] (that session over the wire).
    - Risk.  [RiskPosition] ([position.rs]), [RiskEngine] ([main.rs],
      [limits.rs], [risk_log.rs]), [FlattenLoop] (risk engine and matching
      engine in a loop), [FixParser] ([fix.rs]).
    - [EndToEnd]: client, wire, server and quoter composed.

    ** How state and effects are modelled

    A Python object is a record and a method that mutates it and may raise is a
    computation of [M], whose object survives an exception; fallible functions
    return [res].  A C++ or Rust function that can be undefined or panic returns
    an option, or an outcome type of its own.  Machine integers wrap or panic
    where the source does; Python ints are unbounded until [struct] checks them.
    Interfaces are classes with laws: [Feed], [Strategy], [BookClient] with
    [BookClientSpec], [Pricer].  The loop is proved against them, and the TCP
    client, the feeds, the quoter and the hedger implement them.

    What the kernel does is data: a socket is the list of segments its reads
    will return, a queue the list of batches that arrive between two of its
    operations, a clock the sequence of its readings, an engine run a list of
    accepts, reads and disconnects.  Theorems quantify over these lists, that is
    over every chunking of a stream and every arrival order.

    ** What the theorems show

    - The book refines a price-time priority specification, its fills are the
      best opposite orders in order, and every reachable server keeps a sound
      book, owner table and connection list; what a client's bytes do does not
      depend on how they are cut; every order is answered by one ack and each of
      its fills reaches sender, owner and subscribers once.
    - The three codecs are inverse to each other; what a Python strategy asks
      for is what the engine performs, and what the engine answers is what the
      strategy sees.
    - The strategy loop ends, keeps log, wire and events one history, and closes
      the client however it ends; the quoter and the hedger keep their ids,
      resting quotes and positions in agreement with what they sent and were
      told.  The drivers complete on a live connection and print exactly the
      figures of the session; the live driver closes both connections.
    - The replay of fills is exact while quantities stay below 2^53, agrees with
      the Rust tracker under a stated condition, and the report's means,
      variances and win rate are exact statistics rounded once, from which the
      Sharpe ratio and the variance reduction are computed as stated.
    - The batch pricer is the map of one lane's function and never panics; the
      scalar pricer's deltas lie in the unit interval, so a hedge target over
      the wire never exceeds the number of contracts; a hedging session of the
      real client is simulated by one against the server's function; the Python
      benchmark is the same formula, with its exceptions characterised.
    - A risk engine session never panics, logs every fill and answers every
      breach with one exact-size order; the two threads of the IBKR client never
      lose an error or mix up subscriptions and always return; the FIX builder
      and parsers are inverse, and any single corrupted byte is detected.
    - Behaviours that contradict a comment or document are proved as they are:
      self-trading, orphaned remainders and phantom quotes of the quoter
      ([EndToEnd]), the layout of the drawdown in dollars ([Drivers]), fills
      that are not counted as trades ([BacktestReport]), the id collision of hedger and quoter ([HedgeSession]), the
      misrouted fills after a reconnect ([Server]), repeated flattening orders
      ([FlattenLoop]), panics on malformed FIX ([FixParser]).

    ** Iteration bounds

    Loops the source writes with [while] take a number of iterations as fuel and
    yield [NoFuel] when it runs out.  Wherever a loop is used, a theorem gives
    a bound from which the result is the same for every larger one and is not
    [NoFuel]: the number of bytes on a socket for the readers, of pending events
    for the final drain, of ticks or of remaining prices for the strategy loop.

    ** Assumptions

    Class laws, each with an instance that satisfies it: the generator draws
    below its bound ([Random]); [exp] and [ln] of the platform return floats
    ([F64MathValid]), and [exp] of NaN is NaN and of a number that is not
    positive lies in the unit interval ([F64MathOk], [CMathOk]); the vector type
    [f64x4] acts lane by lane ([WideLaws]), and of its [exp] and [ln] only
    [F64MathValid] is assumed.  The cache relies on [float] reading back what
    [repr] wrote.  [sum] of floats adds from left to right, as it did before
    Python 3.12; since then it compensates, which makes no difference to a book
    of one leg, the one the driver builds.
    Exceptions are modelled by class, without their messages.

    ** Not modelled

    Argument parsing ([argparse], [std::env::args]), the listening sockets,
    [poll] and partial writes of the kernel, sends of the server that fail and the
    signal they may raise, the spelling of the risk log's JSON
    and of the benchmark's report, the packages [yfinance] and [ib_async]
    (parameters), the creation of the cache directory, the values of the special
    functions of the C library, the interleaving of the hedging driver's two
    threads (each is modelled, and they share only the engine), the test suites,
    the smoke-test script [engine/tests/test_client.py] and the Criterion and
    C++ benchmarks. *)

From Stdlib Require Export ZArith Lia List.
From stdpp Require Export base option list gmap sets.

#[export] Set Default Goal Selector "!".

(** ** Python exceptions and fallible computations *)

(** The exception classes the modelled code raises or lets through.  Only the
    class matters to the program's control flow, so messages are dropped. *)
Inductive PyExc :=
| StructError
| ValueError
| TypeError
| KeyError
| IndexError
| StopIteration
| ConnectionError
| OSError
| OverflowError
| ZeroDivisionError
| StatisticsError
| QueueEmpty
| RuntimeError.

#[export] Instance PyExc_eq_dec : EqDecision PyExc.
Proof. solve_decision. Defined.

(** The outcome of a Python expression: a value, or a raised exception.
    [NoFuel] is not an outcome of the program: it marks a loop of the model
    that was cut off by its iteration bound, and the termination theorems show
    from which bound on it no longer occurs. *)
Inductive res (A : Type) :=
| Ok (a : A)
| Raise (e : PyExc)
| NoFuel.
Arguments Ok {A} a.
Arguments Raise {A} e.
Arguments NoFuel {A}.

#[export] Instance res_eq_dec `{EqDecision A} : EqDecision (res A).
Proof. solve_decision. Defined.

#[export] Instance res_ret : MRet res := λ A a, Ok a.
#[export] Instance res_bind : MBind res := λ A B f m,
  match m with Ok a => f a | Raise e => Raise e | NoFuel => NoFuel end.
#[export] Instance res_fmap : FMap res := λ A B f m,
  match m with Ok a => Ok (f a) | Raise e => Raise e | NoFuel => NoFuel end.

#[export] Instance Ok_inj A : Inj (=) (=) (@Ok A).
Proof. by intros ?? [= ->]. Qed.

Definition is_ok {A} (r : res A) : bool :=
  match r with Ok _ => true | _ => false end.

(** The value of an outcome, or [d]. *)
Definition from_res {A} (d : A) (r : res A) : A := match r with Ok a => a | _ => d end.

(** [require b e]: an [if not b: raise e] guard. *)
Definition require (b : bool) (e : PyExc) : res unit :=
  if b then Ok tt else Raise e.

(** Map a fallible function over a list, stopping at the first exception. *)
Fixpoint res_map {A B} (f : A → res B) (l : list A) : res (list B) :=
  match l with
  | [] => Ok []
  | a :: l => b ← f a; bs ← res_map f l; Ok (b :: bs)
  end.

(** ** Computations with a mutable object

    A method that mutates [self] and may raise: the object it leaves behind
    is the first component, whether it returned or raised. *)
Definition M (S A : Type) : Type := S → S * res A.

#[export] Instance M_ret S : MRet (M S) := λ A a s, (s, Ok a).
#[export] Instance M_bind S : MBind (M S) := λ A B f m s,
  match m s with
  | (s', Ok a) => f a s'
  | (s', Raise e) => (s', Raise e)
  | (s', NoFuel) => (s', NoFuel)
  end.

Definition raise {S A} (e : PyExc) : M S A := λ s, (s, Raise e).
Definition lift_res {S A} (r : res A) : M S A := λ s, (s, r).
Definition gets {S A} (f : S → A) : M S A := λ s, (s, Ok (f s)).
Definition modify {S} (f : S → S) : M S unit := λ s, (f s, Ok tt).

(** [try: body finally: fin], for a finaliser that does not raise. *)
Definition try_finally {S A} (body : M S A) (fin : S → S) : M S A := λ s,
  match body s with
  | (s', NoFuel) => (s', NoFuel)
  | (s', r) => (fin s', r)
  end.

(** Run a method of the object held in a field of a larger state. *)
Definition on_field {S T A} (get : S → T) (set : T → S → S) (m : M T A) : M S A := λ s,
  let '(t, r) := m (get s) in (set t s, r).

(** [for x in l: body x]. *)
Fixpoint for_each {S A} (l : list A) (body : A → M S unit) : M S unit :=
  match l with
  | [] => mret tt
  | a :: l => _ ← body a; for_each l body
  end.

(** ** Tactics *)

(** Reduce the monads' binds and returns. *)
Ltac py_unfold :=
  unfold mbind, res_bind, M_bind, mret, res_ret, M_ret, fmap, res_fmap,
    lift_res, gets, modify, raise, require in *.

(** Case split on the innermost scrutinee of a [match] in the goal or in a
    hypothesis. *)
Ltac case_match_eq :=
  match goal with
  | H : context [match ?x with _ => _ end] |- _ =>
      lazymatch x with context [match _ with _ => _ end] => fail | _ => destruct x eqn:? end
  | |- context [match ?x with _ => _ end] =>
      lazymatch x with context [match _ with _ => _ end] => fail | _ => destruct x eqn:? end
  end.

(** Push an equation between outcomes through the binds it is made of. *)
Ltac inv_res :=
  repeat (py_unfold; simplify_eq/=; try case_match_eq; simplify_eq/=; try done).

(** Decide a closed proposition by evaluation. *)
Ltac decide_now := refine (@bool_decide_unpack _ _ _); vm_compute; exact I.

Ltac bool_to_prop :=
  repeat match goal with
  | H : (_ && _)%bool = true |- _ => apply andb_true_iff in H as [? ?]
  | H : (_ && _)%bool = false |- _ => apply andb_false_iff in H
  | H : (_ || _)%bool = false |- _ => apply orb_false_iff in H as [? ?]
  | H : (_ || _)%bool = true |- _ => apply orb_true_iff in H
  | H : (_ <=? _)%Z = true |- _ => apply Z.leb_le in H
  | H : (_ <=? _)%Z = false |- _ => apply Z.leb_gt in H
  | H : (_ <? _)%Z = true |- _ => apply Z.ltb_lt in H
  | H : (_ <? _)%Z = false |- _ => apply Z.ltb_ge in H
  | H : (_ =? _)%Z = true |- _ => apply Z.eqb_eq in H
  | H : (_ =? _)%Z = false |- _ => apply Z.eqb_neq in H
  end.

(** ** Generic lemmas *)

Create HintDb velo.

Section res_lemmas.
Context {A B : Type}.
Implicit Types (f : A → res B).

Lemma res_bind_ok (f : A → res B) (m : res A) b :
  m ≫= f = Ok b ↔ ∃ a, m = Ok a ∧ f a = Ok b.
Proof. destruct m; naive_solver. Qed.

Lemma res_map_ok_length f l bs : res_map f l = Ok bs → length bs = length l.
Proof. revert bs; induction l; intros; inv_res; auto. Qed.

Lemma res_map_app f l1 l2 :
  res_map f (l1 ++ l2) = b1 ← res_map f l1; b2 ← res_map f l2; Ok (b1 ++ b2).
Proof.
  induction l1 as [|a l1 IH]; simpl.
  - py_unfold. by destruct (res_map f l2).
  - rewrite IH. py_unfold. destruct (f a), (res_map f l1), (res_map f l2); done.
Qed.

Lemma res_map_Forall2 f l bs :
  res_map f l = Ok bs ↔ Forall2 (λ a b, f a = Ok b) l bs.
Proof.
  split.
  - revert bs; induction l; intros; inv_res; auto.
  - induction 1 as [|a b l bs Hab _ IH]; simpl; [done|].
    py_unfold. by rewrite Hab, IH.
Qed.
End res_lemmas.

(** *** Computations that need no iteration bound *)

(** [always_ends m]: from no state does [m] run into the bound of a loop of the model. *)
Definition always_ends {S A} (m : M S A) : Prop := ∀ s, (m s).2 ≠ NoFuel.
Definition fuel_free {A} (r : res A) : Prop := r ≠ NoFuel.

Create HintDb total.

Section total_lemmas.
Context {S A B : Type}.

Lemma fuel_free_ok (a : A) : fuel_free (Ok a).
Proof. done. Qed.
Lemma fuel_free_raise e : fuel_free (A := A) (Raise e).
Proof. done. Qed.
Lemma fuel_free_bind (r : res A) (f : A → res B) :
  fuel_free r → (∀ a, fuel_free (f a)) → fuel_free (r ≫= f).
Proof. intros Hr Hf. destruct r; [apply Hf|done|done]. Qed.

Lemma total_ret (a : A) : always_ends (S := S) (mret a).
Proof. done. Qed.
Lemma total_raise e : always_ends (S := S) (A := A) (raise e).
Proof. done. Qed.
Lemma total_gets (f : S → A) : always_ends (gets f).
Proof. done. Qed.
Lemma total_modify (f : S → S) : always_ends (modify f).
Proof. done. Qed.
Lemma total_lift (r : res A) : fuel_free r → always_ends (S := S) (lift_res r).
Proof. by intros H s. Qed.
Lemma total_bind (m : M S A) (f : A → M S B) :
  always_ends m → (∀ a, always_ends (f a)) → always_ends (m ≫= f).
Proof.
  intros Hm Hf s. unfold mbind, M_bind. specialize (Hm s).
  destruct (m s) as [s' [a|e|]]; [apply Hf|done|done].
Qed.
Lemma total_on_field {T} (get : S → T) set (m : M T A) : always_ends m → always_ends (on_field get set m).
Proof. intros Hm s. unfold on_field. specialize (Hm (get s)). by destruct (m (get s)). Qed.
End total_lemmas.

Lemma total_for_each {S A} (l : list A) (f : A → M S unit) : (∀ a, always_ends (f a)) → always_ends (for_each l f).
Proof. intros Hf. induction l as [|a l IH]; [done|]. exact (total_bind _ _ (Hf a) (λ _, IH)). Qed.

#[export] Hint Resolve fuel_free_ok fuel_free_raise fuel_free_bind total_ret total_raise total_gets
  total_modify total_lift total_bind total_on_field total_for_each : total.

(** Filters that keep everything, or nothing. *)
Lemma filter_all {A} (P : A → Prop) `{∀ x, Decision (P x)} (l : list A) :
  Forall P l → filter P l = l.
Proof. induction 1; [done|]. rewrite filter_cons_True by done. by f_equal. Qed.
Lemma filter_none {A} (P : A → Prop) `{∀ x, Decision (P x)} (l : list A) :
  Forall (λ x, ¬ P x) l → filter P l = [].
Proof. induction 1; [done|]. by rewrite filter_cons_False. Qed.

Lemma Forall_filter {A} (P Q : A → Prop) `{∀ x, Decision (Q x)} (l : list A) :
  Forall P l → Forall P (filter Q l).
Proof. rewrite !Forall_forall. intros Hl x [_ Hx]%list_elem_of_filter. auto. Qed.

(** Sums of integer lists. *)
Definition sumZ (l : list Z) : Z := foldr Z.add 0%Z l.

Lemma sumZ_app l1 l2 : sumZ (l1 ++ l2) = (sumZ l1 + sumZ l2)%Z.
Proof. induction l1; simpl; lia. Qed.

Lemma sumZ_nonneg l : Forall (λ x, 0 ≤ x)%Z l → (0 ≤ sumZ l)%Z.
Proof. induction 1; simpl; lia. Qed.

Lemma sumZ_nil : sumZ [] = 0%Z.
Proof. done. Qed.
Lemma sumZ_cons x l : sumZ (x :: l) = (x + sumZ l)%Z.
Proof. done. Qed.
#[global] Arguments sumZ : simpl never.

Create Rewrite HintDb velo_rw.
#[export] Hint Rewrite sumZ_app sumZ_nil sumZ_cons : velo_rw.
#[export] Hint Rewrite @length_app @length_map : velo_rw.
