(* ===== verification/Bytes.v ===== *)
(** * Byte strings and big-endian integers

    Python's [bytes] and the byte buffers of the C++ and Rust programs are
    lists of [Byte.byte].  Every multi-byte integer of the wire protocols is
    big-endian; [be_encode] and [be_decode] are the two directions for
    unsigned integers, [to_signed] and [Z.modulo] the two's complement view. *)

From S2P Require Import Prelude.
From Stdlib Require Export Strings.Byte.
From Stdlib Require Import NArith.

Open Scope Z_scope.

Abbreviation bytes := (list byte).

#[export] Instance byte_eq_dec : EqDecision byte := Byte.byte_eq_dec.

(** The value of a byte, and the low byte of an integer. *)
Definition byte_to_Z (b : byte) : Z := Z.of_N (Byte.to_N b).
Definition Z_to_byte (z : Z) : byte :=
  default x00 (Byte.of_N (Z.to_N (z mod 256))).

Lemma byte_to_Z_range b : 0 ≤ byte_to_Z b < 256.
Proof. unfold byte_to_Z. pose proof (Byte.to_N_bounded b). lia. Qed.

Lemma byte_to_Z_of_Z z : byte_to_Z (Z_to_byte z) = z mod 256.
Proof.
  unfold byte_to_Z, Z_to_byte. pose proof (Z.mod_pos_bound z 256 ltac:(lia)).
  destruct (Byte.of_N _) as [b|] eqn:E; simpl.
  - apply Byte.to_of_N in E. rewrite E. lia.
  - apply Byte.of_N_None_iff in E. lia.
Qed.

Lemma byte_to_Z_inj b1 b2 : byte_to_Z b1 = byte_to_Z b2 → b1 = b2.
Proof.
  unfold byte_to_Z. intros H. apply N2Z.inj in H.
  pose proof (Byte.of_to_N b1). pose proof (Byte.of_to_N b2). congruence.
Qed.

Lemma Z_to_byte_to_Z b : Z_to_byte (byte_to_Z b) = b.
Proof.
  apply byte_to_Z_inj. rewrite byte_to_Z_of_Z. apply Z.mod_small, byte_to_Z_range.
Qed.

(** The low [n] bytes of [z], most significant first. *)
Fixpoint be_encode (n : nat) (z : Z) : bytes :=
  match n with
  | O => []
  | S n => Z_to_byte (z / 256 ^ Z.of_nat n) :: be_encode n z
  end.

(** The unsigned integer a byte string spells, most significant first. *)
Definition be_decode (bs : bytes) : Z :=
  foldl (λ v b, v * 256 + byte_to_Z b) 0 bs.

Lemma be_encode_length n z : length (be_encode n z) = n.
Proof. induction n; simpl; auto. Qed.

Lemma pow256_pos n : 0 < 256 ^ Z.of_nat n.
Proof. apply Z.pow_pos_nonneg; lia. Qed.
#[export] Hint Resolve pow256_pos : velo.

Lemma pow256_S n : 256 ^ Z.of_nat (S n) = 256 * 256 ^ Z.of_nat n.
Proof. rewrite Nat2Z.inj_succ, Z.pow_succ_r; lia. Qed.

Lemma be_decode_acc bs v :
  foldl (λ v b, v * 256 + byte_to_Z b) v bs = v * 256 ^ Z.of_nat (length bs) + be_decode bs.
Proof.
  unfold be_decode. revert v. induction bs as [|b bs IH]; intros v.
  - simpl. lia.
  - cbn [foldl length]. rewrite IH, (IH (0 * 256 + _)), pow256_S. lia.
Qed.

Lemma be_decode_cons b bs :
  be_decode (b :: bs) = byte_to_Z b * 256 ^ Z.of_nat (length bs) + be_decode bs.
Proof. unfold be_decode at 1. cbn [foldl]. by rewrite be_decode_acc. Qed.

Lemma be_decode_app bs1 bs2 :
  be_decode (bs1 ++ bs2) = be_decode bs1 * 256 ^ Z.of_nat (length bs2) + be_decode bs2.
Proof. unfold be_decode at 1. rewrite foldl_app. apply be_decode_acc. Qed.

Lemma be_decode_range bs : 0 ≤ be_decode bs < 256 ^ Z.of_nat (length bs).
Proof.
  induction bs as [|b bs IH]; [cbv; split; congruence|].
  rewrite be_decode_cons. cbn [length]. rewrite pow256_S.
  pose proof (byte_to_Z_range b). pose proof (pow256_pos (length bs)). nia.
Qed.

Lemma be_decode_encode n z : be_decode (be_encode n z) = z mod 256 ^ Z.of_nat n.
Proof.
  induction n as [|n IH]; [cbn; by rewrite Z.mod_1_r|].
  cbn [be_encode]. rewrite be_decode_cons, IH, byte_to_Z_of_Z, be_encode_length, pow256_S.
  pose proof (pow256_pos n). rewrite (Z.mul_comm 256), Z.rem_mul_r by lia. lia.
Qed.

Lemma be_decode_encode_small n z :
  0 ≤ z < 256 ^ Z.of_nat n → be_decode (be_encode n z) = z.
Proof. intros. rewrite be_decode_encode. by apply Z.mod_small. Qed.

Lemma be_encode_mod n z : be_encode n (z mod 256 ^ Z.of_nat n) = be_encode n z.
Proof.
  cut (∀ m, (n ≤ m)%nat → be_encode n (z mod 256 ^ Z.of_nat m) = be_encode n z); [eauto|].
  induction n as [|n IH]; intros m Hm; [done|].
  cbn [be_encode]. f_equal; [|apply IH; lia].
  apply byte_to_Z_inj. rewrite !byte_to_Z_of_Z.
  replace (256 ^ Z.of_nat m) with (256 ^ Z.of_nat n * (256 * 256 ^ Z.of_nat (m - S n))).
  2:{ rewrite <- Z.pow_succ_r, <- Z.pow_add_r by lia. f_equal. lia. }
  pose proof (pow256_pos n). pose proof (pow256_pos (m - S n)).
  rewrite Z.rem_mul_r, (Z.add_comm (z mod _)), (Z.mul_comm (256 ^ Z.of_nat n)),
    Z.div_add_l, (Z.div_small (z mod _)) by (try apply Z.mod_pos_bound; lia).
  rewrite Z.add_0_r, Z.rem_mul_r by lia.
  rewrite (Z.mul_comm 256), Z.add_mod, Z.mod_mul, Z.add_0_r, !Z.mod_mod; lia.
Qed.

Lemma be_encode_decode bs : be_encode (length bs) (be_decode bs) = bs.
Proof.
  induction bs as [|b bs IH]; [done|]. cbn [length be_encode].
  rewrite be_decode_cons. f_equal.
  - pose proof (be_decode_range bs). pose proof (pow256_pos (length bs)).
    rewrite Z.div_add_l, Z.div_small, Z.add_0_r by lia. apply Z_to_byte_to_Z.
  - rewrite <- be_encode_mod, (Z.add_comm (_ * _)), Z.mod_add
      by (pose proof (pow256_pos (length bs)); lia).
    by rewrite be_encode_mod.
Qed.

Lemma be_encode_decode_length n bs : length bs = n → be_encode n (be_decode bs) = bs.
Proof. intros <-. apply be_encode_decode. Qed.

(** Two's complement: the signed reading of an unsigned [w]-bit integer. *)
Definition to_signed (w z : Z) : Z := if z <? 2 ^ (w - 1) then z else z - 2 ^ w.

Lemma to_signed_mod w z :
  0 < w → - 2 ^ (w - 1) ≤ z < 2 ^ (w - 1) → to_signed w (z mod 2 ^ w) = z.
Proof.
  intros Hw Hz. unfold to_signed.
  assert (2 ^ w = 2 * 2 ^ (w - 1)) as E by (rewrite <- Z.pow_succ_r by lia; f_equal; lia).
  destruct (Z.ltb_spec (z mod 2 ^ w) (2 ^ (w - 1))); destruct (Z.le_gt_cases 0 z).
  - apply Z.mod_small; lia.
  - assert (z mod 2 ^ w = z + 2 ^ w); [|lia].
    symmetry. apply Z.mod_unique with (-1); lia.
  - rewrite Z.mod_small in *; lia.
  - assert (z mod 2 ^ w = z + 2 ^ w); [|lia].
    symmetry. apply Z.mod_unique with (-1); lia.
Qed.

Lemma to_signed_range w z :
  0 < w → 0 ≤ z < 2 ^ w → - 2 ^ (w - 1) ≤ to_signed w z < 2 ^ (w - 1).
Proof.
  intros Hw Hz. unfold to_signed.
  assert (2 ^ w = 2 * 2 ^ (w - 1)) as E by (rewrite <- Z.pow_succ_r by lia; f_equal; lia).
  destruct (Z.ltb_spec z (2 ^ (w - 1))); lia.
Qed.

Lemma to_signed_unsigned w z : 0 < w → 0 ≤ z < 2 ^ w → to_signed w z mod 2 ^ w = z.
Proof.
  intros Hw Hz. unfold to_signed. destruct (_ <? _).
  - by apply Z.mod_small.
  - symmetry. apply Z.mod_unique with (-1); lia.
Qed.

(** Field widths of the wire formats. *)
Definition u8 (z : Z) : Prop := 0 ≤ z < 2 ^ 8.
Definition u32 (z : Z) : Prop := 0 ≤ z < 2 ^ 32.
Definition u64 (z : Z) : Prop := 0 ≤ z < 2 ^ 64.
Definition i64 (z : Z) : Prop := - 2 ^ 63 ≤ z < 2 ^ 63.

#[export] Instance u8_decision z : Decision (u8 z).
Proof. unfold u8. apply _. Defined.
#[export] Instance u32_decision z : Decision (u32 z).
Proof. unfold u32. apply _. Defined.
#[export] Instance u64_decision z : Decision (u64 z).
Proof. unfold u64. apply _. Defined.
#[export] Instance i64_decision z : Decision (i64 z).
Proof. unfold i64. apply _. Defined.
