(* ===== verification/PyFloat.v ===== *)
(** * Python floats

    A Python [float] is an IEEE 754 binary64 number.  [SpecFloat] of the
    Standard Library gives the arithmetic as an executable specification on
    (sign, mantissa, exponent) triples with round-to-nearest-even; this file
    fixes the format, adds the Python-level operations the program uses
    (conversion from [int], [round], [int / int], exceptions) and proves when
    an operation is exact.  A float [x] that denotes [n * 2^k] is written
    [repr x n k]. *)

From S2P Require Import Prelude.
From Stdlib Require Export QArith Qabs Qpower.
From Stdlib Require Export SpecFloat.

Open Scope Z_scope.

Abbreviation float := spec_float.
Abbreviation prec := 53.
Abbreviation emax := 1024.

#[export] Instance float_eq_dec : EqDecision float.
Proof. solve_decision. Defined.

Definition fadd : float → float → float := SFadd prec emax.
Definition fsub : float → float → float := SFsub prec emax.
Definition fmul : float → float → float := SFmul prec emax.
Definition fsqrt : float → float := SFsqrt prec emax.
Definition fopp : float → float := SFopp.

Definition f_zero : float := S754_zero false.

(** [x / y] on floats: a zero divisor raises, whatever [x] is. *)
Definition fdiv (x y : float) : res float :=
  match y with
  | S754_zero _ => Raise ZeroDivisionError
  | _ => Ok (SFdiv prec emax x y)
  end.

(** Comparisons; every ordering with a NaN is false. *)
Definition fltb (x y : float) : bool := SFltb x y.
Definition fleb (x y : float) : bool := SFleb x y.
Definition feqb (x y : float) : bool := SFeqb x y.
Definition is_nan (x : float) : bool := match x with S754_nan => true | _ => false end.
Definition is_finite (x : float) : bool :=
  match x with S754_zero _ | S754_finite _ _ _ => true | _ => false end.

(** The float nearest to [n * 2^k]. *)
Definition dyadic (n k : Z) : float := binary_normalize prec emax n k false.

(** [float(n)]: correctly rounded, [OverflowError] beyond the largest finite
    float. *)
Definition float_of_int (n : Z) : res float :=
  match dyadic n 0 with
  | S754_infinity _ => Raise OverflowError
  | x => Ok x
  end.

(** Integer division of [a] by [b > 0] rounded to nearest, ties to even. *)
Definition div_rne (a b : Z) : Z :=
  let q := a / b in
  match (2 * (a mod b)) ?= b with
  | Lt => q
  | Gt => q + 1
  | Eq => if Z.even q then q else q + 1
  end.

(** [round(x)] with one argument: the nearest integer, ties to even. *)
Definition py_round (x : float) : res Z :=
  match x with
  | S754_nan => Raise ValueError
  | S754_infinity _ => Raise OverflowError
  | S754_zero _ => Ok 0
  | S754_finite s m e =>
      Ok (if 0 <=? e then cond_Zopp s (Zpos m * 2 ^ e)
          else div_rne (cond_Zopp s (Zpos m)) (2 ^ (- e)))
  end.

(** [a / b] on ints ([long_true_divide]): the correctly rounded quotient. *)
Definition int_truediv (a b : Z) : res float :=
  match b with
  | Z0 => Raise ZeroDivisionError
  | _ =>
      let s := xorb (a <? 0) (b <? 0) in
      match a with
      | Z0 => Ok (S754_zero s)
      | _ =>
          let '(mz, ez, lz) := SFdiv_core_binary prec emax (Z.abs a) 0 (Z.abs b) 0 in
          match binary_round_aux prec emax s mz ez lz with
          | S754_infinity _ => Raise OverflowError
          | x => Ok x
          end
      end
  end.

(** ** Dyadic numbers

    A pair [(n, k)] stands for [n * 2^k].  Two pairs may stand for the same
    number, so the reasoning below is up to [dyeq]. *)

Definition dy : Type := Z * Z.

Definition dyeq (x y : dy) : Prop :=
  x.1 * 2 ^ (x.2 - Z.min x.2 y.2) = y.1 * 2 ^ (y.2 - Z.min x.2 y.2).
Infix "≡d" := dyeq (at level 70, no associativity).

Definition dy_mul (x y : dy) : dy := (x.1 * y.1, x.2 + y.2).
Definition dy_opp (x : dy) : dy := (- x.1, x.2).
Definition dy_add (x y : dy) : dy :=
  let k := Z.min x.2 y.2 in (x.1 * 2 ^ (x.2 - k) + y.1 * 2 ^ (y.2 - k), k).

(** Any common scale decides [dyeq]. *)
Lemma dyeq_base b n k n' k' :
  b ≤ k → b ≤ k' → (n, k) ≡d (n', k') ↔ n * 2 ^ (k - b) = n' * 2 ^ (k' - b).
Proof.
  intros. unfold dyeq. cbn [fst snd]. set (c := Z.min k k').
  replace (k - b) with ((k - c) + (c - b)) by lia.
  replace (k' - b) with ((k' - c) + (c - b)) by lia.
  rewrite !Z.pow_add_r, !Z.mul_assoc by lia.
  pose proof (Z.pow_pos_nonneg 2 (c - b)). nia.
Qed.

Ltac dy_at b := rewrite (dyeq_base b) in * by lia.

#[export] Instance dyeq_equiv : Equivalence dyeq.
Proof.
  split.
  - done.
  - intros [n k] [n' k']. unfold dyeq. cbn. rewrite (Z.min_comm k'). done.
  - intros [n k] [n' k'] [n'' k''] H1 H2.
    set (b := Z.min k (Z.min k' k'')). dy_at b. congruence.
Qed.

Lemma dyeq_scale n k d : 0 ≤ d → (n * 2 ^ d, k) ≡d (n, k + d).
Proof.
  intros. rewrite (dyeq_base k) by lia.
  rewrite Z.sub_diag, Z.mul_1_r. do 2 f_equal. lia.
Qed.

Lemma dyeq_shift n k e : e ≤ k → (n, k) ≡d (n * 2 ^ (k - e), e).
Proof. intros. rewrite dyeq_scale by lia. by replace (e + (k - e)) with k by lia. Qed.

Lemma dyeq_same n n' k : (n, k) ≡d (n', k) ↔ n = n'.
Proof. rewrite (dyeq_base k) by lia. rewrite Z.sub_diag, !Z.mul_1_r. done. Qed.

Lemma dyeq_zero n k k' : (n, k) ≡d (0, k') ↔ n = 0.
Proof.
  unfold dyeq. cbn [fst snd].
  pose proof (Z.pow_pos_nonneg 2 (k - Z.min k k')). split; nia.
Qed.

Lemma dyeq_log2 m e m' e' :
  0 < m → 0 < m' → (m, e) ≡d (m', e') → Z.log2 m + e = Z.log2 m' + e'.
Proof.
  unfold dyeq. cbn [fst snd]. intros Hm Hm' H. apply (f_equal Z.log2) in H.
  rewrite !Z.log2_mul_pow2 in H by lia. lia.
Qed.

#[export] Instance dy_mul_proper : Proper (dyeq ==> dyeq ==> dyeq) dy_mul.
Proof.
  intros [a i] [a' i'] H1 [b j] [b' j'] H2. unfold dy_mul. cbn [fst snd].
  rewrite (dyeq_base (Z.min i i')) in H1 by lia.
  rewrite (dyeq_base (Z.min j j')) in H2 by lia.
  rewrite (dyeq_base (Z.min i i' + Z.min j j')) by lia.
  replace (i + j - _) with ((i - Z.min i i') + (j - Z.min j j')) by lia.
  replace (i' + j' - _) with ((i' - Z.min i i') + (j' - Z.min j j')) by lia.
  rewrite !Z.pow_add_r by lia.
  transitivity ((a * 2 ^ (i - Z.min i i')) * (b * 2 ^ (j - Z.min j j'))); [ring|].
  rewrite H1, H2. ring.
Qed.

#[export] Instance dy_opp_proper : Proper (dyeq ==> dyeq) dy_opp.
Proof. intros [a i] [b j] H. unfold dyeq, dy_opp in *. cbn [fst snd] in *. lia. Qed.

Lemma dy_add_base b x y : b ≤ x.2 → b ≤ y.2 →
  dy_add x y ≡d (x.1 * 2 ^ (x.2 - b) + y.1 * 2 ^ (y.2 - b), b).
Proof.
  destruct x as [n k], y as [n' k']. cbn [fst snd]. intros. unfold dy_add. cbn [fst snd].
  set (c := Z.min k k'). rewrite (dyeq_shift _ c b), dyeq_same by lia.
  replace (k - b) with ((k - c) + (c - b)) by lia.
  replace (k' - b) with ((k' - c) + (c - b)) by lia.
  rewrite !Z.pow_add_r by lia. ring.
Qed.

#[export] Instance dy_add_proper : Proper (dyeq ==> dyeq ==> dyeq) dy_add.
Proof.
  intros [a i] [a' i'] H1 [c j] [c' j'] H2.
  set (b := Z.min (Z.min i i') (Z.min j j')).
  rewrite (dy_add_base b), (dy_add_base b (a', i')) by (cbn; lia). cbn [fst snd].
  dy_at b. congruence.
Qed.

Lemma dy_add_same n n' k : dy_add (n, k) (n', k) ≡d (n + n', k).
Proof.
  rewrite (dy_add_base k) by (cbn; lia). cbn. by rewrite Z.sub_diag, !Z.mul_1_r.
Qed.

(** ** Exactness *)

(** The value of a finite float. *)
Definition fval (x : float) : dy :=
  match x with
  | S754_finite s m e => (cond_Zopp s (Zpos m), e)
  | _ => (0, 0)
  end.

Definition valid (x : float) : bool := valid_binary prec emax x.

(** [repr x n k]: the float [x] is finite, in canonical form, and denotes
    exactly [n * 2^k]. *)
Definition repr (x : float) (n k : Z) : Prop :=
  is_finite x = true ∧ valid x = true ∧ fval x ≡d (n, k).

(** The integers and scales whose dyadic values are floats. *)
Definition exact_range (n k : Z) : Prop := Z.abs n < 2 ^ 53 ∧ -1074 ≤ k ≤ 971.

Lemma digits2_log2 p : Zpos (digits2_pos p) = Z.log2 (Zpos p) + 1.
Proof.
  induction p as [p IH|p IH|]; cbn [digits2_pos]; [| |done].
  - rewrite Pos2Z.inj_succ, IH, Pos2Z.inj_xI, Z.log2_succ_double; lia.
  - rewrite Pos2Z.inj_succ, IH, Pos2Z.inj_xO, Z.log2_double; lia.
Qed.

Lemma Zdigits2_log2 n : 0 < n → Zdigits2 n = Z.log2 n + 1.
Proof. destruct n; intros; [lia| |lia]. apply digits2_log2. Qed.

Lemma fexp_unfold e : fexp prec emax e = Z.max (e - 53) (-1074).
Proof. done. Qed.

Lemma bounded_iff m e :
  bounded prec emax m e = true ↔
  e = Z.max (Z.log2 (Zpos m) + 1 + e - 53) (-1074) ∧ e ≤ 971.
Proof.
  unfold bounded, canonical_mantissa. rewrite digits2_log2, fexp_unfold.
  rewrite andb_true_iff, Z.eqb_eq, Z.leb_le. lia.
Qed.

(** Shifting out zeros loses nothing. *)
Lemma shr_1_double m : shr_1 (Build_shr_record (2 * m) false false) = Build_shr_record m false false.
Proof. by destruct m. Qed.

Lemma iter_pos_add {A} (f : A → A) p q x :
  iter_pos f (p + q) x = iter_pos f p (iter_pos f q x).
Proof.
  assert (∀ p x, iter_pos f p x = Pos.iter f x p) as E.
  { clear. intros p. induction p as [p IH|p IH|]; intros x; cbn [iter_pos]; [| |done].
    - rewrite !IH. cbn. rewrite <- !Pos.iter_swap. done.
    - by rewrite !IH. }
  by rewrite !E, Pos.iter_add.
Qed.

Lemma iter_shr_exact p m :
  iter_pos shr_1 p (Build_shr_record (m * 2 ^ Zpos p) false false)
  = Build_shr_record m false false.
Proof.
  revert m. induction p as [|p IH] using Pos.peano_ind; intros m.
  - rewrite Z.mul_comm. apply shr_1_double.
  - rewrite <- Pos.add_1_r, iter_pos_add. change (iter_pos shr_1 1 ?x) with (shr_1 x).
    rewrite Pos2Z.inj_add, Z.pow_add_r, Z.mul_assoc by lia.
    rewrite (Z.mul_comm _ (2 ^ 1)), shr_1_double. apply IH.
Qed.

Lemma shr_exact m e n :
  0 ≤ n →
  shr (Build_shr_record (m * 2 ^ n) false false) e n = (Build_shr_record m false false, e + n).
Proof.
  intros. destruct n as [|p|p]; [|by cbn; rewrite iter_shr_exact|lia].
  cbn. by rewrite Z.mul_1_r, Z.add_0_r.
Qed.

(** Rounding a value that is a float gives that float. *)
Lemma round_aux_exact s m e m' e' :
  bounded prec emax m e = true →
  e' ≤ e → m' = Zpos m * 2 ^ (e - e') →
  binary_round_aux prec emax s m' e' loc_Exact = S754_finite s m e.
Proof.
  intros [Hcan Hle]%bounded_iff He ->. unfold binary_round_aux, shr_fexp. cbn [shr_record_of_loc].
  rewrite Zdigits2_log2, Z.log2_mul_pow2, fexp_unfold by lia.
  replace (Z.max _ _ - e') with (e - e') by lia.
  rewrite shr_exact by lia. cbn [shr_m loc_of_shr_record round_nearest_even].
  rewrite Zdigits2_log2, fexp_unfold by lia.
  replace (Z.max _ _ - _) with 0 by lia. cbn [shr].
  cbn [shr_m shr_record_of_loc]. replace (e' + (e - e')) with e by lia.
  rewrite (proj2 (Z.leb_le _ _)); [done|]. lia.
Qed.

Lemma shl_align_spec m e e' :
  shl_align m e e' = if e' <? e then (Z.to_pos (Zpos m * 2 ^ (e - e')), e') else (m, e).
Proof.
  unfold shl_align. destruct (Z.ltb_spec e' e).
  - destruct (e' - e) as [|d|d] eqn:E; [lia|lia|]. f_equal.
    replace (e - e') with (Zpos d) by lia.
    clear. induction d as [|d IH] using Pos.peano_ind; [cbn; lia|].
    rewrite Pos.iter_succ, IH, Pos2Z.inj_succ, Z.pow_succ_r by lia.
    pose proof (Z.pow_pos_nonneg 2 (Zpos d)). nia.
  - by destruct (e' - e) eqn:E; [|done|lia].
Qed.

Lemma round_exact s m e m' e' :
  bounded prec emax m e = true →
  (Zpos m', e') ≡d (Zpos m, e) →
  binary_round prec emax s m' e' = S754_finite s m e.
Proof.
  intros Hb Hv. unfold binary_round.
  pose proof (proj1 (bounded_iff _ _) Hb) as [Hcan _].
  pose proof (dyeq_log2 _ _ _ _ (Pos2Z.is_pos _) (Pos2Z.is_pos _) Hv).
  rewrite digits2_log2, fexp_unfold, shl_align_spec.
  replace (Z.max _ _) with e by lia.
  destruct (Z.ltb_spec e e').
  - rewrite (dyeq_shift _ e' e), dyeq_same in Hv by lia. rewrite Hv.
    apply round_aux_exact; [done|lia|]. by rewrite Z.sub_diag, Z.mul_1_r.
  - rewrite (dyeq_shift (Zpos m) e e'), dyeq_same in Hv by lia.
    by apply round_aux_exact.
Qed.

(** ** Canonical representatives *)

(** Every in-range dyadic number has a canonical (mantissa, exponent), and its
    exponent is at most that of any short mantissa. *)
Lemma canon_exists m k :
  exact_range (Zpos m) k →
  ∃ M E, bounded prec emax M E = true ∧ E ≤ k ∧ (Zpos M, E) ≡d (Zpos m, k).
Proof.
  intros [Hm Hk]. assert (Z.log2 (Zpos m) < 53) by (apply Z.log2_lt_pow2; lia).
  set (E := Z.max (Z.log2 (Zpos m) + 1 + k - 53) (-1074)).
  assert (E ≤ k) by (subst E; lia).
  assert (0 < Zpos m * 2 ^ (k - E)) by (pose proof (Z.pow_pos_nonneg 2 (k - E)); nia).
  exists (Z.to_pos (Zpos m * 2 ^ (k - E))), E. split_and!; [|done|].
  - rewrite bounded_iff, Z2Pos.id, Z.log2_mul_pow2 by lia. lia.
  - rewrite Z2Pos.id by lia. symmetry. by apply dyeq_shift.
Qed.

Lemma repr_finite s M E m k :
  bounded prec emax M E = true → (Zpos M, E) ≡d (Zpos m, k) →
  repr (S754_finite s M E) (cond_Zopp s (Zpos m)) k.
Proof.
  intros Hb Hv. split_and!; [done..|]. destruct s; [|done].
  by apply (dy_opp_proper (_, _) (_, _)).
Qed.

Lemma round_repr s m k m' k' :
  exact_range (Zpos m) k → (Zpos m', k') ≡d (Zpos m, k) →
  repr (binary_round prec emax s m' k') (cond_Zopp s (Zpos m)) k.
Proof.
  intros (M & E & Hb & HE & Hv)%canon_exists Hm.
  rewrite (round_exact s M E); [by apply repr_finite|done|].
  by rewrite Hm.
Qed.

(** Normalising an in-range number is exact, at whatever scale it is given. *)
Lemma normalize_repr n k n' k' z :
  exact_range n k → (n', k') ≡d (n, k) → repr (binary_normalize prec emax n' k' z) n k.
Proof.
  intros Hr Hv. pose proof (dyeq_log2 n' k' n k) as Hlog. destruct n' as [|p|p].
  - symmetry in Hv. apply dyeq_zero in Hv as ->. split_and!; [done..|]. by apply dyeq_zero.
  - destruct n as [|q|q].
    + by apply dyeq_zero in Hv.
    + by apply (round_repr false).
    + exfalso. unfold dyeq in Hv. cbn [fst snd] in Hv.
      pose proof (Z.pow_pos_nonneg 2 (k - Z.min k' k)).
      pose proof (Z.pow_pos_nonneg 2 (k' - Z.min k' k)). nia.
  - destruct n as [|q|q].
    + by apply dyeq_zero in Hv.
    + exfalso. unfold dyeq in Hv. cbn [fst snd] in Hv.
      pose proof (Z.pow_pos_nonneg 2 (k - Z.min k' k)).
      pose proof (Z.pow_pos_nonneg 2 (k' - Z.min k' k)). nia.
    + apply (round_repr true); [done|]. by apply (dy_opp_proper (_, _) (_, _)) in Hv.
Qed.

Lemma dyadic_repr n k : exact_range n k → repr (dyadic n k) n k.
Proof. intros. by apply normalize_repr. Qed.

(** Two floats denoting the same non-zero number are equal. *)
Lemma repr_unique x y n k : n ≠ 0 → repr x n k → repr y n k → x = y.
Proof.
  intros Hn (Hfx & Hvx & Hx) (Hfy & Hvy & Hy).
  destruct x as [| | |s m e]; try done.
  { symmetry in Hx. by apply dyeq_zero in Hx. }
  destruct y as [| | |s' m' e']; try done.
  { symmetry in Hy. by apply dyeq_zero in Hy. }
  assert (fval (S754_finite s m e) ≡d fval (S754_finite s' m' e')) as H by (by rewrite Hx, Hy).
  cbn [fval] in H. cbn [valid valid_binary] in *.
  assert (s = s') as <-.
  { unfold dyeq in H. cbn [fst snd] in H.
    pose proof (Z.pow_pos_nonneg 2 (e - Z.min e e')).
    pose proof (Z.pow_pos_nonneg 2 (e' - Z.min e e')).
    destruct s, s'; cbn [cond_Zopp] in H; done || nia. }
  assert ((Zpos m, e) ≡d (Zpos m', e')) as Hm.
  { destruct s; [|done]. by apply (dy_opp_proper (_, _) (_, _)) in H. }
  pose proof (round_exact s m' e' m e Hvy Hm) as E1.
  pose proof (round_exact s m e m e Hvx ltac:(done)) as E2. congruence.
Qed.

Lemma repr_zero s n k : repr (S754_zero s) n k ↔ n = 0.
Proof.
  split.
  - intros (_ & _ & H). symmetry in H. by apply dyeq_zero in H.
  - intros ->. split_and!; [done..|]. by apply dyeq_zero.
Qed.

Lemma dyeq_zero_l n k k' : (0, k') ≡d (n, k) → n = 0.
Proof. intros H. symmetry in H. by apply dyeq_zero in H. Qed.

Lemma repr_dyeq x n k n' k' : (n, k) ≡d (n', k') → repr x n k → repr x n' k'.
Proof. intros E (? & ? & H). split_and!; [done..|]. by rewrite H. Qed.

Lemma repr_eq_dyadic x n k : n ≠ 0 → exact_range n k → repr x n k → x = dyadic n k.
Proof. intros. eapply repr_unique; eauto using dyadic_repr. Qed.

(** ** Exact operations *)

Lemma shl_align_le m e e' : e' ≤ e → Zpos (fst (shl_align m e e')) = Zpos m * 2 ^ (e - e').
Proof.
  intros. rewrite shl_align_spec. destruct (Z.ltb_spec e' e); cbn [fst].
  - pose proof (Z.pow_pos_nonneg 2 (e - e')). rewrite Z2Pos.id; nia.
  - replace (e - e') with 0 by lia. lia.
Qed.

Lemma cond_Zopp_scale s z c : cond_Zopp s (z * c) = cond_Zopp s z * c.
Proof. destruct s; cbn; lia. Qed.

Lemma dy_add_0_l x : dy_add (0, 0) x ≡d x.
Proof.
  destruct x as [n k]. rewrite (dy_add_base (Z.min 0 k)) by (cbn; lia). cbn [fst snd].
  rewrite Z.mul_0_l, Z.add_0_l. symmetry. apply dyeq_shift. lia.
Qed.

Lemma dy_add_comm x y : dy_add x y ≡d dy_add y x.
Proof.
  unfold dy_add. rewrite (Z.min_comm y.2). apply dyeq_same. lia.
Qed.

(** Addition and subtraction are exact when the result is in range. *)
Lemma fadd_repr x y a i b j n k :
  repr x a i → repr y b j → dy_add (a, i) (b, j) ≡d (n, k) → exact_range n k →
  repr (fadd x y) n k.
Proof.
  intros (Fx & Vx & Hx) (Fy & Vy & Hy) Hn Hr. rewrite <- Hx, <- Hy in Hn. clear Hx Hy.
  destruct x as [sx| | |sx mx ex], y as [sy| | |sy my ey]; try done;
    cbn [fadd SFadd fval] in *.
  - rewrite dy_add_0_l in Hn. by destruct sx, sy.
  - rewrite dy_add_0_l in Hn. by split_and!.
  - rewrite dy_add_comm, dy_add_0_l in Hn. by split_and!.
  - apply normalize_repr; [done|]. rewrite <- Hn.
    rewrite (dy_add_base (Z.min ex ey)) by (cbn; lia). cbn [fst snd].
    rewrite !shl_align_le, !cond_Zopp_scale by lia. done.
Qed.

Lemma repr_opp x n k : repr x n k → repr (fopp x) (- n) k.
Proof.
  intros (F & V & H). apply dy_opp_proper in H.
  destruct x as [s| | |s m e]; try done. split_and!; [done..|].
  rewrite <- H. cbn. by destruct s.
Qed.

Lemma fsub_fadd x y : fsub x y = fadd x (fopp y).
Proof.
  destruct x as [[]|[]| |sx mx ex], y as [[]|[]| |sy my ey]; try done.
  all: cbn [fsub fadd fopp SFsub SFadd SFopp]; f_equal; destruct sy; cbn; lia.
Qed.

Lemma fsub_repr x y a i b j n k :
  repr x a i → repr y b j → dy_add (a, i) (- b, j) ≡d (n, k) → exact_range n k →
  repr (fsub x y) n k.
Proof. intros. rewrite fsub_fadd. eapply fadd_repr; eauto using repr_opp. Qed.

Lemma valid_exp s m e : valid (S754_finite s m e) = true → -1074 ≤ e ∧ (e = -1074 ∨ Z.log2 (Zpos m) = 52).
Proof. intros [H _]%bounded_iff. lia. Qed.

Lemma bounded_exp_ge M E m e :
  bounded prec emax M E = true → (Zpos m, e) ≡d (Zpos M, E) →
  52 ≤ Z.log2 (Zpos m) ∨ e ≤ -1074 → e ≤ E.
Proof.
  intros [H _]%bounded_iff Hv.
  apply dyeq_log2 in Hv; [lia|done..].
Qed.

(** The sign and magnitude of a non-zero dyadic number. *)
Lemma dyeq_sign s p e n k :
  (cond_Zopp s (Zpos p), e) ≡d (n, k) →
  ∃ q, n = cond_Zopp s (Zpos q) ∧ (Zpos p, e) ≡d (Zpos q, k).
Proof.
  intros H. destruct n as [|q|q].
  - apply dyeq_zero in H. by destruct s.
  - destruct s; [|by exists q].
    unfold dyeq in H. cbn [fst snd cond_Zopp Z.opp] in H.
    pose proof (Z.pow_pos_nonneg 2 (k - Z.min e k)).
    pose proof (Z.pow_pos_nonneg 2 (e - Z.min e k)). nia.
  - destruct s; [exists q; split; [done|]; by apply dy_opp_proper in H|].
    unfold dyeq in H. cbn [fst snd cond_Zopp Z.opp] in H.
    pose proof (Z.pow_pos_nonneg 2 (k - Z.min e k)).
    pose proof (Z.pow_pos_nonneg 2 (e - Z.min e k)). nia.
Qed.

Lemma exact_range_opp s q k : exact_range (cond_Zopp s (Zpos q)) k → exact_range (Zpos q) k.
Proof. by destruct s. Qed.

Lemma round_aux_repr s p e n k :
  (cond_Zopp s (Zpos p), e) ≡d (n, k) → exact_range n k →
  52 ≤ Z.log2 (Zpos p) ∨ e ≤ -1074 →
  repr (binary_round_aux prec emax s (Zpos p) e loc_Exact) n k.
Proof.
  intros (q & -> & Hq)%dyeq_sign Hr Hp.
  apply exact_range_opp, canon_exists in Hr as (M & E & Hb & HE & HM).
  assert ((Zpos p, e) ≡d (Zpos M, E)) as HpM by (by rewrite Hq, HM).
  pose proof (bounded_exp_ge _ _ _ _ Hb HpM Hp) as He.
  rewrite (round_aux_exact s M E); [by apply repr_finite|done..|].
  rewrite (dyeq_shift (Zpos M) E e), dyeq_same in HpM by lia. done.
Qed.

(** Multiplication is exact when the product is in range. *)
Lemma fmul_repr x y a i b j n k :
  repr x a i → repr y b j → (a * b, i + j) ≡d (n, k) → exact_range n k →
  repr (fmul x y) n k.
Proof.
  intros (Fx & Vx & Hx) (Fy & Vy & Hy) Hn Hr.
  change (dy_mul (a, i) (b, j) ≡d (n, k)) in Hn. rewrite <- Hx, <- Hy in Hn. clear Hx Hy.
  destruct x as [sx| | |sx mx ex], y as [sy| | |sy my ey]; try done;
    unfold dy_mul in Hn; cbn [fmul SFmul fval fst snd] in *.
  1-2: rewrite ?Z.mul_0_r in Hn; apply dyeq_zero_l in Hn as ->; by apply repr_zero.
  apply valid_exp in Vx as [Ex Vx], Vy as [Ey Vy]. apply round_aux_repr; [|done|].
  + rewrite <- Hn. apply dyeq_same. by destruct sx, sy.
  + rewrite Pos2Z.inj_mul. destruct Vx as [->|Vx]; [destruct Vy as [->|Vy]; [lia|]|].
    all: left; pose proof (Z.log2_mul_below (Zpos mx) (Zpos my));
      pose proof (Z.log2_nonneg (Zpos mx)); pose proof (Z.log2_nonneg (Zpos my)); lia.
Qed.

Lemma div_eucl_exact q b : b ≠ 0 → Z.div_eucl (q * b) b = (q, 0).
Proof.
  intros Hb. pose proof (Z.div_mul q b Hb) as Hd. pose proof (Z.mod_mul q b Hb) as Hm.
  unfold Z.div, Z.modulo in *. destruct (Z.div_eucl _ _). congruence.
Qed.

(** Division is exact when the quotient is in range. *)
Lemma fdiv_repr x y a i b j n k :
  repr x a i → repr y b j → b ≠ 0 → (n * b, k + j) ≡d (a, i) → exact_range n k →
  ∃ z, fdiv x y = Ok z ∧ repr z n k.
Proof.
  intros (Fx & Vx & Hx) (Fy & Vy & Hy) Hb Hn Hr.
  destruct y as [| | |sy my ey]; try done.
  { by apply dyeq_zero_l in Hy as ->. }
  eexists; split; [reflexivity|].
  change (dy_mul (n, k) (b, j) ≡d (a, i)) in Hn. rewrite <- Hx, <- Hy in Hn. clear Hx Hy.
  unfold dy_mul in Hn; destruct x as [sx| | |sx mx ex]; try done; cbn [fval fst snd SFdiv] in *.
  { apply repr_zero. apply dyeq_zero in Hn. destruct sy; cbn in Hn; lia. }
  symmetry in Hn. apply dyeq_sign in Hn as (q & Hq & Hv).
  assert (n = cond_Zopp (xorb sx sy) (Z.abs n) ∧ Z.pos q = Z.abs n * Z.pos my ∧ 0 < Z.abs n) as (Hs & Hq' & Hpos).
  { destruct sx, sy, n; cbn in *; lia. }
  destruct (Z.abs n) as [|p|p] eqn:Hp; try lia. clear Hpos.
  rewrite Hq', <- Pos2Z.inj_mul in Hv. rewrite Hs in Hr |- *. clear q Hq Hq' Hs.
  apply exact_range_opp, canon_exists in Hr as (M & E & HbM & HE & HM).
  assert ((Zpos mx, ex) ≡d (Zpos M * Zpos my, E + ey)) as HxM.
  { rewrite Hv. rewrite Pos2Z.inj_mul.
    by rewrite (dy_mul_proper _ _ (symmetry HM) (Zpos my, ey) (Zpos my, ey) ltac:(done)). }
  pose proof (proj1 (bounded_iff _ _) HbM) as [HE' _].
  apply valid_exp in Vx as [Ex Vx], Vy as [Ey Vy].
  assert (0 < Zpos M * Zpos my) by lia.
  pose proof (dyeq_log2 (Zpos mx) _ _ _ ltac:(done) ltac:(eassumption) HxM) as Hlog.
  pose proof (Z.log2_mul_below (Zpos M) (Zpos my)).
  pose proof (Z.log2_mul_above (Zpos M) (Zpos my)).
  unfold SFdiv_core_binary. rewrite !Zdigits2_log2, fexp_unfold by lia.
  set (e' := Z.min _ _). assert (e' ≤ E) by lia. assert (e' ≤ ex - ey) by lia.
  set (s := ex - ey - e').
  replace (match s with 0 => _ | Zpos _ => _ | Zneg _ => _ end) with (Zpos mx * 2 ^ s).
  2:{ rewrite <- Z.shiftl_mul_pow2 by lia. destruct s eqn:Es; [done..|lia]. }
  replace (Zpos mx * 2 ^ s) with (Zpos M * 2 ^ (E - e') * Zpos my).
  2:{ rewrite (dyeq_base (e' + ey)) in HxM by lia.
      replace (ex - (e' + ey)) with s in HxM by lia.
      replace (E + ey - (e' + ey)) with (E - e') in HxM by lia. rewrite HxM. ring. }
  rewrite div_eucl_exact by done.
  replace (new_location (Zpos my) 0) with loc_Exact
    by (unfold new_location, new_location_even, new_location_odd; by destruct (Z.even _)).
  rewrite (round_aux_exact _ M E _ e') by done. apply repr_finite; [done|]. by rewrite HM.
Qed.

(** ** Conversions *)

Lemma repr_not_inf x n k : repr x n k → match x with S754_infinity _ => False | _ => True end.
Proof. intros (F & _). by destruct x. Qed.

(** Integers below [2^53] convert exactly. *)
Lemma float_of_int_repr n : Z.abs n < 2 ^ 53 → ∃ x, float_of_int n = Ok x ∧ repr x n 0.
Proof.
  intros Hn. assert (repr (dyadic n 0) n 0) as H by (apply dyadic_repr; split; lia).
  exists (dyadic n 0). split; [|done]. unfold float_of_int.
  apply repr_not_inf in H. by destruct (dyadic n 0).
Qed.

Lemma div_rne_exact n b : 0 < b → div_rne (n * b) b = n.
Proof.
  intros. unfold div_rne. rewrite Z.div_mul, Z.mod_mul, Z.mul_0_r by lia.
  by destruct (Z.compare_spec 0 b); try lia.
Qed.

Lemma py_round_repr x n : repr x n 0 → py_round x = Ok n.
Proof.
  intros (F & V & H). destruct x as [s| | |s m e]; try done.
  - by apply dyeq_zero_l in H as ->.
  - cbn [py_round fval] in *. f_equal. destruct (Z.leb_spec 0 e).
    + rewrite (dyeq_base 0) in H by lia. rewrite !Z.sub_0_r, Z.mul_1_r in H.
      by rewrite cond_Zopp_scale.
    + rewrite (dyeq_base e) in H by lia. rewrite Z.sub_diag, Z.mul_1_r in H. rewrite H.
      replace (0 - e) with (- e) by lia. apply div_rne_exact.
      apply Z.pow_pos_nonneg; lia.
Qed.

(** [div_rne] is a nearest integer. *)
Lemma div_rne_nearest a b : 0 < b → Z.abs (2 * (div_rne a b * b - a)) ≤ b.
Proof.
  intros Hb. unfold div_rne. pose proof (Z.mod_pos_bound a b Hb).
  pose proof (Z.div_mod a b ltac:(lia)).
  destruct (Z.compare_spec (2 * (a mod b)) b); [destruct (Z.even _)|..]; nia.
Qed.

(** A tie goes to the even neighbour. *)
Lemma div_rne_tie a b : 0 < b → 2 * (a mod b) = b → Z.even (div_rne a b) = true.
Proof.
  intros Hb E. unfold div_rne. rewrite E, Z.compare_refl.
  destruct (Z.even (a / b)) eqn:Ev; [done|].
  rewrite Z.even_add, Ev. done.
Qed.

(** ** Values as rationals *)

(** The rational [n * 2^k]. *)
Definition dyQ (x : dy) : Q := inject_Z x.1 * Qpower 2 x.2.

Lemma Qpower2_pos k : (0 < Qpower 2 k)%Q.
Proof. by apply Qpower_0_lt. Qed.

Lemma Qpower2_nonneg k : 0 ≤ k → (Qpower 2 k == inject_Z (2 ^ k))%Q.
Proof. intros. symmetry. by apply (Zpower_Qpower 2 k). Qed.

Lemma dyQ_shift n k d : 0 ≤ d → (dyQ (n * 2 ^ d, k)%Z == dyQ (n, k + d)%Z)%Q.
Proof.
  intros. unfold dyQ. cbn [fst snd].
  rewrite Qpower_plus by done. rewrite (Qpower2_nonneg d), inject_Z_mult by done. ring.
Qed.

#[export] Instance dyQ_proper : Proper (dyeq ==> Qeq) dyQ.
Proof.
  intros [n k] [n' k'] H. rewrite (dyeq_base (Z.min k k')) in H by lia.
  transitivity (dyQ (n * 2 ^ (k - Z.min k k'), Z.min k k')).
  - rewrite dyQ_shift by lia. by replace (Z.min k k' + _) with k by lia.
  - rewrite H, dyQ_shift by lia. by replace (Z.min k k' + _) with k' by lia.
Qed.

(** The value of a finite float. *)
Definition fQval (x : float) : Q := dyQ (fval x).

Lemma repr_fQval x n k : repr x n k → (fQval x == dyQ (n, k))%Q.
Proof. intros (_ & _ & H). unfold fQval. by rewrite H. Qed.

Lemma inject_Z_pos n : 0 < n → (0 < inject_Z n)%Q.
Proof. intros. change 0%Q with (inject_Z 0). by rewrite <- Zlt_Qlt. Qed.

(** [round] returns a nearest integer. *)
Lemma py_round_nearest x :
  is_finite x = true → ∃ t, py_round x = Ok t ∧ (Qabs (inject_Z t - fQval x) <= 1 # 2)%Q.
Proof.
  destruct x as [s| | |s m e]; try done; intros _; (eexists; split; [reflexivity|]).
  - unfold fQval, dyQ. cbn. done.
  - unfold fQval, dyQ. cbn [fval fst snd]. destruct (Z.leb_spec 0 e).
    + rewrite Qpower2_nonneg, <- inject_Z_mult, cond_Zopp_scale by done.
      unfold Qminus. rewrite Qplus_opp_r. done.
    + set (c := cond_Zopp s (Zpos m)). set (d := 2 ^ (- e)).
      assert (0 < d) by (apply Z.pow_pos_nonneg; lia).
      pose proof (div_rne_nearest c d ltac:(done)) as Hn.
      assert (Qpower 2 e * inject_Z d == 1)%Q as Hd.
      { subst d. rewrite <- Qpower2_nonneg, <- Qpower_plus by (lia || done).
        by replace (e + - e) with 0 by lia. }
      apply (Qmult_lt_0_le_reg_r _ _ (inject_Z (2 * d))); [apply inject_Z_pos; lia|].
      rewrite <- (Qabs_pos (inject_Z (2 * d))) at 1 by (apply Qlt_le_weak, inject_Z_pos; lia).
      rewrite <- Qabs_Qmult.
      assert ((inject_Z (div_rne c d) - inject_Z c * Qpower 2 e) * inject_Z (2 * d)
        == inject_Z (2 * (div_rne c d * d - c)))%Q as ->.
      { unfold Z.sub. rewrite !inject_Z_mult, inject_Z_plus, inject_Z_mult, inject_Z_opp.
        transitivity (inject_Z 2 * (inject_Z (div_rne c d) * inject_Z d
          - inject_Z c * (Qpower 2 e * inject_Z d)))%Q; [ring|]. rewrite Hd. ring. }
      assert ((1 # 2) * inject_Z (2 * d) == inject_Z d)%Q as ->.
      { rewrite inject_Z_mult. change (inject_Z 2) with (2 # 1). ring. }
      change (inject_Z (Z.abs (2 * (div_rne c d * d - c))) <= inject_Z d)%Q.
      by rewrite <- Zle_Qle.
Qed.

(** ** Integer-valued floats *)

(** The integers whose arithmetic on floats is exact. *)
Definition small (n : Z) : Prop := Z.abs n < 2 ^ 53.

Section IntFloats.
Context (x y : float) (a b : Z) (Hx : repr x a 0) (Hy : repr y b 0).

Lemma fadd_int : small (a + b) → repr (fadd x y) (a + b) 0.
Proof.
  intros. apply (fadd_repr x y a 0 b 0); [done|done|apply dy_add_same|by split; [|lia]].
Qed.

Lemma fsub_int : small (a - b) → repr (fsub x y) (a - b) 0.
Proof.
  intros. apply (fsub_repr x y a 0 b 0); [done|done|apply dy_add_same|by split; [|lia]].
Qed.

Lemma fmul_int : small (a * b) → repr (fmul x y) (a * b) 0.
Proof.
  intros. apply (fmul_repr x y a 0 b 0); [done|done|by apply dyeq_same|by split; [|lia]].
Qed.

(** Division of a multiple. *)
Lemma fdiv_int q : b ≠ 0 → a = q * b → small q → ∃ z, fdiv x y = Ok z ∧ repr z q 0.
Proof.
  intros Hb -> Hq. apply (fdiv_repr x y (q * b) 0 b 0); [done|done|done|by apply dyeq_same|by split; [|lia]].
Qed.
End IntFloats.
