(* ===== verification/FloatBounds.v ===== *)
(** * Bounds of rounded float operations

    [PyFloat] says when an operation is exact.  Where it is not, rounding is
    still monotone: a result whose exact value is at most a float stays at
    most that float.  This file proves it for the addition, product and
    quotient, which bounds a running average of prices by the prices. *)

From S2P Require Import Prelude PyFloat.

Open Scope Z_scope.

(** ** Order on dyadic numbers *)

Definition dyle (x y : dy) : Prop :=
  x.1 * 2 ^ (x.2 - Z.min x.2 y.2) ≤ y.1 * 2 ^ (y.2 - Z.min x.2 y.2).
Infix "≤d" := dyle (at level 70, no associativity).

(** Any common scale decides [dyle]. *)
Lemma dyle_base c n k n' k' :
  c ≤ k → c ≤ k' → (n, k) ≤d (n', k') ↔ n * 2 ^ (k - c) ≤ n' * 2 ^ (k' - c).
Proof.
  intros. unfold dyle. cbn [fst snd]. set (d := Z.min k k').
  replace (k - c) with ((k - d) + (d - c)) by lia.
  replace (k' - c) with ((k' - d) + (d - c)) by lia.
  rewrite !Z.pow_add_r, !Z.mul_assoc by lia.
  pose proof (Z.pow_pos_nonneg 2 (d - c)). split; nia.
Qed.

(** Read a comparison at a scale at most both exponents. *)
Ltac at_scale c H := rewrite (dyle_base c) in H by lia.

Lemma dyle_same n n' k : (n, k) ≤d (n', k) ↔ n ≤ n'.
Proof. rewrite (dyle_base k) by lia. by rewrite Z.sub_diag, !Z.mul_1_r. Qed.

#[export] Instance dyle_proper : Proper (dyeq ==> dyeq ==> iff) dyle.
Proof.
  intros [n k] [n' k'] H [m j] [m' j'] H'.
  set (c := Z.min (Z.min k k') (Z.min j j')).
  rewrite !(dyle_base c) by lia. rewrite (dyeq_base c) in H, H' by lia. by rewrite H, H'.
Qed.

Lemma dyle_log2 n k n' k' : 0 < n → 0 < n' → (n, k) ≤d (n', k') → Z.log2 n + k ≤ Z.log2 n' + k'.
Proof.
  intros Hn Hn' H. set (c := Z.min k k'). at_scale c H.
  apply Z.log2_le_mono in H. rewrite !Z.log2_mul_pow2 in H by lia. lia.
Qed.

Lemma dyle_mul n k n' k' m j m' j' :
  0 ≤ n → 0 ≤ m → (n, k) ≤d (n', k') → (m, j) ≤d (m', j') → (n * m, k + j) ≤d (n' * m', k' + j').
Proof.
  intros Hn Hm H H'. set (c := Z.min k k'). set (d := Z.min j j').
  at_scale c H. at_scale d H'. rewrite (dyle_base (c + d)) by lia.
  replace (k + j - (c + d)) with ((k - c) + (j - d)) by lia.
  replace (k' + j' - (c + d)) with ((k' - c) + (j' - d)) by lia.
  rewrite !Z.pow_add_r by lia.
  pose proof (Z.pow_pos_nonneg 2 (k - c)). pose proof (Z.pow_pos_nonneg 2 (j - d)).
  replace (n * m * _) with ((n * 2 ^ (k - c)) * (m * 2 ^ (j - d))) by ring.
  replace (n' * m' * _) with ((n' * 2 ^ (k' - c)) * (m' * 2 ^ (j' - d))) by ring.
  apply Z.mul_le_mono_nonneg; nia.
Qed.

(** ** What rounding does *)

Lemma shr_1_half m r s : 0 ≤ m → shr_m (shr_1 (Build_shr_record m r s)) = m / 2.
Proof.
  intros. rewrite <- Z.div2_div. by destruct m as [|[p|p|]|p].
Qed.

Lemma iter_shr_div p rec : 0 ≤ shr_m rec → shr_m (iter_pos shr_1 p rec) = shr_m rec / 2 ^ Zpos p.
Proof.
  revert rec. induction p as [|p IH] using Pos.peano_ind; intros [m r s] Hm.
  - change (iter_pos shr_1 1 ?x) with (shr_1 x). by rewrite shr_1_half.
  - rewrite <- Pos.add_1_r, iter_pos_add. change (iter_pos shr_1 1 ?x) with (shr_1 x).
    cbn [shr_m] in *. pose proof (shr_1_half m r s Hm) as E.
    rewrite IH by (rewrite E; apply Z.div_pos; lia). rewrite E, Z.div_div, Pos2Z.inj_add by lia.
    f_equal. rewrite Z.add_comm, Z.pow_add_r by lia. done.
Qed.

Lemma shr_div rec e n : 0 ≤ n → 0 ≤ shr_m rec →
  shr_m (fst (shr rec e n)) = shr_m rec / 2 ^ n ∧ snd (shr rec e n) = e + n.
Proof.
  intros Hn Hm. destruct n as [|p|p]; [|cbn; by rewrite iter_shr_div|lia].
  cbn. by rewrite Z.div_1_r, Z.add_0_r.
Qed.

Lemma shr_m_loc m l : shr_m (shr_record_of_loc m l) = m.
Proof. by destruct l as [|[]]. Qed.

Lemma shr_nonpos rec e n : n ≤ 0 → shr rec e n = (rec, e).
Proof. by destruct n. Qed.

(** The last steps of rounding: the rounded mantissa [m] at exponent [e]. *)
Definition finish (s : bool) (m e : Z) : float :=
  let '(m, e) := if m =? 2 ^ 53 then (2 ^ 52, e + 1) else (m, e) in
  match m with
  | Z0 => S754_zero s
  | Zpos p => if e <=? 971 then S754_finite s p e else S754_infinity s
  | Zneg _ => S754_nan
  end.

Lemma round_aux_finish s m e l :
  0 ≤ m → let E := fexp prec emax (Zdigits2 m + e) in e ≤ E → let q := m / 2 ^ (E - e) in
  ∃ m1, q ≤ m1 ≤ q + 1 ∧ (l = loc_Exact → m = q * 2 ^ (E - e) → m1 = q) ∧ m1 ≤ 2 ^ 53 ∧
    (E = -1074 ∨ 2 ^ 52 ≤ m1) ∧ binary_round_aux prec emax s m e l = finish s m1 E.
Proof.
  intros Hm E. pose proof (fexp_unfold (Zdigits2 m + e)) as HEe. fold E in HEe. clearbody E. intros HE q.
  assert (0 ≤ q) by (apply Z.div_pos; [lia|apply Z.pow_pos_nonneg; lia]).
  assert (q < 2 ^ 53 ∧ (E = -1074 ∨ 2 ^ 52 ≤ q)) as [Hq HEq].
  { destruct (decide (m = 0)) as [->|Hne].
    { subst q. rewrite Z.div_0_l by (apply Z.pow_nonzero; lia). cbn in *. lia. }
    rewrite Zdigits2_log2 in * by lia. destruct (Z.log2_spec m ltac:(lia)) as [Hlo Hhi].
    split.
    - apply Z.div_lt_upper_bound; [apply Z.pow_pos_nonneg; lia|]. rewrite <- Z.pow_add_r by lia.
      eapply Z.lt_le_trans; [exact Hhi|]. apply Z.pow_le_mono_r; lia.
    - destruct (decide (E = -1074)); [by left|right].
      apply Z.div_le_lower_bound; [apply Z.pow_pos_nonneg; lia|].
      rewrite <- Z.pow_add_r by lia. by replace (E - e + 52) with (Z.log2 m) by lia. }
  unfold binary_round_aux, shr_fexp. rewrite fexp_unfold, <- HEe.
  destruct (shr_div (shr_record_of_loc m l) e (E - e)) as [H1 H2]; [lia|by rewrite shr_m_loc|].
  assert (l = loc_Exact → m = q * 2 ^ (E - e) →
    loc_of_shr_record (fst (shr (shr_record_of_loc m l) e (E - e))) = loc_Exact) as Hex.
  { intros -> Hmq. cbn [shr_record_of_loc]. rewrite Hmq at 1. by rewrite shr_exact by lia. }
  destruct (shr (shr_record_of_loc m l) e (E - e)) as [rec e1]. cbn [fst snd] in H1, H2, Hex.
  rewrite shr_m_loc in H1. fold q in H1. replace (e + (E - e)) with E in H2 by lia. subst e1.
  rewrite H1. set (m1 := round_nearest_even q (loc_of_shr_record rec)).
  assert (q ≤ m1 ≤ q + 1) as Hm1.
  { subst m1. unfold round_nearest_even. destruct (loc_of_shr_record rec) as [|[]]; try lia. destruct (Z.even q); lia. }
  exists m1. split; [done|]. split; [intros; unfold m1; by rewrite Hex|]. split; [lia|]. split; [lia|].
  cbn [shr_record_of_loc]. rewrite fexp_unfold. unfold finish.
  destruct (Z.eqb_spec m1 (2 ^ 53)) as [H53|Hn53].
  - rewrite H53. rewrite Zdigits2_log2 by lia. rewrite Z.log2_pow2 by lia.
    replace (Z.max (53 + 1 + E - 53) (-1074) - E) with 1 by lia. done.
  - rewrite shr_nonpos; [done|]. destruct (decide (m1 = 0)) as [->|Hne0]; [cbn; lia|].
    rewrite Zdigits2_log2 by lia. assert (Z.log2 m1 < 53); [apply Z.log2_lt_pow2; lia|lia].
Qed.

(** ** Bounded floats *)

(** [bounded_by x b j]: the float [x] is finite, in canonical form, and at most
    [b * 2^j] in absolute value. *)
Definition magnitude (x : float) : dy :=
  match x with S754_finite _ m e => (Zpos m, e) | _ => (0, 0) end.
Definition bounded_by (x : float) (b j : Z) : Prop :=
  is_finite x = true ∧ valid x = true ∧ magnitude x ≤d (b, j).

Lemma bounded_dyeq x b j b' j' : (b, j) ≡d (b', j') → bounded_by x b j → bounded_by x b' j'.
Proof. intros E (F & V & H). split; [done|]. split; [done|]. by rewrite <- E. Qed.

Lemma magnitude_zero b j : 0 ≤ b → (0, 0) ≤d (b, j).
Proof.
  intros. rewrite (dyle_base (Z.min 0 j)) by lia. pose proof (Z.pow_pos_nonneg 2 (j - Z.min 0 j)). nia.
Qed.

Lemma zero_bounded s b j : 0 ≤ b → bounded_by (S754_zero s) b j.
Proof. intros. split; [done|]. split; [done|]. by apply magnitude_zero. Qed.

Lemma repr_bounded x n j b : repr x n j → Z.abs n ≤ b → bounded_by x b j.
Proof.
  intros (F & V & H) Hb. split; [done|]. split; [done|].
  destruct x as [s| | |s m e]; try done; [apply magnitude_zero; lia|].
  cbn [magnitude fval] in *. apply dyeq_sign in H as (q & -> & H). rewrite H, dyle_same.
  by destruct s.
Qed.

Lemma bounded_opp x b j : bounded_by x b j → bounded_by (fopp x) b j.
Proof. intros (F & V & H). by destruct x. Qed.

Lemma finish_bounded s m e b j :
  0 ≤ m ≤ 2 ^ 53 → -1074 ≤ e → e = -1074 ∨ 2 ^ 52 ≤ m → e ≤ j ≤ 971 → b < 2 ^ 53 →
  m ≤ b * 2 ^ (j - e) → bounded_by (finish s m e) b j.
Proof.
  intros Hm He Hc Hj Hb Hle.
  assert (0 ≤ b) by (pose proof (Z.pow_pos_nonneg 2 (j - e)); nia).
  unfold finish. destruct (Z.eqb_spec m (2 ^ 53)) as [->|Hne].
  - assert (e < j).
    { destruct (decide (e = j)) as [->|]; [|lia]. rewrite Z.sub_diag, Z.mul_1_r in Hle. lia. }
    change (2 ^ 52) with 4503599627370496. cbv iota beta.
    rewrite (proj2 (Z.leb_le _ _)) by lia. split; [done|]. split.
    + apply bounded_iff. change (Z.log2 _) with 52. lia.
    + cbn [magnitude]. rewrite (dyle_base e) by lia. replace (e + 1 - e) with 1 by lia. exact Hle.
  - destruct m as [|m|m]; [by apply zero_bounded| |lia].
    rewrite (proj2 (Z.leb_le _ _)) by lia. split; [done|]. split.
    + apply bounded_iff. assert (Z.log2 (Zpos m) < 53) by (apply Z.log2_lt_pow2; lia).
      destruct Hc as [->|H52]; [lia|]. apply Z.log2_le_mono in H52. change (Z.log2 (2 ^ 52)) with 52 in H52. lia.
    + cbn [magnitude]. rewrite (dyle_base e) by lia. by rewrite Z.sub_diag, Z.mul_1_r.
Qed.

(** Rounding does not cross a float: an exact value (the mantissa [m], plus a
    fraction of a unit unless [l] is exact) at most [b * 2^j] rounds to a float
    at most [b * 2^j]. *)
Lemma round_bounded s m e l b j :
  0 < b → exact_range b j → 0 ≤ m → e ≤ fexp prec emax (Zdigits2 m + e) →
  (m, e) ≤d (b, j) → l = loc_Exact ∨ ¬ (b, j) ≤d (m, e) →
  bounded_by (binary_round_aux prec emax s m e l) b j.
Proof.
  intros Hb Hr Hm He Hle Hl. destruct b as [|b|b]; [lia| |lia].
  destruct (canon_exists b j Hr) as (M & J & HM & HJ & Heq).
  apply (bounded_dyeq _ (Zpos M) J); [done|]. rewrite <- Heq in Hle, Hl.
  apply bounded_iff in HM as [HMJ HJ971].
  destruct (round_aux_finish s m e l Hm He) as (m1 & Hq & Hexact & H53 & HE & ->).
  pose proof (fexp_unfold (Zdigits2 m + e)) as HEe. set (E := fexp _ _ _) in *. clearbody E.
  assert (E ≤ J) as HEJ.
  { destruct (decide (m = 0)) as [->|Hne]; [change (Zdigits2 0) with 0 in HEe; lia|].
    apply dyle_log2 in Hle; [|lia..]. rewrite Zdigits2_log2 in HEe by lia. lia. }
  assert (0 < 2 ^ (E - e)) as Hpos by (apply Z.pow_pos_nonneg; lia).
  pose proof (Z.div_mod m (2 ^ (E - e)) ltac:(lia)) as Hdm.
  pose proof (Z.mod_pos_bound m (2 ^ (E - e)) Hpos).
  set (q := m / 2 ^ (E - e)) in *. set (c := Zpos M * 2 ^ (J - E)).
  assert (0 ≤ q) by (apply Z.div_pos; lia).
  rewrite (dyle_base e) in Hle by lia. rewrite (dyle_base e) in Hl by lia.
  rewrite Z.sub_diag, Z.mul_1_r in Hle, Hl.
  replace (J - e) with ((J - E) + (E - e)) in Hle, Hl by lia.
  rewrite Z.pow_add_r, Z.mul_assoc in Hle, Hl by lia. fold c in Hle, Hl.
  assert (Z.log2 (Zpos M) < 53) by lia.
  apply finish_bounded; [lia|lia|done|lia| |].
  { apply Z.log2_lt_pow2; lia. }
  fold c. destruct (decide (m1 = q)) as [->|Hne]; [nia|].
  assert (m1 = q + 1) as -> by lia. destruct Hl as [->|Hl]; [|nia].
  destruct (decide (m = q * 2 ^ (E - e))) as [Hmq|Hmq]; [by rewrite Hexact in Hne|nia].
Qed.

(** ** The operations *)

Lemma dyle_pos m e b j : (Zpos m, e) ≤d (b, j) → 0 < b.
Proof.
  intros H. set (c := Z.min e j). at_scale c H.
  pose proof (Z.pow_pos_nonneg 2 (e - c)). pose proof (Z.pow_pos_nonneg 2 (j - c)). nia.
Qed.

Lemma fmul_bounded x y a i b j :
  0 ≤ a → 0 ≤ b → exact_range (a * b) (i + j) → bounded_by x a i → bounded_by y b j →
  bounded_by (fmul x y) (a * b) (i + j).
Proof.
  intros Ha Hb Hr (Fx & Vx & Hx) (Fy & Vy & Hy).
  destruct x as [sx| | |sx mx ex], y as [sy| | |sy my ey]; try done; try (apply zero_bounded; lia).
  cbn [fmul SFmul magnitude] in *. apply valid_exp in Vx, Vy.
  pose proof (dyle_pos _ _ _ _ Hx). pose proof (dyle_pos _ _ _ _ Hy).
  apply round_bounded; [lia|done|lia| | |by left].
  - rewrite Pos2Z.inj_mul, Zdigits2_log2, fexp_unfold by lia.
    pose proof (Z.log2_mul_below (Zpos mx) (Zpos my)). pose proof (Z.log2_nonneg (Zpos mx)).
    pose proof (Z.log2_nonneg (Zpos my)). lia.
  - rewrite Pos2Z.inj_mul. by apply dyle_mul.
Qed.

(** Normalising rounds a value shifted to a scale where it has enough digits. *)
Lemma normalize_bounded n k z b j :
  0 < b → exact_range b j → (Z.abs n, k) ≤d (b, j) → bounded_by (binary_normalize prec emax n k z) b j.
Proof.
  intros Hb Hr Hn.
  assert (∀ s p, (Zpos p, k) ≤d (b, j) → bounded_by (binary_round prec emax s p k) b j) as Hround.
  { clear Hn. intros s p Hp. unfold binary_round. rewrite shl_align_spec, digits2_log2, fexp_unfold.
    set (E := Z.max _ _). destruct (Z.ltb_spec E k).
    - assert (0 < Zpos p * 2 ^ (k - E)) by (pose proof (Z.pow_pos_nonneg 2 (k - E)); lia).
      apply round_bounded; [done|done|lia| | |by left]; rewrite Z2Pos.id by done.
      + rewrite Zdigits2_log2, Z.log2_mul_pow2, fexp_unfold by lia. lia.
      + by rewrite <- (dyeq_shift (Zpos p) k E) by lia.
    - apply round_bounded; [done|done|lia| |done|by left].
      rewrite Zdigits2_log2, fexp_unfold by lia. lia. }
  destruct n as [|p|p]; [by apply zero_bounded, Z.lt_le_incl|by apply Hround..].
Qed.

Lemma fadd_bounded x y a b j :
  0 ≤ a → 0 ≤ b → exact_range (a + b) j → bounded_by x a j → bounded_by y b j →
  bounded_by (fadd x y) (a + b) j.
Proof.
  intros Ha Hb Hr (Fx & Vx & Hx) (Fy & Vy & Hy).
  assert (∀ m e c d, 0 ≤ d → (m, e) ≤d (c, j) → (m, e) ≤d (c + d, j)) as Hweak.
  { intros m e c d Hd H. set (k := Z.min e j). at_scale k H. rewrite (dyle_base k) by lia.
    pose proof (Z.pow_pos_nonneg 2 (j - k)). nia. }
  destruct x as [sx| | |sx mx ex], y as [sy| | |sy my ey]; try done; cbn [fadd SFadd].
  - destruct sx, sy; apply zero_bounded; lia.
  - split; [done|]. split; [done|]. rewrite Z.add_comm. apply Hweak; [lia|done].
  - split; [done|]. split; [done|]. apply Hweak; [lia|done].
  - cbv zeta. set (k := Z.min ex ey). rewrite !shl_align_le by lia.
    cbn [magnitude] in *. pose proof (dyle_pos _ _ _ _ Hx). pose proof (dyle_pos _ _ _ _ Hy).
    apply normalize_bounded; [lia|done|].
    set (c := Z.min k j). at_scale c Hx. at_scale c Hy. rewrite (dyle_base c) by lia.
    replace (ex - c) with ((ex - k) + (k - c)) in Hx by lia.
    replace (ey - c) with ((ey - k) + (k - c)) in Hy by lia.
    rewrite Z.pow_add_r, Z.mul_assoc in Hx, Hy by lia.
    pose proof (Z.pow_pos_nonneg 2 (k - c)).
    rewrite Z.mul_add_distr_r.
    assert (∀ s1 s2 u v, 0 ≤ u → 0 ≤ v → Z.abs (cond_Zopp s1 u + cond_Zopp s2 v) ≤ u + v) as Habs
      by (intros [] []; cbn; lia).
    pose proof (Z.pow_pos_nonneg 2 (ex - k)). pose proof (Z.pow_pos_nonneg 2 (ey - k)).
    pose proof (Habs sx sy (Zpos mx * 2 ^ (ex - k)) (Zpos my * 2 ^ (ey - k)) ltac:(nia) ltac:(nia)). nia.
Qed.

#[export] Instance dyle_trans : Transitive dyle.
Proof.
  intros [n1 k1] [n2 k2] [n3 k3] H H'. set (c := Z.min k1 (Z.min k2 k3)).
  at_scale c H. at_scale c H'. rewrite (dyle_base c) by lia. lia.
Qed.

Lemma dyle_cancel n k n' k' p e : 0 < p → (n * p, k + e) ≤d (n' * p, k' + e) ↔ (n, k) ≤d (n', k').
Proof.
  intros Hp. set (c := Z.min k k'). rewrite (dyle_base (c + e)), (dyle_base c) by lia.
  replace (k + e - (c + e)) with (k - c) by lia. replace (k' + e - (c + e)) with (k' - c) by lia. nia.
Qed.

Lemma new_location_zero n r : new_location n r = loc_Exact ↔ r = 0.
Proof.
  unfold new_location, new_location_even, new_location_odd.
  destruct (Z.even n), (Z.eqb_spec r 0); naive_solver.
Qed.

(** The mantissa of a quotient before rounding: enough digits, and exact up to
    the remainder [r]. *)
Lemma quotient_core mx ex my ey q e l :
  SFdiv_core_binary prec emax (Zpos mx) ex (Zpos my) ey = (q, e, l) →
  0 ≤ q ∧ e ≤ fexp prec emax (Zdigits2 q + e) ∧ e ≤ ex - ey ∧
  ∃ r, 0 ≤ r < Zpos my ∧ Zpos mx * 2 ^ (ex - ey - e) = Zpos my * q + r ∧ l = new_location (Zpos my) r.
Proof.
  unfold SFdiv_core_binary. rewrite !Zdigits2_log2, fexp_unfold by lia.
  set (f := Z.min _ _). set (s := ex - ey - f). assert (0 ≤ s) as Hs by lia.
  assert (match s with Z0 => Zpos mx | Zpos _ => Z.shiftl (Zpos mx) s | Zneg _ => 0 end = Zpos mx * 2 ^ s) as ->.
  { destruct s as [|s|s]; [cbn; lia|by rewrite Z.shiftl_mul_pow2 by lia|lia]. }
  pose proof (Z.div_eucl_eq (Zpos mx * 2 ^ s) (Zpos my) ltac:(lia)) as Hdiv.
  pose proof (Z_div_mod (Zpos mx * 2 ^ s) (Zpos my) ltac:(lia)) as Hmod.
  destruct (Z.div_eucl _ _) as [q' r]. destruct Hmod as [_ Hr2]. intros [= -> <- <-].
  pose proof (Z.pow_pos_nonneg 2 s).
  assert (0 ≤ q) as Hq by nia.
  split; [done|]. split; [|split; [lia|by exists r]].
  rewrite fexp_unfold. destruct (decide (q = 0)) as [->|Hne].
  { assert (Zpos mx * 2 ^ s ≤ Zpos my) as Hlt%Z.log2_le_mono by lia.
    rewrite Z.log2_mul_pow2 in Hlt by lia. change (Zdigits2 0) with 0. lia. }
  assert (Zpos mx * 2 ^ s < 2 ^ (Z.log2 (Zpos my) + Z.log2 q + 2)) as Hlt%Z.log2_lt_pow2.
  { replace (_ + _ + 2) with (Z.succ (Z.log2 (Zpos my)) + Z.succ (Z.log2 q)) by lia.
    rewrite Z.pow_add_r by (pose proof (Z.log2_nonneg q); pose proof (Z.log2_nonneg (Zpos my)); lia).
    pose proof (Z.log2_spec (Zpos my)). pose proof (Z.log2_spec q). nia. }
  2: lia.
  rewrite Z.log2_mul_pow2 in Hlt by lia. rewrite Zdigits2_log2 by lia. lia.
Qed.

(** The quotient of a number at most [b * 2^j] times the divisor. *)
Lemma quotient_bounded sx mx ex sy my ey b j :
  0 < b → exact_range b j → (Zpos mx, ex) ≤d (b * Zpos my, j + ey) →
  bounded_by (SFdiv prec emax (S754_finite sx mx ex) (S754_finite sy my ey)) b j.
Proof.
  intros Hb Hr Hx'. cbn [SFdiv].
  destruct (SFdiv_core_binary _ _ _ _ _ _) as [[q e] l] eqn:E.
  apply quotient_core in E as (Hq & Hfe & He & r & Hr2 & Hdiv & ->).
  assert ((Zpos mx * 2 ^ (ex - ey - e), e + ey) ≡d (Zpos mx, ex)) as Hval.
  { rewrite dyeq_scale by lia. by replace (e + ey + (ex - ey - e)) with ex by lia. }
  rewrite <- Hval in Hx'. apply round_bounded; [done|done|done|done| |].
  - apply (dyle_cancel _ _ _ _ (Zpos my) ey); [lia|]. rewrite <- Hx', dyle_same. lia.
  - destruct (decide (r = 0)) as [->|Hrne]; [left; by apply new_location_zero|right].
    intros H'. apply (dyle_cancel _ _ _ _ (Zpos my) ey) in H'; [|lia].
    pose proof (transitivity Hx' H') as H''. apply dyle_same in H''. lia.
Qed.

(** The quotient of a number at most [b * n * 2^j] by [n]. *)
Lemma fdiv_bounded x y n b j :
  0 < n → 0 < b → exact_range b j → bounded_by x (b * n) j → repr y n 0 →
  bounded_by (SFdiv prec emax x y) b j.
Proof.
  intros Hn Hb Hr (Fx & Vx & Hx) (Fy & Vy & Hy).
  destruct y as [sy| | |sy my ey]; try done; [by apply dyeq_zero_l in Hy; lia|].
  cbn [fval] in Hy. apply dyeq_sign in Hy as (p & -> & Hy).
  destruct sy; cbn [cond_Zopp] in *; [lia|].
  destruct x as [sx| | |sx mx ex]; try done; [apply zero_bounded; lia|].
  cbn [magnitude] in *. apply quotient_bounded; [done|done|]. rewrite Hx.
  pose proof (dy_mul_proper (b, j) (b, j) ltac:(done) _ _ Hy) as E. unfold dy_mul in E. cbn in E.
  rewrite Z.add_0_r in E. rewrite E. by apply dyle_same.
Qed.

(** ** A running average stays between its prices

    [(avg * o + p * a) / (o + a)], the way both position trackers compute it:
    with [avg] and [p] at most [2^k], every intermediate result is at most an
    integer of 53 bits times [2^k], and the average at most [2^k]. *)
Lemma running_average_bounded avg fo fp fa fs k o p a :
  0 ≤ k ≤ 900 → bounded_by avg 1 k → repr fo o 0 → repr fp p 0 → repr fa a 0 → repr fs (o + a) 0 →
  0 ≤ o → 0 < a → o + a < 2 ^ 53 → Z.abs p ≤ 2 ^ k →
  bounded_by (SFdiv prec emax (fadd (fmul avg fo) (fmul fp fa)) fs) 1 k.
Proof.
  intros Hk Havg Ho Hp Ha Hs Ho0 Ha0 Hoa Hpk.
  assert (∀ n, 0 ≤ n ≤ o + a → exact_range n k) as Hr by (intros; split; lia).
  apply (fdiv_bounded _ _ (o + a)); [lia|lia|by apply Hr; lia| |done].
  rewrite Z.mul_1_l. apply fadd_bounded; [lia|lia|by apply Hr; lia| |].
  - replace o with (1 * o) by lia. replace k with (k + 0) at 1 by lia.
    apply fmul_bounded; [lia|lia|rewrite Z.mul_1_l, Z.add_0_r; apply Hr; lia|done|].
    apply (repr_bounded _ o); [done|lia].
  - replace a with (1 * a) by lia. replace k with (k + 0) at 1 by lia.
    apply fmul_bounded; [lia|lia|rewrite Z.mul_1_l, Z.add_0_r; apply Hr; lia| |apply (repr_bounded _ a); [done|lia]].
    apply (bounded_dyeq _ (2 ^ k) 0); [|by apply (repr_bounded _ p)].
    rewrite (dyeq_base 0) by lia. rewrite !Z.sub_0_r. lia.
Qed.

(** Truncation of a float at most [2^k]. *)
Lemma bounded_trunc s m e k :
  0 ≤ k → bounded_by (S754_finite s m e) 1 k →
  Z.abs (cond_Zopp s (if 0 <=? e then Zpos m * 2 ^ e else Zpos m / 2 ^ (- e))) ≤ 2 ^ k.
Proof.
  intros Hk (_ & _ & H). cbn [magnitude] in H.
  assert (0 ≤ (if 0 <=? e then Zpos m * 2 ^ e else Zpos m / 2 ^ (- e)) ≤ 2 ^ k) as Hb.
  { destruct (Z.leb_spec 0 e).
    - rewrite (dyle_base 0) in H by lia. rewrite !Z.sub_0_r in H.
      pose proof (Z.pow_pos_nonneg 2 e). lia.
    - rewrite (dyle_base e) in H by lia. rewrite Z.sub_diag in H.
      pose proof (Z.pow_pos_nonneg 2 (- e)). split; [apply Z.div_pos; lia|].
      apply Z.div_le_upper_bound; [lia|].
      replace (k - e) with (k + (- e)) in H by lia. rewrite Z.pow_add_r in H by lia. lia. }
  destruct s; cbn; lia.
Qed.
