(* ===== verification/FloatEnclosure.v ===== *)
(** * Enclosures of rounded float operations

    [FloatBounds] bounds a rounded result in absolute value.  The pricing
    formulas also need the sign: this file encloses a float between two dyadic
    numbers of one scale, [in_range x a b j] for [a * 2^j <= x <= b * 2^j], and
    gives one rule per operation.  All of them rest on one fact: rounding does
    not cross a representable number.  It also shows that every operation
    returns a well-formed float. *)

From S2P Require Import Prelude PyFloat FloatBounds.

Open Scope Z_scope.

Definition in_range (x : float) (a b j : Z) : Prop :=
  is_finite x = true ∧ valid x = true ∧ (a, j) ≤d fval x ∧ fval x ≤d (b, j).

#[export] Instance dyle_dec x y : Decision (dyle x y).
Proof. unfold dyle. apply _. Defined.
#[export] Instance in_range_dec x a b j : Decision (in_range x a b j).
Proof. unfold in_range. apply _. Defined.

Lemma dyle_refl' x : x ≤d x.
Proof. destruct x as [n k]. by apply dyle_same. Qed.

Lemma dyle_weaken_r n k b b' j : b ≤ b' → (n, k) ≤d (b, j) → (n, k) ≤d (b', j).
Proof. intros Hb H. etransitivity; [exact H|]. by apply dyle_same. Qed.
Lemma dyle_weaken_l n k b b' j : b' ≤ b → (b, j) ≤d (n, k) → (b', j) ≤d (n, k).
Proof. intros Hb H. etransitivity; [|exact H]. by apply dyle_same. Qed.

Lemma in_range_weaken x a b a' b' j : a' ≤ a → b ≤ b' → in_range x a b j → in_range x a' b' j.
Proof.
  unfold in_range. destruct (fval x). intros Ha Hb (F & V & H1 & H2).
  split; [done|]. split; [done|]. split; [exact (dyle_weaken_l _ _ _ _ _ Ha H1)|exact (dyle_weaken_r _ _ _ _ _ Hb H2)].
Qed.

(** ** Rounding, from below *)

Lemma round_from_below s m e l b j :
  0 < b → exact_range b j → 0 ≤ m → e ≤ fexp prec emax (Zdigits2 m + e) → (b, j) ≤d (m, e) →
  ∃ m1 E, binary_round_aux prec emax s m e l = finish s m1 E ∧ 0 ≤ m1 ∧ (b, j) ≤d (m1, E).
Proof.
  intros Hb Hr Hm He Hle. destruct b as [|b|b]; [lia| |lia].
  destruct (canon_exists b j Hr) as (M & J & HM & HJ & Heq). rewrite <- Heq in Hle.
  apply bounded_iff in HM as [HMJ HJ971].
  destruct (round_aux_finish s m e l Hm He) as (m1 & Hq & _ & H53 & HE & ->).
  pose proof (fexp_unfold (Zdigits2 m + e)) as HEe. set (E := fexp _ _ _) in *. clearbody E.
  assert (0 < m) as Hm0 by (eapply dyle_pos, Hle).
  assert (J ≤ E) as HJE.
  { apply dyle_log2 in Hle; [|lia..]. rewrite Zdigits2_log2 in HEe by lia. lia. }
  assert (0 ≤ m / 2 ^ (E - e)) by (apply Z.div_pos; [lia|apply Z.pow_pos_nonneg; lia]).
  exists m1, E. split; [done|]. split; [lia|]. rewrite <- Heq, (dyle_base J) by lia.
  rewrite Z.sub_diag, Z.mul_1_r. destruct (decide (J = E)) as [->|Hne].
  - rewrite Z.sub_diag, Z.mul_1_r. etransitivity; [|apply Hq].
    apply Z.div_le_lower_bound; [apply Z.pow_pos_nonneg; lia|].
    rewrite (dyle_base e) in Hle by lia. rewrite Z.sub_diag in Hle. lia.
  - destruct HE as [->|H52]; [lia|].
    assert (Zpos M < 2 ^ 53) by (apply Z.log2_lt_pow2; lia).
    assert (2 ^ 1 ≤ 2 ^ (E - J)) by (apply Z.pow_le_mono_r; lia). nia.
Qed.

(** The value of a rounded mantissa, unless it overflows. *)
Lemma finish_fval s m e :
  0 ≤ m → is_finite (finish s m e) = true → fval (finish s m e) ≡d (cond_Zopp s m, e).
Proof.
  intros Hm. unfold finish. destruct (Z.eqb_spec m (2 ^ 53)) as [->|].
  - change (2 ^ 52) with 4503599627370496. cbv iota beta.
    destruct (e + 1 <=? 971); [|done]. intros _. cbn [fval].
    destruct s; (rewrite (dyeq_base e) by lia); replace (e + 1 - e) with 1 by lia;
      rewrite Z.sub_diag; reflexivity.
  - destruct m as [|m|m]; [|destruct (e <=? 971); done|lia].
    intros _. cbn [fval]. by destruct s; apply dyeq_zero.
Qed.

(** Rounding an exact value does not leave an interval with representable ends. *)
Lemma dyle_neg n k n' k' : (- n, k) ≤d (- n', k') ↔ (n', k') ≤d (n, k).
Proof.
  set (c := Z.min k k'). rewrite !(dyle_base c) by lia. lia.
Qed.

Lemma dyle_nonneg b j n k : 0 ≤ n → b ≤ 0 → (b, j) ≤d (n, k).
Proof.
  intros. set (c := Z.min j k). rewrite (dyle_base c) by lia.
  pose proof (Z.pow_pos_nonneg 2 (j - c)). pose proof (Z.pow_pos_nonneg 2 (k - c)). nia.
Qed.

Lemma dyle_sign b j n k : 0 ≤ n → (n, k) ≤d (b, j) → 0 ≤ b.
Proof.
  intros Hn H. set (c := Z.min j k). at_scale c H.
  pose proof (Z.pow_pos_nonneg 2 (j - c)). pose proof (Z.pow_pos_nonneg 2 (k - c)). nia.
Qed.

Lemma magnitude_of x s m e : 0 ≤ m → fval x ≡d (cond_Zopp s m, e) → magnitude x ≡d (m, e).
Proof.
  intros Hm. assert (cond_Zopp s m = 0 → m = 0) as H0 by (destruct s; cbn; lia).
  destruct x as [z| | |z p f]; cbn [fval magnitude]; intros H.
  1-3: symmetry in H; apply dyeq_zero in H as ->%H0; by apply dyeq_zero.
  apply dyeq_sign in H as (q & Hq & ->). apply dyeq_same. destruct s, z; cbn in *; lia.
Qed.

(** The magnitude [m * 2^e] between [a] and [b], rounded. *)
Lemma round_magnitude s m e a b j :
  exact_range a j → exact_range b j → 0 ≤ m → e ≤ fexp prec emax (Zdigits2 m + e) →
  (a, j) ≤d (m, e) → (m, e) ≤d (b, j) →
  ∃ m1 E, let x := binary_round_aux prec emax s m e loc_Exact in
    is_finite x = true ∧ valid x = true ∧ fval x ≡d (cond_Zopp s m1, E) ∧
    (a, j) ≤d (m1, E) ∧ (m1, E) ≤d (b, j).
Proof.
  intros Ha Hb Hm He H1 H2. pose proof (dyle_sign _ _ _ _ Hm H2) as Hb0.
  destruct (decide (b = 0)) as [->|Hbne].
  { assert (m = 0) as ->.
    { set (c := Z.min e j). at_scale c H2. pose proof (Z.pow_pos_nonneg 2 (e - c)). nia. }
    destruct (round_aux_finish s 0 e loc_Exact Hm He) as (m1 & _ & Hex & _ & _ & ->).
    rewrite Z.div_0_l in Hex by (apply Z.pow_nonzero; lia). rewrite Hex by done.
    exists 0, 0. cbn. split; [done|]. split; [done|]. split; [by destruct s|].
    split; [|by apply dyle_nonneg]. etransitivity; [exact H1|]. by apply dyle_nonneg. }
  destruct (round_bounded s m e loc_Exact b j) as (F & V & Hmag); [lia|done|done|done|done|by left|].
  assert (∃ m1 E, binary_round_aux prec emax s m e loc_Exact = finish s m1 E ∧ 0 ≤ m1 ∧ (a, j) ≤d (m1, E))
    as (m1 & E & Heq & Hm1 & Hlow).
  { destruct (decide (0 < a)); [by apply round_from_below|].
    destruct (round_aux_finish s m e loc_Exact Hm He) as (m1 & Hq & _ & _ & _ & ->).
    set (E := fexp _ _ _) in *.
    assert (0 ≤ m / 2 ^ (E - e)) by (apply Z.div_pos; [lia|]; apply Z.pow_pos_nonneg; lia).
    exists m1, E. split; [done|]. split; [lia|]. apply dyle_nonneg; lia. }
  rewrite Heq in F, V, Hmag |- *. pose proof (finish_fval s m1 E Hm1 F) as Hv.
  rewrite (magnitude_of _ s m1 E Hm1 Hv) in Hmag. by exists m1, E.
Qed.

(** Rounding an exact value does not leave an interval with representable ends. *)
Lemma round_in s m e a b j :
  exact_range a j → exact_range b j → 0 ≤ m → e ≤ fexp prec emax (Zdigits2 m + e) →
  (a, j) ≤d (cond_Zopp s m, e) → (cond_Zopp s m, e) ≤d (b, j) →
  in_range (binary_round_aux prec emax s m e loc_Exact) a b j.
Proof.
  intros Ha Hb Hm He H1 H2. destruct s; cbn [cond_Zopp] in *.
  - assert (∀ n, exact_range n j → exact_range (- n) j) as Hopp by (intros n [? ?]; split; lia).
    destruct (round_magnitude true m e (- b) (- a) j) as (m1 & E & F & V & Hv & H1' & H2'); auto.
    { by apply dyle_neg; rewrite Z.opp_involutive. }
    { apply dyle_neg. by rewrite Z.opp_involutive. }
    split; [done|]. split; [done|]. rewrite Hv. cbn [cond_Zopp].
    split; apply dyle_neg; by rewrite Z.opp_involutive.
  - destruct (round_magnitude false m e a b j) as (m1 & E & F & V & Hv & H1' & H2'); auto.
    split; [done|]. split; [done|]. by rewrite Hv.
Qed.

(** ** The operations *)

Lemma normalize_in n k z a b j :
  exact_range a j → exact_range b j → (a, j) ≤d (n, k) → (n, k) ≤d (b, j) →
  in_range (binary_normalize prec emax n k z) a b j.
Proof.
  intros Ha Hb H1 H2.
  assert (∀ s p, (a, j) ≤d (cond_Zopp s (Zpos p), k) → (cond_Zopp s (Zpos p), k) ≤d (b, j) →
    in_range (binary_round prec emax s p k) a b j) as Hround.
  { clear H1 H2. intros s p H1 H2. unfold binary_round. rewrite shl_align_spec, digits2_log2, fexp_unfold.
    set (E := Z.max _ _). destruct (Z.ltb_spec E k).
    - assert (0 < Zpos p * 2 ^ (k - E)) by (pose proof (Z.pow_pos_nonneg 2 (k - E)); lia).
      assert ((cond_Zopp s (Zpos (Z.to_pos (Zpos p * 2 ^ (k - E)))), E) ≡d (cond_Zopp s (Zpos p), k)) as Heq.
      { rewrite (dyeq_shift (cond_Zopp s _) k E), dyeq_same, Z2Pos.id by lia.
        destruct s; cbn [cond_Zopp]; ring. }
      apply round_in; [done|done|lia| |by rewrite Heq|by rewrite Heq].
      rewrite Z2Pos.id, Zdigits2_log2, Z.log2_mul_pow2, fexp_unfold by lia. lia.
    - apply round_in; [done|done|lia| |done|done].
      rewrite Zdigits2_log2, fexp_unfold by lia. lia. }
  destruct n as [|p|p]; [|by apply (Hround false)|by apply (Hround true)].
  split; [done|]. split; [done|]. cbn [binary_normalize fval].
  assert ((0, 0) ≡d (0, k)) as -> by by apply dyeq_zero. done.
Qed.

Lemma dyle_add n k m l b d j : (n, k) ≤d (b, j) → (m, l) ≤d (d, j) → dy_add (n, k) (m, l) ≤d (b + d, j).
Proof.
  intros H1 H2. set (c := Z.min (Z.min k l) j).
  rewrite (dy_add_base c) by (cbn; lia). cbn [fst snd]. at_scale c H1. at_scale c H2.
  rewrite (dyle_base c) by lia. rewrite Z.sub_diag. lia.
Qed.
Lemma dyle_add' n k m l a c j : (a, j) ≤d (n, k) → (c, j) ≤d (m, l) → (a + c, j) ≤d dy_add (n, k) (m, l).
Proof.
  intros H1 H2. set (s := Z.min (Z.min k l) j).
  rewrite (dy_add_base s) by (cbn; lia). cbn [fst snd]. at_scale s H1. at_scale s H2.
  rewrite (dyle_base s) by lia. rewrite Z.sub_diag. lia.
Qed.

(** The sum of enclosed floats. *)
Lemma fadd_in x y a b c d j :
  exact_range (a + c) j → exact_range (b + d) j → in_range x a b j → in_range y c d j →
  in_range (fadd x y) (a + c) (b + d) j.
Proof.
  intros Hl Hh (Fx & Vx & Hx1 & Hx2) (Fy & Vy & Hy1 & Hy2).
  destruct (fval x) as [n k] eqn:Ex, (fval y) as [m l] eqn:Ey.
  pose proof (dyle_add _ _ _ _ _ _ _ Hx2 Hy2) as Hup. pose proof (dyle_add' _ _ _ _ _ _ _ Hx1 Hy1) as Hlo.
  assert (∀ f, is_finite f = true → valid f = true → fval f ≡d dy_add (n, k) (m, l) →
    in_range f (a + c) (b + d) j) as Hf.
  { intros f F V Hv. split; [done|]. split; [done|]. by rewrite Hv. }
  destruct x as [sx| | |sx mx ex], y as [sy| | |sy my ey]; try done; cbn [fadd SFadd fval] in *.
  - injection Ex as <- <-. injection Ey as <- <-. destruct sx, sy; by apply Hf.
  - apply Hf; [done|done|]. injection Ex as <- <-. rewrite <- Ey. cbn [fval]. by rewrite dy_add_0_l.
  - apply Hf; [done|done|]. injection Ey as <- <-. rewrite <- Ex. cbn [fval].
    by rewrite dy_add_comm, dy_add_0_l.
  - injection Ex as <- <-. injection Ey as <- <-. cbv zeta. set (e := Z.min ex ey).
    rewrite !shl_align_le by lia.
    assert (dy_add (cond_Zopp sx (Zpos mx), ex) (cond_Zopp sy (Zpos my), ey) ≡d
      (cond_Zopp sx (Zpos mx * 2 ^ (ex - e)) + cond_Zopp sy (Zpos my * 2 ^ (ey - e)), e)) as Hv.
    { rewrite (dy_add_base e) by (cbn; lia). cbn [fst snd]. by rewrite !cond_Zopp_scale. }
    rewrite Hv in Hup, Hlo. by apply normalize_in.
Qed.

Lemma fopp_in x a b j : in_range x a b j → in_range (fopp x) (- b) (- a) j.
Proof.
  intros (F & V & H1 & H2). destruct x as [s| | |s m e]; try done.
  - split; [done|]. split; [done|]. cbn [fopp SFopp fval] in *.
    split; apply dyle_neg; by rewrite Z.opp_involutive.
  - split; [done|]. split; [done|]. cbn [fopp SFopp fval] in *.
    replace (cond_Zopp (negb s) (Zpos m)) with (- cond_Zopp s (Zpos m)) by (by destruct s).
    by split; apply dyle_neg.
Qed.

Lemma fsub_in x y a b c d j :
  exact_range (a - d) j → exact_range (b - c) j → in_range x a b j → in_range y c d j →
  in_range (fsub x y) (a - d) (b - c) j.
Proof. intros Hl Hh Hx Hy. rewrite fsub_fadd. apply (fadd_in _ _ _ _ _ _ _ Hl Hh Hx). by apply fopp_in. Qed.

Lemma zero_in s l h k e : (l, k) ≤d (0, e) → (0, e) ≤d (h, k) → in_range (S754_zero s) l h k.
Proof.
  assert ((0, e) ≡d (0, 0)) as -> by by apply dyeq_zero. intros Hl Hh.
  split; [done|]. split; [done|]. by split.
Qed.

(** A product lies between the extreme products of the ends. *)
Lemma mul_between a b c d u v l h :
  a ≤ u ≤ b → c ≤ v ≤ d → l ≤ a * c → l ≤ a * d → l ≤ b * c → l ≤ b * d →
  a * c ≤ h → a * d ≤ h → b * c ≤ h → b * d ≤ h → l ≤ u * v ≤ h.
Proof.
  intros. assert (Z.min (a * v) (b * v) ≤ u * v ≤ Z.max (a * v) (b * v)) by (destruct (Z.le_gt_cases 0 v); nia).
  assert (l ≤ a * v ≤ h) by (destruct (Z.le_gt_cases 0 a); nia).
  assert (l ≤ b * v ≤ h) by (destruct (Z.le_gt_cases 0 b); nia). lia.
Qed.

Section Product.
Context (l h k s : Z).

(** [lh p]: the number [p * 2^s] is between the ends [l] and [h] at scale [k]. *)
Definition between (p : Z) : Prop := (l, k) ≤d (p, s) ∧ (p, s) ≤d (h, k).
End Product.

Lemma fmul_in x y a b c d i j l h k :
  exact_range l k → exact_range h k → in_range x a b i → in_range y c d j →
  Forall (between l h k (i + j)) [a * c; a * d; b * c; b * d] →
  in_range (fmul x y) l h k.
Proof.
  intros Hl Hh (Fx & Vx & Hx1 & Hx2) (Fy & Vy & Hy1 & Hy2) HF.
  apply Forall_cons in HF as [[L1 H1] HF]. apply Forall_cons in HF as [[L2 H2] HF].
  apply Forall_cons in HF as [[L3 H3] HF]. apply Forall_cons in HF as [[L4 H4] _].
  assert (between l h k (snd (fval x) + snd (fval y)) (fst (fval x) * fst (fval y))) as [Hlo Hup].
  { destruct (fval x) as [u eu], (fval y) as [v ev]. cbn [fst snd].
    set (p := Z.min i eu). set (q := Z.min j ev). set (r := Z.min k (p + q)).
    rewrite (dyle_base p) in Hx1, Hx2 by lia. rewrite (dyle_base q) in Hy1, Hy2 by lia.
    rewrite (dyle_base r) in L1, L2, L3, L4, H1, H2, H3, H4 by lia.
    unfold between. rewrite !(dyle_base r) by lia.
    assert (∀ z e f, p ≤ e → q ≤ f → z * 2 ^ (e + f - r) = z * 2 ^ (e - p) * 2 ^ (f - q) * 2 ^ (p + q - r)) as Hsplit.
    { intros z e f He Hf. replace (e + f - r) with ((e - p) + ((f - q) + (p + q - r))) by lia.
      rewrite !Z.pow_add_r by lia. ring. }
    rewrite (Hsplit (u * v)) by lia. rewrite (Hsplit (a * c)) in L1, H1 by lia.
    rewrite (Hsplit (a * d)) in L2, H2 by lia. rewrite (Hsplit (b * c)) in L3, H3 by lia.
    rewrite (Hsplit (b * d)) in L4, H4 by lia.
    set (P := 2 ^ (p + q - r)) in *.
    replace (u * v * 2 ^ (eu - p) * 2 ^ (ev - q) * P)
      with ((u * 2 ^ (eu - p)) * (v * 2 ^ (ev - q) * P)) by ring.
    assert (0 < P) by (apply Z.pow_pos_nonneg; lia).
    apply (mul_between (a * 2 ^ (i - p)) (b * 2 ^ (i - p)) (c * 2 ^ (j - q) * P) (d * 2 ^ (j - q) * P)).
    all: try nia. all: match goal with |- ?x ≤ ?y => ring_simplify x y end; nia. }
  destruct x as [sx| | |sx mx ex], y as [sy| | |sy my ey]; try done; cbn [fmul SFmul fval fst snd] in *.
  1-2: rewrite ?Z.mul_0_r, ?Z.mul_0_l in Hlo, Hup; exact (zero_in _ _ _ _ _ Hlo Hup).
  apply valid_exp in Vx, Vy.
  assert (cond_Zopp sx (Zpos mx) * cond_Zopp sy (Zpos my) = cond_Zopp (xorb sx sy) (Zpos (mx * my))) as Heq
    by (destruct sx, sy; cbn [cond_Zopp xorb]; lia). rewrite Heq in Hlo, Hup.
  apply round_in; [done|done|lia| |done|done].
  rewrite Pos2Z.inj_mul, Zdigits2_log2, fexp_unfold by lia.
  pose proof (Z.log2_mul_below (Zpos mx) (Zpos my)). pose proof (Z.log2_nonneg (Zpos mx)).
  pose proof (Z.log2_nonneg (Zpos my)). lia.
Qed.

(** ** Quotients and signs *)

Lemma round_sign s m e l :
  is_finite (binary_round_aux prec emax s m e l) = true →
  match binary_round_aux prec emax s m e l with
  | S754_zero z | S754_finite z _ _ => z = s
  | _ => False
  end.
Proof. unfold binary_round_aux. by repeat case_match. Qed.

(** A quotient of numbers of the same sign. *)
Lemma quotient_in s mx ex my ey b j :
  0 < b → exact_range b j → (Zpos mx, ex) ≤d (b * Zpos my, j + ey) →
  in_range (SFdiv prec emax (S754_finite s mx ex) (S754_finite s my ey)) 0 b j.
Proof.
  intros Hb Hr Hle. destruct (quotient_bounded s mx ex s my ey b j Hb Hr Hle) as (F & V & H).
  split; [done|]. split; [done|]. revert F H. cbn [SFdiv].
  destruct (SFdiv_core_binary _ _ _ _ _ _) as [[q e] l]. intros F H.
  pose proof (round_sign _ _ _ _ F) as Hs. rewrite xorb_nilpotent in *.
  destruct (binary_round_aux _ _ _ _ _ _) as [z| | |z m f]; try done; cbn [magnitude fval] in *.
  subst z. split; [by apply dyle_nonneg|done].
Qed.

(** The reciprocal of a number at least 1, or of an infinity. *)
Lemma reciprocal_in y :
  valid y = true → y = S754_infinity false ∨ (is_finite y = true ∧ (1, 0) ≤d fval y) →
  in_range (SFdiv prec emax (dyadic 1 0) y) 0 1 0.
Proof.
  intros V [->|[F H]]; [decide_now|].
  destruct y as [s| | |s m e]; try done; cbn [fval] in H.
  destruct s; cbn [cond_Zopp] in H.
  { exfalso. apply dyle_sign in H; lia. }
  change (dyadic 1 0) with (S754_finite false 4503599627370496 (-52)).
  apply quotient_in; [lia|split; lia|].
  assert ((Zpos 4503599627370496, -52) ≡d (1, 0)) as -> by reflexivity.
  by rewrite Z.mul_1_l, Z.add_0_l.
Qed.

(** ** Every operation returns a well-formed float *)

Lemma finish_valid s m e :
  0 ≤ m ≤ 2 ^ 53 → -1074 ≤ e → e = -1074 ∨ 2 ^ 52 ≤ m → valid (finish s m e) = true.
Proof.
  intros Hm He Hc. destruct (decide (e + 1 ≤ 971)) as [Hle|Hgt].
  - apply (finish_bounded s m e (2 ^ 52) (e + 1)); replace (e + 1 - e) with 1 by lia; lia.
  - unfold finish. destruct (Z.eqb_spec m (2 ^ 53)).
    + change (2 ^ 52) with 4503599627370496. cbv iota beta.
      by rewrite (proj2 (Z.leb_gt _ _)) by lia.
    + destruct m as [|m|m]; [done| |done]. destruct (Z.leb_spec e 971); [|done].
      apply bounded_iff. assert (Z.log2 (Zpos m) < 53) by (apply Z.log2_lt_pow2; lia).
      destruct Hc as [->|H52%Z.log2_le_mono]; [lia|]. change (Z.log2 (2 ^ 52)) with 52 in H52. lia.
Qed.

Lemma round_valid s m e l :
  0 ≤ m → e ≤ fexp prec emax (Zdigits2 m + e) → valid (binary_round_aux prec emax s m e l) = true.
Proof.
  intros Hm He. destruct (round_aux_finish s m e l Hm He) as (m1 & Hq & _ & H53 & HE & ->).
  rewrite fexp_unfold in *.
  assert (0 ≤ m / 2 ^ (Z.max (Zdigits2 m + e - 53) (-1074) - e)) by (apply Z.div_pos; [lia|apply Z.pow_pos_nonneg; lia]).
  apply finish_valid; lia.
Qed.

Lemma normalize_valid n k z : valid (binary_normalize prec emax n k z) = true.
Proof.
  assert (∀ s p, valid (binary_round prec emax s p k) = true) as Hround.
  { intros s p. unfold binary_round. rewrite shl_align_spec, digits2_log2, fexp_unfold.
    set (E := Z.max _ _). destruct (Z.ltb_spec E k); apply round_valid; try lia.
    - assert (0 < Zpos p * 2 ^ (k - E)) by (pose proof (Z.pow_pos_nonneg 2 (k - E)); lia).
      rewrite Z2Pos.id, Zdigits2_log2, Z.log2_mul_pow2, fexp_unfold by lia. lia.
    - rewrite Zdigits2_log2, fexp_unfold by lia. lia. }
  destruct n; [done|apply Hround..].
Qed.

Lemma dyadic_valid n k : valid (dyadic n k) = true.
Proof. apply normalize_valid. Qed.

Lemma fopp_valid x : valid x = true → valid (fopp x) = true.
Proof. by destruct x. Qed.
Lemma fabs_valid x : valid x = true → valid (SFabs x) = true.
Proof. by destruct x. Qed.

Lemma fadd_valid x y : valid x = true → valid y = true → valid (fadd x y) = true.
Proof.
  intros Hx Hy.
  destruct x as [[]|[]| |sx mx ex], y as [[]|[]| |sy my ey]; try done. apply normalize_valid.
Qed.
Lemma fsub_valid x y : valid x = true → valid y = true → valid (fsub x y) = true.
Proof. intros. rewrite fsub_fadd. by apply fadd_valid; [|apply fopp_valid]. Qed.

Lemma fmul_valid x y : valid x = true → valid y = true → valid (fmul x y) = true.
Proof.
  intros Vx Vy. destruct x as [sx|sx| |sx mx ex], y as [sy|sy| |sy my ey]; try done.
  cbn [fmul SFmul]. apply valid_exp in Vx, Vy. apply round_valid; [lia|].
  rewrite Pos2Z.inj_mul, Zdigits2_log2, fexp_unfold by lia.
  pose proof (Z.log2_mul_below (Zpos mx) (Zpos my)). pose proof (Z.log2_nonneg (Zpos mx)).
  pose proof (Z.log2_nonneg (Zpos my)). lia.
Qed.

Lemma SFdiv_valid x y : valid x = true → valid y = true → valid (SFdiv prec emax x y) = true.
Proof.
  intros Vx Vy. destruct x as [sx|sx| |sx mx ex], y as [sy|sy| |sy my ey]; try done.
  cbn [SFdiv]. destruct (SFdiv_core_binary _ _ _ _ _ _) as [[q e] l] eqn:E.
  apply quotient_core in E as (Hq & He & _). by apply round_valid.
Qed.

(** The mantissa of a square root before rounding has enough digits. *)
Lemma sqrt_core m e q e' l :
  SFsqrt_core_binary prec emax (Zpos m) e = (q, e', l) →
  0 ≤ q ∧ e' ≤ fexp prec emax (Zdigits2 q + e').
Proof.
  unfold SFsqrt_core_binary. rewrite Zdigits2_log2, fexp_unfold by lia.
  set (d := Z.log2 (Zpos m)). set (f := Z.min _ _). set (s := e - 2 * f).
  assert (∀ n, 2 * Z.div2 n ≤ n ≤ 2 * Z.div2 n + 1) as Hdiv2.
  { intros n. pose proof (Z.div2_odd n). destruct (Z.odd n); cbn in *; lia. }
  pose proof (Hdiv2 e). pose proof (Hdiv2 (d + 1 + e + 1)). assert (0 ≤ s) by lia.
  assert (match s with Z0 => Zpos m | Zpos _ => Z.shiftl (Zpos m) s | Zneg _ => 0 end = Zpos m * 2 ^ s) as ->.
  { destruct s as [|s'|s']; [cbn; lia|by rewrite Z.shiftl_mul_pow2 by lia|lia]. }
  pose proof (Z.sqrtrem_spec (Zpos m * 2 ^ s)) as Hsq.
  assert (0 < Zpos m * 2 ^ s) by (pose proof (Z.pow_pos_nonneg 2 s); nia).
  destruct (Z.sqrtrem _) as [q' r]. specialize (Hsq ltac:(lia)) as [Hsq Hr]. intros [= -> <- _].
  split; [nia|]. rewrite fexp_unfold.
  destruct (Z.le_gt_cases f (-1074)); [lia|].
  assert (2 ^ 104 ≤ Zpos m * 2 ^ s) as Hbig.
  { transitivity (2 ^ (d + s)); [apply Z.pow_le_mono_r; lia|].
    rewrite Z.pow_add_r by (lia || apply Z.log2_nonneg).
    apply Z.mul_le_mono_nonneg_r; [apply Z.pow_nonneg; lia|].
    apply (Z.log2_spec (Zpos m)). lia. }
  assert (2 ^ 52 ≤ q) as Hq.
  { destruct (Z.le_gt_cases (2 ^ 52) q); [done|].
    assert ((q + 1) * (q + 1) ≤ 2 ^ 52 * 2 ^ 52) by (apply Z.mul_le_mono_nonneg; lia).
    change (2 ^ 104) with (2 ^ 52 * 2 ^ 52) in Hbig. lia. }
  rewrite Zdigits2_log2 by lia. apply Z.log2_le_mono in Hq. change (Z.log2 (2 ^ 52)) with 52 in Hq. lia.
Qed.

Lemma fsqrt_valid x : valid x = true → valid (fsqrt x) = true.
Proof.
  intros Vx. destruct x as [|[]| |[] m e]; try done. cbn [fsqrt SFsqrt].
  destruct (SFsqrt_core_binary _ _ _ _) as [[q e'] l] eqn:E. apply sqrt_core in E as [Hq He].
  by apply round_valid.
Qed.

Create HintDb valid_float.
#[export] Hint Resolve dyadic_valid fopp_valid fabs_valid fadd_valid fsub_valid fmul_valid SFdiv_valid
  fsqrt_valid : valid_float.

(** ** Fixed-point enclosures

    Enclosures at the scale [2^-40] with ends rounded outward, so that chains
    of operations are evaluated on integers. *)

#[export] Instance exact_range_dec n k : Decision (exact_range n k).
Proof. unfold exact_range. apply _. Defined.

Lemma in_range_scale x a b j d : 0 ≤ d → in_range x a b j → in_range x (a * 2 ^ d) (b * 2 ^ d) (j - d).
Proof.
  intros Hd (F & V & H1 & H2). split; [done|]. split; [done|].
  rewrite (dyeq_scale a (j - d) d), (dyeq_scale b (j - d) d) by done. by replace (j - d + d) with j by lia.
Qed.

Lemma in_range_unscale x a b j d : 0 ≤ d → in_range x (a * 2 ^ d) (b * 2 ^ d) (j - d) → in_range x a b j.
Proof.
  intros Hd (F & V & H1 & H2). split; [done|]. split; [done|].
  rewrite (dyeq_scale a (j - d) d) in H1 by done. rewrite (dyeq_scale b (j - d) d) in H2 by done. by replace (j - d + d) with j in H1, H2 by lia.
Qed.

Definition fixed (x : float) (a b : Z) : Prop := in_range x a b (-40).
#[export] Instance fixed_dec x a b : Decision (fixed x a b).
Proof. unfold fixed. apply _. Defined.

Definition min4 (w x y z : Z) : Z := Z.min (Z.min w x) (Z.min y z).
Definition max4 (w x y z : Z) : Z := Z.max (Z.max w x) (Z.max y z).
Definition mul_lo (a b c d : Z) : Z := min4 (a * c) (a * d) (b * c) (b * d) / 2 ^ 40.
Definition mul_hi (a b c d : Z) : Z := - ((- max4 (a * c) (a * d) (b * c) (b * d)) / 2 ^ 40).

Lemma fixed_weaken x a b a' b' : fixed x a b → a' ≤ a → b ≤ b' → fixed x a' b'.
Proof. intros H ??. by eapply in_range_weaken. Qed.

Lemma fixed_mul x y a b c d :
  fixed x a b → fixed y c d →
  exact_range (mul_lo a b c d) (-40) → exact_range (mul_hi a b c d) (-40) →
  fixed (fmul x y) (mul_lo a b c d) (mul_hi a b c d).
Proof.
  intros Hx Hy Hl Hh. apply (fmul_in _ _ a b c d (-40) (-40) _ _ _ Hl Hh Hx Hy).
  assert (∀ p, min4 (a * c) (a * d) (b * c) (b * d) ≤ p ≤ max4 (a * c) (a * d) (b * c) (b * d) →
    between (mul_lo a b c d) (mul_hi a b c d) (-40) (-40 + -40) p) as Hp.
  { intros p Hp. unfold between. rewrite !(dyle_base (-80)) by lia.
    change (-40 - -80) with 40. change (-40 + -40 - -80) with 0. rewrite Z.mul_1_r.
    unfold mul_lo, mul_hi. set (u := min4 _ _ _ _) in *. set (v := max4 _ _ _ _) in *.
    pose proof (Z.mul_div_le u (2 ^ 40) ltac:(lia)). pose proof (Z.mul_div_le (- v) (2 ^ 40) ltac:(lia)). lia. }
  unfold min4, max4 in Hp. repeat constructor; apply Hp; lia.
Qed.

Lemma fixed_add x y a b c d :
  fixed x a b → fixed y c d → exact_range (a + c) (-40) → exact_range (b + d) (-40) →
  fixed (fadd x y) (a + c) (b + d).
Proof. intros. by apply fadd_in. Qed.
Lemma fixed_sub x y a b c d :
  fixed x a b → fixed y c d → exact_range (a - d) (-40) → exact_range (b - c) (-40) →
  fixed (fsub x y) (a - d) (b - c).
Proof. intros. by apply fsub_in. Qed.

(** Enclose an expression over enclosed variables.  The ends are evaluated at
    every operation; what is left is that they are within those of the goal. *)
Ltac fixed_step rule :=
  eapply fixed_weaken; [eapply rule; [enclose|enclose|decide_now|decide_now]|fixed_end|fixed_end]
with fixed_end :=
  lazymatch goal with
  | |- ?x ≤ ?y =>
      tryif has_evar x then (let v := eval vm_compute in y in unify x v)
      else (let v := eval vm_compute in x in unify y v);
      decide_now
  end
with enclose :=
  lazymatch goal with
  | |- fixed (fadd _ _) _ _ => fixed_step fixed_add
  | |- fixed (fsub _ _) _ _ => fixed_step fixed_sub
  | |- fixed (fmul _ _) _ _ => fixed_step fixed_mul
  | |- fixed _ _ _ => eassumption
  end.
Ltac enclose_within := eapply fixed_weaken; [enclose|decide_now|decide_now].

(** ** The sign of a rounded result *)

Definition signed (s : bool) (x : float) : Prop :=
  match x with S754_zero z | S754_infinity z | S754_finite z _ _ => z = s | S754_nan => False end.

Lemma round_signed s m e l :
  0 ≤ m → e ≤ fexp prec emax (Zdigits2 m + e) → signed s (binary_round_aux prec emax s m e l).
Proof.
  intros Hm He. destruct (round_aux_finish s m e l Hm He) as (m1 & Hq & _ & _ & _ & ->).
  rewrite fexp_unfold in *.
  assert (0 ≤ m / 2 ^ (Z.max (Zdigits2 m + e - 53) (-1074) - e)) by (apply Z.div_pos; [lia|apply Z.pow_pos_nonneg; lia]).
  unfold finish. destruct (m1 =? 2 ^ 53).
  - change (2 ^ 52) with 4503599627370496. cbv iota beta. by destruct (_ <=? _).
  - destruct m1; [done|by destruct (_ <=? _)|lia].
Qed.

(** The sign of a product, which is a number unless it is zero times infinity. *)
Lemma fmul_signed_finite s s' y m e :
  valid (S754_finite s m e) = true → valid y = true → signed s' y →
  signed (xorb s' s) (fmul y (S754_finite s m e)).
Proof.
  intros Vx Vy Hy. destruct y as [sy|sy| |sy my ey]; try done; cbn [signed] in Hy; subst; try done.
  cbn [fmul SFmul]. apply valid_exp in Vx, Vy. apply round_signed; [lia|].
  rewrite Pos2Z.inj_mul, Zdigits2_log2, fexp_unfold by lia.
  pose proof (Z.log2_mul_below (Zpos my) (Zpos m)). pose proof (Z.log2_nonneg (Zpos m)).
  pose proof (Z.log2_nonneg (Zpos my)). lia.
Qed.

Lemma fmul_signed s s' x y : valid x = true → valid y = true → signed s x → signed s' y →
  fmul x y = S754_nan ∨ signed (xorb s s') (fmul x y).
Proof.
  intros Vx Vy Hx Hy.
  destruct y as [sy|sy| |sy my ey]; try done; cbn [signed] in Hy; subst.
  1-2: destruct x as [sx|sx| |sx mx ex]; try done; cbn [signed] in Hx; subst; by (left + right).
  right. by apply fmul_signed_finite.
Qed.

Lemma fsqrt_signed x : signed false x → signed false (fsqrt x).
Proof.
  intros Hx. destruct x as [sx|sx| |sx m e]; try done; cbn [signed] in Hx; subst; [done..|].
  cbn [fsqrt SFsqrt]. destruct (SFsqrt_core_binary _ _ _ _) as [[q e'] l] eqn:E.
  apply sqrt_core in E as [Hq He]. by apply round_signed.
Qed.

Lemma SFdiv_signed s s' x y : signed s x → signed s' y →
  SFdiv prec emax x y = S754_nan ∨ signed (xorb s s') (SFdiv prec emax x y).
Proof.
  intros Hx Hy.
  destruct x as [sx|sx| |sx mx ex], y as [sy|sy| |sy my ey]; try done; cbn [signed] in Hx, Hy; subst;
    try (by left); try (by right).
  right. cbn [SFdiv]. destruct (SFdiv_core_binary _ _ _ _ _ _) as [[q e] l] eqn:E.
  apply quotient_core in E as (Hq & He & _). by apply round_signed.
Qed.

(** Not below zero: a NaN, a zero of either sign, or a positive number. *)
Definition nonneg (x : float) : Prop := fltb x f_zero = false.

Lemma nonneg_iff x : nonneg x ↔ x = S754_nan ∨ (∃ s, x = S754_zero s) ∨ signed false x.
Proof.
  unfold nonneg. destruct x as [s|[]| |[] m e]; cbn; split; intros H; try done;
    try (destruct H as [H|[[? H]|H]]; done).
  all: first [by left|by right; right|right; left; by eexists].
Qed.

Lemma signed_nonneg x : x = S754_nan ∨ signed false x → nonneg x.
Proof. rewrite nonneg_iff. tauto. Qed.

Lemma fmul_nonneg x y : valid x = true → valid y = true → nonneg x → nonneg y → nonneg (fmul x y).
Proof.
  intros Vx Vy Hx Hy. apply nonneg_iff in Hx as [->|[[s ->]|Hx]]; apply nonneg_iff in Hy as [->|[[s' ->]|Hy]].
  9: { apply signed_nonneg. exact (fmul_signed false false x y Vx Vy Hx Hy). }
  all: try (destruct x as [| | |]); try (destruct y as [| | |]); done.
Qed.

Lemma SFdiv_nonneg x y : nonneg x → y = S754_nan ∨ signed false y → nonneg (SFdiv prec emax x y).
Proof.
  intros Hx Hy. apply nonneg_iff in Hx as [->|[[s ->]|Hx]]; destruct Hy as [->|Hy].
  6: { apply signed_nonneg. exact (SFdiv_signed false false x y Hx Hy). }
  all: try (destruct x as [| | |]); try (destruct y as [| | |]); done.
Qed.

Lemma in_range_nonneg x b j : in_range x 0 b j → nonneg x.
Proof.
  intros (F & V & H & _). destruct x as [[]| | |[] m e]; try done.
  cbn [fval cond_Zopp] in H. apply dyle_sign in H; lia.
Qed.

(** A sum from below: it overflows, or stays at least a representable bound. *)
Lemma normalize_from_below n k z b j :
  0 < b → exact_range b j → (b, j) ≤d (n, k) →
  let x := binary_normalize prec emax n k z in
  x = S754_infinity false ∨ (is_finite x = true ∧ (b, j) ≤d fval x).
Proof.
  intros Hb Hr Hle x.
  destruct n as [|p|p].
  - exfalso. set (c := Z.min j k). at_scale c Hle. pose proof (Z.pow_pos_nonneg 2 (j - c)). nia.
  - assert (∃ m1 E, x = finish false m1 E ∧ 0 ≤ m1 ∧ (b, j) ≤d (m1, E)) as (m1 & E & Hx & Hm1 & Hlow).
    { subst x. cbn [binary_normalize]. unfold binary_round. rewrite shl_align_spec, digits2_log2, fexp_unfold.
      set (E := Z.max _ _). destruct (Z.ltb_spec E k); apply round_from_below; try done.
      - assert (0 < Zpos p * 2 ^ (k - E)) by (pose proof (Z.pow_pos_nonneg 2 (k - E)); lia).
        rewrite Z2Pos.id, Zdigits2_log2, Z.log2_mul_pow2, fexp_unfold by lia. lia.
      - rewrite Z2Pos.id by (pose proof (Z.pow_pos_nonneg 2 (k - E)); lia). by rewrite <- (dyeq_shift (Zpos p) k E) by lia.
      - rewrite Zdigits2_log2, fexp_unfold by lia. lia. }
    assert (is_finite x = true → (b, j) ≤d fval x) as Hfin.
    { rewrite Hx. intros F. by rewrite (finish_fval _ _ _ Hm1 F). }
    rewrite Hx in Hfin |- *. unfold finish in *. destruct (m1 =? 2 ^ 53).
    + change (2 ^ 52) with 4503599627370496 in *. cbv iota beta in *.
      destruct (_ <=? _); [right; split; [done|by apply Hfin]|by left].
    + destruct m1 as [|m1|m1]; [right; split; [done|by apply Hfin]| |lia].
      destruct (_ <=? _); [right; split; [done|by apply Hfin]|by left].
  - exfalso. set (c := Z.min j k). at_scale c Hle. pose proof (Z.pow_pos_nonneg 2 (j - c)).
    pose proof (Z.pow_pos_nonneg 2 (k - c)). nia.
Qed.

Lemma one_plus_ge y : valid y = true → signed false y →
  let z := fadd (dyadic 1 0) y in z = S754_infinity false ∨ (is_finite z = true ∧ (1, 0) ≤d fval z).
Proof.
  intros V S. destruct y as [s|s| |s m e]; try done; cbn [signed] in S; subst; [right; split; [done|decide_now]|by left|].
  change (dyadic 1 0) with (S754_finite false 4503599627370496 (-52)). cbn [fadd SFadd]. cbv zeta.
  apply normalize_from_below; [lia|split; lia|]. rewrite !shl_align_le by lia. cbn [cond_Zopp].
  set (k := Z.min (-52) e). rewrite (dyle_base (k - 52)) by lia.
  replace (0 - (k - 52)) with ((-52 - k) + 104) by lia. replace (k - (k - 52)) with 52 by lia.
  rewrite Z.pow_add_r by lia. pose proof (Z.pow_pos_nonneg 2 (-52 - k)). pose proof (Z.pow_pos_nonneg 2 (e - k)). nia.
Qed.

(** ** Quotients of ordered numbers *)

(** The correctly rounded quotient of ints is a finite float of the right sign. *)
Lemma int_truediv_finite a b x :
  0 ≤ a → 0 < b → int_truediv a b = Ok x → is_finite x = true ∧ valid x = true ∧ signed false x.
Proof.
  intros Ha Hb. unfold int_truediv. destruct b as [|b|b]; [lia| |lia].
  destruct a as [|a|a]; [by intros <-%(inj Ok)| |lia]. cbn [Z.abs Z.ltb Z.compare xorb].
  destruct (SFdiv_core_binary _ _ _ _ _ _) as [[q e] l] eqn:E.
  apply quotient_core in E as (Hq & He & _).
  pose proof (round_valid false q e l Hq He) as V. pose proof (round_signed false q e l Hq He) as S.
  destruct (binary_round_aux _ _ _ _ _ _); intros H; try done; apply (inj Ok) in H as <-; done.
Qed.

(** The order of canonical positive floats is that of their values. *)
Lemma fleb_dyle m e m' e' :
  valid (S754_finite false m e) = true → valid (S754_finite false m' e') = true →
  fleb (S754_finite false m e) (S754_finite false m' e') = true → (Zpos m, e) ≤d (Zpos m', e').
Proof.
  intros [V _]%bounded_iff [V' _]%bounded_iff H. unfold fleb, SFleb in H. cbn [SFcompare] in H.
  destruct (Z.compare_spec e e') as [->|He|He]; [|clear H|done].
  - change (Pos.compare_cont Eq m m') with (m ?= m')%positive in H. apply dyle_same.
    destruct (Pos.compare_spec m m'); [lia|lia|done].
  - rewrite (dyle_base e) by lia. rewrite Z.sub_diag, Z.mul_1_r.
    pose proof (Z.log2_spec (Zpos m) ltac:(lia)) as [_ Hm]. pose proof (Z.log2_spec (Zpos m') ltac:(lia)) as [Hm' _].
    assert (Z.succ (Z.log2 (Zpos m)) ≤ Z.log2 (Zpos m') + (e' - e)) as Hl by lia.
    apply (Z.pow_le_mono_r 2) in Hl; [|lia]. rewrite Z.pow_add_r in Hl by (try apply Z.log2_nonneg; lia).
    pose proof (Z.pow_pos_nonneg 2 (e' - e)). nia.
Qed.

(** A quotient of a number by a positive one that is at least as large. *)
Lemma quotient_unit x y :
  is_finite x = true → valid x = true → signed false x → valid y = true → is_finite y = true →
  fltb f_zero y = true → fleb x y = true → in_range (SFdiv prec emax x y) 0 1 0.
Proof.
  intros F V S Vy Fy Hy H. destruct y as [| | |[] my ey]; try done.
  destruct x as [z| | |z mx ex]; [cbn [signed] in S; subst z; decide_now|done|done|cbn [signed] in S; subst z].
  apply quotient_in; [lia|split; lia|]. rewrite Z.mul_1_l, Z.add_0_l. by apply fleb_dyle.
Qed.

(** And by one that is at most as large. *)
Lemma quotient_ge_one x y :
  is_finite x = true → valid x = true → signed false x → valid y = true → is_finite y = true →
  fltb f_zero y = true → fleb y x = true →
  let q := SFdiv prec emax x y in q = S754_infinity false ∨ (is_finite q = true ∧ (1, 0) ≤d fval q).
Proof.
  intros F V S Vy Fy Hy H. destruct y as [| | |[] my ey]; try done.
  destruct x as [z| | |z mx ex]; try done; cbn [signed] in S; subst z.
  apply fleb_dyle in H; [|done|done]. cbn [SFdiv].
  destruct (SFdiv_core_binary _ _ _ _ _ _) as [[q e] l] eqn:E. cbv zeta.
  apply quotient_core in E as (Hq & He & Hle & r & Hr & Hmul & _). cbn [xorb].
  assert ((1, 0) ≤d (q, e)) as Hlow.
  { destruct (Z_lt_le_dec 0 e) as [Hpos|Hneg].
    - rewrite (dyle_base 0) by lia. cbn [Z.sub Z.opp Z.add]. change (2 ^ 0) with 1.
      pose proof (Z.pow_pos_nonneg 2 (e - 0)). destruct (Z.eqb_spec q 0) as [->|]; [|nia].
      rewrite fexp_unfold in He. cbn in He. lia.
    - set (c := Z.min ex ey). rewrite (dyle_base c) in H by lia. rewrite (dyle_base e) by lia.
      rewrite Z.sub_diag, Z.mul_1_l, Z.mul_1_r, Z.sub_0_l.
      assert (Zpos my * 2 ^ (- e) ≤ Zpos mx * 2 ^ (ex - ey - e)) as Hm.
      { apply (Zmult_le_reg_r _ _ (2 ^ (ey - c))); [apply Z.lt_gt, Z.pow_pos_nonneg; lia|].
        rewrite <- !Z.mul_assoc, <- !Z.pow_add_r by lia.
        replace (ex - ey - e + (ey - c)) with ((ex - c) + - e) by lia.
        replace (- e + (ey - c)) with ((ey - c) + - e) by lia.
        rewrite !Z.pow_add_r by lia. pose proof (Z.pow_pos_nonneg 2 (- e)). nia. }
      nia. }
  destruct (round_from_below false q e l 1 0 ltac:(lia) ltac:(split; lia) Hq He Hlow) as (m1 & E1 & Hx & Hm1 & H1).
  set (x := binary_round_aux _ _ _ _ _ _) in *.
  assert (is_finite x = true → (1, 0) ≤d fval x) as Hfin
    by (rewrite Hx; intros Fx; by rewrite (finish_fval _ _ _ Hm1 Fx)).
  pose proof (round_signed false q e l Hq He) as Hs. fold x in Hs. clearbody x.
  destruct x as [| | |]; cbn [signed] in Hs; subst; first [done|by left|right; split; [done|by apply Hfin]].
Qed.

(** [1.0 - q], for a quotient [q] at least 1, is not positive. *)
Lemma one_minus_nonpos q :
  q = S754_infinity false ∨ (is_finite q = true ∧ (1, 0) ≤d fval q) →
  let z := fsub (dyadic 1 0) q in (∃ s, z = S754_zero s) ∨ signed true z.
Proof.
  intros H z. subst z. destruct H as [->|[F H]]; [by right|].
  destruct q as [s| | |s m e]; try done; cbn [fval] in H.
  destruct s; cbn [cond_Zopp] in H; [exfalso; apply dyle_sign in H; lia|].
  change (dyadic 1 0) with (S754_finite false 4503599627370496 (-52)). cbn [fsub SFsub]. cbv zeta.
  rewrite !shl_align_le by lia. cbn [cond_Zopp].
  set (k := Z.min (-52) e).
  match goal with |- context [binary_normalize _ _ ?s _ _] => set (n := s) end.
  assert (n ≤ 0) as Hn.
  { subst n. rewrite (dyle_base (k - 52)) in H by lia.
    replace (0 - (k - 52)) with ((-52 - k) + 104) in H by lia. replace (e - (k - 52)) with ((e - k) + 52) in H by lia.
    rewrite !Z.pow_add_r in H by lia. pose proof (Z.pow_pos_nonneg 2 (-52 - k)). lia. }
  clearbody n. destruct n as [|n|n]; [left; by eexists|lia|right]. cbn [binary_normalize].
  unfold binary_round. rewrite shl_align_spec, digits2_log2, fexp_unfold.
  set (E := Z.max _ _). destruct (Z.ltb_spec E k); apply round_signed; try lia.
  - assert (0 < Zpos n * 2 ^ (k - E)) by (pose proof (Z.pow_pos_nonneg 2 (k - E)); lia).
    rewrite Z2Pos.id, Zdigits2_log2, Z.log2_mul_pow2, fexp_unfold by lia. lia.
  - rewrite Zdigits2_log2, fexp_unfold by lia. lia.
Qed.
