(* ===== verification/PyStruct.v ===== *)
(** * The [struct] module: fixed-layout binary records

    Models [struct.pack], [struct.unpack] and [struct.calcsize] for the
    network-order (["!"]: big-endian, no padding) formats the wire protocols
    use, with the range checks that raise [struct.error]. *)

From S2P Require Import Prelude Bytes PyFloat.
From Stdlib Require Export Strings.Ascii.
From stdpp Require Export strings.

Open Scope Z_scope.

(** ** Formats *)

(** Format characters: [Q] and [q] 64-bit unsigned and signed, [I] 32-bit
    unsigned, [B] 8-bit unsigned, [d] binary64. *)
Inductive fmtc := fQ | fq | fI | fB | fd.

#[export] Instance fmtc_eq_dec : EqDecision fmtc.
Proof. solve_decision. Defined.

Definition fmtc_of_ascii (a : ascii) : res fmtc :=
  match a with
  | "Q" => Ok fQ
  | "q" => Ok fq
  | "I" => Ok fI
  | "B" => Ok fB
  | "d" => Ok fd
  | _ => Raise StructError
  end%char.

(** Parse a format string; only network order is modelled. *)
Definition parse_fmt (s : string) : res (list fmtc) :=
  match s with
  | String.String "!" s => res_map fmtc_of_ascii (String.list_ascii_of_string s)
  | _ => Raise StructError
  end.

Definition fmt_size (c : fmtc) : nat :=
  match c with fQ | fq | fd => 8 | fI => 4 | fB => 1 end.

Definition fmts_size (cs : list fmtc) : nat := sum_list_with fmt_size cs.

(** [struct.calcsize]. *)
Definition calcsize (s : string) : res Z :=
  cs ← parse_fmt s; Ok (Z.of_nat (fmts_size cs)).

(** ** Values *)

Inductive sval := SInt (z : Z) | SFloat (x : float).

#[export] Instance sval_eq_dec : EqDecision sval.
Proof. solve_decision. Defined.

(** The binary64 interchange encoding.  A NaN is packed as the quiet NaN with
    a zero payload; payloads are not modelled. *)
Definition bits_of_float (x : float) : Z :=
  match x with
  | S754_zero s => Z.b2z s * 2 ^ 63
  | S754_infinity s => Z.b2z s * 2 ^ 63 + 2047 * 2 ^ 52
  | S754_nan => 2047 * 2 ^ 52 + 2 ^ 51
  | S754_finite s m e =>
      Z.b2z s * 2 ^ 63 +
      (if Zpos m <? 2 ^ 52 then Zpos m else (e + 1075) * 2 ^ 52 + (Zpos m - 2 ^ 52))
  end.

Definition float_of_bits (z : Z) : float :=
  let s := 2 ^ 63 <=? z in
  let ex := z / 2 ^ 52 mod 2048 in
  let fr := z mod 2 ^ 52 in
  if ex =? 0 then
    match fr with Zpos m => S754_finite s m (-1074) | _ => S754_zero s end
  else if ex =? 2047 then
    if fr =? 0 then S754_infinity s else S754_nan
  else S754_finite s (Z.to_pos (fr + 2 ^ 52)) (ex - 1075).

(** ** Packing *)

Definition pack_int (n : nat) (lo hi z : Z) : res bytes :=
  if (lo <=? z) && (z <? hi) then Ok (be_encode n z) else Raise StructError.

(** One field.  An [int] given for [d] is converted first; any failure is
    reported as [struct.error]. *)
Definition pack1 (c : fmtc) (v : sval) : res bytes :=
  match c, v with
  | fQ, SInt z => pack_int 8 0 (2 ^ 64) z
  | fq, SInt z => pack_int 8 (- 2 ^ 63) (2 ^ 63) z
  | fI, SInt z => pack_int 4 0 (2 ^ 32) z
  | fB, SInt z => pack_int 1 0 (2 ^ 8) z
  | fd, SFloat x => Ok (be_encode 8 (bits_of_float x))
  | fd, SInt z =>
      match float_of_int z with
      | Ok x => Ok (be_encode 8 (bits_of_float x))
      | _ => Raise StructError
      end
  | _, SFloat _ => Raise StructError
  end.

Fixpoint pack_fields (cs : list fmtc) (vs : list sval) : res bytes :=
  match cs, vs with
  | [], [] => Ok []
  | c :: cs, v :: vs => b ← pack1 c v; bs ← pack_fields cs vs; Ok (b ++ bs)
  | _, _ => Raise StructError
  end.

Definition struct_pack (s : string) (vs : list sval) : res bytes :=
  cs ← parse_fmt s; pack_fields cs vs.

(** ** Unpacking *)

Definition unpack1 (c : fmtc) (bs : bytes) : sval :=
  match c with
  | fQ | fI | fB => SInt (be_decode bs)
  | fq => SInt (to_signed 64 (be_decode bs))
  | fd => SFloat (float_of_bits (be_decode bs))
  end.

Fixpoint unpack_fields (cs : list fmtc) (bs : bytes) : list sval :=
  match cs with
  | [] => []
  | c :: cs => unpack1 c (take (fmt_size c) bs) :: unpack_fields cs (drop (fmt_size c) bs)
  end.

(** The buffer must have exactly the size of the format. *)
Definition struct_unpack (s : string) (bs : bytes) : res (list sval) :=
  cs ← parse_fmt s;
  if (length bs =? fmts_size cs)%nat then Ok (unpack_fields cs bs) else Raise StructError.

(** ** Round trips *)

(** The values a field can hold. *)
Definition fits (c : fmtc) (v : sval) : Prop :=
  match c, v with
  | fQ, SInt z => 0 ≤ z < 2 ^ 64
  | fq, SInt z => - 2 ^ 63 ≤ z < 2 ^ 63
  | fI, SInt z => 0 ≤ z < 2 ^ 32
  | fB, SInt z => 0 ≤ z < 2 ^ 8
  | fd, SFloat x => valid x = true
  | _, _ => False
  end.

(** Prove that a list of values fits a format from range hypotheses. *)
Ltac fits_tac :=
  repeat first
    [ apply Forall2_nil_2
    | apply Forall2_cons_2; [assumption || (cbn; lia)|] ].

Lemma pack_int_ok n lo hi z bs :
  pack_int n lo hi z = Ok bs ↔ lo ≤ z < hi ∧ bs = be_encode n z.
Proof.
  unfold pack_int. destruct (Z.leb_spec lo z), (Z.ltb_spec z hi); cbn; split.
  1: by intros [= <-].
  1: by intros [_ ->].
  all: intros Hz; try discriminate Hz; exfalso; lia.
Qed.

Lemma pack1_length c v bs : pack1 c v = Ok bs → length bs = fmt_size c.
Proof.
  destruct c, v; cbn [pack1 fmt_size]; intros H; try done;
    try (apply pack_int_ok in H as [_ ->]); inv_res; apply be_encode_length.
Qed.

Lemma pack_fields_length cs vs bs : pack_fields cs vs = Ok bs → length bs = fmts_size cs.
Proof.
  revert vs bs. induction cs as [|c cs IH]; intros [|v vs] bs H; inv_res.
  rewrite length_app. erewrite pack1_length, IH by eauto. done.
Qed.

Lemma float_bits_range x : valid x = true → 0 ≤ bits_of_float x < 2 ^ 64.
Proof.
  destruct x as [[]|[]| |s m e]; cbn [bits_of_float Z.b2z]; try (intros; lia).
  intros [H1 H2]%bounded_iff.
  assert (Zpos m < 2 ^ 53) by (apply Z.log2_lt_pow2; lia).
  destruct (Z.ltb_spec (Zpos m) (2 ^ 52)).
  - destruct s; cbn [Z.b2z]; lia.
  - assert (52 ≤ Z.log2 (Zpos m)) by (apply Z.log2_le_pow2; lia).
    assert (0 ≤ e + 1075 ≤ 2046) by lia. destruct s; cbn [Z.b2z]; lia.
Qed.

Lemma float_of_bits_fields (s : bool) ex fr :
  0 ≤ ex < 2048 → 0 ≤ fr < 2 ^ 52 →
  let z := Z.b2z s * 2 ^ 63 + (ex * 2 ^ 52 + fr) in
  (2 ^ 63 <=? z) = s ∧ z / 2 ^ 52 mod 2048 = ex ∧ z mod 2 ^ 52 = fr.
Proof.
  intros Hex Hfr z. subst z. split_and!.
  - destruct s; cbn [Z.b2z]; [apply Z.leb_le|apply Z.leb_gt]; lia.
  - replace (_ + _) with ((Z.b2z s * 2048 + ex) * 2 ^ 52 + fr) by (destruct s; cbn [Z.b2z]; lia).
    rewrite Z.div_add_l, (Z.div_small fr), Z.add_0_r, Z.add_comm, Z.mod_add, Z.mod_small; lia.
  - replace (_ + _) with (fr + (Z.b2z s * 2048 + ex) * 2 ^ 52) by (destruct s; cbn [Z.b2z]; lia).
    rewrite Z.mod_add, Z.mod_small; lia.
Qed.

Lemma float_of_bits_eq s ex fr :
  0 ≤ ex < 2048 → 0 ≤ fr < 2 ^ 52 →
  float_of_bits (Z.b2z s * 2 ^ 63 + (ex * 2 ^ 52 + fr)) =
  if ex =? 0 then
    match fr with Zpos m => S754_finite s m (-1074) | _ => S754_zero s end
  else if ex =? 2047 then
    if fr =? 0 then S754_infinity s else S754_nan
  else S754_finite s (Z.to_pos (fr + 2 ^ 52)) (ex - 1075).
Proof.
  intros Hex Hfr. unfold float_of_bits.
  destruct (float_of_bits_fields s ex fr Hex Hfr) as (-> & -> & ->). done.
Qed.

Lemma float_bits_roundtrip x : valid x = true → float_of_bits (bits_of_float x) = x.
Proof.
  destruct x as [s|s| |s m e]; cbn [bits_of_float]; intros Hv.
  1: by destruct s.
  1: by destruct s.
  1: done.
  apply bounded_iff in Hv as [H1 H2].
  assert (Zpos m < 2 ^ 53) by (apply Z.log2_lt_pow2; lia).
  destruct (Z.ltb_spec (Zpos m) (2 ^ 52)).
  - assert (Z.log2 (Zpos m) < 52) by (apply Z.log2_lt_pow2; lia).
    change (Zpos m) with (0 * 2 ^ 52 + Zpos m) at 1.
    rewrite float_of_bits_eq by lia. cbn [Z.eqb]. f_equal. lia.
  - assert (52 ≤ Z.log2 (Zpos m)) by (apply Z.log2_le_pow2; lia).
    rewrite float_of_bits_eq by lia.
    rewrite (proj2 (Z.eqb_neq _ _)), (proj2 (Z.eqb_neq _ _)) by lia.
    f_equal; [|lia]. replace (Zpos m - 2 ^ 52 + 2 ^ 52) with (Zpos m) by lia. done.
Qed.

Lemma unpack1_pack1 c v :
  fits c v → ∃ bs, pack1 c v = Ok bs ∧ unpack1 c bs = v.
Proof.
  assert (∀ n lo hi z, lo ≤ z < hi → pack_int n lo hi z = Ok (be_encode n z)) as Hp.
  { intros. by apply pack_int_ok. }
  destruct c, v; cbn [fits pack1]; intros H; try done; rewrite ?Hp by done;
    eexists; (split; [reflexivity|]); cbn [unpack1].
  - rewrite be_decode_encode_small by (change (256 ^ Z.of_nat 8) with (2 ^ 64); lia). done.
  - rewrite be_decode_encode. change (256 ^ Z.of_nat 8) with (2 ^ 64).
    by rewrite to_signed_mod by lia.
  - rewrite be_decode_encode_small by (change (256 ^ Z.of_nat 4) with (2 ^ 32); lia). done.
  - rewrite be_decode_encode_small by (change (256 ^ Z.of_nat 1) with (2 ^ 8); lia). done.
  - pose proof (float_bits_range x H).
    rewrite be_decode_encode_small by (change (256 ^ Z.of_nat 8) with (2 ^ 64); lia).
    by rewrite float_bits_roundtrip.
Qed.

Lemma unpack_pack_fields cs vs :
  Forall2 fits cs vs → ∃ bs, pack_fields cs vs = Ok bs ∧ unpack_fields cs bs = vs.
Proof.
  induction 1 as [|c v cs vs Hcv _ (bs & Hbs & IH)]; [by exists []|].
  destruct (unpack1_pack1 c v Hcv) as (b & Hb & Hu).
  exists (b ++ bs). cbn [pack_fields unpack_fields]. py_unfold. rewrite Hb, Hbs.
  split; [done|]. pose proof (pack1_length c v b Hb) as Hlen.
  rewrite take_app_length', drop_app_length' by done. congruence.
Qed.

(** [unpack] inverts [pack] on every list of values that fits the format. *)
Lemma struct_roundtrip s cs vs :
  parse_fmt s = Ok cs → Forall2 fits cs vs →
  ∃ bs, struct_pack s vs = Ok bs ∧ length bs = fmts_size cs ∧ struct_unpack s bs = Ok vs.
Proof.
  intros Hs (bs & Hp & Hu)%unpack_pack_fields. exists bs.
  unfold struct_pack, struct_unpack. py_unfold. rewrite Hs.
  pose proof (pack_fields_length _ _ _ Hp) as Hl. rewrite Hl, Nat.eqb_refl. by rewrite Hu.
Qed.

(** The bytes of a field that fits. *)
Definition enc1 (c : fmtc) (v : sval) : bytes :=
  match v with
  | SInt z => be_encode (fmt_size c) z
  | SFloat x => be_encode (fmt_size c) (bits_of_float x)
  end.

(** The codecs loop over the format only. *)
Lemma pack_fields_fuel cs vs : fuel_free (pack_fields cs vs).
Proof.
  revert vs. induction cs as [|c cs IH]; intros [|v vs]; cbn [pack_fields]; auto with total.
  apply fuel_free_bind; [|auto with total].
  destruct c, v; cbn [pack1]; unfold pack_int; try case_match; done.
Qed.

Lemma parse_fmt_fuel s : fuel_free (parse_fmt s).
Proof.
  assert (∀ l, fuel_free (res_map fmtc_of_ascii l)) as H.
  { induction l as [|a l IH]; cbn [res_map]; [done|]. apply fuel_free_bind; [|auto with total].
    destruct a as [[] [] [] [] [] [] [] []]; done. }
  destruct s as [|[[] [] [] [] [] [] [] []] s]; try done. apply H.
Qed.

Lemma struct_pack_fuel s vs : fuel_free (struct_pack s vs).
Proof. apply fuel_free_bind; [apply parse_fmt_fuel|]. intros. apply pack_fields_fuel. Qed.
Lemma struct_unpack_fuel s bs : fuel_free (struct_unpack s bs).
Proof. apply fuel_free_bind; [apply parse_fmt_fuel|]. intros. by case_match. Qed.
#[export] Hint Resolve struct_pack_fuel struct_unpack_fuel : total.

Lemma pack1_eq c v : fits c v → pack1 c v = Ok (enc1 c v).
Proof. destruct c, v; cbn [fits pack1 enc1]; intros; try done; by apply pack_int_ok. Qed.

Lemma pack_fields_eq cs vs :
  Forall2 fits cs vs → pack_fields cs vs = Ok (concat (zip_with enc1 cs vs)).
Proof.
  induction 1 as [|c v cs vs Hcv _ IH]; [done|]. cbn [pack_fields zip_with concat].
  py_unfold. by rewrite (pack1_eq c v Hcv), IH.
Qed.

Lemma struct_pack_eq s cs vs :
  parse_fmt s = Ok cs → Forall2 fits cs vs → struct_pack s vs = Ok (concat (zip_with enc1 cs vs)).
Proof. intros Hs Hf. unfold struct_pack. py_unfold. rewrite Hs. by apply pack_fields_eq. Qed.

Lemma struct_unpack_eq s cs vs :
  parse_fmt s = Ok cs → Forall2 fits cs vs →
  struct_unpack s (concat (zip_with enc1 cs vs)) = Ok vs.
Proof.
  intros Hs Hf. destruct (struct_roundtrip s cs vs Hs Hf) as (bs & Hp & _ & Hu).
  rewrite (struct_pack_eq s cs vs Hs Hf) in Hp. by injection Hp as <-.
Qed.

(** An integer field that does not fit is a [struct.error]. *)
Lemma pack1_error c z : c ≠ fd → ¬ fits c (SInt z) → pack1 c (SInt z) = Raise StructError.
Proof.
  assert (∀ n lo hi, ¬ (lo ≤ z < hi) → pack_int n lo hi z = Raise StructError) as Hp.
  { intros n lo hi H. unfold pack_int. destruct (Z.leb_spec lo z), (Z.ltb_spec z hi); cbn; done || lia. }
  destruct c; cbn [fits pack1]; intros; try done; by apply Hp.
Qed.

Lemma pack_fields_error cs zs :
  fd ∉ cs → length cs = length zs → ¬ Forall2 fits cs (SInt <$> zs) →
  pack_fields cs (SInt <$> zs) = Raise StructError.
Proof.
  revert zs. induction cs as [|c cs IH]; intros [|z zs] Hd Hl Hf; try done.
  { destruct Hf. constructor. }
  apply not_elem_of_cons in Hd as [Hc Hcs]. cbn in *.
  destruct (pack1 c (SInt z)) as [b|e|] eqn:Hb.
  - py_unfold. rewrite IH; [done..|lia|]. intros Hrest. apply Hf. constructor; [|done].
    destruct c; try congruence; cbn [pack1 fits] in *; by apply pack_int_ok in Hb as [? _].
  - py_unfold. rewrite pack1_error in Hb; [congruence|done|].
    intros Hfit. apply pack1_eq in Hfit. congruence.
  - destruct c; try congruence; cbn [pack1] in Hb; unfold pack_int in Hb; by case_match.
Qed.

(** For integer formats the converse holds too: packing what was unpacked
    gives back the buffer. *)
Lemma pack1_unpack1 c bs :
  c ≠ fd → length bs = fmt_size c → pack1 c (unpack1 c bs) = Ok bs ∧ fits c (unpack1 c bs).
Proof.
  intros Hc Hl. pose proof (be_decode_range bs) as Hr. rewrite Hl in Hr.
  destruct c; try done; cbn [unpack1 pack1 fmt_size fits] in *.
  2:{ change (256 ^ Z.of_nat 8) with (2 ^ 64) in Hr.
      pose proof (to_signed_range 64 (be_decode bs) ltac:(lia) Hr).
      split; [|by cbn in *]. apply pack_int_ok. split; [by cbn in *|].
      rewrite <- (be_encode_mod 8 (to_signed _ _)). change (256 ^ Z.of_nat 8) with (2 ^ 64).
      rewrite to_signed_unsigned by lia. symmetry. by apply be_encode_decode_length. }
  all: split; [apply pack_int_ok; split|]; try (cbn in *; lia); symmetry;
    by apply be_encode_decode_length.
Qed.

Lemma pack_unpack_fields cs bs :
  fd ∉ cs → length bs = fmts_size cs →
  pack_fields cs (unpack_fields cs bs) = Ok bs ∧ Forall2 fits cs (unpack_fields cs bs).
Proof.
  revert bs. induction cs as [|c cs IH]; intros bs Hd Hl; cbn [unpack_fields pack_fields] in *.
  - destruct bs; done.
  - apply not_elem_of_cons in Hd as [Hc Hcs]. cbn [fmts_size sum_list_with] in Hl.
    destruct (pack1_unpack1 c (take (fmt_size c) bs)) as [H1 H2];
      [done|rewrite length_take; unfold fmts_size in Hl; lia|].
    destruct (IH (drop (fmt_size c) bs)) as [H3 H4]; [done|rewrite length_drop; unfold fmts_size in *; lia|].
    py_unfold. rewrite H1, H3, take_drop. split; [done|]. by constructor.
Qed.
