(* ===== verification/PyStatistics.v ===== *)
(** * Python numbers and the [statistics] module

    The reports compute with values that are ints or floats, and with the
    functions of the standard module [statistics], which accumulates exact
    fractions and rounds once at the end.  Fractions are [Q] here. *)

From S2P Require Import Prelude PyFloat.

Open Scope Z_scope.

(** An int or a float. *)
Inductive num := NInt (z : Z) | NFloat (x : float).

#[export] Instance num_eq_dec : EqDecision num.
Proof. solve_decision. Defined.

#[export] Instance NFloat_inj : Inj (=) (=) NFloat.
Proof. by intros ?? [= ->]. Qed.

(** [float(x)], the conversion mixed arithmetic makes. *)
Definition to_float (x : num) : res float :=
  match x with NInt z => float_of_int z | NFloat x => Ok x end.

(** An operator on two numbers: exact on ints, on floats otherwise. *)
Definition num_op (zop : Z → Z → Z) (fop : float → float → float) (x y : num) : res num :=
  match x, y with
  | NInt a, NInt b => Ok (NInt (zop a b))
  | _, _ => a ← to_float x; b ← to_float y; Ok (NFloat (fop a b))
  end.
Definition num_add : num → num → res num := num_op Z.add fadd.
Definition num_sub : num → num → res num := num_op Z.sub fsub.
Definition num_mul : num → num → res num := num_op Z.mul fmul.

(** True division. *)
Definition num_div (x y : num) : res num :=
  match x, y with
  | NInt a, NInt b => q ← int_truediv a b; Ok (NFloat q)
  | _, _ => a ← to_float x; b ← to_float y; q ← fdiv a b; Ok (NFloat q)
  end.

(** [x > 0] and [x == 0]. *)
Definition num_pos (x : num) : bool :=
  match x with NInt z => 0 <? z | NFloat x => fltb f_zero x end.
Definition num_is_zero (x : num) : bool :=
  match x with NInt z => z =? 0 | NFloat x => feqb x f_zero end.

(** [round(x)]. *)
Definition num_round (x : num) : res Z :=
  match x with NInt z => Ok z | NFloat x => py_round x end.

(** [sum(...)]: left to right, from the int 0. *)
Fixpoint num_sum (acc : num) (xs : list num) : res num :=
  match xs with
  | [] => Ok acc
  | x :: xs => acc ← num_add acc x; num_sum acc xs
  end.

Lemma to_float_fuel x : fuel_free (to_float x).
Proof. destruct x; cbn; [|done]. unfold float_of_int. by case_match. Qed.
Lemma num_op_fuel zop fop x y : fuel_free (num_op zop fop x y).
Proof.
  destruct x, y; cbn [num_op]; [done|..]; repeat (apply fuel_free_bind; [apply to_float_fuel|intros]); done.
Qed.
Lemma num_round_fuel x : fuel_free (num_round x).
Proof. destruct x; cbn; [done|]. unfold py_round. by repeat case_match. Qed.
Lemma float_of_int_fuel n : fuel_free (float_of_int n).
Proof. unfold float_of_int. by case_match. Qed.
Lemma fdiv_fuel x y : fuel_free (fdiv x y).
Proof. unfold fdiv. by case_match. Qed.
Lemma py_round_fuel x : fuel_free (py_round x).
Proof. unfold py_round. by case_match. Qed.
Lemma int_truediv_fuel a b : fuel_free (int_truediv a b).
Proof.
  unfold int_truediv. destruct b; [done|..]; (destruct a; [done|..]);
    destruct (SFdiv_core_binary _ _ _ _ _ _) as [[mz ez] lz]; by destruct (binary_round_aux _ _ _ _ _ _).
Qed.
#[export] Hint Resolve to_float_fuel num_op_fuel num_round_fuel float_of_int_fuel fdiv_fuel
  py_round_fuel int_truediv_fuel : total.

Lemma num_div_fuel x y : fuel_free (num_div x y).
Proof. destruct x, y; cbn [num_div]; auto with total. Qed.
#[export] Hint Resolve num_div_fuel : total.

(** A quotient is a float, whatever its operands are. *)
Lemma num_div_float x y q : num_div x y = Ok q → ∃ f, q = NFloat f.
Proof.
  destruct x as [a|x], y as [b|y]; cbn [num_div]; intros H; repeat apply res_bind_ok in H as (? & _ & H);
    apply (inj Ok) in H as <-; by eexists.
Qed.

(** ** Fractions *)

(** [x.as_integer_ratio()]; none for infinities and NaNs. *)
Definition as_ratio (x : num) : option Q :=
  match x with
  | NInt z => Some (inject_Z z)
  | NFloat (S754_zero _) => Some 0%Q
  | NFloat (S754_finite s m e) =>
      Some (if 0 <=? e then inject_Z (cond_Zopp s (Zpos m) * 2 ^ e)
            else cond_Zopp s (Zpos m) # Z.to_pos (2 ^ (- e)))
  | NFloat _ => None
  end.

Definition is_float (x : num) : bool := match x with NFloat _ => true | NInt _ => false end.

Definition qsum (l : list Q) : Q := foldr Qplus 0%Q l.

(** [_convert(value, T)]: an int only when every datum was one and the fraction
    is whole, else the nearest float. *)
Definition convert (v : Q) (xs : list num) : res num :=
  let v := Qred v in
  if negb (existsb is_float xs) && (Qden v =? 1)%positive then Ok (NInt (Qnum v))
  else x ← int_truediv (Qnum v) (Zpos (Qden v)); Ok (NFloat x).

(** The infinities and NaNs of the data, which [_sum] adds up instead. *)
Definition specials (xs : list num) : list float :=
  omap (λ x, match x, as_ratio x with NFloat f, None => Some f | _, _ => None end) xs.

Definition special_sum (xs : list num) : option float :=
  match specials xs with [] => None | fs => Some (fold_left fadd fs f_zero) end.

Definition ratios (xs : list num) : list Q := omap as_ratio xs.

Definition count (xs : list num) : Q := inject_Z (Z.of_nat (length xs)).

(** [mean] *)
Definition mean (xs : list num) : res num :=
  if decide (xs = []) then Raise StatisticsError else
  match special_sum xs with
  | Some f => n ← float_of_int (Z.of_nat (length xs)); q ← fdiv f n; Ok (NFloat q)
  | None => convert (qsum (ratios xs) / count xs) xs
  end.

(** The sum of squared deviations of [_ss], as a fraction. *)
Definition ss (qs : list Q) : Q :=
  let n := inject_Z (Z.of_nat (length qs)) in
  let sx := qsum qs in
  let sxx := qsum ((λ q, q * q)%Q <$> qs) in
  ((n * sxx - sx * sx) / n)%Q.

(** [pvariance] *)
Definition pvariance (xs : list num) : res num :=
  if decide (xs = []) then Raise StatisticsError else
  match special_sum xs with
  | Some f => n ← float_of_int (Z.of_nat (length xs)); q ← fdiv f n; Ok (NFloat q)
  | None => convert (ss (ratios xs) / count xs) xs
  end.

(** [int.bit_length()] of a non-negative int. *)
Definition bit_length (n : Z) : Z := if n =? 0 then 0 else Z.log2 n + 1.

(** [_integer_sqrt_of_frac_rto]: round to odd. *)
Definition integer_sqrt_rto (n m : Z) : Z :=
  let a := Z.sqrt (n / m) in
  Z.lor a (if a * a * m =? n then 0 else 1).

(** [_float_sqrt_of_frac] *)
Definition float_sqrt_of_frac (n m : Z) : res float :=
  let q := (bit_length n - bit_length m - (2 * 53 + 3)) / 2 in
  if 0 <=? q then int_truediv (Z.shiftl (integer_sqrt_rto n (Z.shiftl m (2 * q))) q) 1
  else int_truediv (integer_sqrt_rto (Z.shiftl n (- (2 * q))) m) (Z.shiftl 1 (- q)).

(** [stdev] of ints. *)
Definition stdev (xs : list Z) : res float :=
  if (length xs <? 2)%nat then Raise StatisticsError else
  let v := Qred (ss (inject_Z <$> xs) / inject_Z (Z.of_nat (length xs) - 1)) in
  float_sqrt_of_frac (Qnum v) (Zpos (Qden v)).

Lemma convert_fuel v xs : fuel_free (convert v xs).
Proof. unfold convert. destruct (_ && _); auto with total. Qed.
#[export] Hint Resolve convert_fuel : total.

Lemma mean_fuel xs : fuel_free (mean xs).
Proof. unfold mean. destruct (decide _); [done|]. destruct (special_sum xs); auto 6 with total. Qed.
Lemma pvariance_fuel xs : fuel_free (pvariance xs).
Proof. unfold pvariance. destruct (decide _); [done|]. destruct (special_sum xs); auto 6 with total. Qed.
Lemma stdev_fuel xs : fuel_free (stdev xs).
Proof. unfold stdev, float_sqrt_of_frac. destruct (_ <? _)%nat; [done|]. destruct (_ <=? _); auto with total. Qed.
#[export] Hint Resolve mean_fuel pvariance_fuel stdev_fuel : total.

Example mean_ex : mean [NInt 20; NInt (-12)] = Ok (NInt 4).
Proof. vm_compute. reflexivity. Qed.
Example stdev_ex : stdev [20; -12] = Ok (S754_finite false 6369051672525773 (-48)).
Proof. vm_compute. reflexivity. Qed.

(** ** What the exact computation means *)

#[export] Instance convert_proper xs : Proper (Qeq ==> eq) (λ v, convert v xs).
Proof. intros v w H. unfold convert. by rewrite (Qred_complete _ _ H). Qed.

Lemma qsum_deviations (mu : Q) qs :
  (qsum ((λ q, (q - mu) * (q - mu)) <$> qs) ==
   qsum ((λ q, q * q) <$> qs) - (2 # 1) * mu * qsum qs +
   inject_Z (Z.of_nat (length qs)) * (mu * mu))%Q.
Proof.
  induction qs as [|q qs IH]; cbn [fmap list_fmap qsum foldr length].
  - change (inject_Z (Z.of_nat 0)) with 0%Q. ring.
  - unfold qsum in IH. rewrite IH.
    rewrite Nat2Z.inj_succ, <- Z.add_1_l, inject_Z_plus. change (inject_Z 1) with 1%Q. ring.
Qed.

Lemma length_nonzero {A} (l : list A) : l ≠ [] → ¬ (inject_Z (Z.of_nat (length l)) == 0)%Q.
Proof. destruct l; [done|]. intros _ H. unfold Qeq in H. cbn in H. lia. Qed.

(** The one-pass formula is the sum of the squared deviations from the mean. *)
Lemma ss_deviations qs :
  qs ≠ [] →
  let mu := (qsum qs / inject_Z (Z.of_nat (length qs)))%Q in
  (ss qs == qsum ((λ q, (q - mu) * (q - mu)) <$> qs))%Q.
Proof.
  intros Hne mu. rewrite qsum_deviations. unfold ss, mu. field. by apply length_nonzero.
Qed.

Lemma qsum_nonneg qs : Forall (λ q, 0 <= q)%Q qs → (0 <= qsum qs)%Q.
Proof.
  induction 1 as [|q qs Hq _ IH]; cbn [qsum foldr]; [done|].
  change 0%Q with (0 + 0)%Q. by apply Qplus_le_compat.
Qed.

Lemma qsum_zero qs : Forall (λ q, q == 0)%Q qs → (qsum qs == 0)%Q.
Proof.
  induction 1 as [|q qs Hq _ IH]; cbn [qsum foldr]; [done|]. unfold qsum in IH. rewrite Hq, IH. ring.
Qed.

(** Data without infinities and NaNs. *)
Definition finite_data (xs : list num) : Prop := Forall (λ x, is_Some (as_ratio x)) xs.

#[export] Instance finite_data_dec xs : Decision (finite_data xs).
Proof. unfold finite_data. apply _. Defined.

Lemma finite_specials xs :
  finite_data xs → special_sum xs = None ∧ length (ratios xs) = length xs.
Proof.
  unfold special_sum. intros Hf. assert (specials xs = [] ∧ length (ratios xs) = length xs) as [-> ?].
  { induction Hf as [|x xs [q Hq] _ [IH1 IH2]]; [done|].
    unfold specials, ratios in *. cbn [omap list_omap length].
    destruct x; rewrite Hq; cbn [length]; (split; [exact IH1|by f_equal]). }
  done.
Qed.

(** The population variance of finite data, as a rational. *)
Definition variance (qs : list Q) : Q :=
  let n := inject_Z (Z.of_nat (length qs)) in
  let mu := (qsum qs / n)%Q in
  (qsum ((λ q, (q - mu) * (q - mu)) <$> qs) / n)%Q.

Lemma pvariance_finite xs :
  finite_data xs → xs ≠ [] → pvariance xs = convert (variance (ratios xs)) xs.
Proof.
  intros Hf Hne. destruct (finite_specials xs Hf) as [Hs Hl].
  assert (ratios xs ≠ []) as Hr by (intros E; rewrite E in Hl; by destruct xs).
  unfold pvariance. rewrite decide_False, Hs by done. apply convert_proper.
  unfold variance, count. rewrite <- Hl, (ss_deviations _ Hr). done.
Qed.

Lemma convert_zero v xs :
  (v == 0)%Q →
  convert v xs = Ok (if existsb is_float xs then NFloat f_zero else NInt 0).
Proof.
  intros H. unfold convert. rewrite (Qred_complete v 0 H). change (Qred 0) with (0 # 1)%Q.
  by destruct (existsb is_float xs).
Qed.

(** A series whose values are all the same number has variance zero. *)
Lemma variance_constant c qs : Forall (λ q, q == c)%Q qs → qs ≠ [] → (variance qs == 0)%Q.
Proof.
  intros Hc Hne. unfold variance.
  assert (qsum qs == inject_Z (Z.of_nat (length qs)) * c)%Q as Hs.
  { clear Hne. induction Hc as [|q qs Hq _ IH]; cbn [qsum foldr length].
    - change (inject_Z (Z.of_nat 0)) with 0%Q. ring.
    - unfold qsum in IH. rewrite IH, Hq.
      rewrite Nat2Z.inj_succ, <- Z.add_1_l, inject_Z_plus. change (inject_Z 1) with 1%Q. ring. }
  rewrite qsum_zero; [field; by apply length_nonzero|].
  apply Forall_fmap. eapply Forall_impl; [exact Hc|]. intros q Hq. cbn.
  rewrite Hs, Hq. field. by apply length_nonzero.
Qed.

Lemma variance_nonneg qs : (0 <= variance qs)%Q.
Proof.
  unfold variance, Qdiv. apply Qmult_le_0_compat.
  - apply qsum_nonneg, Forall_fmap, Forall_true. intros q. cbn.
    set (d := (q - _)%Q). destruct (Qlt_le_dec d 0) as [Hd|Hd].
    + setoid_replace (d * d)%Q with ((- d) * (- d))%Q using relation Qeq by ring.
      apply Qlt_le_weak in Hd. apply Qmult_le_0_compat; by apply Qopp_le_compat in Hd.
    + by apply Qmult_le_0_compat.
  - apply Qinv_le_0_compat. unfold Qle. cbn. lia.
Qed.

(** *** The mean and the standard deviation

    Both come from an exact rational: the mean is that rational rounded, the
    deviation the float computed for the square root of the sample variance (the
    squared deviations over one less than their number). *)

Definition exact_mean (xs : list num) : res num := convert (qsum (ratios xs) / count xs) xs.

Lemma mean_exact xs : finite_data xs → xs ≠ [] → mean xs = exact_mean xs.
Proof.
  intros Hf Hne. unfold mean. rewrite decide_False by done. by destruct (finite_specials xs Hf) as [-> _].
Qed.

Definition sample_variance (qs : list Q) : Q :=
  let n := inject_Z (Z.of_nat (length qs)) in
  let mu := (qsum qs / n)%Q in
  (qsum ((λ q, (q - mu) * (q - mu)) <$> qs) / (n - 1))%Q.

(** The float [statistics] returns for the square root of a fraction. *)
Definition sqrt_rounded (v : Q) : res float :=
  let v := Qred v in float_sqrt_of_frac (Qnum v) (Zpos (Qden v)).

#[export] Instance sqrt_rounded_proper : Proper (Qeq ==> eq) sqrt_rounded.
Proof. intros v w H. unfold sqrt_rounded. by rewrite (Qred_complete _ _ H). Qed.

Lemma sqrt_rounded_zero : sqrt_rounded 0 = Ok f_zero.
Proof. vm_compute. reflexivity. Qed.

Lemma stdev_exact ts :
  (2 ≤ length ts)%nat → stdev ts = sqrt_rounded (sample_variance (inject_Z <$> ts)).
Proof.
  intros Hl. unfold stdev. destruct (Nat.ltb_spec (length ts) 2); [lia|].
  apply sqrt_rounded_proper. assert (inject_Z <$> ts ≠ []) as Hne by by destruct ts; cbn in *; [lia|].
  pose proof (ss_deviations _ Hne) as Hss. cbv zeta in Hss. rewrite Hss. unfold sample_variance.
  rewrite length_map. unfold Z.sub, Qminus. by rewrite inject_Z_plus.
Qed.

Lemma qsum_square_deviations_constant c qs :
  Forall (λ q, q == c)%Q qs → qs ≠ [] →
  let mu := (qsum qs / inject_Z (Z.of_nat (length qs)))%Q in
  (qsum ((λ q, (q - mu) * (q - mu)) <$> qs) == 0)%Q.
Proof.
  intros Hc Hne mu. pose proof (variance_constant c qs Hc Hne) as Hv. unfold variance in Hv. fold mu in Hv.
  set (d := qsum (_ <$> _)) in *. pose proof (length_nonzero qs Hne) as Hn. clearbody d.
  set (n := inject_Z _) in *. clearbody n.
  setoid_replace d with (d / n * n)%Q using relation Qeq by (field; exact Hn). rewrite Hv. ring.
Qed.

(** Equal data deviate by exactly 0.0. *)
Lemma stdev_constant t ts : Forall (eq t) ts → (2 ≤ length ts)%nat → stdev ts = Ok f_zero.
Proof.
  intros Ht Hl. rewrite stdev_exact, <- sqrt_rounded_zero by done. apply sqrt_rounded_proper.
  pose proof (qsum_square_deviations_constant (inject_Z t) (inject_Z <$> ts)) as Hz. cbv zeta in Hz.
  unfold sample_variance. cbv zeta. rewrite Hz.
  - unfold Qdiv. ring.
  - apply Forall_fmap. eapply Forall_impl; [exact Ht|]. by intros ? <-.
  - destruct ts; cbn in *; [lia|done].
Qed.

Lemma Qred_nonneg v : (0 <= v)%Q → 0 ≤ Qnum (Qred v).
Proof.
  intros H. rewrite <- (Qred_correct v) in H. unfold Qle in H. cbn in H. lia.
Qed.
