(* ===== verification/PyText.v ===== *)
(** * The text of numbers in Python

    What the f-strings of the drivers print: [str] of an int, and a number in
    the formats [.2f] and [.1%].  A float is rounded to the given number of
    decimals from its exact value, ties to even, as the language does. *)

From stdpp Require Import strings pretty.
From S2P Require Import Prelude PyFloat PyStatistics.

Open Scope Z_scope.

(** [str(z)] *)
Definition str_int (z : Z) : string := pretty z.

Definition digit (n : Z) : Ascii.ascii := pretty_N_char (Z.to_N n).

(** The last [d] digits of [n]. *)
Fixpoint last_digits (d : nat) (n : Z) : string :=
  match d with
  | O => ""
  | S d => last_digits d (n / 10) +:+ String (digit (n mod 10)) ""
  end.

(** [n / 10^d] with [d] decimals. *)
Definition decimal_text (d : nat) (n : Z) : string :=
  pretty (n / 10 ^ Z.of_nat d) +:+ "." +:+ last_digits d (n mod 10 ^ Z.of_nat d).

Definition sign_text (s : bool) : string := if s then "-" else "".

(** [m * 2^e] in units of [10^-d], rounded. *)
Definition scaled (d : nat) (m : positive) (e : Z) : Z :=
  div_rne (Zpos m * 10 ^ Z.of_nat d * 2 ^ Z.max e 0) (2 ^ Z.max (- e) 0).

(** [format(x, ".<d>f")] of a float, for [d > 0]. *)
Definition format_float (d : nat) (x : float) : string :=
  match x with
  | S754_nan => "nan"
  | S754_infinity s => sign_text s +:+ "inf"
  | S754_zero s => sign_text s +:+ decimal_text d 0
  | S754_finite s m e => sign_text s +:+ decimal_text d (scaled d m e)
  end.

(** The same of a number: an int is converted first. *)
Definition format_fixed (d : nat) (x : num) : res string :=
  f ← to_float x; Ok (format_float d f).

(** [format(x, ".<d>%")] *)
Definition format_percent (d : nat) (x : num) : res string :=
  f ← to_float x; Ok (format_float d (fmul f (dyadic 100 0)) +:+ "%").

Example format_half_even : format_float 2 (dyadic 1 (-3)) = "0.12"%string.
Proof. vm_compute. reflexivity. Qed.
Example format_negative : format_float 2 (dyadic (-4) (-3)) = "-0.50"%string.
Proof. vm_compute. reflexivity. Qed.
Example format_share : format_percent 1 (NFloat (dyadic 2 (-2))) = Ok "50.0%"%string.
Proof. vm_compute. reflexivity. Qed.

(** ** What is printed is the number *)

(** The printed units are within half a unit of the number. *)
Lemma scaled_nearest d m e :
  Z.abs (2 * (scaled d m e * 2 ^ Z.max (- e) 0 - Zpos m * 10 ^ Z.of_nat d * 2 ^ Z.max e 0)) ≤
    2 ^ Z.max (- e) 0.
Proof. apply div_rne_nearest. apply Z.pow_pos_nonneg; lia. Qed.

(** A number that is a multiple [u] of the unit is printed exactly. *)
Lemma format_exact d x n k u :
  repr x n k → (n * 10 ^ Z.of_nat d, k) ≡d (u, 0) → u ≠ 0 →
  format_float d x = (sign_text (u <? 0)%Z +:+ decimal_text d (Z.abs u))%string.
Proof.
  intros Hx Hu Hne. set (t := 10 ^ Z.of_nat d) in *.
  assert (0 < t) as Ht by (apply Z.pow_pos_nonneg; lia).
  assert (n ≠ 0) as Hn. { intros ->. symmetry in Hu. apply dyeq_zero in Hu. lia. }
  destruct x as [s| | |s m e]; try by destruct Hx.
  { by apply repr_zero in Hx. }
  destruct Hx as (_ & _ & Hv). cbn [fval] in Hv.
  assert ((cond_Zopp s (Zpos m) * t, e) ≡d (u, 0)) as H.
  { rewrite <- Hu. pose proof (dy_mul_proper _ _ Hv (t, 0) (t, 0) eq_refl) as H.
    unfold dy_mul in H. cbn [fst snd] in H. by rewrite !Z.add_0_r in H. }
  unfold dyeq in H. cbn [fst snd] in H. rewrite !(Z.sub_0_l (Z.min _ _)) in H.
  replace (e - Z.min e 0) with (Z.max e 0) in H by lia.
  replace (- Z.min e 0) with (Z.max (- e) 0) in H by lia.
  set (a := 2 ^ Z.max e 0) in *. set (b := 2 ^ Z.max (- e) 0) in *.
  assert (0 < a ∧ 0 < b) as [Ha Hb] by (split; apply Z.pow_pos_nonneg; lia).
  assert (scaled d m e = Z.abs u ∧ s = (u <? 0)) as [Hs ->].
  2:{ cbn [format_float]. by rewrite Hs. }
  unfold scaled. fold t a b. destruct s; cbn [cond_Zopp] in H.
  - assert (u < 0) by nia. split; [|symmetry; apply Z.ltb_lt; lia].
    replace (Zpos m * t * a) with (Z.abs u * b) by nia. by apply div_rne_exact.
  - assert (0 < u) by nia. split; [|symmetry; apply Z.ltb_ge; lia].
    replace (Zpos m * t * a) with (Z.abs u * b) by nia. by apply div_rne_exact.
Qed.
