(* ===== verification/Protocol.v ===== *)
(** * The order protocol, Python side ([strategy/orderbook_client/protocol.py])

    One type-tag byte, then a fixed-size big-endian payload.  Encoders return
    the whole message (tag included), decoders take the payload alone, as in
    the source.  Fields are unbounded Python ints until [struct.pack] checks
    them. *)

From S2P Require Import Prelude Bytes PyFloat PyStruct.

Open Scope Z_scope.

(** ** Enumerations *)

Inductive MsgType := NEW_ORDER | CANCEL | SUBSCRIBE_FILLS | FILL | ACK.

Definition MsgType_value (t : MsgType) : Z :=
  match t with
  | NEW_ORDER => 0x01
  | CANCEL => 0x02
  | SUBSCRIBE_FILLS => 0x03
  | FILL => 0x10
  | ACK => 0x11
  end.

(** [MsgType(tag)]. *)
Definition MsgType_of (tag : Z) : res MsgType :=
  if tag =? 0x01 then Ok NEW_ORDER
  else if tag =? 0x02 then Ok CANCEL
  else if tag =? 0x03 then Ok SUBSCRIBE_FILLS
  else if tag =? 0x10 then Ok FILL
  else if tag =? 0x11 then Ok ACK
  else Raise ValueError.

Inductive Side := BUY | SELL.

Definition Side_value (s : Side) : Z := match s with BUY => 0 | SELL => 1 end.
(** [Side(v)]. *)
Definition Side_of (v : Z) : res Side :=
  if v =? 0 then Ok BUY else if v =? 1 then Ok SELL else Raise ValueError.

Inductive OrderType := LIMIT | MARKET.

Definition OrderType_value (t : OrderType) : Z := match t with LIMIT => 0 | MARKET => 1 end.
(** [OrderType(v)]. *)
Definition OrderType_of (v : Z) : res OrderType :=
  if v =? 0 then Ok LIMIT else if v =? 1 then Ok MARKET else Raise ValueError.

#[export] Instance MsgType_eq_dec : EqDecision MsgType.
Proof. solve_decision. Defined.
#[export] Instance Side_eq_dec : EqDecision Side.
Proof. solve_decision. Defined.
#[export] Instance OrderType_eq_dec : EqDecision OrderType.
Proof. solve_decision. Defined.

(** ** Layouts *)

Definition _NEW_ORDER_FMT : string := "!QBBqI".
Definition _CANCEL_FMT : string := "!Q".
Definition _FILL_FMT : string := "!QQBqIQ".
Definition _ACK_FMT : string := "!QBB".

Definition PAYLOAD_SIZE (t : MsgType) : res Z :=
  match t with
  | NEW_ORDER => calcsize _NEW_ORDER_FMT
  | CANCEL => calcsize _CANCEL_FMT
  | SUBSCRIBE_FILLS => Ok 0
  | FILL => calcsize _FILL_FMT
  | ACK => calcsize _ACK_FMT
  end.

(** ** Messages *)

Record ClientOrderMsg := {
  com_client_order_id : Z;
  com_side : Side;
  com_order_type : OrderType;
  com_price_ticks : Z;
  com_quantity : Z;
}.

Record CancelMsg := { cm_client_order_id : Z }.

Record FillEvent := {
  resting_order_id : Z;
  incoming_order_id : Z;
  resting_side : Side;
  fe_price_ticks : Z;
  fe_quantity : Z;
  fe_timestamp : Z;
}.

Definition incoming_side (f : FillEvent) : Side :=
  if decide (resting_side f = BUY) then SELL else BUY.

Record AckEvent := {
  ack_client_order_id : Z;
  ack_request_type : Z;
  ack_status : Z;
}.

Definition ack_ok (a : AckEvent) : bool := ack_status a =? 0.

(** [Event = Union[AckEvent, FillEvent]] *)
Inductive Event := EvAck (a : AckEvent) | EvFill (f : FillEvent).

#[export] Instance ClientOrderMsg_eq_dec : EqDecision ClientOrderMsg.
Proof. solve_decision. Defined.
#[export] Instance FillEvent_eq_dec : EqDecision FillEvent.
Proof. solve_decision. Defined.
#[export] Instance AckEvent_eq_dec : EqDecision AckEvent.
Proof. solve_decision. Defined.
#[export] Instance Event_eq_dec : EqDecision Event.
Proof. solve_decision. Defined.

(** ** Codec *)

(** The [try] only guards [MsgType(tag)]: every member has an entry in
    [PAYLOAD_SIZE]. *)
Definition payload_size (tag : Z) : option Z :=
  match (t ← MsgType_of tag; PAYLOAD_SIZE t) with
  | Ok n => Some n
  | _ => None
  end.

Definition tag_byte (t : MsgType) : byte := Z_to_byte (MsgType_value t).

Definition encode_new_order (msg : ClientOrderMsg) : res bytes :=
  body ← struct_pack _NEW_ORDER_FMT
    [SInt (com_client_order_id msg); SInt (Side_value (com_side msg));
     SInt (OrderType_value (com_order_type msg)); SInt (com_price_ticks msg);
     SInt (com_quantity msg)];
  Ok (tag_byte NEW_ORDER :: body).

Definition decode_new_order (payload : bytes) : res ClientOrderMsg :=
  vs ← struct_unpack _NEW_ORDER_FMT payload;
  match vs with
  | [SInt id; SInt side; SInt ty; SInt price; SInt qty] =>
      s ← Side_of side;
      t ← OrderType_of ty;
      Ok {| com_client_order_id := id; com_side := s; com_order_type := t;
            com_price_ticks := price; com_quantity := qty |}
  | _ => Raise ValueError
  end.

Definition encode_cancel (msg : CancelMsg) : res bytes :=
  body ← struct_pack _CANCEL_FMT [SInt (cm_client_order_id msg)];
  Ok (tag_byte CANCEL :: body).

Definition decode_cancel (payload : bytes) : res CancelMsg :=
  vs ← struct_unpack _CANCEL_FMT payload;
  match vs with
  | [SInt id] => Ok {| cm_client_order_id := id |}
  | _ => Raise ValueError
  end.

Definition encode_subscribe_fills : bytes := [tag_byte SUBSCRIBE_FILLS].

Definition decode_fill (payload : bytes) : res FillEvent :=
  vs ← struct_unpack _FILL_FMT payload;
  match vs with
  | [SInt rid; SInt iid; SInt side; SInt price; SInt qty; SInt ts] =>
      s ← Side_of side;
      Ok {| resting_order_id := rid; incoming_order_id := iid; resting_side := s;
            fe_price_ticks := price; fe_quantity := qty; fe_timestamp := ts |}
  | _ => Raise ValueError
  end.

Definition decode_ack (payload : bytes) : res AckEvent :=
  vs ← struct_unpack _ACK_FMT payload;
  match vs with
  | [SInt id; SInt req; SInt st] =>
      Ok {| ack_client_order_id := id; ack_request_type := req; ack_status := st |}
  | _ => Raise TypeError
  end.

Definition decode_event (tag : Z) (payload : bytes) : res Event :=
  if tag =? MsgType_value FILL then f ← decode_fill payload; Ok (EvFill f)
  else if tag =? MsgType_value ACK then a ← decode_ack payload; Ok (EvAck a)
  else Raise ValueError.

(** ** Round trips *)

(** The messages whose fields fit the wire layout. *)
Definition ClientOrderMsg_ok (m : ClientOrderMsg) : Prop :=
  u64 (com_client_order_id m) ∧ i64 (com_price_ticks m) ∧ u32 (com_quantity m).
Definition FillEvent_ok (f : FillEvent) : Prop :=
  u64 (resting_order_id f) ∧ u64 (incoming_order_id f) ∧ i64 (fe_price_ticks f) ∧
  u32 (fe_quantity f) ∧ u64 (fe_timestamp f).
Definition AckEvent_ok (a : AckEvent) : Prop :=
  u64 (ack_client_order_id a) ∧ u8 (ack_request_type a) ∧ u8 (ack_status a).

#[export] Instance ClientOrderMsg_ok_dec m : Decision (ClientOrderMsg_ok m).
Proof. unfold ClientOrderMsg_ok. apply _. Defined.

Lemma Side_of_value s : Side_of (Side_value s) = Ok s.
Proof. by destruct s. Qed.
Lemma OrderType_of_value t : OrderType_of (OrderType_value t) = Ok t.
Proof. by destruct t. Qed.
Lemma MsgType_of_value t : MsgType_of (MsgType_value t) = Ok t.
Proof. by destruct t. Qed.
Lemma Side_value_u8 s : u8 (Side_value s).
Proof. by destruct s. Qed.
Lemma OrderType_value_u8 t : u8 (OrderType_value t).
Proof. by destruct t. Qed.
#[export] Hint Resolve Side_value_u8 OrderType_value_u8 : velo.
Create Rewrite HintDb enums.
#[export] Hint Rewrite Side_of_value OrderType_of_value MsgType_of_value : enums.

Lemma Side_of_inv v s : Side_of v = Ok s → v = Side_value s.
Proof. unfold Side_of. intros. repeat case_match; simplify_eq; bool_to_prop; cbn; lia. Qed.
Lemma OrderType_of_inv v t : OrderType_of v = Ok t → v = OrderType_value t.
Proof. unfold OrderType_of. intros. repeat case_match; simplify_eq; bool_to_prop; cbn; lia. Qed.

(** The fields of a message, in wire order. *)
Definition new_order_fields (m : ClientOrderMsg) : list Z :=
  [com_client_order_id m; Side_value (com_side m); OrderType_value (com_order_type m);
   com_price_ticks m; com_quantity m].

Lemma new_order_fits m :
  ClientOrderMsg_ok m ↔ Forall2 fits [fQ; fB; fB; fq; fI] (SInt <$> new_order_fields m).
Proof.
  pose proof (Side_value_u8 (com_side m)). pose proof (OrderType_value_u8 (com_order_type m)).
  unfold ClientOrderMsg_ok, new_order_fields. cbn [fmap list_fmap].
  rewrite !Forall2_cons. cbn [fits].
  unfold u8, u32, u64, i64 in *.
  split; [intros (? & ? & ?)|intros (? & ? & ? & ? & ? & _)]; split_and!; (lia || constructor).
Qed.

(** What the encoder writes, field by field. *)
Lemma encode_new_order_eq m :
  ClientOrderMsg_ok m →
  encode_new_order m = Ok (tag_byte NEW_ORDER ::
    be_encode 8 (com_client_order_id m) ++ be_encode 1 (Side_value (com_side m)) ++
    be_encode 1 (OrderType_value (com_order_type m)) ++ be_encode 8 (com_price_ticks m) ++
    be_encode 4 (com_quantity m)).
Proof.
  intros Hok%new_order_fits. unfold encode_new_order.
  change [SInt _; _; _; _; _] with (SInt <$> new_order_fields m).
  rewrite (struct_pack_eq _ [fQ; fB; fB; fq; fI]) by done.
  cbn [mbind res_bind new_order_fields fmap list_fmap zip_with concat enc1 fmt_size].
  by rewrite app_nil_r.
Qed.

Lemma encode_new_order_ok m bs : encode_new_order m = Ok bs → ClientOrderMsg_ok m.
Proof.
  intros Henc. destruct (decide (ClientOrderMsg_ok m)) as [|Hno]; [done|].
  rewrite new_order_fits in Hno. apply pack_fields_error in Hno; [|decide_now|done].
  unfold encode_new_order in Henc.
  change (struct_pack _NEW_ORDER_FMT) with (pack_fields [fQ; fB; fB; fq; fI]) in Henc.
  change [SInt _; _; _; _; _] with (SInt <$> new_order_fields m) in Henc.
  by rewrite Hno in Henc.
Qed.

(** Every order message either does not fit its layout, and encoding it raises
    [struct.error], or it encodes to the NEW_ORDER tag and a payload of exactly
    the announced size which decodes back to the message. *)
Theorem new_order_roundtrip (m : ClientOrderMsg) :
  if decide (ClientOrderMsg_ok m) then
    ∃ payload, encode_new_order m = Ok (tag_byte NEW_ORDER :: payload) ∧
      payload_size (byte_to_Z (tag_byte NEW_ORDER)) = Some (Z.of_nat (length payload)) ∧
      decode_new_order payload = Ok m
  else encode_new_order m = Raise StructError.
Proof.
  assert (∀ vs, vs = SInt <$> new_order_fields m →
    encode_new_order m = body ← struct_pack _NEW_ORDER_FMT vs; Ok (tag_byte NEW_ORDER :: body)) as Henc.
  { by intros ? ->. }
  rewrite (Henc _ eq_refl). case_decide as Hok; rewrite new_order_fits in Hok.
  - destruct (struct_roundtrip _NEW_ORDER_FMT _ _ eq_refl Hok) as (bs & Hp & Hl & Hu).
    exists bs. rewrite Hp, Hl. split_and!; [done..|].
    unfold decode_new_order. rewrite Hu. cbn [mbind res_bind new_order_fields fmap list_fmap].
    autorewrite with enums. by destruct m.
  - apply pack_fields_error in Hok; [|decide_now|done].
    change (struct_pack _NEW_ORDER_FMT) with (pack_fields [fQ; fB; fB; fq; fI]).
    by rewrite Hok.
Qed.

Lemma encode_cancel_eq m :
  encode_cancel m =
    if decide (u64 (cm_client_order_id m))
    then Ok (tag_byte CANCEL :: be_encode 8 (cm_client_order_id m)) else Raise StructError.
Proof.
  unfold encode_cancel. change (struct_pack _CANCEL_FMT) with (pack_fields [fQ]).
  case_decide as Hok.
  - rewrite (pack_fields_eq [fQ]) by (repeat constructor; apply Hok).
    cbn [mbind res_bind zip_with concat enc1 fmt_size]. by rewrite app_nil_r.
  - change [SInt ?z] with (SInt <$> [z]). rewrite pack_fields_error; [done|decide_now|done|].
    intros [Hf _]%Forall2_cons. done.
Qed.

(** Decoding is exact on every byte string: a payload of the wrong size is a
    [struct.error], one whose side or order-type byte names no enumeration
    member is a [ValueError], and any other decodes to the one message that
    encodes to it. *)
Theorem decode_new_order_spec (payload : bytes) :
  match decode_new_order payload with
  | Ok m => ClientOrderMsg_ok m ∧ encode_new_order m = Ok (tag_byte NEW_ORDER :: payload)
  | Raise StructError => length payload ≠ 22%nat
  | Raise ValueError =>
      length payload = 22%nat ∧
      (1 < byte_to_Z (nth 8 payload x00) ∨ 1 < byte_to_Z (nth 9 payload x00))
  | _ => False
  end.
Proof.
  unfold decode_new_order, struct_unpack.
  change (parse_fmt _NEW_ORDER_FMT) with (Ok [fQ; fB; fB; fq; fI]).
  cbn [mbind res_bind]. change (fmts_size _) with 22%nat.
  destruct (Nat.eqb_spec (length payload) 22) as [Hl|]; [|done]. cbn [mbind res_bind].
  destruct (pack_unpack_fields [fQ; fB; fB; fq; fI] payload) as [Hp Hf]; [decide_now|done|].
  assert (∀ i, (i < 22)%nat → be_decode (take 1 (drop i payload)) = byte_to_Z (nth i payload x00)) as Hbyte.
  { intros i Hi. destruct (lookup_lt_is_Some_2 payload i) as [b Hb]; [lia|].
    rewrite (drop_S payload b) by done. rewrite (nth_lookup_Some _ _ _ b) by done. done. }
  pose proof (Hbyte 8%nat ltac:(lia)) as H8. pose proof (Hbyte 9%nat ltac:(lia)) as H9.
  cbn [unpack_fields unpack1 fmt_size] in *. rewrite ?drop_drop in *. cbn [Nat.add] in *.
  rewrite H8, H9 in *.
  destruct (Side_of _) as [s|e|] eqn:Hs; cbn [mbind res_bind].
  - apply Side_of_inv in Hs. destruct (OrderType_of _) as [t|e|] eqn:Ht; cbn [mbind res_bind].
    + apply OrderType_of_inv in Ht. rewrite Hs, Ht in *. split; [by apply new_order_fits|].
      unfold encode_new_order.
      change (struct_pack _NEW_ORDER_FMT) with (pack_fields [fQ; fB; fB; fq; fI]).
      cbn [com_client_order_id com_side com_order_type com_price_ticks com_quantity].
      by rewrite Hp.
    + unfold OrderType_of in Ht. repeat case_match; simplify_eq. bool_to_prop.
      pose proof (byte_to_Z_range (nth 9 payload x00)). lia.
    + unfold OrderType_of in Ht. by repeat case_match.
  - unfold Side_of in Hs. repeat case_match; simplify_eq. bool_to_prop.
    pose proof (byte_to_Z_range (nth 8 payload x00)). lia.
  - unfold Side_of in Hs. by repeat case_match.
Qed.

(** ** The contract of an event source

    What a peer that speaks the protocol promises for every event it sends: the
    bytes start with a tag the client knows, the payload has the announced
    size, and it decodes to the event.  The client's theorems are proved
    against this interface; the C++ server implements it. *)
Class EventSource (enc : Event → bytes) (good : Event → Prop) : Prop :=
  event_wire e : good e → ∃ tag payload,
    enc e = tag :: payload ∧
    payload_size (byte_to_Z tag) = Some (Z.of_nat (length payload)) ∧
    decode_event (byte_to_Z tag) payload = Ok e.
