(* ===== verification/EngineProtocol.v ===== *)
(** * The order protocol, engine side ([engine/src/protocol.cpp])

    The C++ implementation of the same wire format: manual big-endian packing
    with shifts, no validation of the enumeration bytes.  A write pointer is
    the list of bytes written so far, a read pointer the bytes left; reading
    past the end of the buffer is undefined behaviour and is [None]. *)

From S2P Require Import Prelude Bytes PyFloat PyStruct Protocol.

Open Scope Z_scope.

(** ** Packing primitives *)

Definition put_u8 (p : bytes) (v : Z) : bytes := p ++ [Z_to_byte v].
Definition get_u8 (p : bytes) : option (Z * bytes) :=
  match p with [] => None | b :: p => Some (byte_to_Z b, p) end.

(** [for (shift = 8 * n - 8; shift >= 0; shift -= 8) *p++ = (v >> shift) & 0xFF] *)
Fixpoint put_shifts (n : nat) (p : bytes) (v : Z) : bytes :=
  match n with
  | O => p
  | S n => put_shifts n (p ++ [Z_to_byte (Z.land (Z.shiftr v (8 * Z.of_nat n)) 0xFF)]) v
  end.
Definition put_u32 (p : bytes) (v : Z) : bytes := put_shifts 4 p v.
Definition put_u64 (p : bytes) (v : Z) : bytes := put_shifts 8 p v.

(** [for (i = 0; i < n; ++i) v = (v << 8) | *p++], in a [w]-bit unsigned. *)
Fixpoint get_shifts (w : Z) (n : nat) (v : Z) (p : bytes) : option (Z * bytes) :=
  match n with
  | O => Some (v, p)
  | S n =>
      match p with
      | [] => None
      | b :: p => get_shifts w n (Z.lor (Z.shiftl v 8 mod 2 ^ w) (byte_to_Z b)) p
      end
  end.
Definition get_u32 (p : bytes) : option (Z * bytes) := get_shifts 32 4 0 p.
Definition get_u64 (p : bytes) : option (Z * bytes) := get_shifts 64 8 0 p.

(** [static_cast<uint64_t>] of an [int64_t], and back. *)
Definition u64_of_i64 (z : Z) : Z := z mod 2 ^ 64.
Definition i64_of_u64 (z : Z) : Z := to_signed 64 z.

(** ** Messages *)

Record WireOrder := {  (* ClientOrderMsg *)
  wo_client_order_id : Z;
  wo_side : Z;
  wo_order_type : Z;
  wo_price_ticks : Z;
  wo_quantity : Z;
}.

Record WireCancel := { wc_client_order_id : Z }.  (* CancelMsg *)

Record WireFill := {  (* FillWireMsg *)
  wf_resting_order_id : Z;
  wf_incoming_order_id : Z;
  wf_resting_side : Z;
  wf_price_ticks : Z;
  wf_quantity : Z;
  wf_timestamp : Z;
}.

Record WireAck := {  (* AckMsg *)
  wa_client_order_id : Z;
  wa_request_type : Z;
  wa_status : Z;
}.

Definition kClientOrderMsgSize : nat := 8 + 1 + 1 + 8 + 4.
Definition kCancelMsgSize : nat := 8.
Definition kFillWireMsgSize : nat := 8 + 8 + 1 + 8 + 4 + 8.
Definition kAckMsgSize : nat := 8 + 1 + 1.

Definition cpp_payload_size (tag : Z) : option nat :=
  if tag =? 0x01 then Some kClientOrderMsgSize
  else if tag =? 0x02 then Some kCancelMsgSize
  else if tag =? 0x03 then Some 0%nat
  else if tag =? 0x10 then Some kFillWireMsgSize
  else if tag =? 0x11 then Some kAckMsgSize
  else None.

Definition encode_WireOrder (msg : WireOrder) : bytes :=
  let p := put_u64 [] (wo_client_order_id msg) in
  let p := put_u8 p (wo_side msg) in
  let p := put_u8 p (wo_order_type msg) in
  let p := put_u64 p (u64_of_i64 (wo_price_ticks msg)) in
  put_u32 p (wo_quantity msg).

Definition decode_client_order (p : bytes) : option WireOrder :=
  '(id, p) ← get_u64 p;
  '(side, p) ← get_u8 p;
  '(ty, p) ← get_u8 p;
  '(price, p) ← get_u64 p;
  '(qty, p) ← get_u32 p;
  Some {| wo_client_order_id := id; wo_side := side; wo_order_type := ty;
          wo_price_ticks := i64_of_u64 price; wo_quantity := qty |}.

Definition encode_WireCancel (msg : WireCancel) : bytes := put_u64 [] (wc_client_order_id msg).

Definition cpp_decode_cancel (p : bytes) : option WireCancel :=
  '(id, p) ← get_u64 p; Some {| wc_client_order_id := id |}.

Definition encode_WireFill (msg : WireFill) : bytes :=
  let p := put_u64 [] (wf_resting_order_id msg) in
  let p := put_u64 p (wf_incoming_order_id msg) in
  let p := put_u8 p (wf_resting_side msg) in
  let p := put_u64 p (u64_of_i64 (wf_price_ticks msg)) in
  let p := put_u32 p (wf_quantity msg) in
  put_u64 p (wf_timestamp msg).

Definition cpp_decode_fill (p : bytes) : option WireFill :=
  '(rid, p) ← get_u64 p;
  '(iid, p) ← get_u64 p;
  '(side, p) ← get_u8 p;
  '(price, p) ← get_u64 p;
  '(qty, p) ← get_u32 p;
  '(ts, p) ← get_u64 p;
  Some {| wf_resting_order_id := rid; wf_incoming_order_id := iid; wf_resting_side := side;
          wf_price_ticks := i64_of_u64 price; wf_quantity := qty; wf_timestamp := ts |}.

Definition encode_WireAck (msg : WireAck) : bytes :=
  let p := put_u64 [] (wa_client_order_id msg) in
  let p := put_u8 p (wa_request_type msg) in
  put_u8 p (wa_status msg).

Definition cpp_decode_ack (p : bytes) : option WireAck :=
  '(id, p) ← get_u64 p;
  '(req, p) ← get_u8 p;
  '(st, p) ← get_u8 p;
  Some {| wa_client_order_id := id; wa_request_type := req; wa_status := st |}.

(** ** The shift loops are big-endian coding *)

Lemma put_shifts_eq n p v : put_shifts n p v = p ++ be_encode n v.
Proof.
  revert p. induction n as [|n IH]; intros p; cbn [put_shifts be_encode].
  - by rewrite app_nil_r.
  - rewrite IH, <- app_assoc. cbn [app].
    assert (∀ x y, x mod 256 = y mod 256 → Z_to_byte x = Z_to_byte y) as Hb.
    { intros x y E. apply byte_to_Z_inj. by rewrite !byte_to_Z_of_Z. }
    rewrite (Hb _ (v / 256 ^ Z.of_nat n)); [done|].
    change 0xFF with (Z.ones 8). rewrite Z.land_ones, Z.shiftr_div_pow2 by lia.
    rewrite (Z.pow_mul_r 2 8) by lia. apply Z.mod_mod. lia.
Qed.

Lemma put_u8_eq p v : put_u8 p v = p ++ be_encode 1 v.
Proof. unfold put_u8. cbn. by rewrite Z.div_1_r. Qed.

Lemma lor_shift8 v b : 0 ≤ b < 256 → Z.lor (Z.shiftl v 8) b = v * 256 + b.
Proof.
  intros Hb. pose proof (Z.add_lor_land (Z.shiftl v 8) b) as H.
  replace (Z.land (Z.shiftl v 8) b) with 0 in H; [rewrite Z.shiftl_mul_pow2 in *; lia|].
  symmetry. apply Z.bits_inj'. intros n Hn. rewrite Z.land_spec, Z.bits_0.
  destruct (Z.lt_ge_cases n 8); [by rewrite Z.shiftl_spec_low|].
  rewrite (Z.bits_above_log2 b), andb_false_r; [done|lia|].
  destruct (decide (b = 0)) as [->|]; [cbn; lia|].
  assert (Z.log2 b < 8) by (apply Z.log2_lt_pow2; lia). lia.
Qed.

Lemma get_shifts_eq w n v q r :
  length q = n → 0 ≤ v → v * 256 ^ Z.of_nat n + 256 ^ Z.of_nat n ≤ 2 ^ w →
  get_shifts w n v (q ++ r) =
    Some (foldl (λ v b, v * 256 + byte_to_Z b) v q, r).
Proof.
  revert v q. induction n as [|n IH]; intros v [|b q] Hl Hv Hw; try done.
  cbn [get_shifts app foldl]. rewrite pow256_S in Hw.
  pose proof (byte_to_Z_range b). pose proof (pow256_pos n).
  rewrite Z.mod_small by (rewrite Z.shiftl_mul_pow2 by lia; nia).
  rewrite lor_shift8 by done. apply IH; [by injection Hl|lia|]. nia.
Qed.

Lemma get_u64_app q r : length q = 8%nat → get_u64 (q ++ r) = Some (be_decode q, r).
Proof. intros. by apply get_shifts_eq. Qed.
Lemma get_u32_app q r : length q = 4%nat → get_u32 (q ++ r) = Some (be_decode q, r).
Proof. intros. by apply get_shifts_eq. Qed.
Lemma get_u8_app q r : length q = 1%nat → get_u8 (q ++ r) = Some (be_decode q, r).
Proof.
  by destruct q as [|b [|]].
Qed.

Create Rewrite HintDb wire.
#[export] Hint Rewrite put_u8_eq put_shifts_eq : wire.

(** ** Round trips on the engine side *)

Lemma put_u64_app p v : put_u64 p v = p ++ be_encode 8 v.
Proof. apply put_shifts_eq. Qed.
Lemma put_u32_app p v : put_u32 p v = p ++ be_encode 4 v.
Proof. apply put_shifts_eq. Qed.

#[export] Hint Rewrite put_u8_eq put_u64_app put_u32_app : wire.

(** Rewrite the chained writes of an encoder into one concatenation. *)
Ltac wire_encode := autorewrite with wire; rewrite <- ?app_assoc, ?app_nil_l.

(** Read one field off a buffer that starts with a known segment. *)
Ltac wire_get :=
  first
    [ rewrite get_u64_app by (apply be_encode_length || assumption)
    | rewrite get_u32_app by (apply be_encode_length || assumption)
    | rewrite get_u8_app by (apply be_encode_length || assumption) ];
  cbn [mbind option_bind].

Lemma u64_dec z : u64 z → be_decode (be_encode 8 z) = z.
Proof. intros H. by apply be_decode_encode_small. Qed.
Lemma u32_dec z : u32 z → be_decode (be_encode 4 z) = z.
Proof. intros H. by apply be_decode_encode_small. Qed.
Lemma u8_dec z : u8 z → be_decode (be_encode 1 z) = z.
Proof. intros H. by apply be_decode_encode_small. Qed.
Lemma i64_enc z : be_encode 8 (u64_of_i64 z) = be_encode 8 z.
Proof. apply (be_encode_mod 8). Qed.
Lemma i64_dec z : i64 z → i64_of_u64 (be_decode (be_encode 8 z)) = z.
Proof.
  intros H. rewrite be_decode_encode. change (256 ^ Z.of_nat 8) with (2 ^ 64).
  apply to_signed_mod; [lia|]. by cbn in *.
Qed.

#[export] Hint Rewrite i64_enc : wire.
#[export] Hint Rewrite u64_dec u32_dec u8_dec i64_dec using assumption : wire.

Definition WireFill_ok (m : WireFill) : Prop :=
  u64 (wf_resting_order_id m) ∧ u64 (wf_incoming_order_id m) ∧ u8 (wf_resting_side m) ∧
  i64 (wf_price_ticks m) ∧ u32 (wf_quantity m) ∧ u64 (wf_timestamp m).
Definition WireAck_ok (m : WireAck) : Prop :=
  u64 (wa_client_order_id m) ∧ u8 (wa_request_type m) ∧ u8 (wa_status m).

Lemma encode_WireFill_eq m :
  encode_WireFill m =
    be_encode 8 (wf_resting_order_id m) ++ be_encode 8 (wf_incoming_order_id m) ++
    be_encode 1 (wf_resting_side m) ++ be_encode 8 (wf_price_ticks m) ++
    be_encode 4 (wf_quantity m) ++ be_encode 8 (wf_timestamp m).
Proof. unfold encode_WireFill. by wire_encode. Qed.

Lemma encode_WireAck_eq m :
  encode_WireAck m =
    be_encode 8 (wa_client_order_id m) ++ be_encode 1 (wa_request_type m) ++
    be_encode 1 (wa_status m).
Proof. unfold encode_WireAck. by wire_encode. Qed.

Lemma encode_WireFill_length m : length (encode_WireFill m) = kFillWireMsgSize.
Proof. rewrite encode_WireFill_eq, !length_app, !be_encode_length. done. Qed.
Lemma encode_WireAck_length m : length (encode_WireAck m) = kAckMsgSize.
Proof. rewrite encode_WireAck_eq, !length_app, !be_encode_length. done. Qed.
