(* ===== verification/OrderBook.v ===== *)
(** * The matching engine ([engine/src/order_book.cpp])

    The limit order book the strategies trade on, in C++.  A side of the book is
    a [std::map] from prices to levels; it is modelled as the list of its levels
    in iteration order, best price first.  Timestamps are 64-bit and wrap. *)

From stdpp Require Import sorting.
From S2P Require Import Prelude Bytes PyFloat PyStruct Protocol.

Open Scope Z_scope.

(** ** Data *)

Record Order := {
  o_id : Z;
  o_side : Side;
  o_type : OrderType;
  o_price_ticks : Z;
  o_quantity : Z;
  o_timestamp : Z;
}.

Definition set_quantity (q : Z) (o : Order) : Order :=
  {| o_id := o_id o; o_side := o_side o; o_type := o_type o; o_price_ticks := o_price_ticks o;
     o_quantity := q; o_timestamp := o_timestamp o |}.
Definition set_timestamp (t : Z) (o : Order) : Order :=
  {| o_id := o_id o; o_side := o_side o; o_type := o_type o; o_price_ticks := o_price_ticks o;
     o_quantity := o_quantity o; o_timestamp := t |}.

#[export] Instance Order_eq_dec : EqDecision Order.
Proof. solve_decision. Defined.

(** A price level and its queue, oldest order first. *)
Definition level : Type := Z * list Order.

(** [Fill] has the fields of the wire message. *)
Abbreviation Fill := FillEvent.

Record OrderBook := {
  bids_ : list level;   (* descending prices *)
  asks_ : list level;   (* ascending prices *)
  order_index_ : gmap Z (Z * Side);
  next_timestamp_ : Z;
}.

Definition empty_book : OrderBook :=
  {| bids_ := []; asks_ := []; order_index_ := ∅; next_timestamp_ := 0 |}.

(** ** Matching *)

Definition tick (t : Z) : Z := (t + 1) mod 2 ^ 64.

(** The loop over one level: fill against the front order until the incoming
    quantity or the level is used up. *)
Fixpoint match_level (resting_side : Side) (price : Z) (orders : list Order) (incoming : Order)
    (index : gmap Z (Z * Side)) (ts : Z) : list Order * Order * gmap Z (Z * Side) * Z * list Fill :=
  match orders with
  | resting :: rest =>
      if o_quantity incoming =? 0 then (orders, incoming, index, ts, []) else
      let traded := Z.min (o_quantity incoming) (o_quantity resting) in
      let fill := {| resting_order_id := o_id resting; incoming_order_id := o_id incoming;
                     resting_side := resting_side; fe_price_ticks := price;
                     fe_quantity := traded; fe_timestamp := ts |} in
      let incoming := set_quantity (o_quantity incoming - traded) incoming in
      let resting := set_quantity (o_quantity resting - traded) resting in
      if o_quantity resting =? 0 then
        let '(rest, incoming, index, ts, fills) :=
          match_level resting_side price rest incoming (delete (o_id resting) index) (tick ts) in
        (rest, incoming, index, ts, fill :: fills)
      else (resting :: rest, incoming, index, tick ts, [fill])
  | [] => ([], incoming, index, ts, [])
  end.

(** The loop over the levels, best first, while the incoming order crosses. *)
Fixpoint match_levels (resting_side : Side) (crosses : Order → Z → bool) (levels : list level)
    (incoming : Order) (index : gmap Z (Z * Side)) (ts : Z) :
    list level * Order * gmap Z (Z * Side) * Z * list Fill :=
  match levels with
  | (price, orders) :: rest =>
      if (o_quantity incoming =? 0) || negb (crosses incoming price)
      then (levels, incoming, index, ts, []) else
      let '(orders, incoming, index, ts, fills) :=
        match_level resting_side price orders incoming index ts in
      match orders with
      | [] =>
          let '(rest, incoming, index, ts, fills') :=
            match_levels resting_side crosses rest incoming index ts in
          (rest, incoming, index, ts, fills ++ fills')
      | _ => ((price, orders) :: rest, incoming, index, ts, fills)
      end
  | [] => ([], incoming, index, ts, [])
  end.

Definition is_market (o : Order) : bool := bool_decide (o_type o = MARKET).
Definition buy_crosses (o : Order) (ask : Z) : bool := is_market o || (ask <=? o_price_ticks o).
Definition sell_crosses (o : Order) (bid : Z) : bool := is_market o || (o_price_ticks o <=? bid).

Definition matchBuy (incoming : Order) (b : OrderBook) : OrderBook * Order * list Fill :=
  let '(asks, incoming, index, ts, fills) :=
    match_levels SELL buy_crosses (asks_ b) incoming (order_index_ b) (next_timestamp_ b) in
  ({| bids_ := bids_ b; asks_ := asks; order_index_ := index; next_timestamp_ := ts |},
   incoming, fills).

Definition matchSell (incoming : Order) (b : OrderBook) : OrderBook * Order * list Fill :=
  let '(bids, incoming, index, ts, fills) :=
    match_levels BUY sell_crosses (bids_ b) incoming (order_index_ b) (next_timestamp_ b) in
  ({| bids_ := bids; asks_ := asks_ b; order_index_ := index; next_timestamp_ := ts |},
   incoming, fills).

(** ** The levels of a side *)

(** [better side p q]: [p] comes before [q] in the side's map. *)
Definition better (side : Side) (p q : Z) : bool :=
  match side with BUY => q <? p | SELL => p <? q end.

(** [try_emplace(price, ...)] followed by [push_back(order)]. *)
Fixpoint rest_order (side : Side) (o : Order) (levels : list level) : list level :=
  match levels with
  | [] => [(o_price_ticks o, [o])]
  | (p, orders) :: rest =>
      if p =? o_price_ticks o then (p, orders ++ [o]) :: rest
      else if better side (o_price_ticks o) p then (o_price_ticks o, [o]) :: levels
      else (p, orders) :: rest_order side o rest
  end.

(** [std::find_if] by id, then [erase]: [None] when there is no such order. *)
Fixpoint erase_order (id : Z) (orders : list Order) : option (list Order) :=
  match orders with
  | [] => None
  | o :: rest => if o_id o =? id then Some rest else (o ::.) <$> erase_order id rest
  end.

(** Remove order [id] from the level at [price], and the level when it is left
    empty: [None] when the level or the order is missing. *)
Fixpoint erase_from (id price : Z) (levels : list level) : option (list level) :=
  match levels with
  | [] => None
  | (p, orders) :: rest =>
      if p =? price then
        match erase_order id orders with
        | Some [] => Some rest
        | Some orders => Some ((p, orders) :: rest)
        | None => None
        end
      else ((p, orders) ::.) <$> erase_from id price rest
  end.

(** ** The operations *)

Definition contains (order_id : Z) (b : OrderBook) : bool :=
  bool_decide (is_Some (order_index_ b !! order_id)).

Definition submit (order : Order) (b : OrderBook) : OrderBook * list Fill :=
  if contains (o_id order) b then (b, []) else
  let order := set_timestamp (next_timestamp_ b) order in
  let b := {| bids_ := bids_ b; asks_ := asks_ b; order_index_ := order_index_ b;
              next_timestamp_ := tick (next_timestamp_ b) |} in
  let '(b, order, fills) :=
    if decide (o_side order = BUY) then matchBuy order b else matchSell order b in
  if (0 <? o_quantity order) && bool_decide (o_type order = LIMIT) then
    let index := <[o_id order := (o_price_ticks order, o_side order)]> (order_index_ b) in
    (if decide (o_side order = BUY) then
       {| bids_ := rest_order BUY order (bids_ b); asks_ := asks_ b;
          order_index_ := index; next_timestamp_ := next_timestamp_ b |}
     else
       {| bids_ := bids_ b; asks_ := rest_order SELL order (asks_ b);
          order_index_ := index; next_timestamp_ := next_timestamp_ b |}, fills)
  else (b, fills).

Definition cancel (order_id : Z) (b : OrderBook) : OrderBook * bool :=
  match order_index_ b !! order_id with
  | None => (b, false)
  | Some (price, BUY) =>
      match erase_from order_id price (bids_ b) with
      | Some bids => ({| bids_ := bids; asks_ := asks_ b;
                         order_index_ := delete order_id (order_index_ b);
                         next_timestamp_ := next_timestamp_ b |}, true)
      | None => (b, false)
      end
  | Some (price, SELL) =>
      match erase_from order_id price (asks_ b) with
      | Some asks => ({| bids_ := bids_ b; asks_ := asks;
                         order_index_ := delete order_id (order_index_ b);
                         next_timestamp_ := next_timestamp_ b |}, true)
      | None => (b, false)
      end
  end.

Definition best_bid (b : OrderBook) : option Z := fst <$> head (bids_ b).
Definition best_ask (b : OrderBook) : option Z := fst <$> head (asks_ b).

(** One row of [snapshot]: price, total quantity (32-bit), number of orders. *)
Definition snapshot_level (l : level) : Z * Z * nat :=
  (l.1, sumZ (o_quantity <$> l.2) mod 2 ^ 32, length l.2).

Definition snapshot (depth : nat) (b : OrderBook) : list (Z * Z * nat) * list (Z * Z * nat) :=
  (snapshot_level <$> take depth (bids_ b), snapshot_level <$> take depth (asks_ b)).

(** ** The specification: two priority queues

    What the book promises: each side is one queue of resting orders in
    price-time priority, and an incoming order trades against the other side's
    queue from the front. *)

Record PBook := { pb_bids : list Order; pb_asks : list Order; pb_ts : Z }.

Definition fill_of (resting incoming : Order) (traded ts : Z) : Fill :=
  {| resting_order_id := o_id resting; incoming_order_id := o_id incoming;
     resting_side := o_side resting; fe_price_ticks := o_price_ticks resting;
     fe_quantity := traded; fe_timestamp := ts |}.

(** Trade against a queue: remaining queue, remaining incoming order, fills. *)
Fixpoint trade (crosses : Order → Z → bool) (queue : list Order) (incoming : Order) (ts : Z) :
    list Order * Order * Z * list Fill :=
  match queue with
  | [] => ([], incoming, ts, [])
  | r :: queue =>
      if (o_quantity incoming =? 0) || negb (crosses incoming (o_price_ticks r))
      then (r :: queue, incoming, ts, []) else
      let traded := Z.min (o_quantity incoming) (o_quantity r) in
      let rem := set_quantity (o_quantity incoming - traded) incoming in
      if traded <? o_quantity r then
        (set_quantity (o_quantity r - traded) r :: queue, rem, tick ts, [fill_of r incoming traded ts])
      else
        let '(queue, rem, ts', fills) := trade crosses queue rem (tick ts) in
        (queue, rem, ts', fill_of r incoming traded ts :: fills)
  end.

(** Price-time priority: behind every order that is not worse. *)
Definition worse (o q : Order) : Prop := better (o_side o) (o_price_ticks o) (o_price_ticks q) = true.
#[export] Instance worse_dec o q : Decision (worse o q).
Proof. unfold worse. apply _. Defined.
Definition enqueue (o : Order) (queue : list Order) : list Order :=
  filter (λ q, ¬ worse o q) queue ++ o :: filter (worse o) queue.

Definition ids (queue : list Order) : list Z := o_id <$> queue.

Definition spec_submit (order : Order) (b : PBook) : PBook * list Fill :=
  if decide (o_id order ∈ ids (pb_bids b ++ pb_asks b)) then (b, []) else
  let order := set_timestamp (pb_ts b) order in
  let ts := tick (pb_ts b) in
  let rests o := (0 <? o_quantity o) && bool_decide (o_type o = LIMIT) in
  match o_side order with
  | BUY =>
      let '(asks, rem, ts, fills) := trade buy_crosses (pb_asks b) order ts in
      ({| pb_bids := if rests rem then enqueue rem (pb_bids b) else pb_bids b;
          pb_asks := asks; pb_ts := ts |}, fills)
  | SELL =>
      let '(bids, rem, ts, fills) := trade sell_crosses (pb_bids b) order ts in
      ({| pb_bids := bids;
          pb_asks := if rests rem then enqueue rem (pb_asks b) else pb_asks b;
          pb_ts := ts |}, fills)
  end.

Definition spec_cancel (id : Z) (b : PBook) : PBook * bool :=
  ({| pb_bids := filter (λ o, o_id o ≠ id) (pb_bids b);
      pb_asks := filter (λ o, o_id o ≠ id) (pb_asks b); pb_ts := pb_ts b |},
   bool_decide (id ∈ ids (pb_bids b ++ pb_asks b))).

(** ** The book invariant *)

Definition flat (levels : list level) : list Order := concat (snd <$> levels).

(** An order that may rest on [side] in the level at [price]. *)
Definition order_ok (side : Side) (price : Z) (o : Order) : Prop :=
  o_price_ticks o = price ∧ o_side o = side ∧ o_type o = LIMIT ∧ 0 < o_quantity o.

Definition level_ok (side : Side) (l : level) : Prop :=
  l.2 ≠ [] ∧ Forall (order_ok side l.1) l.2.

(** Levels in strict price order, none empty, each holding orders of its price
    and side. *)
Definition levels_ok (side : Side) (levels : list level) : Prop :=
  Forall (level_ok side) levels ∧
  StronglySorted (λ p q, better side p q = true) (fst <$> levels).

Definition index_of (queue : list Order) : gmap Z (Z * Side) :=
  list_to_map ((λ o, (o_id o, (o_price_ticks o, o_side o))) <$> queue).

Definition abs (b : OrderBook) : PBook :=
  {| pb_bids := flat (bids_ b); pb_asks := flat (asks_ b); pb_ts := next_timestamp_ b |}.

Definition all_orders (b : OrderBook) : list Order := flat (bids_ b) ++ flat (asks_ b).

Record book_ok (b : OrderBook) : Prop := {
  bk_bids : levels_ok BUY (bids_ b);
  bk_asks : levels_ok SELL (asks_ b);
  bk_ids : NoDup (ids (all_orders b));
  bk_index : order_index_ b = index_of (all_orders b);
  bk_uncrossed : ∀ p q, p ∈ (bids_ b).*1 → q ∈ (asks_ b).*1 → p < q;
}.

(** ** Index lemmas *)

Lemma index_of_fst queue :
  ((λ o, (o_id o, (o_price_ticks o, o_side o))) <$> queue).*1 = ids queue.
Proof. unfold ids. rewrite <- list_fmap_compose. done. Qed.

Lemma index_of_perm q1 q2 : NoDup (ids q1) → q1 ≡ₚ q2 → index_of q1 = index_of q2.
Proof.
  intros Hnd Hp. unfold index_of. apply list_to_map_proper; [by rewrite index_of_fst|].
  by rewrite Hp.
Qed.

Lemma index_of_delete o queue :
  o_id o ∉ ids queue → delete (o_id o) (index_of (o :: queue)) = index_of queue.
Proof.
  intros Hn. unfold index_of. cbn [fmap list_fmap list_to_map foldr]. cbn.
  apply delete_insert_id, not_elem_of_list_to_map_1. by rewrite index_of_fst.
Qed.

Lemma index_of_quantity q o queue : index_of (set_quantity q o :: queue) = index_of (o :: queue).
Proof. done. Qed.

Lemma index_of_lookup queue id :
  is_Some (index_of queue !! id) ↔ id ∈ ids queue.
Proof.
  unfold index_of. rewrite <- index_of_fst. split.
  - intros [v Hv]. apply elem_of_list_to_map_2 in Hv. apply list_elem_of_fmap. by exists (id, v).
  - intros Hin. apply not_eq_None_Some. rewrite <- not_elem_of_list_to_map. tauto.
Qed.

Lemma index_of_spec queue id p s :
  NoDup (ids queue) →
  index_of queue !! id = Some (p, s) ↔
  ∃ o, o ∈ queue ∧ o_id o = id ∧ o_price_ticks o = p ∧ o_side o = s.
Proof.
  intros Hnd. unfold index_of. rewrite <- elem_of_list_to_map by by rewrite index_of_fst.
  rewrite list_elem_of_fmap. naive_solver.
Qed.

(** ** Matching implements trading *)

Section Matching.
Context (side : Side) (crosses : Order → Z → bool).
Hypothesis crosses_quantity : ∀ q o p, crosses (set_quantity q o) p = crosses o p.

Lemma trade_app q1 q2 inc ts :
  trade crosses (q1 ++ q2) inc ts =
    let '(q1', inc', ts', f1) := trade crosses q1 inc ts in
    match q1' with
    | [] => let '(q2', inc'', ts'', f2) := trade crosses q2 inc' ts' in (q2', inc'', ts'', f1 ++ f2)
    | _ => (q1' ++ q2, inc', ts', f1)
    end.
Proof.
  revert inc ts. induction q1 as [|r q1 IH]; intros inc ts; cbn [app trade].
  { by destruct (trade crosses q2 inc ts) as [[[]]]. }
  destruct (_ || _); [done|]. destruct (_ <? _); [done|]. rewrite IH.
  destruct (trade crosses q1 _ _) as [[[[|r' q1'] inc'] ts'] f1]; [|done].
  by destruct (trade crosses q2 inc' ts') as [[[]]].
Qed.

Lemma order_ok_quantity p o q : 0 < q → order_ok side p o → order_ok side p (set_quantity q o).
Proof. by intros ? (? & ? & ? & ?). Qed.

(** The loop over one level trades against its queue and keeps the index in
    step with the book; [other] is the rest of the book. *)
Lemma match_level_trade price orders inc idx ts other :
  Forall (order_ok side price) orders → crosses inc price = true →
  NoDup (ids (orders ++ other)) → idx = index_of (orders ++ other) →
  let '(os', inc', idx', ts', fs) := match_level side price orders inc idx ts in
  trade crosses orders inc ts = (os', inc', ts', fs) ∧ idx' = index_of (os' ++ other) ∧
  NoDup (ids (os' ++ other)) ∧ Forall (order_ok side price) os' ∧
  (∀ p, crosses inc' p = crosses inc p).
Proof.
  intros Hok. revert inc idx ts. induction Hok as [|r rest (Hp & Hs & Ht & Hq) Hrest IH];
    intros inc idx ts Hc Hnd ->; cbn [match_level trade]; [by split_and!|].
  rewrite Hp, Hc. cbn [negb]. rewrite orb_false_r.
  destruct (Z.eqb_spec (o_quantity inc) 0) as [|Hne].
  { split_and!; try done. by constructor. }
  cbn [o_quantity set_quantity]. set (traded := Z.min _ _).
  assert (fill_of r inc traded ts = {| resting_order_id := o_id r; incoming_order_id := o_id inc;
    resting_side := side; fe_price_ticks := price; fe_quantity := traded; fe_timestamp := ts |}) as <-.
  { unfold fill_of. by rewrite Hp, Hs. }
  destruct (Z.eqb_spec (o_quantity r - traded) 0) as [Hz|Hz].
  - rewrite (proj2 (Z.ltb_ge _ _)) by lia. cbn [o_id set_quantity].
    cbn [app] in Hnd. unfold ids in Hnd. cbn [fmap list_fmap] in Hnd. apply NoDup_cons in Hnd as [Hr Hnd].
    specialize (IH (set_quantity (o_quantity inc - traded) inc)
      (delete (o_id r) (index_of ((r :: rest) ++ other))) (tick ts)).
    rewrite crosses_quantity in IH. specialize (IH Hc Hnd (index_of_delete r _ Hr)).
    destruct (match_level _ _ rest _ _ _) as [[[[os' inc'] idx'] ts'] fs].
    destruct IH as (IH1 & IH2 & IH3 & IH4 & IH5). rewrite IH1. split_and!; try done.
    intros p. by rewrite IH5, crosses_quantity.
  - rewrite (proj2 (Z.ltb_lt _ _)) by lia. split_and!; try done.
    constructor; [|done]. apply order_ok_quantity; [lia|done].
Qed.

Lemma levels_ok_cons l levels : levels_ok side (l :: levels) → levels_ok side levels.
Proof. intros [H1 H2]. apply Forall_cons in H1 as [_ ?]. cbn in H2. by apply StronglySorted_inv in H2 as [? _]. Qed.

(** All the levels together are one queue. *)
Lemma match_levels_trade levels inc idx ts other :
  levels_ok side levels → NoDup (ids (flat levels ++ other)) → idx = index_of (flat levels ++ other) →
  let '(ls', inc', idx', ts', fs) := match_levels side crosses levels inc idx ts in
  trade crosses (flat levels) inc ts = (flat ls', inc', ts', fs) ∧
  idx' = index_of (flat ls' ++ other) ∧ NoDup (ids (flat ls' ++ other)) ∧ levels_ok side ls' ∧
  (∃ n, fst <$> ls' = drop n (fst <$> levels)).
Proof.
  revert inc idx ts. induction levels as [|[p orders] levels IH];
    intros inc idx ts Hok Hnd ->; cbn [match_levels].
  { by split_and!; [..|exists 0%nat]. }
  pose proof (levels_ok_cons _ _ Hok) as Hok'. pose proof Hok as [[[Hne Hos] Hls]%Forall_cons Hsort].
  assert (∀ os, flat ((p, os) :: levels) = os ++ flat levels) as Hfl by done.
  cbn [fst snd] in Hne, Hos. rewrite !Hfl, <- app_assoc in *.
  destruct ((o_quantity inc =? 0) || negb (crosses inc p)) eqn:Hstop.
  { rewrite !Hfl, <- app_assoc. split; [|split; [done|split; [done|split; [done|by exists 0%nat]]]].
    destruct orders as [|r orders]; [done|]. apply Forall_cons in Hos as [(Hp & _) _].
    cbn [app trade]. by rewrite Hp, Hstop. }
  apply orb_false_iff in Hstop as [_ Hc]. apply negb_false_iff in Hc.
  pose proof (match_level_trade p orders inc _ ts (flat levels ++ other) Hos Hc Hnd eq_refl) as H1.
  destruct (match_level _ _ _ _ _ _) as [[[[os' inc'] idx'] ts'] fs].
  destruct H1 as (H1 & H2 & H3 & H4 & H5). rewrite trade_app, H1.
  destruct os' as [|r os'].
  - cbn [app] in H2, H3. specialize (IH inc' idx' ts' Hok' H3 H2).
    destruct (match_levels _ _ _ _ _ _) as [[[[ls' inc''] idx''] ts''] fs'].
    destruct IH as (IH1 & IH2 & IH3 & IH4 & n & IH5). rewrite IH1.
    split; [done|]. split; [done|]. split; [done|]. split; [done|]. by exists (S n).
  - rewrite !Hfl, <- app_assoc. split; [done|]. split; [done|]. split; [done|]. split; [|by exists 0%nat].
    split; [|done]. by constructor.
Qed.
End Matching.

Lemma buy_crosses_quantity q o p : buy_crosses (set_quantity q o) p = buy_crosses o p.
Proof. done. Qed.
Lemma sell_crosses_quantity q o p : sell_crosses (set_quantity q o) p = sell_crosses o p.
Proof. done. Qed.

(** ** Resting and erasing *)

Lemma better_irrefl side p : better side p p = false.
Proof. destruct side; cbn; lia. Qed.
Lemma better_trans side p q r : better side p q = true → better side q r = true → better side p r = true.
Proof. destruct side; cbn; lia. Qed.
Lemma better_total side p q : p ≠ q → better side p q = false → better side q p = true.
Proof. destruct side; cbn; lia. Qed.
Lemma better_asym side p q : better side p q = true → better side q p = false.
Proof. destruct side; cbn; lia. Qed.

(** Every order of levels beyond price [p] is worse than [p]. *)
Lemma flat_worse side p levels :
  Forall (level_ok side) levels → Forall (λ q, better side p q = true) (fst <$> levels) →
  Forall (λ o, better side p (o_price_ticks o) = true) (flat levels).
Proof.
  induction 1 as [|[q os] levels [_ Hos] _ IH]; cbn [fmap list_fmap]; [done|].
  rewrite Forall_cons. cbn [fst snd] in *. intros [Hq Hl].
  change (flat ((q, os) :: levels)) with (os ++ flat levels). apply Forall_app_2; [|auto].
  eapply Forall_impl; [exact Hos|]. intros o (-> & _). done.
Qed.

Lemma enqueue_split o q1 q2 :
  Forall (λ q, ¬ worse o q) q1 → Forall (worse o) q2 → enqueue o (q1 ++ q2) = q1 ++ o :: q2.
Proof.
  intros H1 H2. unfold enqueue. rewrite !filter_app.
  rewrite (filter_all _ q1), (filter_none (worse o) q1) by done.
  rewrite (filter_all (worse o) q2), (filter_none (λ q, ¬ worse o q) q2).
  - by rewrite app_nil_r.
  - eapply Forall_impl; [exact H2|]. tauto.
  - done.
Qed.

Lemma rest_order_keys side o levels (P : Z → Prop) :
  Forall P (fst <$> levels) → P (o_price_ticks o) → Forall P (fst <$> rest_order side o levels).
Proof.
  intros H Ho. induction levels as [|[p os] levels IH]; cbn [rest_order]; [by constructor|].
  cbn [fmap list_fmap fst] in H. apply Forall_cons in H as [Hp Hl].
  destruct (p =? _); [by constructor|]. destruct (better _ _ _); [by repeat constructor|].
  constructor; auto.
Qed.

Lemma rest_order_spec side o levels :
  levels_ok side levels → order_ok side (o_price_ticks o) o →
  flat (rest_order side o levels) = enqueue o (flat levels) ∧ levels_ok side (rest_order side o levels).
Proof.
  intros Hok Ho. pose proof Ho as (_ & Hs & _). set (price := o_price_ticks o) in *.
  assert (level_ok side (price, [o])) as Hnew by (split; [done|by constructor]).
  induction levels as [|[p os] levels IH]; cbn [rest_order].
  { split; [done|]. split; [by constructor|]. by repeat constructor. }
  specialize (IH (levels_ok_cons _ _ _ Hok)). pose proof Hok as [[[Hne Hos] Hls]%Forall_cons Hsort].
  cbn [fmap list_fmap fst snd] in *. apply StronglySorted_inv in Hsort as [Hsort Hp].
  change (flat ((p, os) :: levels)) with (os ++ flat levels). fold price.
  destruct (Z.eqb_spec p price) as [->|Hpp].
  - split.
    + change (flat ((price, os ++ [o]) :: levels)) with ((os ++ [o]) ++ flat levels).
      rewrite enqueue_split; [by rewrite <- app_assoc| |].
      * eapply Forall_impl; [exact Hos|]. intros q (Hq & _). unfold worse.
        rewrite Hs, Hq. fold price. by rewrite better_irrefl.
      * eapply Forall_impl; [by apply (flat_worse side price)|]. intros q Hq. unfold worse. by rewrite Hs.
    + split; [|by constructor]. constructor; [|done]. split; cbn; [by destruct os|].
      apply Forall_app_2; [done|by constructor].
  - destruct (better side price p) eqn:Hb.
    + split.
      * change (flat ((price, [o]) :: (p, os) :: levels)) with ([o] ++ os ++ flat levels).
        pose proof (enqueue_split o [] (os ++ flat levels)) as He. cbn [app] in He. rewrite He; [done|constructor|].
        unfold worse. rewrite Hs. fold price. apply Forall_app_2.
        -- eapply Forall_impl; [exact Hos|]. intros q (Hq & _). cbn. by rewrite Hq.
        -- apply flat_worse; [done|]. eapply Forall_impl; [exact Hp|]. intros q. by apply better_trans.
      * split; [constructor; [done|apply Hok]|]. cbn [fmap list_fmap fst]. constructor; [by constructor|].
        constructor; [done|].
        eapply Forall_impl; [exact Hp|]. intros q. by apply better_trans.
    + destruct IH as [IH1 [IH2 IH3]]. split.
      * change (flat ((p, os) :: rest_order side o levels)) with (os ++ flat (rest_order side o levels)).
        rewrite IH1. unfold enqueue.
        rewrite !filter_app, (filter_all _ os), (filter_none (worse o) os).
        -- by rewrite <- app_assoc.
        -- eapply Forall_impl; [exact Hos|]. intros q (Hq & _). unfold worse.
           rewrite Hs, Hq. fold price. by rewrite Hb.
        -- eapply Forall_impl; [exact Hos|]. intros q (Hq & _). unfold worse.
           rewrite Hs, Hq. fold price. by rewrite Hb.
      * split; [by constructor|]. cbn [fmap list_fmap fst]. constructor; [done|]. apply rest_order_keys; [done|].
        apply better_total; [done|]. fold price. by destruct (better side price p).
Qed.

Lemma filter_absent id q : id ∉ ids q → filter (λ o, o_id o ≠ id) q = q.
Proof.
  intros Hn. apply filter_all, Forall_forall. intros o Ho Heq. apply Hn.
  apply list_elem_of_fmap. by exists o.
Qed.

Lemma erase_order_spec id os :
  NoDup (ids os) → id ∈ ids os → erase_order id os = Some (filter (λ o, o_id o ≠ id) os).
Proof.
  induction os as [|o os IH]; [by intros _ ?%not_elem_of_nil|]. unfold ids. cbn [fmap list_fmap erase_order].
  intros [Ho Hnd]%NoDup_cons Hin. destruct (Z.eqb_spec (o_id o) id) as [<-|Hne].
  - rewrite filter_cons_False by tauto. by rewrite filter_absent.
  - rewrite filter_cons_True by done. apply elem_of_cons in Hin as [->|Hin]; [done|].
    by rewrite IH.
Qed.

Lemma flat_ids_app p os levels : ids (flat ((p, os) :: levels)) = ids os ++ ids (flat levels).
Proof. unfold ids, flat. cbn. by rewrite fmap_app. Qed.

Lemma erase_from_spec side id price levels :
  levels_ok side levels → NoDup (ids (flat levels)) →
  (∃ o, o ∈ flat levels ∧ o_id o = id ∧ o_price_ticks o = price) →
  ∃ ls, erase_from id price levels = Some ls ∧ flat ls = filter (λ o, o_id o ≠ id) (flat levels) ∧
    levels_ok side ls ∧ ∀ P : Z → Prop, Forall P (fst <$> levels) → Forall P (fst <$> ls).
Proof.
  intros Hok Hnd (o & Ho & Hid & Hprice).
  induction levels as [|[p os] levels IH]; cbn [erase_from]; [by apply not_elem_of_nil in Ho|].
  pose proof (levels_ok_cons _ _ _ Hok) as Hok'. pose proof Hok as [[[Hne Hos] Hls]%Forall_cons Hsort].
  cbn [fmap list_fmap fst snd] in *. apply StronglySorted_inv in Hsort as [Hsort Hp].
  rewrite flat_ids_app in Hnd. apply NoDup_app in Hnd as (Hnd1 & Hdisj & Hnd2).
  change (flat ((p, os) :: levels)) with (os ++ flat levels) in *. rewrite filter_app.
  assert (∀ x, x ∈ os → o_price_ticks x = p) as Hosp.
  { intros x Hx. rewrite Forall_forall in Hos. by apply Hos. }
  destruct (Z.eqb_spec p price) as [->|Hpp].
  - assert (o ∈ os) as Hin.
    { apply elem_of_app in Ho as [|Ho]; [done|]. exfalso.
      pose proof (flat_worse side price levels Hls Hp) as Hw. rewrite Forall_forall in Hw.
      apply Hw in Ho. by rewrite Hprice, better_irrefl in Ho. }
    assert (id ∈ ids os) as Hidin by (apply list_elem_of_fmap; by exists o).
    rewrite (erase_order_spec id os) by done.
    rewrite (filter_absent id (flat levels)) by auto.
    destruct (filter _ os) as [|x xs] eqn:Hf.
    + exists levels. split; [done|]. split; [done|]. split; [done|]. by intros P [_ ?]%Forall_cons.
    + eexists. split; [reflexivity|]. split; [done|]. split; [|done]. split; [|by constructor].
      constructor; [|done]. split; cbn [fst snd]; [done|]. rewrite <- Hf. by apply Forall_filter.
  - apply elem_of_app in Ho as [Ho|Ho]; [by apply Hosp in Ho; congruence|].
    destruct (IH Hok' Hnd2 Ho) as (ls & -> & Hfl & Hls' & HP). eexists. split; [reflexivity|].
    change (flat ((p, os) :: ls)) with (os ++ flat ls). rewrite Hfl, (filter_absent id os).
    2:{ intros Hin. apply (Hdisj id Hin). apply list_elem_of_fmap. by exists o. }
    split; [done|]. split; [|intros P; cbn [fmap list_fmap fst]; rewrite !Forall_cons; naive_solver].
    destruct Hls' as [H1 H2]. split; [by constructor|]. cbn [fmap list_fmap fst]. constructor; auto.
Qed.

(** ** Properties of trading *)

(** The quantity a list of fills executes. *)
Definition executed (fills : list Fill) : Z := sumZ (fe_quantity <$> fills).
Definition resting_qty (queue : list Order) : Z := sumZ (o_quantity <$> queue).

(** What every fill of an incoming order against [queue] satisfies. *)
Definition fill_ok (crosses : Order → Z → bool) (queue : list Order) (incoming : Order) (f : Fill) : Prop :=
  0 < fe_quantity f ∧ incoming_order_id f = o_id incoming ∧
  crosses incoming (fe_price_ticks f) = true ∧
  ∃ r, r ∈ queue ∧ resting_order_id f = o_id r ∧ resting_side f = o_side r ∧
    fe_price_ticks f = o_price_ticks r.

Section Trading.
Context (crosses : Order → Z → bool).
Hypothesis crosses_quantity : ∀ q o p, crosses (set_quantity q o) p = crosses o p.

(** The remaining queue is a suffix of the old one, its first order possibly
    reduced; quantities are conserved; trading stops only when the incoming
    order is done or no longer crosses. *)
Lemma trade_spec queue inc ts :
  Forall (λ o, 0 < o_quantity o) queue → 0 ≤ o_quantity inc →
  let '(queue', inc', ts', fills) := trade crosses queue inc ts in
  inc' = set_quantity (o_quantity inc - executed fills) inc ∧
  0 ≤ o_quantity inc' ∧
  resting_qty queue = resting_qty queue' + executed fills ∧
  Forall (λ o, 0 < o_quantity o) queue' ∧
  Forall (fill_ok crosses queue inc) fills ∧
  (o_quantity inc' ≠ 0 → ∀ r, head queue' = Some r → crosses inc (o_price_ticks r) = false) ∧
  (∃ n, queue' = drop n queue ∨
    ∃ r rest q, drop n queue = r :: rest ∧ queue' = set_quantity q r :: rest ∧ 0 < q < o_quantity r).
Proof.
  intros Hq. revert inc ts. induction Hq as [|r queue Hr Hq IH]; intros inc ts Hi; cbn [trade].
  { unfold executed. cbn. rewrite sumZ_nil, Z.sub_0_r.
    split_and!; try done; [by destruct inc|by exists 0%nat; left]. }
  destruct ((o_quantity inc =? 0) || negb (crosses inc (o_price_ticks r))) eqn:Hstop.
  { unfold executed. cbn [fmap list_fmap]. rewrite sumZ_nil, Z.sub_0_r.
    split_and!; try done; [by destruct inc|lia|by constructor| |by exists 0%nat; left].
    intros Hne r' [= <-]. apply orb_true_iff in Hstop as [Hz|Hc]; [|by apply negb_true_iff].
    apply Z.eqb_eq in Hz. by destruct Hne. }
  apply orb_false_iff in Hstop as [Hz Hc]. apply Z.eqb_neq in Hz. apply negb_false_iff in Hc.
  set (traded := Z.min (o_quantity inc) (o_quantity r)).
  assert (fill_ok crosses (r :: queue) inc (fill_of r inc traded ts)) as Hf.
  { split; [cbn; lia|]. split; [done|]. split; [done|]. exists r. split; [left|done]. }
  destruct (Z.ltb_spec traded (o_quantity r)) as [Hlt|Hge].
  - unfold executed, resting_qty. cbn [fmap list_fmap fill_of fe_quantity set_quantity o_quantity].
    autorewrite with velo_rw. cbn [fill_of fe_quantity set_quantity o_quantity].
    split; [f_equal; lia|]. split; [lia|]. split; [lia|].
    split; [constructor; [cbn; lia|done]|]. split; [constructor; [done|constructor]|].
    split; [intros Hne; lia|]. exists 0%nat. right. exists r, queue, (o_quantity r - traded).
    split; [done|]. split; [done|lia].
  - specialize (IH (set_quantity (o_quantity inc - traded) inc) (tick ts) ltac:(cbn; lia)).
    destruct (trade crosses queue _ _) as [[[queue' inc'] ts'] fills].
    destruct IH as (IH1 & IH2 & IH3 & IH4 & IH5 & IH6 & n & IH7).
    unfold executed, resting_qty in *. cbn [fmap list_fmap]. autorewrite with velo_rw.
    cbn [fill_of fe_quantity set_quantity o_quantity] in *.
    split; [rewrite IH1; unfold set_quantity; cbn; f_equal; lia|]. split; [done|].
    split; [lia|]. split; [done|]. split.
    { constructor; [done|]. eapply Forall_impl; [exact IH5|].
      intros f (H1 & H2 & H3 & r' & Hin & H4). split; [done|]. split; [done|].
      rewrite crosses_quantity in H3. split; [done|]. exists r'. split; [by right|done]. }
    split; [|exists (S n); exact IH7].
    intros Hne r' Hr'. specialize (IH6 Hne r' Hr'). by rewrite crosses_quantity in IH6.
Qed.
End Trading.

Lemma flat_positive side levels : levels_ok side levels → Forall (λ o, 0 < o_quantity o) (flat levels).
Proof.
  intros [H _]. unfold flat. apply Forall_concat, Forall_fmap. eapply Forall_impl; [exact H|].
  intros l [_ Hl]. cbn. eapply Forall_impl; [exact Hl|]. by intros o (_ & _ & _ & ?).
Qed.

(** The best level is the price of the front of the queue. *)
Lemma flat_head side p os levels :
  levels_ok side ((p, os) :: levels) → ∃ r, head (flat ((p, os) :: levels)) = Some r ∧ o_price_ticks r = p.
Proof.
  intros [[[Hne Hos] _]%Forall_cons _]. cbn in *. destruct os as [|r os]; [done|].
  apply Forall_cons in Hos as [(Hp & _) _]. by exists r.
Qed.

Lemma keys_beyond side p os levels q :
  levels_ok side ((p, os) :: levels) → q ∈ (((p, os) :: levels) : list level).*1 →
  q = p ∨ better side p q = true.
Proof.
  intros [_ H]. cbn [fmap list_fmap fst] in *. apply StronglySorted_inv in H as [_ H].
  rewrite Forall_forall in H. intros [->|Hq]%elem_of_cons; [by left|right; auto].
Qed.

Lemma elem_of_rest_keys side o levels q :
  q ∈ (rest_order side o levels).*1 → q = o_price_ticks o ∨ q ∈ levels.*1.
Proof.
  intros Hq. assert (Forall (λ x, x = o_price_ticks o ∨ x ∈ levels.*1) (rest_order side o levels).*1) as H.
  { apply rest_order_keys; [|by left]. apply Forall_forall. auto. }
  rewrite Forall_forall in H. auto.
Qed.

Lemma enqueue_perm o q : enqueue o q ≡ₚ o :: q.
Proof.
  unfold enqueue. rewrite <- Permutation_middle. constructor.
  rewrite Permutation_app_comm. apply filter_app_complement.
Qed.

(** ** The book implements the specification *)

Lemma ids_app q1 q2 : ids (q1 ++ q2) = ids q1 ++ ids q2.
Proof. apply fmap_app. Qed.

Lemma ids_perm q1 q2 : q1 ≡ₚ q2 → ids q1 ≡ₚ ids q2.
Proof. intros H. unfold ids. by rewrite H. Qed.

(** Resting the remainder of an order on its own side. *)
Lemma rest_step side own o idx other :
  levels_ok side own → order_ok side (o_price_ticks o) o →
  NoDup (ids (flat own ++ other)) → idx = index_of (flat own ++ other) →
  o_id o ∉ ids (flat own ++ other) →
  let own' := rest_order side o own in
  flat own' = enqueue o (flat own) ∧ levels_ok side own' ∧
  NoDup (ids (flat own' ++ other)) ∧
  <[o_id o := (o_price_ticks o, o_side o)]> idx = index_of (flat own' ++ other).
Proof.
  intros Hok Ho Hnd -> Hid own'. destruct (rest_order_spec side o own Hok Ho) as [Hf Hok'].
  assert (flat own' ++ other ≡ₚ o :: flat own ++ other) as Hp.
  { unfold own'. by rewrite Hf, enqueue_perm. }
  assert (NoDup (ids (o :: flat own ++ other))) as Hnd'.
  { unfold ids. cbn [fmap list_fmap]. by constructor. }
  split; [done|]. split; [done|]. split; [by rewrite (ids_perm _ _ Hp)|].
  symmetry. rewrite (index_of_perm _ (o :: flat own ++ other)); [done| |done].
  by rewrite (ids_perm _ _ Hp).
Qed.

Lemma contains_spec id b : book_ok b → contains id b = bool_decide (id ∈ ids (all_orders b)).
Proof.
  intros H. unfold contains. rewrite (bk_index b H). apply bool_decide_ext, index_of_lookup.
Qed.

Definition opposite (side : Side) : Side := match side with BUY => SELL | SELL => BUY end.

Lemma better_opposite side p q : better (opposite side) p q = better side q p.
Proof. by destruct side. Qed.

(** Every price of the opposite side is beyond every price of [side]'s own. *)
Definition uncrossed (side : Side) (own opp : list level) : Prop :=
  ∀ p q, p ∈ own.*1 → q ∈ opp.*1 → better side q p = true.

(** The test of a crossing order, as the code writes it for each side. *)
Definition crosses_of (side : Side) : Order → Z → bool :=
  match side with BUY => buy_crosses | SELL => sell_crosses end.

Lemma crosses_of_quantity side q o p : crosses_of side (set_quantity q o) p = crosses_of side o p.
Proof. by destruct side. Qed.

Lemma limit_beyond side o p :
  o_type o = LIMIT → crosses_of side o p = false → better side p (o_price_ticks o) = true.
Proof.
  intros Ht. destruct side; cbn; unfold buy_crosses, sell_crosses, is_market; rewrite Ht; cbn; lia.
Qed.

Lemma suffix_ids queue queue' n :
  (queue' = drop n queue ∨
    ∃ r rest q, drop n queue = r :: rest ∧ queue' = set_quantity q r :: rest ∧ 0 < q < o_quantity r) →
  ids queue' = drop n (ids queue).
Proof.
  unfold ids. rewrite <- fmap_drop. intros [-> | (r & rest & q & -> & -> & _)]; done.
Qed.

Lemma elem_of_drop_weak {A} n (l : list A) x : x ∈ drop n l → x ∈ l.
Proof. intros H. rewrite <- (take_drop n l). apply elem_of_app. by right. Qed.

(** What submitting does to the side it trades against and to its own, for
    either side; [own] and [opp] are the two sides of the book. *)
Definition rests (o : Order) : bool := (0 <? o_quantity o) && bool_decide (o_type o = LIMIT).

Lemma submit_side side own opp o idx ts :
  levels_ok side own → levels_ok (opposite side) opp → uncrossed side own opp →
  NoDup (ids (flat opp ++ flat own)) → idx = index_of (flat opp ++ flat own) →
  0 ≤ o_quantity o → o_side o = side → o_id o ∉ ids (flat opp ++ flat own) →
  ∃ opp' inc idx' ts' fs,
    match_levels (opposite side) (crosses_of side) opp o idx ts = (opp', inc, idx', ts', fs) ∧
    trade (crosses_of side) (flat opp) o ts = (flat opp', inc, ts', fs) ∧
    o_id inc = o_id o ∧ o_side inc = side ∧ o_price_ticks inc = o_price_ticks o ∧
    levels_ok (opposite side) opp' ∧
    let own' := if rests inc then rest_order side inc own else own in
    let idx'' := if rests inc then <[o_id inc := (o_price_ticks inc, o_side inc)]> idx' else idx' in
    flat own' = (if rests inc then enqueue inc (flat own) else flat own) ∧ levels_ok side own' ∧
    uncrossed side own' opp' ∧
    NoDup (ids (flat own' ++ flat opp')) ∧ idx'' = index_of (flat own' ++ flat opp').
Proof.
  intros Hown Hopp Hun Hnd Hidx Hq Hs Hid.
  pose proof (match_levels_trade _ _ (crosses_of_quantity side) opp o idx ts _ Hopp Hnd Hidx) as H.
  destruct (match_levels _ _ _ _ _ _) as [[[[opp' inc] idx'] ts'] fs].
  destruct H as (M1 & M2 & M3 & M4 & n & M5).
  pose proof (trade_spec _ (crosses_of_quantity side) (flat opp) o ts (flat_positive _ _ Hopp) Hq) as Ht.
  rewrite M1 in Ht. destruct Ht as (T1 & T2 & _ & _ & _ & T6 & m & T7%suffix_ids).
  exists opp', inc, idx', ts', fs. assert (o_id inc = o_id o ∧ o_side inc = side ∧
    o_price_ticks inc = o_price_ticks o ∧ o_type inc = o_type o) as (I1 & I2 & I3 & I4).
  { rewrite T1. by split_and!. }
  do 5 (split; [done|]). split; [done|].
  assert (uncrossed side own opp') as Hun'.
  { intros p q Hp Hin. rewrite M5 in Hin. apply elem_of_drop_weak in Hin. by apply Hun. }
  assert (flat opp' ++ flat own ≡ₚ flat own ++ flat opp') as Hsw by apply Permutation_app_comm.
  assert (NoDup (ids (flat own ++ flat opp'))) as Hnd' by by rewrite <- (ids_perm _ _ Hsw).
  assert (idx' = index_of (flat own ++ flat opp')) as Hidx'.
  { rewrite M2. by apply index_of_perm. }
  destruct (rests inc) eqn:Hr; cbv zeta.
  2:{ do 4 (split; [done|]). done. }
  unfold rests in Hr. apply andb_true_iff in Hr as [Hk%Z.ltb_lt Hty%bool_decide_eq_true].
  destruct (rest_step side own inc idx' (flat opp')) as (R1 & R2 & R3 & R4); try done.
  { rewrite I1, ids_app, T7, elem_of_app. rewrite ids_app, elem_of_app in Hid.
    intros [Hin|Hin%elem_of_drop_weak]; tauto. }
  split; [done|]. split; [done|]. split; [|done].
  intros p q [->|Hp]%elem_of_rest_keys Hin; [|by apply Hun'].
  destruct opp' as [|[p0 os] opp']; [by apply not_elem_of_nil in Hin|].
  destruct (flat_head _ _ _ _ M4) as (r & Hr & Hpr).
  specialize (T6 ltac:(lia) r Hr). rewrite Hpr in T6.
  apply limit_beyond in T6; [|by rewrite <- I4]. rewrite I3.
  destruct (keys_beyond _ _ _ _ _ M4 Hin) as [->|Hbe]; [done|].
  rewrite better_opposite in Hbe. by eapply better_trans.
Qed.

Lemma book_ok_uncrossed b : book_ok b → uncrossed BUY (bids_ b) (asks_ b) ∧ uncrossed SELL (asks_ b) (bids_ b).
Proof.
  intros H. split; intros p q Hp Hq; cbn; apply Z.ltb_lt; by apply (bk_uncrossed b H).
Qed.

Lemma submit_spec (o : Order) (b : OrderBook) :
  book_ok b → 0 ≤ o_quantity o →
  let '(b', fills) := submit o b in spec_submit o (abs b) = (abs b', fills) ∧ book_ok b'.
Proof.
  intros Hok Hq. unfold submit, spec_submit. rewrite contains_spec by done.
  change (pb_bids (abs b) ++ pb_asks (abs b)) with (all_orders b).
  case_bool_decide as Hin; [by rewrite decide_True|].
  rewrite (decide_False (P := o_id o ∈ ids (all_orders b))) by done.
  destruct (book_ok_uncrossed b Hok) as [Hu1 Hu2]. destruct Hok as [Hb Ha Hnd Hidx _].
  destruct b as [bids asks index ts]. unfold all_orders in *.
  cbn [abs pb_bids pb_asks pb_ts bids_ asks_ order_index_ next_timestamp_] in *.
  assert (flat bids ++ flat asks ≡ₚ flat asks ++ flat bids) as Hsw by apply Permutation_app_comm.
  set (o1 := set_timestamp ts o). change (o_side o1) with (o_side o).
  change (o_id o) with (o_id o1) in Hin. change (o_quantity o) with (o_quantity o1) in Hq.
  destruct (o_side o) eqn:Hside; [rewrite decide_True by done|rewrite decide_False by done].
  - unfold matchBuy. cbn [bids_ asks_ order_index_ next_timestamp_].
    destruct (submit_side BUY bids asks o1 index (tick ts)) as
      (asks' & inc & idx' & ts' & fs & M1 & M2 & I1 & I2 & I3 & A1 & A2 & A3 & A4 & A5 & A6);
      [done|done|done|by rewrite <- (ids_perm _ _ Hsw)|by rewrite Hidx; apply index_of_perm|done|done
      |by rewrite <- (ids_perm _ _ Hsw)|].
    cbn [opposite crosses_of] in *. rewrite M1, M2, I2, decide_True by done.
    fold (rests inc). destruct (rests inc) eqn:Hr; cbn [bids_ asks_ order_index_ next_timestamp_] in *;
      (split; [unfold abs; cbn [bids_ asks_ order_index_ next_timestamp_]; first [done|by rewrite A2]|]);
      (split; [exact A3|exact A1|exact A5|by first [exact A6|rewrite I2 in A6]|]);
      intros p q Hp Hin'; apply Z.ltb_lt; by apply A4.
  - unfold matchSell. cbn [bids_ asks_ order_index_ next_timestamp_].
    destruct (submit_side SELL asks bids o1 index (tick ts)) as
      (bids' & inc & idx' & ts' & fs & M1 & M2 & I1 & I2 & I3 & A1 & A2 & A3 & A4 & A5 & A6); try done.
    cbn [opposite crosses_of] in *. rewrite M1, M2, I2, decide_False by done.
    assert (∀ l : list level, flat l ++ flat bids' ≡ₚ flat bids' ++ flat l) as Hsw'
      by (intros; apply Permutation_app_comm).
    fold (rests inc). destruct (rests inc) eqn:Hr; cbn [bids_ asks_ order_index_ next_timestamp_] in *;
      (split; [unfold abs; cbn [bids_ asks_ order_index_ next_timestamp_]; first [done|by rewrite A2]|]);
      (split; [exact A1|exact A3|unfold all_orders; cbn [bids_ asks_]; by rewrite <- (ids_perm _ _ (Hsw' _))|
        try rewrite I2 in A6; cbn [order_index_]; rewrite A6; by apply index_of_perm|]);
      intros p q Hp Hin'; apply Z.ltb_lt; by apply A4.
Qed.

(** Cancelling. *)
Lemma index_of_filter id queue :
  NoDup (ids queue) → delete id (index_of queue) = index_of (filter (λ o, o_id o ≠ id) queue).
Proof.
  induction queue as [|o q IH]; [intros _; apply delete_empty|]. unfold ids. cbn [fmap list_fmap].
  intros [Ho Hnd]%NoDup_cons. destruct (decide (o_id o = id)) as [<-|Hne].
  - rewrite index_of_delete, filter_cons_False by tauto. by rewrite filter_absent.
  - rewrite filter_cons_True by done. unfold index_of at 1 2. cbn [fmap list_fmap list_to_map foldr].
    cbn [fst snd]. rewrite delete_insert_ne by done. f_equal. by apply IH.
Qed.

Lemma flat_side side levels o : levels_ok side levels → o ∈ flat levels → o_side o = side.
Proof.
  intros [H _] Ho. assert (Forall (λ o, o_side o = side) (flat levels)) as Hf.
  { apply Forall_concat, Forall_fmap. eapply Forall_impl; [exact H|]. intros l [_ Hl]. cbn.
    eapply Forall_impl; [exact Hl|]. by intros x (_ & ? & _). }
  rewrite Forall_forall in Hf. auto.
Qed.

Lemma ids_filter_NoDup (P : Order → Prop) `{!∀ o, Decision (P o)} queue :
  NoDup (ids queue) → NoDup (ids (filter P queue)).
Proof.
  intros Hnd. induction queue as [|o q IH]; [done|]. unfold ids in *. cbn [fmap list_fmap] in Hnd.
  apply NoDup_cons in Hnd as [Ho Hnd]. rewrite filter_cons. destruct (decide _); [|auto]. cbn [fmap list_fmap].
  constructor; [|auto]. rewrite list_elem_of_fmap in *. intros (x & Hx & [_ Hin]%list_elem_of_filter). eauto.
Qed.

Lemma uncrossed_subset (P : Z → Prop) bids bids' :
  (∀ P : Z → Prop, Forall P (fst <$> (bids : list level)) → Forall P (fst <$> (bids' : list level))) →
  (∀ p, p ∈ bids.*1 → P p) → ∀ p, p ∈ bids'.*1 → P p.
Proof. intros HP Hp. rewrite <- Forall_forall. apply HP, Forall_forall, Hp. Qed.

Lemma cancel_spec id (b : OrderBook) :
  book_ok b →
  let '(b', r) := cancel id b in spec_cancel id (abs b) = (abs b', r) ∧ book_ok b'.
Proof.
  intros Hok. pose proof Hok as [Hb Ha Hnd Hidx Hun]. unfold cancel, spec_cancel.
  change (pb_bids (abs b) ++ pb_asks (abs b)) with (all_orders b).
  destruct (order_index_ b !! id) as [[p s]|] eqn:Hl; rewrite Hidx in Hl.
  2:{ split; [|done]. assert (id ∉ ids (all_orders b)) as Hn.
      { rewrite <- index_of_lookup, Hl. by intros [? ?]. }
      rewrite (bool_decide_eq_false_2 _ Hn). unfold all_orders in Hn. rewrite ids_app, elem_of_app in Hn.
      unfold abs. cbn [pb_bids pb_asks pb_ts]. rewrite !filter_absent by tauto. done. }
  pose proof Hl as Hin. apply mk_is_Some in Hin. rewrite index_of_lookup in Hin.
  rewrite (bool_decide_eq_true_2 _ Hin). apply (index_of_spec _ _ _ _ Hnd) in Hl as (o & Ho & Hoid & Hop & Hos).
  pose proof (index_of_filter id _ Hnd) as Hdel. pose proof (ids_filter_NoDup (λ o, o_id o ≠ id) _ Hnd) as Hnd'.
  change (pb_bids (abs b)) with (flat (bids_ b)). change (pb_asks (abs b)) with (flat (asks_ b)).
  unfold all_orders in *. rewrite filter_app in Hdel, Hnd'. rewrite Hidx, Hdel.
  rewrite ids_app in Hnd. apply NoDup_app in Hnd as (Hnd1 & Hdisj & Hnd2).
  assert (∀ l, o ∈ l → id ∈ ids l) as Hids by (intros l ?; apply list_elem_of_fmap; by exists o).
  destruct s.
  - assert (o ∈ flat (bids_ b)) as Hin'.
    { apply elem_of_app in Ho as [|Ho]; [done|]. apply (flat_side _ _ _ Ha) in Ho. congruence. }
    destruct (erase_from_spec BUY id p (bids_ b) Hb Hnd1) as (ls & -> & E1 & E2 & E3); [by exists o|].
    rewrite <- E1 in *. assert (id ∉ ids (flat (asks_ b))) as Hn by (apply Hdisj; auto).
    rewrite (filter_absent id (flat (asks_ b)) Hn) in *.
    split; [done|].
    split; [exact E2|exact Ha|exact Hnd'|done|]. cbn [bids_ asks_].
    intros p' q Hp Hq. revert p' Hp. apply (uncrossed_subset _ _ _ E3). auto.
  - assert (o ∈ flat (asks_ b)) as Hin'.
    { apply elem_of_app in Ho as [Ho|]; [|done]. apply (flat_side _ _ _ Hb) in Ho. congruence. }
    assert (id ∉ ids (flat (bids_ b))) as Hn by (intros ?; eapply Hdisj; eauto).
    destruct (erase_from_spec SELL id p (asks_ b) Ha Hnd2) as (ls & -> & E1 & E2 & E3); [by exists o|].
    rewrite <- E1 in *. rewrite (filter_absent id (flat (bids_ b)) Hn) in *.
    split; [done|].
    split; [exact Hb|exact E2|exact Hnd'|done|]. cbn [bids_ asks_].
    intros p' q Hp. revert q. apply (uncrossed_subset _ _ _ E3). auto.
Qed.

(** ** Sessions of the book *)

Inductive book_op := Submit (o : Order) | Cancel (id : Z).

(** What an operation returns: the fills of a submit, the flag of a cancel. *)
Definition book_step (op : book_op) (b : OrderBook) : OrderBook * (list Fill + bool) :=
  match op with
  | Submit o => let '(b, fills) := submit o b in (b, inl fills)
  | Cancel id => let '(b, found) := cancel id b in (b, inr found)
  end.

Definition spec_step (op : book_op) (b : PBook) : PBook * (list Fill + bool) :=
  match op with
  | Submit o => let '(b, fills) := spec_submit o b in (b, inl fills)
  | Cancel id => let '(b, found) := spec_cancel id b in (b, inr found)
  end.

Fixpoint run_book {B R} (step : book_op → B → B * R) (ops : list book_op) (b : B) : B * list R :=
  match ops with
  | [] => (b, [])
  | op :: ops => let '(b, r) := step op b in let '(b, rs) := run_book step ops b in (b, r :: rs)
  end.

Definition op_ok (op : book_op) : Prop :=
  match op with Submit o => 0 ≤ o_quantity o | Cancel _ => True end.

Lemma empty_book_ok : book_ok empty_book.
Proof.
  split; cbn; try constructor; try constructor. intros p q Hp. by apply not_elem_of_nil in Hp.
Qed.

Lemma book_step_spec op b :
  op_ok op → book_ok b →
  let '(b', r) := book_step op b in spec_step op (abs b) = (abs b', r) ∧ book_ok b'.
Proof.
  intros Hop Hb. destruct op as [o|id]; cbn [book_step spec_step].
  - pose proof (submit_spec o b Hb Hop) as H. destruct (submit o b). by destruct H as [-> ?].
  - pose proof (cancel_spec id b Hb) as H. destruct (cancel id b). by destruct H as [-> ?].
Qed.

Lemma run_book_spec ops b :
  Forall op_ok ops → book_ok b →
  let '(b', rs) := run_book book_step ops b in
  run_book spec_step ops (abs b) = (abs b', rs) ∧ book_ok b'.
Proof.
  intros H. revert b. induction H as [|op ops Hop _ IH]; intros b Hb; cbn [run_book]; [done|].
  pose proof (book_step_spec op b Hop Hb) as H. destruct (book_step op b) as [b1 r]. destruct H as [-> Hb1].
  specialize (IH b1 Hb1). destruct (run_book book_step ops b1) as [b2 rs]. by destruct IH as [-> ?].
Qed.

(** The best price of a side is the price of the front of its queue. *)
Lemma best_level side levels :
  levels_ok side levels → fst <$> head levels = o_price_ticks <$> head (flat levels).
Proof.
  intros H. destruct levels as [|[p os] levels]; [done|].
  destruct (flat_head _ _ _ _ H) as (r & Hr & Hp). 
  etransitivity; [|symmetry; exact (f_equal (fmap o_price_ticks) Hr)]. cbn. by rewrite Hp.
Qed.

Lemma book_uncrossed_best b p q : book_ok b → best_bid b = Some p → best_ask b = Some q → p < q.
Proof.
  unfold best_bid, best_ask. intros Hb Hp Hq. apply (bk_uncrossed b Hb).
  - destruct (bids_ b) as [|[]]; inversion Hp; subst. by left.
  - destruct (asks_ b) as [|[]]; inversion Hq; subst. by left.
Qed.

(** (C1) The book is price-time priority: after any sequence of submits and
    cancels on an empty book it has returned the fills and flags the two-queue
    specification returns and holds the orders the specification holds, its
    levels are strictly ordered and never empty, no two resting orders share an
    id and the id index is exactly the resting orders, the best prices are those
    of the fronts of the queues, and the sides never cross. *)
Theorem book_refines (ops : list book_op) :
  Forall op_ok ops →
  let '(b, rs) := run_book book_step ops empty_book in
  run_book spec_step ops (abs empty_book) = (abs b, rs) ∧ book_ok b ∧
  best_bid b = o_price_ticks <$> head (pb_bids (abs b)) ∧
  best_ask b = o_price_ticks <$> head (pb_asks (abs b)) ∧
  (∀ p q, best_bid b = Some p → best_ask b = Some q → p < q).
Proof.
  intros H. pose proof (run_book_spec ops _ H empty_book_ok) as Hr.
  destruct (run_book book_step ops empty_book) as [b rs]. destruct Hr as [Hr Hb].
  split; [done|]. split; [done|]. split; [by eapply best_level, bk_bids|].
  split; [by eapply best_level, bk_asks|]. intros p q. by apply book_uncrossed_best.
Qed.

(** Two bids at one price, a better one, an ask that sweeps them, a cancel. *)
Definition example_order (id : Z) (s : Side) (t : OrderType) (p q : Z) : Order :=
  {| o_id := id; o_side := s; o_type := t; o_price_ticks := p; o_quantity := q; o_timestamp := 0 |}.
Definition example_ops : list book_op :=
  [Submit (example_order 1 BUY LIMIT 100 5); Submit (example_order 2 BUY LIMIT 100 5);
   Submit (example_order 3 BUY LIMIT 101 2); Submit (example_order 4 SELL LIMIT 100 9);
   Submit (example_order 2 BUY LIMIT 90 1); Cancel 1; Cancel 2].

Lemma book_refines_witness :
  Forall op_ok example_ops ∧
  match (run_book book_step example_ops empty_book).2 with
  | [inl []; inl []; inl []; inl fills; inl []; inr false; inr true] =>
      ((λ f, (resting_order_id f, fe_quantity f)) <$> fills) = [(3, 2); (1, 5); (2, 2)]
  | _ => False
  end ∧
  book_ok (run_book book_step example_ops empty_book).1.
Proof.
  assert (Forall op_ok example_ops) as H by (repeat constructor; cbn; lia).
  split; [exact H|]. split; [vm_compute; reflexivity|].
  pose proof (book_refines example_ops H) as Hr.
  destruct (run_book book_step example_ops empty_book) as [b rs]. apply Hr.
Defined.

(** ** What one submit does *)

Lemma trade_prefix crosses queue inc ts :
  let '(_, _, _, fills) := trade crosses queue inc ts in
  resting_order_id <$> fills = take (length fills) (ids queue).
Proof.
  revert inc ts. induction queue as [|r queue IH]; intros inc ts; cbn [trade]; [done|].
  destruct (_ || _); [done|]. destruct (_ <? _); [done|].
  specialize (IH (set_quantity (o_quantity inc - Z.min (o_quantity inc) (o_quantity r)) inc) (tick ts)).
  destruct (trade _ _ _ _) as [[[]]]. unfold ids in *. cbn. by rewrite IH.
Qed.

Definition opp_queue (o : Order) (b : OrderBook) : list Order :=
  match o_side o with BUY => flat (asks_ b) | SELL => flat (bids_ b) end.
Definition own_queue (o : Order) (b : OrderBook) : list Order :=
  match o_side o with BUY => flat (bids_ b) | SELL => flat (asks_ b) end.

(** A submit of a new order is a trade against the other side. *)
Lemma submit_trade (o : Order) (b : OrderBook) :
  book_ok b → 0 ≤ o_quantity o → contains (o_id o) b = false →
  let '(b', fills) := submit o b in
  ∃ q opp', trade (crosses_of (o_side o)) (opp_queue o b) (set_timestamp (next_timestamp_ b) o)
      (tick (next_timestamp_ b)) = (opp', q, next_timestamp_ b', fills) ∧
    opp_queue o b' = opp' ∧
    own_queue o b' = if (0 <? o_quantity q) && bool_decide (o_type q = LIMIT)
      then enqueue q (own_queue o b) else own_queue o b.
Proof.
  intros Hb Hq Hc. pose proof (submit_spec o b Hb Hq) as H. destruct (submit o b) as [b' fills].
  destruct H as [H _]. rewrite contains_spec in Hc by done. apply bool_decide_eq_false in Hc.
  unfold spec_submit in H. rewrite decide_False in H by done. unfold opp_queue, own_queue.
  set (o1 := set_timestamp (next_timestamp_ b) o) in *.
  change (set_timestamp (pb_ts (abs b)) o) with o1 in H. change (o_side o1) with (o_side o) in H.
  destruct (o_side o); cbn [crosses_of] in *;
    cbn [abs pb_asks pb_bids pb_ts] in H; destruct (trade _ _ _ _) as [[[opp' q] ts'] fs];
    inversion H; exists q, opp'; repeat split; congruence.
Qed.

Lemma submit_fills_spec (o : Order) (b : OrderBook) :
  book_ok b → 0 ≤ o_quantity o → contains (o_id o) b = false →
  let '(b', fills) := submit o b in
  let left := o_quantity o - executed fills in
  let inc := set_quantity left (set_timestamp (next_timestamp_ b) o) in
  resting_order_id <$> fills = take (length fills) (ids (opp_queue o b)) ∧
  Forall (fill_ok (crosses_of (o_side o)) (opp_queue o b) o) fills ∧
  resting_qty (opp_queue o b) = resting_qty (opp_queue o b') + executed fills ∧
  0 ≤ left ∧
  own_queue o b' =
    (if (0 <? left) && bool_decide (o_type o = LIMIT)
     then enqueue inc (own_queue o b) else own_queue o b) ∧
  (left ≠ 0 → ∀ r, head (opp_queue o b') = Some r → crosses_of (o_side o) o (o_price_ticks r) = false).
Proof.
  intros Hb Hq Hc. pose proof (submit_trade o b Hb Hq Hc) as H. destruct (submit o b) as [b' fills].
  set (o1 := set_timestamp (next_timestamp_ b) o) in *. destruct H as (q & opp' & Ht & Ho & Hw).
  assert (Forall (λ o, 0 < o_quantity o) (opp_queue o b)) as Hpos.
  { unfold opp_queue. destruct (o_side o); eapply flat_positive, Hb. }
  pose proof (trade_spec _ (crosses_of_quantity (o_side o)) (opp_queue o b) o1
    (tick (next_timestamp_ b)) Hpos Hq) as Hs.
  pose proof (trade_prefix (crosses_of (o_side o)) (opp_queue o b) o1 (tick (next_timestamp_ b))) as Hp.
  rewrite Ht in Hs, Hp. destruct Hs as (S1 & S2 & S3 & _ & S5 & S6 & _).
  change (o_quantity o1) with (o_quantity o) in *. rewrite Ho, Hw. rewrite S1 in S2, S6 |- *.
  cbn [o_quantity set_quantity] in *. 
  assert (∀ p, crosses_of (o_side o) o1 p = crosses_of (o_side o) o p) as Hco by by destruct (o_side o).
  split; [done|]. split; [|split; [done|split; [done|split; [done|]]]].
  - eapply Forall_impl; [exact S5|]. unfold fill_ok. intros f. by rewrite Hco.
  - intros Hne r Hr. rewrite <- Hco. by apply S6.
Qed.

(** An order a trade leaves partly filled stays, with what the fill left of it. *)
Lemma trade_remainder crosses queue inc ts (o : Order) (f : Fill) :
  NoDup (ids queue) → o ∈ queue →
  let '(queue', _, _, fills) := trade crosses queue inc ts in
  f ∈ fills → resting_order_id f = o_id o → fe_quantity f < o_quantity o →
  set_quantity (o_quantity o - fe_quantity f) o ∈ queue'.
Proof.
  revert inc ts. induction queue as [|r queue IH]; intros inc ts; [by intros _ ?%not_elem_of_nil|].
  unfold ids. cbn [fmap list_fmap]. fold (ids queue). intros [Hr Hnd]%NoDup_cons Ho. cbn [trade].
  assert (∀ x, x ∈ queue → o_id x ≠ o_id r) as Hne.
  { intros x Hx E. apply Hr. rewrite <- E. by apply list_elem_of_fmap_2. }
  destruct (_ || _); [by intros ?%not_elem_of_nil|].
  set (traded := Z.min (o_quantity inc) (o_quantity r)). destruct (Z.ltb_spec traded (o_quantity r)) as [Hlt|Hge].
  { intros ->%list_elem_of_singleton Hf _. cbn [fill_of resting_order_id fe_quantity] in *.
    apply elem_of_cons in Ho as [->|Ho]; [left|]. by destruct (Hne o Ho). }
  set (inc' := set_quantity _ inc). specialize (IH inc' (tick ts) Hnd).
  pose proof (trade_prefix crosses queue inc' (tick ts)) as Hp.
  destruct (trade crosses queue inc' (tick ts)) as [[[queue' rem] ts'] fills].
  intros [->|Hin]%elem_of_cons Hf Hq.
  - cbn [fill_of resting_order_id fe_quantity] in *.
    apply elem_of_cons in Ho as [->|Ho]; [lia|]. by destruct (Hne o Ho).
  - apply elem_of_cons in Ho as [->|Ho]; [|by apply IH]. destruct Hr. rewrite <- Hf.
    apply (list_elem_of_fmap_2 resting_order_id) in Hin. rewrite Hp in Hin.
    rewrite <- (take_drop (length fills) (ids queue)). apply elem_of_app. by left.
Qed.

Lemma all_orders_sides (x o : Order) (b : OrderBook) :
  o ∈ all_orders b ↔ o ∈ opp_queue x b ++ own_queue x b.
Proof. unfold all_orders, opp_queue, own_queue. destruct (o_side x); rewrite !elem_of_app; tauto. Qed.

(** The same of a submit: whatever comes in, an order it leaves partly filled is
    still in the book, with the remaining quantity and otherwise as it was. *)
Lemma submit_remainder (inc o : Order) (b : OrderBook) (f : Fill) :
  book_ok b → 0 ≤ o_quantity inc → o ∈ all_orders b →
  let '(b', fills) := submit inc b in
  f ∈ fills → resting_order_id f = o_id o → fe_quantity f < o_quantity o →
  set_quantity (o_quantity o - fe_quantity f) o ∈ all_orders b'.
Proof.
  intros Hb Hq Ho. destruct (contains (o_id inc) b) eqn:Hc.
  { unfold submit. rewrite Hc. by intros ?%not_elem_of_nil. }
  pose proof (submit_trade inc b Hb Hq Hc) as H. destruct (submit inc b) as [b' fills].
  destruct H as (q & opp' & Ht & Hopp & _). intros Hin Hf Hlt.
  apply (all_orders_sides inc), elem_of_app. left. rewrite Hopp.
  assert (NoDup (ids (opp_queue inc b ++ own_queue inc b))) as Hnd.
  { pose proof (bk_ids b Hb) as Hnd. unfold all_orders, opp_queue, own_queue in *.
    destruct (o_side inc); [|done]. by rewrite (ids_perm _ _ (Permutation_app_comm (flat (asks_ b)) (flat (bids_ b)))). }
  rewrite ids_app in Hnd. apply NoDup_app in Hnd as (Hnd & Hdis & _).
  apply (all_orders_sides inc), elem_of_app in Ho as [Ho|Ho].
  - pose proof (trade_remainder (crosses_of (o_side inc)) (opp_queue inc b) (set_timestamp (next_timestamp_ b) inc)
      (tick (next_timestamp_ b)) o f Hnd Ho) as Hr. rewrite Ht in Hr. by apply Hr.
  - exfalso. pose proof (trade_prefix (crosses_of (o_side inc)) (opp_queue inc b)
      (set_timestamp (next_timestamp_ b) inc) (tick (next_timestamp_ b))) as Hp. rewrite Ht in Hp.
    apply (list_elem_of_fmap_2 resting_order_id) in Hin. rewrite Hp, Hf in Hin.
    apply (Hdis (o_id o)); [|by apply list_elem_of_fmap_2].
    rewrite <- (take_drop (length fills) (ids _)). apply elem_of_app. by left.
Qed.

(** (C8) One submit of a new order: the fills consume the opposite queue from
    the front, in order; each is of positive quantity, at the resting order's
    price, which the incoming order accepts; the opposite side loses exactly
    what was executed; a limit order keeps resting with exactly the unexecuted
    quantity, at its place in price-time priority, and the remainder of a
    market order is dropped; and trading stops only when the incoming order is
    done or its limit no longer accepts the best opposite price. *)
Theorem submit_fills (o : Order) (b : OrderBook) :
  book_ok b → 0 ≤ o_quantity o → contains (o_id o) b = false →
  let '(b', fills) := submit o b in
  let left := o_quantity o - executed fills in
  let inc := set_quantity left (set_timestamp (next_timestamp_ b) o) in
  resting_order_id <$> fills = take (length fills) (ids (opp_queue o b)) ∧
  Forall (fill_ok (crosses_of (o_side o)) (opp_queue o b) o) fills ∧
  resting_qty (opp_queue o b) = resting_qty (opp_queue o b') + executed fills ∧
  0 ≤ left ∧
  own_queue o b' =
    (if (0 <? left) && bool_decide (o_type o = LIMIT)
     then enqueue inc (own_queue o b) else own_queue o b) ∧
  (left ≠ 0 → ∀ r, head (opp_queue o b') = Some r → crosses_of (o_side o) o (o_price_ticks r) = false).
Proof. apply submit_fills_spec. Qed.

Lemma submit_fills_witness :
  let b := (run_book book_step (take 3 example_ops) empty_book).1 in
  let o := example_order 4 SELL LIMIT 100 15 in
  book_ok b ∧ 0 ≤ o_quantity o ∧ contains 4 b = false ∧
  resting_qty (opp_queue o b) = 12 ∧ opp_queue o (submit o b).1 = [] ∧
  (o_quantity <$> own_queue o (submit o b).1) = [3] ∧
  Forall (fill_ok (crosses_of SELL) (opp_queue o b) o) (submit o b).2.
Proof.
  assert (book_ok (run_book book_step (take 3 example_ops) empty_book).1) as Hb.
  { assert (Forall op_ok (take 3 example_ops)) as H by (repeat constructor; cbn; lia).
    pose proof (run_book_spec _ _ H empty_book_ok) as Hr.
    destruct (run_book book_step (take 3 example_ops) empty_book). apply Hr. }
  split; [exact Hb|]. split; [cbn; lia|]. split; [vm_compute; reflexivity|].
  pose proof (submit_fills (example_order 4 SELL LIMIT 100 15) _ Hb ltac:(cbn; lia) eq_refl) as H.
  do 3 (split; [vm_compute; reflexivity|]). destruct (submit _ _) as [b' fills]. apply H.
Defined.
