(* ===== verification/Client.v ===== *)
(** * OrderBookClient ([strategy/orderbook_client/client.py])

    The client owns one TCP connection.  A background thread runs
    [_read_loop], which cuts the incoming byte stream into messages and puts
    the decoded events on a thread-safe FIFO queue; the main thread sends
    orders and drains that queue with [poll_events].

    The kernel's side of the socket is a list of [segment]s: each [recv]
    returns at most one of them, so a list of segments is one way the stream
    can be chunked, and the theorems quantify over all of them.  The reader's
    side of the queue is likewise a list of batches, one becoming visible at
    each queue operation of the main thread. *)

From S2P Require Import Prelude Bytes PyFloat PyStruct Protocol.

Open Scope Z_scope.

(** ** The socket *)

(** What the next [recv] finds: bytes, or an [OSError].  An empty [Data] is the
    peer's orderly shutdown, as is the end of the list. *)
Inductive segment := Data (bs : bytes) | SockError.

(** [sk_sent] holds the buffers of the [sendall] calls that completed;
    [sk_faults] says which of the next calls fail, none beyond its end. *)
Record sock := {
  sk_incoming : list segment;
  sk_sent : bytes;
  sk_faults : list bool;
  sk_closed : bool;
}.

Definition sk_set_incoming (l : list segment) (s : sock) : sock :=
  {| sk_incoming := l; sk_sent := sk_sent s; sk_faults := sk_faults s; sk_closed := sk_closed s |}.

(** [socket.recv(n)]: up to [n] bytes of what is available, [b""] at the end. *)
Definition recv (n : nat) : M sock bytes := λ s,
  if sk_closed s then (s, Raise OSError) else
  match sk_incoming s with
  | [] => (s, Ok [])
  | SockError :: l => (sk_set_incoming l s, Raise OSError)
  | Data bs :: l =>
      (sk_set_incoming (if decide (drop n bs = []) then l else Data (drop n bs) :: l) s,
       Ok (take n bs))
  end.

(** [socket.sendall(buf)]. *)
Definition sendall (buf : bytes) : M sock unit := λ s,
  if sk_closed s then (s, Raise OSError) else
  let s' sent := {| sk_incoming := sk_incoming s; sk_sent := sent; sk_faults := tail (sk_faults s);
                    sk_closed := false |} in
  if default false (head (sk_faults s)) then (s' (sk_sent s), Raise OSError)
  else (s' (sk_sent s ++ buf), Ok tt).

(** [shutdown(SHUT_RDWR)] then [close()]: nothing is received afterwards. *)
Definition sock_close (s : sock) : sock :=
  {| sk_incoming := []; sk_sent := sk_sent s; sk_faults := sk_faults s; sk_closed := true |}.

(** An open socket none of whose sends will fail. *)
Definition sk_live (s : sock) : Prop := sk_closed s = false ∧ sk_faults s = [].

(** ** The reader thread *)

(** [_recv_exact(n)]: [None] on [OSError] or end of stream. *)
Fixpoint recv_exact_loop (fuel n : nat) (buf : bytes) : M sock (option bytes) := λ s,
  if (n <=? length buf)%nat then (s, Ok (Some buf)) else
  match fuel with
  | O => (s, NoFuel)
  | S fuel =>
      match recv (n - length buf) s with
      | (s, Raise OSError) => (s, Ok None)
      | (s, Raise e) => (s, Raise e)
      | (s, NoFuel) => (s, NoFuel)
      | (s, Ok []) => (s, Ok None)
      | (s, Ok chunk) => recv_exact_loop fuel n (buf ++ chunk) s
      end
  end.

(** Every chunk is non-empty, so [n] iterations always suffice. *)
Definition _recv_exact (n : nat) : M sock (option bytes) := recv_exact_loop n n [].

(** The reader's state: the socket and the event queue it fills. *)
Record Reader := { rd_sock : sock; rd_events : list Event }.

Definition on_sock {A} (m : M sock A) : M Reader A :=
  on_field rd_sock (λ k r, {| rd_sock := k; rd_events := rd_events r |}) m.

Definition queue_put (e : Event) : M Reader unit :=
  modify (λ r, {| rd_sock := rd_sock r; rd_events := rd_events r ++ [e] |}).

(** [_read_loop]: an exception of [decode_event] ends the thread. *)
Fixpoint _read_loop (fuel : nat) : M Reader unit :=
  match fuel with
  | O => λ r, (r, NoFuel)
  | S fuel =>
      tag_byte ← on_sock (_recv_exact 1);
      match tag_byte with
      | None => mret tt
      | Some tag_byte =>
          let tag := byte_to_Z (nth 0 tag_byte x00) in
          match payload_size tag with
          | None => mret tt  (* protocol violation *)
          | Some size =>
              payload ← on_sock (_recv_exact (Z.to_nat size));
              match payload with
              | None => mret tt
              | Some payload =>
                  ev ← lift_res (decode_event tag payload);
                  _ ← queue_put ev;
                  _read_loop fuel
              end
          end
      end
  end.

(** ** The main thread's side *)

Record Client := {
  cl_sock : sock;
  cl_events : list Event;           (* the queue *)
  cl_arrivals : list (list Event);  (* what the reader adds by each queue operation *)
}.

Definition cl_on_sock {A} (m : M sock A) : M Client A :=
  on_field cl_sock
    (λ k c, {| cl_sock := k; cl_events := cl_events c; cl_arrivals := cl_arrivals c |}) m.

Definition _send (buf : bytes) : M Client unit := cl_on_sock (sendall buf).

Definition submit_limit (order_id : Z) (side : Side) (price_ticks qty : Z) : M Client unit :=
  buf ← lift_res (encode_new_order
    {| com_client_order_id := order_id; com_side := side; com_order_type := LIMIT;
       com_price_ticks := price_ticks; com_quantity := qty |});
  _send buf.

Definition submit_market (order_id : Z) (side : Side) (qty : Z) : M Client unit :=
  buf ← lift_res (encode_new_order
    {| com_client_order_id := order_id; com_side := side; com_order_type := MARKET;
       com_price_ticks := 0; com_quantity := qty |});
  _send buf.

Definition cancel (order_id : Z) : M Client unit :=
  buf ← lift_res (encode_cancel {| cm_client_order_id := order_id |});
  _send buf.

Definition subscribe_fills : M Client unit := _send encode_subscribe_fills.

(** [get_nowait()], and [get(timeout=...)] with the batch that arrives before
    the deadline. *)
Definition queue_get : M Client Event := λ c,
  let q := cl_events c ++ default [] (head (cl_arrivals c)) in
  let c' q := {| cl_sock := cl_sock c; cl_events := q; cl_arrivals := tail (cl_arrivals c) |} in
  match q with
  | [] => (c' [], Raise QueueEmpty)
  | e :: q => (c' q, Ok e)
  end.

Fixpoint drain_queue (fuel : nat) (events : list Event) : M Client (list Event) := λ c,
  match fuel with
  | O => (c, NoFuel)
  | S fuel =>
      match queue_get c with
      | (c, Ok e) => drain_queue fuel (events ++ [e]) c
      | (c, Raise QueueEmpty) => (c, Ok events)
      | (c, Raise e) => (c, Raise e)
      | (c, NoFuel) => (c, NoFuel)
      end
  end.

(** [poll_events(timeout)]; only whether a timeout is given matters here, its
    length is in the arrival batches. *)
Definition poll_events_fuel {T} (fuel : nat) (timeout : option T) : M Client (list Event) := λ c,
  match timeout with
  | None => drain_queue fuel [] c
  | Some _ =>
      match queue_get c with
      | (c, Ok e) => drain_queue fuel [e] c
      | (c, Raise QueueEmpty) => (c, Ok [])
      | (c, Raise e) => (c, Raise e)
      | (c, NoFuel) => (c, NoFuel)
      end
  end.

(** The events the main thread has not taken yet, in order. *)
Definition pending (c : Client) : list Event := cl_events c ++ concat (cl_arrivals c).

(** One more iteration than there are events. *)
Definition poll_events {T} (timeout : option T) : M Client (list Event) := λ c,
  poll_events_fuel (S (length (pending c))) timeout c.

Definition client_close (c : Client) : Client :=
  {| cl_sock := sock_close (cl_sock c); cl_events := cl_events c; cl_arrivals := cl_arrivals c |}.

(** ** The specification of the reader: framing of a byte stream

    What the peer sent, chunking forgotten, up to the end of the stream. *)
Fixpoint stream (l : list segment) : bytes :=
  match l with
  | Data (b :: bs) :: l => (b :: bs) ++ stream l
  | _ => []
  end.

(** Cut a byte stream into messages and decode them, in order.  An incomplete
    last message and an unknown tag end the stream quietly, a message the
    client cannot decode ends it with the decoder's exception. *)
Fixpoint frames (fuel : nat) (bs : bytes) : list Event * res unit :=
  match fuel with
  | O => ([], NoFuel)
  | S fuel =>
      match bs with
      | [] => ([], Ok tt)
      | b :: bs =>
          match payload_size (byte_to_Z b) with
          | None => ([], Ok tt)
          | Some n =>
              if (length bs <? Z.to_nat n)%nat then ([], Ok tt) else
              match decode_event (byte_to_Z b) (take (Z.to_nat n) bs) with
              | Ok e => let '(es, r) := frames fuel (drop (Z.to_nat n) bs) in (e :: es, r)
              | Raise x => ([], Raise x)
              | NoFuel => ([], NoFuel)
              end
          end
      end
  end.

Lemma recv_exact_loop_spec fuel n buf s :
  sk_closed s = false → (length buf ≤ n ≤ fuel + length buf)%nat →
  let bs := stream (sk_incoming s) in
  let k := (n - length buf)%nat in
  ∃ l, if (k <=? length bs)%nat then
         recv_exact_loop fuel n buf s = (sk_set_incoming l s, Ok (Some (buf ++ take k bs))) ∧
         stream l = drop k bs
       else recv_exact_loop fuel n buf s = (sk_set_incoming l s, Ok None).
Proof.
  revert buf s. induction fuel as [|fuel IH]; intros buf s Hc Hn; cbn zeta;
    cbn [recv_exact_loop]; destruct (Nat.leb_spec n (length buf)) as [Hle|Hlt]; try lia.
  1,2: exists (sk_incoming s); replace (n - length buf)%nat with 0%nat by lia; cbn;
    rewrite app_nil_r; by destruct s.
  unfold recv. rewrite Hc. destruct s as [inc sent fl cl]; cbn [sk_incoming sk_closed] in *.
  destruct inc as [|[[|b bs]|] l]; cbn [stream].
  - exists []. by rewrite (proj2 (Nat.leb_gt _ _)) by (cbn; lia).
  - exists l. rewrite (proj2 (Nat.leb_gt _ _)) by (cbn; lia).
    rewrite take_nil, drop_nil. by rewrite decide_True.
  - remember (n - length buf)%nat as k eqn:Hk. destruct k as [|k]; [lia|].
    change (take (S k) (b :: bs)) with (b :: take k bs).
    set (l' := if decide _ then l else _).
    destruct (IH (buf ++ b :: take k bs) (sk_set_incoming l' {| sk_incoming := Data (b :: bs) :: l; sk_sent := sent; sk_faults := fl; sk_closed := cl |}))
      as [l'' Hl'']; [done|rewrite length_app; cbn; rewrite length_take; lia|].
    exists l''. cbn zeta in Hl''. cbn [sk_incoming sk_set_incoming] in Hl''.
    rewrite length_app in Hl''. cbn [length] in Hl''. rewrite length_take in Hl''.
    assert (stream l' = drop (S k) (b :: bs) ++ stream l) as Hs.
    { subst l'. case_decide as Hd; [by rewrite Hd|].
      destruct (drop (S k) (b :: bs)) eqn:E; [done|]. by cbn [stream]. }
    rewrite Hs, length_app, length_drop in Hl''. cbn [length] in Hl''.
    replace (S k <=? length ((b :: bs) ++ stream l))%nat with
      (n - (length buf + S (k `min` length bs)) <=? S (length bs) - S k + length (stream l))%nat.
    2:{ rewrite length_app. cbn [length]. apply Bool.eq_iff_eq_true. rewrite !Nat.leb_le. lia. }
    unfold sk_set_incoming in *. cbn [sk_sent sk_closed sk_incoming] in *.
    case_match eqn:Hcmp; [|done]. destruct Hl'' as [-> ->]. apply Nat.leb_le in Hcmp.
    destruct (Nat.le_gt_cases (S k) (S (length bs))).
    + replace (n - _)%nat with 0%nat by lia. rewrite take_0, app_nil_r, drop_0.
      rewrite take_app_le, drop_app_le by (cbn; lia). done.
    + rewrite (drop_ge (b :: bs)), (take_ge bs) by (cbn; lia).
      rewrite app_nil_l, <- app_assoc, take_app_ge, drop_app_ge by (cbn; lia). cbn [length].
      replace (n - (length buf + S (k `min` length bs)))%nat with (S k - S (length bs))%nat by lia.
      done.
  - exists l. by rewrite (proj2 (Nat.leb_gt _ _)) by (cbn; lia).
Qed.

(** [_recv_exact] returns exactly the next [n] bytes when the stream still has
    them and [None] otherwise, whatever the chunking. *)
Lemma recv_exact_spec n r :
  sk_closed (rd_sock r) = false →
  let bs := stream (sk_incoming (rd_sock r)) in
  ∃ l, let r' := {| rd_sock := sk_set_incoming l (rd_sock r); rd_events := rd_events r |} in
       if (n <=? length bs)%nat then
         on_sock (_recv_exact n) r = (r', Ok (Some (take n bs))) ∧ stream l = drop n bs
       else on_sock (_recv_exact n) r = (r', Ok None).
Proof.
  intros Hc bs. destruct (recv_exact_loop_spec n n [] (rd_sock r) Hc) as [l Hl]; [cbn; lia|].
  exists l. cbn zeta in *. cbn [length app] in Hl. rewrite Nat.sub_0_r in Hl.
  unfold on_sock, on_field, _recv_exact. subst bs.
  by case_match; [destruct Hl as [-> ?]; split|rewrite Hl].
Qed.

(** The reader thread implements [frames]: from a connection whose stream is
    [bs], however it is chunked, it appends exactly the events of [frames] to
    the queue and ends the same way. *)
Lemma read_loop_frames (fuel : nat) (r : Reader) :
  sk_closed (rd_sock r) = false →
  let out := frames fuel (stream (sk_incoming (rd_sock r))) in
  ∃ s, _read_loop fuel r = ({| rd_sock := s; rd_events := rd_events r ++ out.1 |}, out.2).
Proof.
  revert r. induction fuel as [|fuel IH]; intros r Hc; cbn zeta.
  { exists (rd_sock r). cbn. rewrite app_nil_r. by destruct r. }
  cbn [_read_loop]. unfold mbind, M_bind.
  destruct (recv_exact_spec 1 r Hc) as [l1 H1]. cbn zeta in H1.
  destruct (stream (sk_incoming (rd_sock r))) as [|b bs] eqn:Hbs; cbn [length Nat.leb] in H1.
  { rewrite H1. eexists. cbn. by rewrite app_nil_r. }
  destruct H1 as [-> Hl1]. cbn [take nth]. change (drop 1 (b :: bs)) with bs in Hl1.
  cbn [frames]. destruct (payload_size _) as [n|]; [|eexists; cbn; by rewrite app_nil_r].
  set (r1 := {| rd_sock := _; rd_events := _ |}).
  destruct (recv_exact_spec (Z.to_nat n) r1 Hc) as [l2 H2]. cbn zeta in H2.
  subst r1. cbn [rd_sock rd_events sk_set_incoming sk_incoming] in H2. rewrite Hl1 in H2.
  rewrite Nat.ltb_antisym. destruct (Z.to_nat n <=? length bs)%nat; cbn [negb].
  2:{ rewrite H2. eexists. cbn. by rewrite app_nil_r. }
  destruct H2 as [-> Hl2]. cbn [lift_res].
  destruct (decode_event _ _) as [e|x|]; [|eexists; cbn; by rewrite app_nil_r..].
  unfold queue_put, modify. cbn [rd_sock rd_events].
  set (r2 := {| rd_sock := _; rd_events := _ |}).
  destruct (IH r2 Hc) as [s Hs]. cbn zeta in Hs. rewrite Hs. subst r2. cbn in Hs |- *.
  rewrite Hl2. destruct (frames fuel (drop (Z.to_nat n) bs)) as [es x]. exists s.
  by rewrite <- app_assoc.
Qed.

(** [frames] consumes a byte per message, so it always finishes. *)
Lemma frames_terminates fuel bs : (length bs < fuel)%nat → (frames fuel bs).2 ≠ NoFuel.
Proof.
  assert (∀ tag p, decode_event tag p ≠ NoFuel) as Hd.
  { intros tag p. unfold decode_event, decode_fill, decode_ack, struct_unpack.
    change (parse_fmt _FILL_FMT) with (Ok [fQ; fQ; fB; fq; fI; fQ]).
    change (parse_fmt _ACK_FMT) with (Ok [fQ; fB; fB]).
    cbn [mbind res_bind]. unfold Side_of. repeat (case_match; simplify_eq/=; try done). }
  revert bs. induction fuel as [|fuel IH]; intros bs Hf; [lia|].
  destruct bs as [|b bs]; cbn [frames]; [done|]. cbn [length] in Hf.
  destruct (payload_size _); [|done]. destruct (_ <? _)%nat; [done|].
  destruct (decode_event _ _) as [e|x|] eqn:E; [|done|by apply Hd in E].
  specialize (IH (drop (Z.to_nat z) bs)). rewrite length_drop in IH.
  destruct (frames fuel _). apply IH. lia.
Qed.

(** The reader thread, whose loop has no bound in the code, ends: one more
    iteration than there are received bytes is enough.  Until then it queues
    exactly the events of [frames], however the stream was chunked, and it ends
    the way [frames] does. *)
Theorem read_loop_refines_frames (fuel : nat) (r : Reader) :
  sk_closed (rd_sock r) = false →
  (length (stream (sk_incoming (rd_sock r))) < fuel)%nat →
  let out := frames fuel (stream (sk_incoming (rd_sock r))) in
  ∃ s, _read_loop fuel r = ({| rd_sock := s; rd_events := rd_events r ++ out.1 |}, out.2) ∧
    out.2 ≠ NoFuel.
Proof.
  intros Hc Hf out. destruct (read_loop_frames fuel r Hc) as [s Hs].
  exists s. split; [exact Hs|]. by apply frames_terminates.
Qed.

Lemma read_loop_refines_frames_witness :
  let r := {| rd_sock := {| sk_incoming := [Data [x42; x00]]; sk_sent := []; sk_faults := []; sk_closed := false |};
              rd_events := [] |} in
  ∃ s, _read_loop 3 r = ({| rd_sock := s; rd_events := [] |}, Ok tt).
Proof.
  intros r. destruct (read_loop_refines_frames 3 r) as (s & Hs & _);
    [reflexivity|cbn; lia|]. exists s. exact Hs.
Defined.

Section Delivery.
Context {enc : Event → bytes} {good : Event → Prop} `{!EventSource enc good}.

Lemma frames_incomplete fuel e tail rest :
  good e → enc e = tail ++ rest → rest ≠ [] → frames (S fuel) tail = ([], Ok tt).
Proof.
  intros Hg He Hr. destruct (event_wire e Hg) as (tag & payload & Henc & Hsize & _).
  destruct tail as [|b bs]; [done|]. rewrite Henc in He. injection He as <- ->.
  cbn [frames]. rewrite Hsize, Nat2Z.id, length_app.
  rewrite (proj2 (Nat.ltb_lt _ _)); [done|]. destruct rest; [done|]. cbn. lia.
Qed.

Lemma frames_events fuel evs e tail rest :
  Forall good evs → good e → enc e = tail ++ rest → rest ≠ [] →
  (length evs < fuel)%nat →
  frames fuel (concat (enc <$> evs) ++ tail) = (evs, Ok tt).
Proof.
  intros Hgs Hg He Hr. revert fuel. induction Hgs as [|ev evs Hev _ IH]; intros fuel Hf.
  - destruct fuel; [lia|]. by eapply frames_incomplete.
  - destruct fuel as [|fuel]; [lia|]. cbn [length] in Hf.
    destruct (event_wire ev Hev) as (tag & payload & Henc & Hsize & Hdec).
    cbn [fmap list_fmap concat]. rewrite Henc. cbn [app frames]. rewrite Hsize, Nat2Z.id.
    rewrite <- app_assoc, length_app, (proj2 (Nat.ltb_ge _ _)) by lia.
    rewrite take_app_length, drop_app_length, Hdec. change (list_fmap Event bytes enc evs) with (enc <$> evs).
    by rewrite IH by lia.
Qed.

(** (C9) Whatever a well-behaved peer sends arrives: if the connection carries the
    encodings of [evs] followed by a cut-off message (a proper prefix of some
    event, possibly empty) before it ends, then for every chunking of those
    bytes the reader thread queues exactly [evs], in order, and stops. *)
Theorem read_loop_delivers (evs : list Event) (e : Event) (tail rest : bytes)
    (r : Reader) (fuel : nat) :
  Forall good evs → good e → enc e = tail ++ rest → rest ≠ [] →
  sk_closed (rd_sock r) = false →
  stream (sk_incoming (rd_sock r)) = concat (enc <$> evs) ++ tail →
  (length evs < fuel)%nat →
  ∃ s, _read_loop fuel r = ({| rd_sock := s; rd_events := rd_events r ++ evs |}, Ok tt).
Proof.
  intros Hgs Hg He Hr Hc Hs Hf. destruct (read_loop_frames fuel r Hc) as [s H].
  exists s. rewrite H, Hs. by erewrite frames_events by eauto.
Qed.
End Delivery.

(** ** The queue *)

Lemma queue_get_spec c :
  match queue_get c with
  | (c', Ok e) => e :: pending c' = pending c ∧ cl_sock c' = cl_sock c
  | (c', Raise QueueEmpty) =>
      cl_events c ++ default [] (head (cl_arrivals c)) = [] ∧ cl_events c' = [] ∧
      pending c' = pending c ∧ cl_sock c' = cl_sock c
  | _ => False
  end.
Proof.
  destruct c as [k q a]. unfold queue_get, pending. cbn.
  assert (concat a = default [] (head a) ++ concat (tail a)) as Ha by by destruct a.
  rewrite Ha, app_assoc. by destruct (q ++ _).
Qed.

Lemma queue_get_result c :
  (queue_get c).2 =
    match cl_events c ++ default [] (head (cl_arrivals c)) with
    | [] => Raise QueueEmpty
    | e :: _ => Ok e
    end.
Proof. unfold queue_get. by destruct (cl_events c ++ _). Qed.

Lemma drain_queue_spec fuel acc c :
  (length (pending c) < fuel)%nat →
  ∃ c' evs, drain_queue fuel acc c = (c', Ok (acc ++ evs)) ∧
    evs ++ pending c' = pending c ∧ cl_events c' = [] ∧ cl_sock c' = cl_sock c ∧
    (evs = [] ↔ cl_events c ++ default [] (head (cl_arrivals c)) = []).
Proof.
  revert acc c. induction fuel as [|fuel IH]; intros acc c Hf; [lia|].
  cbn [drain_queue]. pose proof (queue_get_spec c) as Hq.
  pose proof (queue_get_result c) as Hv.
  destruct (queue_get c) as [c1 [e|x|]]; [|destruct x; try done|done].
  - destruct Hq as [Hp Hk].
    destruct (IH (acc ++ [e]) c1) as (c' & evs & -> & Hevs & Hc' & Hk' & _).
    { rewrite <- Hp in Hf. cbn in Hf. lia. }
    exists c', (e :: evs). rewrite <- app_assoc. split_and!; try done.
    + cbn. by rewrite Hevs, Hp.
    + congruence.
    + by destruct (cl_events c ++ _).
  - destruct Hq as (He & Hc1 & Hp & Hk). exists c1, []. rewrite app_nil_r. by split_and!.
Qed.

(** What one poll does. *)
Lemma poll_events_spec {T} (timeout : option T) (c : Client) :
  ∃ c' evs, poll_events timeout c = (c', Ok evs) ∧
    evs ++ pending c' = pending c ∧ cl_events c' = [] ∧ cl_sock c' = cl_sock c ∧
    (evs = [] ↔ cl_events c ++ default [] (head (cl_arrivals c)) = []).
Proof.
  unfold poll_events, poll_events_fuel. destruct timeout.
  2:{ destruct (drain_queue_spec (S (length (pending c))) [] c) as (c' & evs & H & ?); [lia|].
      by exists c', evs. }
  pose proof (queue_get_spec c) as Hq. pose proof (queue_get_result c) as Hv.
  destruct (queue_get c) as [c1 [e|x|]]; [|destruct x; try done|done].
  - destruct Hq as [Hp Hk].
    destruct (drain_queue_spec (S (length (pending c))) [e] c1)
      as (c' & evs & Hd & Hevs & Hc' & Hk' & _); [rewrite <- Hp; cbn; lia|].
    exists c', (e :: evs). split_and!; [done|cbn; congruence|done|congruence|].
    by destruct (cl_events c ++ _).
  - destruct Hq as (He & Hc1 & Hp & Hk). exists c1, []. by split_and!.
Qed.

(** Each look at the queue takes the next batch of arrivals. *)
Lemma queue_get_arrivals c : cl_arrivals (queue_get c).1 = tail (cl_arrivals c).
Proof. unfold queue_get. by destruct (cl_events c ++ _). Qed.

Lemma drain_queue_arrivals fuel acc c :
  (length (cl_arrivals (drain_queue fuel acc c).1) ≤ length (cl_arrivals c))%nat.
Proof.
  revert acc c. induction fuel as [|fuel IH]; intros acc c; cbn [drain_queue]; [done|].
  pose proof (queue_get_arrivals c) as Ha. destruct (queue_get c) as [c1 [e|x|]]; cbn in Ha.
  - pose proof (IH (acc ++ [e]) c1) as H. rewrite Ha in H.
    destruct (cl_arrivals c); cbn in *; lia.
  - destruct x; cbn; rewrite Ha; destruct (cl_arrivals c); cbn; lia.
  - cbn. rewrite Ha. destruct (cl_arrivals c); cbn; lia.
Qed.

Lemma poll_events_arrivals {T} (timeout : option T) c :
  (length (cl_arrivals (poll_events timeout c).1) ≤ length (cl_arrivals c) - 1)%nat.
Proof.
  unfold poll_events, poll_events_fuel.
  assert (∀ fuel acc, (length (cl_arrivals
    (match queue_get c with
     | (c', Ok e) => drain_queue fuel (acc ++ [e]) c'
     | (c', Raise QueueEmpty) => (c', Ok acc)
     | (c', Raise e) => (c', Raise e)
     | (c', NoFuel) => (c', NoFuel)
     end).1) ≤ length (cl_arrivals c) - 1)%nat) as H.
  { intros fuel acc. pose proof (queue_get_arrivals c) as Ha.
    destruct (queue_get c) as [c1 [e|x|]]; cbn in Ha; [|destruct x|];
      try (cbn; rewrite Ha; destruct (cl_arrivals c); cbn; lia).
    etransitivity; [apply drain_queue_arrivals|]. rewrite Ha. destruct (cl_arrivals c); cbn; lia. }
  destruct timeout; apply (H _ []).
Qed.

(** A sequence of polls, as a session makes them, with everything they returned. *)
Fixpoint poll_all {T} (timeouts : list (option T)) : M Client (list Event) :=
  match timeouts with
  | [] => mret []
  | t :: ts => evs ← poll_events t; rest ← poll_all ts; mret (evs ++ rest)
  end.

(** Polling never fails, and however the arrivals fall between the polls it
    loses, duplicates and reorders nothing: what the polls return, followed by
    what is still to come, is what was to come before.  One poll per batch of
    arrivals (and at least one) brings in everything. *)
Theorem polls_fifo {T} (timeouts : list (option T)) (c : Client) :
  ∃ c' evs, poll_all timeouts c = (c', Ok evs) ∧
    evs ++ pending c' = pending c ∧ cl_sock c' = cl_sock c ∧
    ((1 ≤ length timeouts)%nat → (length (cl_arrivals c) ≤ length timeouts)%nat →
     evs = pending c).
Proof.
  assert (∃ c' evs, poll_all timeouts c = (c', Ok evs) ∧
    evs ++ pending c' = pending c ∧ cl_sock c' = cl_sock c ∧
    (length (cl_arrivals c') ≤ length (cl_arrivals c) - length timeouts)%nat ∧
    (timeouts ≠ [] → cl_events c' = [])) as (c' & evs & -> & H & Hk & Ha & He).
  { revert c. induction timeouts as [|t ts IH]; intros c; cbn [poll_all].
    - exists c, []. cbn. split_and!; (done || lia).
    - destruct (poll_events_spec t c) as (c1 & evs1 & H1 & Hp1 & He1 & Hk1 & _).
      pose proof (poll_events_arrivals t c) as Ha1. rewrite H1 in Ha1.
      destruct (IH c1) as (c2 & evs2 & H2 & Hp2 & Hk2 & Ha2 & He2).
      exists c2, (evs1 ++ evs2). py_unfold. rewrite H1, H2. split_and!; try done.
      + by rewrite <- app_assoc, Hp2.
      + congruence.
      + cbn in *. lia.
      + intros _. destruct ts; [|by apply He2]. cbn in H2. by injection H2 as -> _. }
  exists c', evs. split_and!; try done. intros Hl Hn.
  assert (pending c' = []) as Hp.
  { unfold pending. rewrite He by (by destruct timeouts; [cbn in Hl; lia|]).
    apply length_zero_iff_nil. destruct (cl_arrivals c'); [done|cbn in Ha; lia]. }
  by rewrite Hp, app_nil_r in H.
Qed.
