(* ===== verification/WireAgreement.v ===== *)
(** * The Python and the C++ implementation of the wire format agree

    [Protocol] models the Python codec, [EngineProtocol] the C++ one.  Both
    are translated independently from their sources; here each direction of
    the wire is shown to carry the same messages. *)

From S2P Require Import Prelude Bytes PyFloat PyStruct Protocol EngineProtocol Client.

Open Scope Z_scope.

(** The engine's view of a Python order. *)
Definition wire_order (m : ClientOrderMsg) : WireOrder :=
  {| wo_client_order_id := com_client_order_id m; wo_side := Side_value (com_side m);
     wo_order_type := OrderType_value (com_order_type m);
     wo_price_ticks := com_price_ticks m; wo_quantity := com_quantity m |}.

(** The engine's view of the events it sends. *)
Definition wire_fill (f : FillEvent) : WireFill :=
  {| wf_resting_order_id := resting_order_id f; wf_incoming_order_id := incoming_order_id f;
     wf_resting_side := Side_value (resting_side f); wf_price_ticks := fe_price_ticks f;
     wf_quantity := fe_quantity f; wf_timestamp := fe_timestamp f |}.
Definition wire_ack (a : AckEvent) : WireAck :=
  {| wa_client_order_id := ack_client_order_id a; wa_request_type := ack_request_type a;
     wa_status := ack_status a |}.

(** The whole message, as [send_fill] and [send_ack] of the server build it. *)
Definition engine_encode (e : Event) : bytes :=
  match e with
  | EvFill f => tag_byte FILL :: encode_WireFill (wire_fill f)
  | EvAck a => tag_byte ACK :: encode_WireAck (wire_ack a)
  end.

Definition Event_ok (e : Event) : Prop :=
  match e with EvFill f => FillEvent_ok f | EvAck a => AckEvent_ok a end.

(** Both sides size every tag alike. *)
Theorem payload_size_agree (tag : Z) :
  payload_size tag = Z.of_nat <$> cpp_payload_size tag.
Proof.
  unfold payload_size, cpp_payload_size, MsgType_of.
  repeat (destruct (tag =? _); [reflexivity|]). done.
Qed.

(** The engine decodes a body that starts with the fields of an order. *)
Lemma order_body_decodes (m : ClientOrderMsg) (rest : bytes) :
  ClientOrderMsg_ok m →
  decode_client_order ((be_encode 8 (com_client_order_id m) ++ be_encode 1 (Side_value (com_side m)) ++
    be_encode 1 (OrderType_value (com_order_type m)) ++ be_encode 8 (com_price_ticks m) ++
    be_encode 4 (com_quantity m)) ++ rest) = Some (wire_order m).
Proof.
  intros (? & ? & ?). pose proof (Side_value_u8 (com_side m)).
  pose proof (OrderType_value_u8 (com_order_type m)).
  unfold decode_client_order. rewrite <- ?app_assoc.
  do 5 wire_get. by autorewrite with wire.
Qed.

Lemma cancel_body_decodes (m : CancelMsg) (rest : bytes) :
  u64 (cm_client_order_id m) →
  cpp_decode_cancel (be_encode 8 (cm_client_order_id m) ++ rest) =
    Some {| wc_client_order_id := cm_client_order_id m |}.
Proof. intros ?. unfold cpp_decode_cancel. wire_get. by autorewrite with wire. Qed.

(** Every order the Python client can encode reaches the engine unchanged:
    the payload has the size the engine waits for and decodes to the same id,
    side, type, price and quantity. *)
Theorem engine_reads_new_order (m : ClientOrderMsg) (bs : bytes) :
  encode_new_order m = Ok bs →
  ∃ payload, bs = tag_byte NEW_ORDER :: payload ∧
    cpp_payload_size (byte_to_Z (tag_byte NEW_ORDER)) = Some (length payload) ∧
    decode_client_order payload = Some (wire_order m).
Proof.
  intros Henc. pose proof (encode_new_order_ok m bs Henc) as Hok.
  rewrite encode_new_order_eq in Henc by done. apply (inj Ok) in Henc as <-.
  eexists. split; [reflexivity|]. split.
  { rewrite !length_app, !be_encode_length. done. }
  pose proof (order_body_decodes m [] Hok) as H. by rewrite app_nil_r in H.
Qed.

Lemma engine_reads_new_order_witness :
  let m := {| com_client_order_id := 7; com_side := SELL; com_order_type := LIMIT;
              com_price_ticks := -3; com_quantity := 10 |} in
  ∃ payload, encode_new_order m = Ok (tag_byte NEW_ORDER :: payload) ∧
    decode_client_order payload = Some (wire_order m).
Proof.
  intros m. destruct (engine_reads_new_order m (default [] (match encode_new_order m with
    | Ok bs => Some bs | _ => None end)) ltac:(vm_compute; reflexivity)) as (payload & He & _ & Hd).
  exists payload. split; [|exact Hd]. rewrite <- He. vm_compute. reflexivity.
Defined.

(** Likewise every cancel. *)
Theorem engine_reads_cancel (m : CancelMsg) (bs : bytes) :
  encode_cancel m = Ok bs →
  ∃ payload, bs = tag_byte CANCEL :: payload ∧
    cpp_payload_size (byte_to_Z (tag_byte CANCEL)) = Some (length payload) ∧
    cpp_decode_cancel payload = Some {| wc_client_order_id := cm_client_order_id m |}.
Proof.
  rewrite encode_cancel_eq. case_decide; [|done]. intros <-%(inj Ok).
  eexists. split; [reflexivity|]. rewrite be_encode_length. split; [done|].
  pose proof (cancel_body_decodes m [] ltac:(done)) as Hd. by rewrite app_nil_r in Hd.
Qed.

Lemma engine_reads_cancel_witness :
  ∃ payload, encode_cancel {| cm_client_order_id := 9 |} = Ok (tag_byte CANCEL :: payload) ∧
    cpp_decode_cancel payload = Some {| wc_client_order_id := 9 |}.
Proof.
  destruct (engine_reads_cancel {| cm_client_order_id := 9 |} (tag_byte CANCEL :: be_encode 8 9)
    ltac:(vm_compute; reflexivity)) as (payload & He & _ & Hd).
  exists payload. split; [rewrite <- He; vm_compute; reflexivity|exact Hd].
Defined.

(** The engine implements the event source the client is written against:
    every fill and ack it sends is decoded by the client to the same event. *)
#[export] Instance engine_event_source : EventSource engine_encode Event_ok.
Proof.
  intros [a|f] Hok; cbn [engine_encode Event_ok] in *.
  - eexists _, _. split; [reflexivity|]. rewrite encode_WireAck_length. split; [done|].
    destruct Hok as (? & ? & ?).
    change (decode_event _ ?p) with (a ← decode_ack p; Ok (EvAck a)).
    rewrite encode_WireAck_eq. unfold decode_ack.
    rewrite <- (app_nil_r (be_encode 1 (wa_status _))).
    change (_ ++ _) with (concat (zip_with enc1 [fQ; fB; fB]
      [SInt (ack_client_order_id a); SInt (ack_request_type a); SInt (ack_status a)])).
    rewrite (struct_unpack_eq _ [fQ; fB; fB]) by (done || fits_tac).
    by destruct a.
  - eexists _, _. split; [reflexivity|]. rewrite encode_WireFill_length. split; [done|].
    destruct Hok as (? & ? & ? & ? & ?). pose proof (Side_value_u8 (resting_side f)).
    change (decode_event _ ?p) with (f ← decode_fill p; Ok (EvFill f)).
    rewrite encode_WireFill_eq. unfold decode_fill.
    rewrite <- (app_nil_r (be_encode 8 (wf_timestamp _))).
    change (_ ++ _) with (concat (zip_with enc1 [fQ; fQ; fB; fq; fI; fQ]
      [SInt (resting_order_id f); SInt (incoming_order_id f); SInt (Side_value (resting_side f));
       SInt (fe_price_ticks f); SInt (fe_quantity f); SInt (fe_timestamp f)])).
    rewrite (struct_unpack_eq _ [fQ; fQ; fB; fq; fI; fQ]) by (done || fits_tac).
    cbn [mbind res_bind]. autorewrite with enums. by destruct f.
Qed.

(** The reader thread of the client on a stream the engine wrote, cut into
    chunks of five bytes and ending in the middle of a message. *)
Lemma read_loop_delivers_witness :
  let fill := EvFill {| resting_order_id := 1; incoming_order_id := 2; resting_side := BUY;
                        fe_price_ticks := 99; fe_quantity := 5; fe_timestamp := 3 |} in
  let ack := EvAck {| ack_client_order_id := 2; ack_request_type := 1; ack_status := 0 |} in
  let bs := engine_encode ack ++ engine_encode fill ++ take 4 (engine_encode ack) in
  let chunks := (λ i, Data (take 5 (drop (5 * i) bs))) <$> seq 0 12 in
  let r := {| rd_sock := {| sk_incoming := chunks; sk_sent := []; sk_faults := []; sk_closed := false |};
              rd_events := [] |} in
  ∃ s, _read_loop 3 r = ({| rd_sock := s; rd_events := [ack; fill] |}, Ok tt).
Proof.
  intros fill ack bs chunks r.
  destruct (read_loop_delivers [ack; fill] ack (take 4 (engine_encode ack))
    (drop 4 (engine_encode ack)) r 3) as [s Hs].
  - repeat constructor; decide_now.
  - repeat constructor; decide_now.
  - by rewrite take_drop.
  - vm_compute. discriminate.
  - reflexivity.
  - vm_compute. reflexivity.
  - cbn. lia.
  - exists s. exact Hs.
Defined.
