(* ===== verification/RustProtocol.v ===== *)
(** * The order protocol, Rust side ([risk/src/protocol.rs])

    The third implementation of the wire format.  A slice or an index out of
    range panics, which is [None]; unlike Python, every side byte other than 0
    reads as a sell and every type byte other than 0 as a market order.  The
    messages are those of [Protocol]; their integer fields are typed in Rust,
    so the encoders see values in range. *)

From S2P Require Import Prelude Bytes PyFloat PyStruct Protocol EngineProtocol WireAgreement.

Open Scope Z_scope.

Module Rust.

Definition from_tag (tag : Z) : option MsgType :=
  if tag =? 0x01 then Some NEW_ORDER
  else if tag =? 0x02 then Some CANCEL
  else if tag =? 0x03 then Some SUBSCRIBE_FILLS
  else if tag =? 0x10 then Some FILL
  else if tag =? 0x11 then Some ACK
  else None.

Definition side_from_u8 (v : Z) : Side := if v =? 0 then BUY else SELL.
Definition opposite (s : Side) : Side := match s with BUY => SELL | SELL => BUY end.

Definition NEW_ORDER_SIZE : nat := 8 + 1 + 1 + 8 + 4.
Definition CANCEL_SIZE : nat := 8.
Definition SUBSCRIBE_FILLS_SIZE : nat := 0.
Definition FILL_SIZE : nat := 8 + 8 + 1 + 8 + 4 + 8.
Definition ACK_SIZE : nat := 8 + 1 + 1.

Definition payload_size (tag : Z) : option nat :=
  t ← from_tag tag;
  match t with
  | NEW_ORDER => Some NEW_ORDER_SIZE
  | CANCEL => Some CANCEL_SIZE
  | SUBSCRIBE_FILLS => Some SUBSCRIBE_FILLS_SIZE
  | FILL => Some FILL_SIZE
  | ACK => Some ACK_SIZE
  end.

Definition incoming_side (f : FillEvent) : Side := opposite (resting_side f).

(** ** Slices *)

(** [payload[i..i + n]]; [try_into().unwrap()] to an array of [n] bytes succeeds. *)
Definition slice (payload : bytes) (i n : nat) : option bytes :=
  if (i + n <=? length payload)%nat then Some (take n (drop i payload)) else None.
(** [u64::from_be_bytes], [u32::from_be_bytes] and [payload[i]]; [i64::from_be_bytes]. *)
Definition be_uint (payload : bytes) (i n : nat) : option Z := be_decode <$> slice payload i n.
Definition be_i64 (payload : bytes) (i : nat) : option Z :=
  (λ b, to_signed 64 (be_decode b)) <$> slice payload i 8.

(** ** Codec *)

Definition encode_new_order (msg : ClientOrderMsg) : bytes :=
  let buf := [tag_byte NEW_ORDER] in
  let buf := buf ++ be_encode 8 (com_client_order_id msg) in
  let buf := buf ++ be_encode 1 (Side_value (com_side msg)) in
  let buf := buf ++ be_encode 1 (OrderType_value (com_order_type msg)) in
  let buf := buf ++ be_encode 8 (com_price_ticks msg) in
  buf ++ be_encode 4 (com_quantity msg).

Definition decode_new_order (payload : bytes) : option ClientOrderMsg :=
  id ← be_uint payload 0 8;
  side ← be_uint payload 8 1;
  ty ← be_uint payload 9 1;
  price ← be_i64 payload 10;
  qty ← be_uint payload 18 4;
  Some {| com_client_order_id := id; com_side := side_from_u8 side;
          com_order_type := if ty =? 0 then LIMIT else MARKET;
          com_price_ticks := price; com_quantity := qty |}.

Definition encode_cancel (client_order_id : Z) : bytes := tag_byte CANCEL :: be_encode 8 client_order_id.

Definition encode_subscribe_fills : bytes := [tag_byte SUBSCRIBE_FILLS].

Definition decode_fill (payload : bytes) : option FillEvent :=
  rid ← be_uint payload 0 8;
  iid ← be_uint payload 8 8;
  side ← be_uint payload 16 1;
  price ← be_i64 payload 17;
  qty ← be_uint payload 25 4;
  ts ← be_uint payload 29 8;
  Some {| resting_order_id := rid; incoming_order_id := iid; resting_side := side_from_u8 side;
          fe_price_ticks := price; fe_quantity := qty; fe_timestamp := ts |}.

Definition decode_ack (payload : bytes) : option AckEvent :=
  id ← be_uint payload 0 8;
  req ← be_uint payload 8 1;
  st ← be_uint payload 9 1;
  Some {| ack_client_order_id := id; ack_request_type := req; ack_status := st |}.

(** ** Reading a field of a concatenation *)

Lemma slice_skip q r i n : (length q ≤ i)%nat → slice (q ++ r) i n = slice r (i - length q) n.
Proof.
  intros H. unfold slice. rewrite drop_app_ge, length_app by done.
  replace (i + n <=? length q + length r)%nat with (i - length q + n <=? length r)%nat; [done|].
  destruct (Nat.leb_spec (i - length q + n) (length r)), (Nat.leb_spec (i + n) (length q + length r)); lia || done.
Qed.

Lemma slice_here q r n : length q = n → slice (q ++ r) 0 n = Some q.
Proof.
  intros <-. unfold slice. rewrite length_app, (proj2 (Nat.leb_le _ _)), drop_0, take_app_length by lia. done.
Qed.

Lemma be_uint_skip m z r i n : (m ≤ i)%nat → be_uint (be_encode m z ++ r) i n = be_uint r (i - m) n.
Proof. intros. unfold be_uint. rewrite slice_skip; by rewrite be_encode_length. Qed.
Lemma be_i64_skip m z r i : (m ≤ i)%nat → be_i64 (be_encode m z ++ r) i = be_i64 r (i - m).
Proof. intros. unfold be_i64. rewrite slice_skip; by rewrite be_encode_length. Qed.

Lemma be_uint_here z r n : 0 ≤ z < 256 ^ Z.of_nat n → be_uint (be_encode n z ++ r) 0 n = Some z.
Proof.
  intros Hz. unfold be_uint. rewrite slice_here by apply be_encode_length.
  cbn. by rewrite be_decode_encode_small.
Qed.
Lemma be_i64_here z r : i64 z → be_i64 (be_encode 8 z ++ r) 0 = Some z.
Proof.
  intros Hz. unfold be_i64. rewrite slice_here by apply be_encode_length.
  cbn [fmap option_fmap option_map]. f_equal. rewrite be_decode_encode. by apply (to_signed_mod 64).
Qed.

Lemma u64_here z r : u64 z → be_uint (be_encode 8 z ++ r) 0 8 = Some z.
Proof. apply (be_uint_here z r 8). Qed.
Lemma u32_here z r : u32 z → be_uint (be_encode 4 z ++ r) 0 4 = Some z.
Proof. apply (be_uint_here z r 4). Qed.
Lemma u8_here z r : u8 z → be_uint (be_encode 1 z ++ r) 0 1 = Some z.
Proof. apply (be_uint_here z r 1). Qed.

Lemma bind_some {A B} (m : option A) a (k : A → option B) : m = Some a → (m ≫= k) = k a.
Proof. by intros ->. Qed.

(** Read the next field of a payload. *)
Ltac rust_get :=
  erewrite bind_some;
  [|repeat first [rewrite be_uint_skip by lia | rewrite be_i64_skip by lia]; cbn [Nat.sub];
    lazymatch goal with
    | |- be_i64 _ _ = _ => apply be_i64_here; assumption
    | |- be_uint _ _ 8 = _ => apply u64_here; assumption
    | |- be_uint _ _ 4 = _ => apply u32_here; assumption
    | |- be_uint _ _ 1 = _ => apply u8_here; assumption
    end].

(** ** The three implementations agree *)

Lemma decode_fill_engine f : FillEvent_ok f → decode_fill (encode_WireFill (wire_fill f)) = Some f.
Proof.
  intros (? & ? & ? & ? & ?). pose proof (Side_value_u8 (resting_side f)).
  rewrite encode_WireFill_eq, <- (app_nil_r (be_encode 8 (wf_timestamp _))).
  cbn [wire_fill wf_resting_order_id wf_incoming_order_id wf_resting_side wf_price_ticks wf_quantity wf_timestamp].
  unfold decode_fill.   do 6 rust_get. by destruct f as [? ? []].
Qed.

Lemma decode_ack_engine a : AckEvent_ok a → decode_ack (encode_WireAck (wire_ack a)) = Some a.
Proof.
  intros (? & ? & ?). rewrite encode_WireAck_eq, <- (app_nil_r (be_encode 1 (wa_status _))). unfold decode_ack.
  cbn [wire_ack wa_client_order_id wa_request_type wa_status]. do 3 rust_get. by destruct a.
Qed.

Lemma encode_new_order_bytes m :
  encode_new_order m = tag_byte NEW_ORDER :: be_encode 8 (com_client_order_id m) ++
    be_encode 1 (Side_value (com_side m)) ++ be_encode 1 (OrderType_value (com_order_type m)) ++
    be_encode 8 (com_price_ticks m) ++ be_encode 4 (com_quantity m).
Proof. unfold encode_new_order. by rewrite <- !app_assoc. Qed.

Lemma encode_new_order_python m bs : Protocol.encode_new_order m = Ok bs → encode_new_order m = bs.
Proof.
  intros Henc. rewrite Protocol.encode_new_order_eq in Henc by by eapply encode_new_order_ok.
  apply (inj Ok) in Henc as <-. apply encode_new_order_bytes.
Qed.

Lemma decode_new_order_bytes m : ClientOrderMsg_ok m → decode_new_order (tail (encode_new_order m)) = Some m.
Proof.
  intros (? & ? & ?). pose proof (Side_value_u8 (com_side m)). pose proof (OrderType_value_u8 (com_order_type m)).
  rewrite encode_new_order_bytes, <- (app_nil_r (be_encode 4 _)). cbn [tail]. unfold decode_new_order.
  do 5 rust_get. by destruct m as [? [] []].
Qed.

Lemma payload_size_cpp tag : payload_size tag = cpp_payload_size tag.
Proof.
  unfold payload_size, cpp_payload_size, from_tag. repeat (destruct (tag =? _); [reflexivity|]). done.
Qed.

(** (C33) One wire format, three implementations: Rust sizes every tag as the
    engine does; an order the Python client can encode has the same bytes in
    Rust, which Rust itself and the engine decode to the same fields; and every
    fill and ack of the engine is decoded by Rust to the event Python sees. *)
Theorem rust_codec_agrees (m : ClientOrderMsg) (bs : bytes) (f : FillEvent) (a : AckEvent) :
  Protocol.encode_new_order m = Ok bs → FillEvent_ok f → AckEvent_ok a →
  (∀ tag, payload_size tag = cpp_payload_size tag) ∧
  encode_new_order m = bs ∧ decode_new_order (tail bs) = Some m ∧
  decode_client_order (tail bs) = Some (wire_order m) ∧
  decode_fill (encode_WireFill (wire_fill f)) = Some f ∧
  decode_ack (encode_WireAck (wire_ack a)) = Some a.
Proof.
  intros Henc Hf Ha. pose proof (encode_new_order_ok m bs Henc) as Hm.
  split; [exact payload_size_cpp|]. pose proof (encode_new_order_python m bs Henc) as <-.
  split; [done|]. split; [by apply decode_new_order_bytes|]. split.
  { rewrite encode_new_order_bytes. pose proof (order_body_decodes m [] Hm) as H. by rewrite app_nil_r in H. }
  split; [by apply decode_fill_engine|by apply decode_ack_engine].
Qed.

Lemma rust_codec_agrees_witness :
  let m := {| com_client_order_id := 1000000000; com_side := SELL; com_order_type := MARKET;
              com_price_ticks := -5; com_quantity := 105 |} in
  let f := {| resting_order_id := 1; incoming_order_id := 2; resting_side := SELL;
              fe_price_ticks := -500; fe_quantity := 60; fe_timestamp := 999999 |} in
  decode_new_order (tail (encode_new_order m)) = Some m ∧
  decode_fill (encode_WireFill (wire_fill f)) = Some f.
Proof.
  intros m f.
  destruct (rust_codec_agrees m (encode_new_order m) f {| ack_client_order_id := 1; ack_request_type := 1; ack_status := 0 |})
    as (_ & _ & Hm & _ & Hf & _);
    [vm_compute; reflexivity|repeat split; vm_compute; congruence|repeat split; vm_compute; congruence|].
  split; [exact Hm|exact Hf].
Defined.
End Rust.
