(* ===== verification/Server.v ===== *)
(** * The engine's server ([engine/src/server.cpp])

    One book behind a [poll] loop: connections with their read buffers, the
    owner of every resting order, and the messages handed to [send_all].  A
    message is kept as the event it encodes; [engine_encode] gives its bytes.
    The kernel hands out file descriptors and decides what each [recv] returns.

    A send that fails is not modelled.  [send_all] drops what a broken connection
    does not take and changes no state of the server, so [sv_sent] is what was
    handed to it, not what arrived.  Nothing in the program ignores SIGPIPE: where
    that signal is delivered for a send to a closed peer, the process ends, and
    the model says nothing about it. *)

From S2P Require Import Prelude Bytes PyFloat PyStruct Protocol EngineProtocol Client OrderBook.
From S2P Require Import WireAgreement.

Open Scope Z_scope.

(** ** State *)

Record Connection := {
  cn_fd : Z;
  read_buf : bytes;
  subscribed_to_fills : bool;
}.

Record Server := {
  book : OrderBook;
  connections : list Connection;
  order_owner_fd : gmap Z Z;
  sv_sent : list (Z * Event);   (* what [send_ack] and [send_fill] wrote, by descriptor *)
}.

Definition new_server : Server :=
  {| book := empty_book; connections := []; order_owner_fd := ∅; sv_sent := [] |}.

Definition set_book (b : OrderBook) (s : Server) : Server :=
  {| book := b; connections := connections s; order_owner_fd := order_owner_fd s; sv_sent := sv_sent s |}.
Definition set_connections (cs : list Connection) (s : Server) : Server :=
  {| book := book s; connections := cs; order_owner_fd := order_owner_fd s; sv_sent := sv_sent s |}.
Definition set_owners (o : gmap Z Z) (s : Server) : Server :=
  {| book := book s; connections := connections s; order_owner_fd := o; sv_sent := sv_sent s |}.
(** Handing a message to [send_all], whatever becomes of it. *)
Definition send (fd : Z) (e : Event) (s : Server) : Server :=
  {| book := book s; connections := connections s; order_owner_fd := order_owner_fd s;
     sv_sent := sv_sent s ++ [(fd, e)] |}.

(** ** Sending *)

Definition send_ack (fd order_id request_type status : Z) : Server → Server :=
  send fd (EvAck {| ack_client_order_id := order_id; ack_request_type := request_type;
                    ack_status := status |}).
Definition send_fill (fd : Z) (f : Fill) : Server → Server := send fd (EvFill f).

Definition broadcast_fill_to_subscribers (f : Fill) (already_sent_to : list Z) (s : Server) : Server :=
  fold_left (λ s c,
    if subscribed_to_fills c && negb (bool_decide (cn_fd c ∈ already_sent_to))
    then send_fill (cn_fd c) f s else s) (connections s) s.

(** ** Requests *)

Definition kNewOrderTag : Z := 1.
Definition kCancelTag : Z := 2.

Definition order_of (m : WireOrder) : Order :=
  {| o_id := wo_client_order_id m;
     o_side := if wo_side m =? 0 then BUY else SELL;
     o_type := if wo_order_type m =? 0 then LIMIT else MARKET;
     o_price_ticks := wo_price_ticks m; o_quantity := wo_quantity m; o_timestamp := 0 |}.

(** The body of the loop over the fills of a new order. *)
Definition deliver_fill (fd : Z) (s : Server) (f : Fill) : Server :=
  let already_sent_to := [fd] in
  let s := send_fill fd f s in
  let '(s, already_sent_to) :=
    match order_owner_fd s !! resting_order_id f with
    | Some owner =>
        if negb (owner =? fd) then (send_fill owner f s, already_sent_to ++ [owner])
        else (s, already_sent_to)
    | None => (s, already_sent_to)
    end in
  let s := broadcast_fill_to_subscribers f already_sent_to s in
  if contains (resting_order_id f) (book s) then s
  else set_owners (delete (resting_order_id f) (order_owner_fd s)) s.

Definition dispatch_new_order (fd : Z) (m : WireOrder) (s : Server) : Server :=
  if contains (wo_client_order_id m) (book s) then
    send_ack fd (wo_client_order_id m) kNewOrderTag 1 s
  else
    let '(b, fills) := submit (order_of m) (book s) in
    let s := set_book b s in
    let s := send_ack fd (wo_client_order_id m) kNewOrderTag 0 s in
    let s := if contains (wo_client_order_id m) b
             then set_owners (<[wo_client_order_id m := fd]> (order_owner_fd s)) s else s in
    fold_left (deliver_fill fd) fills s.

Definition dispatch_cancel (fd : Z) (m : WireCancel) (s : Server) : Server :=
  let '(b, ok) := cancel (wc_client_order_id m) (book s) in
  let s := set_book b s in
  let s := if ok then set_owners (delete (wc_client_order_id m) (order_owner_fd s)) s else s in
  send_ack fd (wc_client_order_id m) kCancelTag (if ok then 0 else 1) s.

(** ** Connections *)

(** Change the connection [fd]; the descriptors of open connections differ. *)
Definition update_conn (fd : Z) (f : Connection → Connection) (s : Server) : Server :=
  set_connections ((λ c, if cn_fd c =? fd then f c else c) <$> connections s) s.

Definition set_subscribed (c : Connection) : Connection :=
  {| cn_fd := cn_fd c; read_buf := read_buf c; subscribed_to_fills := true |}.
Definition set_read_buf (b : bytes) (c : Connection) : Connection :=
  {| cn_fd := cn_fd c; read_buf := b; subscribed_to_fills := subscribed_to_fills c |}.

(** [accept_new_connections], one connection. *)
Definition accept (fd : Z) (s : Server) : Server :=
  set_connections (connections s ++ [{| cn_fd := fd; read_buf := []; subscribed_to_fills := false |}]) s.

Definition remove_connection (fd : Z) (s : Server) : Server :=
  set_connections (filter (λ c, cn_fd c ≠ fd) (connections s)) s.

(** The [switch] of [handle_readable]: [None] closes the connection. *)
Definition dispatch (fd tag : Z) (body : bytes) (s : Server) : option Server :=
  if tag =? 0x01 then (λ m, dispatch_new_order fd m s) <$> decode_client_order body
  else if tag =? 0x02 then (λ m, dispatch_cancel fd m s) <$> cpp_decode_cancel body
  else if tag =? 0x03 then Some (update_conn fd set_subscribed s)
  else None.

(** The loop of [handle_readable] over the read buffer: the server and what is
    left in the buffer, [None] when the connection has been removed.  Every
    iteration takes a byte, so the fuel given by [handle_readable] is enough. *)
Fixpoint serve_buffer (fuel : nat) (fd : Z) (buf : bytes) (s : Server) : Server * option bytes :=
  match fuel with
  | O => (s, Some buf)
  | S fuel =>
      match buf with
      | [] => (s, Some [])
      | tag :: body =>
          match cpp_payload_size (byte_to_Z tag) with
          | None => (s, None)
          | Some payload =>
              if (length body <? payload)%nat then (s, Some buf) else
              match dispatch fd (byte_to_Z tag) body s with
              | None => (s, None)
              | Some s => serve_buffer fuel fd (drop payload body) s
              end
          end
      end
  end.

(** What [recv] on a readable connection returns: bytes, nothing yet, or the end
    of the stream or an error. *)
Inductive recv_result := Received (chunk : bytes) | WouldBlock | Closed.

(** [handle_readable]; the read buffer is written back when the loop returns. *)
Definition handle_readable (fd : Z) (buf : bytes) (r : recv_result) (s : Server) : Server :=
  let serve buf :=
    match serve_buffer (S (length buf)) fd buf s with
    | (s, Some rest) => update_conn fd (set_read_buf rest) s
    | (s, None) => remove_connection fd s
    end in
  match r with
  | Closed => remove_connection fd s
  | WouldBlock => serve buf
  | Received chunk => serve (buf ++ chunk)
  end.

(** One descriptor of one pass of [run]: a connection removed earlier in the
    pass is skipped. *)
Definition readable (fd : Z) (r : recv_result) (s : Server) : Server :=
  match List.find (λ c, cn_fd c =? fd) (connections s) with
  | None => s
  | Some c => handle_readable fd (read_buf c) r s
  end.

(** ** Decoding a request *)

Definition WireOrder_ok (m : WireOrder) : Prop :=
  u64 (wo_client_order_id m) ∧ i64 (wo_price_ticks m) ∧ u32 (wo_quantity m).

Lemma split_prefix (n : nat) (p : bytes) :
  (n ≤ length p)%nat → ∃ q r, p = q ++ r ∧ length q = n ∧ length r = (length p - n)%nat.
Proof.
  intros Hn. exists (take n p), (drop n p). rewrite take_drop, length_take, length_drop. split_and!; [done|lia|done].
Qed.

(** A body that is long enough decodes, to a message in the fields' ranges that
    the bytes after the payload do not affect. *)
Lemma decode_order_prefix (p : bytes) :
  length p = kClientOrderMsgSize →
  ∃ m, WireOrder_ok m ∧ ∀ r, decode_client_order (p ++ r) = Some m.
Proof.
  unfold kClientOrderMsgSize. intros Hl.
  destruct (split_prefix 8 p) as (q1 & p1 & -> & L1 & M1); [lia|].
  destruct (split_prefix 1 p1) as (q2 & p2 & -> & L2 & M2); [lia|].
  destruct (split_prefix 1 p2) as (q3 & p3 & -> & L3 & M3); [lia|].
  destruct (split_prefix 8 p3) as (q4 & q5 & -> & L4 & M4); [lia|].
  eexists {| wo_client_order_id := be_decode q1; wo_side := be_decode q2; wo_order_type := be_decode q3;
             wo_price_ticks := i64_of_u64 (be_decode q4); wo_quantity := be_decode q5 |}.
  assert (length q5 = 4%nat) as L5 by lia.
  pose proof (be_decode_range q1) as B1. pose proof (be_decode_range q4) as B4.
  pose proof (be_decode_range q5) as B5. rewrite L1 in B1. rewrite L4 in B4. rewrite L5 in B5.
  split.
  - split; [exact B1|]. split; [|exact B5]. exact (to_signed_range 64 (be_decode q4) ltac:(lia) B4).
  - intros r. unfold decode_client_order. rewrite <- ?app_assoc. do 5 wire_get. done.
Qed.

Lemma decode_cancel_prefix (p : bytes) :
  length p = kCancelMsgSize →
  ∃ m, u64 (wc_client_order_id m) ∧ ∀ r, cpp_decode_cancel (p ++ r) = Some m.
Proof.
  intros Hl. eexists {| wc_client_order_id := be_decode p |}.
  pose proof (be_decode_range p) as B. rewrite Hl in B. split; [exact B|].
  intros r. unfold cpp_decode_cancel. wire_get. done.
Qed.

(** The requests a server can be sent. *)
Inductive request := ReqNew (m : WireOrder) | ReqCancel (m : WireCancel) | ReqSubscribe.

Definition perform (fd : Z) (q : request) (s : Server) : Server :=
  match q with
  | ReqNew m => dispatch_new_order fd m s
  | ReqCancel m => dispatch_cancel fd m s
  | ReqSubscribe => update_conn fd set_subscribed s
  end.

Definition request_ok (q : request) : Prop :=
  match q with
  | ReqNew m => WireOrder_ok m
  | ReqCancel m => u64 (wc_client_order_id m)
  | ReqSubscribe => True
  end.

(** A whole message is one request, or closes the connection. *)
Lemma dispatch_prefix tag n (p : bytes) :
  cpp_payload_size tag = Some n → length p = n →
  (∃ q, request_ok q ∧ ∀ fd r s, dispatch fd tag (p ++ r) s = Some (perform fd q s)) ∨
  (∀ fd r s, dispatch fd tag (p ++ r) s = None).
Proof.
  intros Hn Hl. unfold cpp_payload_size in Hn. unfold dispatch.
  destruct (tag =? 1); [|destruct (tag =? 2); [|destruct (tag =? 3)]]; [..|by right].
  - injection Hn as <-. destruct (decode_order_prefix p Hl) as (m & Hm & Hd). left. exists (ReqNew m).
    split; [done|]. intros fd r s. by rewrite Hd.
  - injection Hn as <-. destruct (decode_cancel_prefix p Hl) as (m & Hm & Hd). left. exists (ReqCancel m).
    split; [done|]. intros fd r s. by rewrite Hd.
  - left. by exists ReqSubscribe.
Qed.

(** ** Framing *)

(** The next message of a buffer: incomplete, a request and the rest, or a
    reason to close. *)
Inductive parse := More | Request (q : request) (rest : bytes) | Bad.

Lemma parse_total (buf : bytes) : ∃ x,
  match x with
  | More => ∀ fuel fd s, serve_buffer (S fuel) fd buf s = (s, Some buf)
  | Request q rest => request_ok q ∧ (length rest < length buf)%nat ∧ ∀ b fuel fd s,
      serve_buffer (S fuel) fd (buf ++ b) s = serve_buffer fuel fd (rest ++ b) (perform fd q s)
  | Bad => ∀ b fuel fd s, serve_buffer (S fuel) fd (buf ++ b) s = (s, None)
  end.
Proof.
  destruct buf as [|tag body]; [by exists More|].
  destruct (cpp_payload_size (byte_to_Z tag)) as [n|] eqn:Hn.
  2:{ exists Bad. intros b fuel fd s. cbn [app serve_buffer]. by rewrite Hn. }
  destruct (Nat.ltb_spec (length body) n) as [Hlt|Hge].
  { exists More. intros fuel fd s. cbn [serve_buffer]. by rewrite Hn, (proj2 (Nat.ltb_lt _ _)). }
  destruct (split_prefix n body Hge) as (p & rest & -> & Hp & Hrest).
  assert (∀ b, ((length ((p ++ rest) ++ b)) <? n)%nat = false) as Hlen.
  { intros b. apply Nat.ltb_ge. rewrite !length_app. lia. }
  destruct (dispatch_prefix (byte_to_Z tag) n p Hn Hp) as [(q & Hq & Hd)|Hd].
  - exists (Request q rest). split; [done|]. split; [cbn; rewrite length_app; lia|]. intros b fuel fd s.
    cbn [app serve_buffer]. rewrite Hn, Hlen, <- app_assoc, Hd. by rewrite <- Hp, drop_app_length.
  - exists Bad. intros b fuel fd s. cbn [app serve_buffer]. by rewrite Hn, Hlen, <- app_assoc, Hd.
Qed.

Definition serve (fd : Z) (buf : bytes) (s : Server) : Server * option bytes :=
  serve_buffer (S (length buf)) fd buf s.

(** A buffer with no complete message: the loop leaves it alone. *)
Definition incomplete (buf : bytes) : Prop :=
  ∀ fuel fd s, serve_buffer (S fuel) fd buf s = (s, Some buf).

(** From one iteration per byte on, the fuel does not matter. *)
Lemma serve_enough fuel fd buf s :
  (length buf < fuel)%nat → serve_buffer fuel fd buf s = serve fd buf s.
Proof.
  unfold serve. remember (length buf) as n eqn:Hn. revert fuel buf s Hn.
  induction (lt_wf n) as [n _ IH]. intros fuel buf s -> Hf. destruct fuel as [|fuel]; [lia|].
  destruct (parse_total buf) as [[|q rest|] Hx].
  - by rewrite !Hx.
  - destruct Hx as (_ & Hl & Hx). specialize (Hx []). rewrite !app_nil_r in Hx. rewrite !Hx.
    rewrite (IH (length rest) Hl fuel rest); [|done|lia].
    by rewrite (IH (length rest) Hl (length buf) rest); [|done|lia].
  - specialize (Hx []). rewrite !app_nil_r in Hx. by rewrite !Hx.
Qed.

Lemma serve_fuel fuel fd buf s :
  (length buf ≤ fuel)%nat → serve_buffer (S fuel) fd buf s = serve fd buf s.
Proof. intros H. apply serve_enough. lia. Qed.

(** Serving more bytes is serving the first ones, then what they left over
    followed by the rest. *)
Lemma serve_app fd buf b s :
  match serve fd buf s with
  | (s1, Some r) => serve fd (buf ++ b) s = serve fd (r ++ b) s1 ∧ incomplete r
  | (s1, None) => serve fd (buf ++ b) s = (s1, None)
  end.
Proof.
  remember (length buf) as n eqn:Hn. revert buf s Hn.
  induction (lt_wf n) as [n _ IH]. intros buf s ->.
  destruct (parse_total buf) as [[|q rest|] Hx].
  - unfold serve at 1. rewrite Hx. by split.
  - destruct Hx as (_ & Hl & Hx). pose proof (Hx []) as H0. rewrite !app_nil_r in H0.
    specialize (IH (length rest) Hl rest (perform fd q s) eq_refl).
    assert (serve fd buf s = serve fd rest (perform fd q s)) as ->.
    { unfold serve at 1. rewrite H0. apply serve_enough. lia. }
    assert (serve fd (buf ++ b) s = serve fd (rest ++ b) (perform fd q s)) as ->; [|done].
    unfold serve at 1. rewrite Hx. apply serve_enough. rewrite !length_app. lia.
  - pose proof (Hx []) as H0. rewrite !app_nil_r in H0. unfold serve at 1. rewrite H0.
    unfold serve. by rewrite Hx.
Qed.

(** *** The loop does not look at the read buffers *)

Definition put_buf (fd : Z) (b : bytes) : Server → Server := update_conn fd (set_read_buf b).

(** The connections a fill is broadcast to. *)
Definition subscribers (already_sent_to : list Z) (cs : list Connection) : list Z :=
  cn_fd <$> filter (λ c, subscribed_to_fills c = true ∧ cn_fd c ∉ already_sent_to) cs.

Definition sends (f : Fill) (fds : list Z) (s : Server) : Server :=
  {| book := book s; connections := connections s; order_owner_fd := order_owner_fd s;
     sv_sent := sv_sent s ++ ((λ fd, (fd, EvFill f)) <$> fds) |}.

Lemma broadcast_spec f already s :
  broadcast_fill_to_subscribers f already s = sends f (subscribers already (connections s)) s.
Proof.
  unfold broadcast_fill_to_subscribers, subscribers. generalize (connections s) as cs. intros cs.
  revert s. induction cs as [|c cs IH]; intros s; cbn [fold_left].
  { destruct s. unfold sends. cbn. by rewrite app_nil_r. }
  rewrite IH, filter_cons. destruct (subscribed_to_fills c) eqn:Hs; cbn [andb].
  - case_bool_decide as Hin; cbn [negb]; (destruct (decide _) as [Hd|Hd]; try tauto).
    unfold sends, send_fill, send. cbn. by rewrite <- app_assoc.
  - by destruct (decide _) as [[Hd _]|Hd].
Qed.

(** Who is sent a fill of an order of connection [fd]: the connection itself, the
    owner of the resting order when it is another one, and the subscribers that
    are neither. *)
Definition owner_part (fd : Z) (f : Fill) (s : Server) : list Z :=
  match order_owner_fd s !! resting_order_id f with
  | Some owner => if owner =? fd then [] else [owner]
  | None => []
  end.
Definition recipients (fd : Z) (f : Fill) (s : Server) : list Z :=
  (fd :: owner_part fd f s) ++ subscribers (fd :: owner_part fd f s) (connections s).

Lemma deliver_fill_spec fd s f :
  deliver_fill fd s f =
    let s' := sends f (recipients fd f s) s in
    if contains (resting_order_id f) (book s) then s'
    else set_owners (delete (resting_order_id f) (order_owner_fd s)) s'.
Proof.
  unfold deliver_fill, recipients, owner_part.
  destruct (order_owner_fd (send_fill fd f s) !! _) as [o|] eqn:Ho; cbn in Ho; rewrite Ho;
    [destruct (o =? fd); cbn [negb]|]; cbn [app]; rewrite broadcast_spec;
    unfold sends, send_fill, send; cbn; rewrite <- ?app_assoc; done.
Qed.

(** The effect of the fills of an order depends on the connections only through
    [subscribers], and leaves them alone. *)
Lemma deliver_connections fd s f : connections (deliver_fill fd s f) = connections s.
Proof. rewrite deliver_fill_spec. cbv zeta. by destruct (contains _ _). Qed.
Lemma deliver_book fd s f : book (deliver_fill fd s f) = book s.
Proof. rewrite deliver_fill_spec. cbv zeta. by destruct (contains _ _). Qed.

Lemma delivers_same fd fs s :
  connections (fold_left (deliver_fill fd) fs s) = connections s ∧
  book (fold_left (deliver_fill fd) fs s) = book s.
Proof.
  revert s. induction fs as [|f fs IH]; intros s; cbn [fold_left]; [done|].
  destruct (IH (deliver_fill fd s f)) as [-> ->]. by rewrite deliver_connections, deliver_book.
Qed.

Lemma subscribers_buf already fd b cs :
  subscribers already ((λ c, if cn_fd c =? fd then set_read_buf b c else c) <$> cs) =
  subscribers already cs.
Proof.
  unfold subscribers. induction cs as [|c cs IH]; [done|]. cbn [fmap list_fmap].
  rewrite !filter_cons.
  assert (subscribed_to_fills (if cn_fd c =? fd then set_read_buf b c else c) = subscribed_to_fills c ∧
    cn_fd (if cn_fd c =? fd then set_read_buf b c else c) = cn_fd c) as [-> Hf] by by destruct (_ =? _).
  rewrite Hf. destruct (decide _); [|exact IH]. cbn [fmap list_fmap]. rewrite Hf. f_equal. exact IH.
Qed.

Lemma deliver_buf fd fd' b s f :
  deliver_fill fd (put_buf fd' b s) f = put_buf fd' b (deliver_fill fd s f).
Proof.
  rewrite !deliver_fill_spec. cbv zeta. change (book (put_buf fd' b s)) with (book s).
  assert (recipients fd f (put_buf fd' b s) = recipients fd f s) as ->.
  { unfold recipients, owner_part. change (order_owner_fd (put_buf fd' b s)) with (order_owner_fd s).
    f_equal. apply subscribers_buf. }
  by destruct (contains _ _).
Qed.

Lemma delivers_buf fd fd' b fs s :
  fold_left (deliver_fill fd) fs (put_buf fd' b s) = put_buf fd' b (fold_left (deliver_fill fd) fs s).
Proof.
  revert s. induction fs as [|f fs IH]; intros s; cbn [fold_left]; [done|]. by rewrite deliver_buf, IH.
Qed.

Lemma perform_buf fd fd' b q s : perform fd q (put_buf fd' b s) = put_buf fd' b (perform fd q s).
Proof.
  destruct q as [m|m|]; cbn [perform].
  - unfold dispatch_new_order. change (book (put_buf fd' b s)) with (book s).
    destruct (contains _ (book s)); [done|]. destruct (submit _ _) as [b' fills].
    rewrite <- delivers_buf. by destruct (contains _ b').
  - unfold dispatch_cancel. change (book (put_buf fd' b s)) with (book s).
    destruct (cancel _ _) as [b' []]; done.
  - unfold put_buf, update_conn, set_connections. cbn. f_equal.
    rewrite <- !list_fmap_compose. apply list_fmap_ext. intros i c _. cbn.
    destruct (cn_fd c =? fd) eqn:H1, (cn_fd c =? fd') eqn:H2; cbn; rewrite ?H1, ?H2; done.
Qed.

Lemma serve_buf fd fd' b buf s :
  serve fd buf (put_buf fd' b s) =
    let '(s', r) := serve fd buf s in (put_buf fd' b s', r).
Proof.
  remember (length buf) as n eqn:Hn. revert buf s Hn.
  induction (lt_wf n) as [n _ IH]. intros buf s ->.
  destruct (parse_total buf) as [[|q rest|] Hx].
  - unfold serve. by rewrite !Hx.
  - destruct Hx as (_ & Hl & Hx). specialize (Hx []). rewrite !app_nil_r in Hx.
    unfold serve at 1 2. rewrite !Hx, !serve_enough by lia. rewrite perform_buf. by apply (IH (length rest)).
  - unfold serve. specialize (Hx []). rewrite !app_nil_r in Hx. by rewrite !Hx.
Qed.

Lemma put_buf_twice fd b b' s : put_buf fd b' (put_buf fd b s) = put_buf fd b' s.
Proof.
  unfold put_buf, update_conn, set_connections. cbn. f_equal. rewrite <- list_fmap_compose.
  apply list_fmap_ext. intros i c _. cbn. destruct (cn_fd c =? fd) eqn:H; cbn; by rewrite ?H.
Qed.

Lemma remove_put_buf fd b s : remove_connection fd (put_buf fd b s) = remove_connection fd s.
Proof.
  unfold remove_connection, put_buf, update_conn, set_connections. cbn. f_equal.
  induction (connections s) as [|c cs IH]; [done|]. cbn [fmap list_fmap]. rewrite !filter_cons.
  destruct (Z.eqb_spec (cn_fd c) fd); [rewrite !decide_False by (intros Hne; by apply Hne); exact IH|].
  rewrite !decide_True by done. f_equal. exact IH.
Qed.

(** *** What stays of a connection *)

Definition buffer_of (fd : Z) (s : Server) : option bytes :=
  read_buf <$> List.find (λ c, cn_fd c =? fd) (connections s).

Lemma find_update fd fd' f cs :
  (∀ c, cn_fd (f c) = cn_fd c) →
  List.find (λ c, cn_fd c =? fd) ((λ c, if cn_fd c =? fd' then f c else c) <$> cs) =
    (λ c, if fd =? fd' then f c else c) <$> List.find (λ c, cn_fd c =? fd) cs.
Proof.
  intros Hf. induction cs as [|c cs IH]; [done|]. cbn [fmap list_fmap List.find].
  assert (cn_fd (if cn_fd c =? fd' then f c else c) = cn_fd c) as ->
    by (destruct (cn_fd c =? fd'); [apply Hf|done]).
  destruct (Z.eqb_spec (cn_fd c) fd) as [->|]; [done|exact IH].
Qed.

Lemma buffer_put fd b s : buffer_of fd (put_buf fd b s) = (λ _, b) <$> buffer_of fd s.
Proof.
  unfold buffer_of, put_buf, update_conn, set_connections. cbn [connections].
  rewrite find_update by done. rewrite Z.eqb_refl. by destruct (List.find _ _).
Qed.

Lemma buffer_removed fd s : buffer_of fd (remove_connection fd s) = None.
Proof.
  unfold buffer_of, remove_connection, set_connections. cbn [connections].
  induction (connections s) as [|c cs IH]; [done|]. rewrite filter_cons.
  destruct (decide _) as [Hd|Hd]; [|exact IH]. cbn. by rewrite (proj2 (Z.eqb_neq _ _) Hd).
Qed.

Lemma perform_buffer fd fd' q s : buffer_of fd (perform fd' q s) = buffer_of fd s.
Proof.
  unfold buffer_of. destruct q as [m|m|]; cbn [perform].
  - unfold dispatch_new_order. destruct (contains _ (book s)); [done|].
    destruct (submit _ _) as [b fills].
    match goal with |- context [fold_left (deliver_fill fd') fills ?s0] =>
      destruct (delivers_same fd' fills s0) as [-> _] end. by destruct (contains _ b).
  - unfold dispatch_cancel. by destruct (cancel _ _) as [b []].
  - unfold update_conn, set_connections. cbn [connections]. rewrite find_update by done.
    destruct (List.find _ _) as [c|]; [|done]. cbn. by destruct (fd =? fd').
Qed.

Lemma serve_buffer_of fd fd' buf s : buffer_of fd (serve fd' buf s).1 = buffer_of fd s.
Proof.
  remember (length buf) as n eqn:Hn. revert buf s Hn.
  induction (lt_wf n) as [n _ IH]. intros buf s ->.
  destruct (parse_total buf) as [[|q rest|] Hx].
  - unfold serve. by rewrite Hx.
  - destruct Hx as (_ & Hl & Hx). specialize (Hx []). rewrite !app_nil_r in Hx.
    unfold serve. rewrite Hx, serve_enough by lia. rewrite (IH (length rest)) by done.
    apply perform_buffer.
  - unfold serve. specialize (Hx []). rewrite !app_nil_r in Hx. by rewrite Hx.
Qed.

(** *** Chunking does not matter *)

Lemma readable_received fd c s :
  readable fd (Received c) s =
    match buffer_of fd s with
    | None => s
    | Some buf =>
        match serve fd (buf ++ c) s with
        | (s', Some rest) => put_buf fd rest s'
        | (s', None) => remove_connection fd s'
        end
    end.
Proof. unfold readable, buffer_of. by destruct (List.find _ _). Qed.

Lemma readable_twice fd a b s :
  readable fd (Received b) (readable fd (Received a) s) = readable fd (Received (a ++ b)) s.
Proof.
  rewrite (readable_received fd a s), (readable_received fd (a ++ b) s).
  destruct (buffer_of fd s) as [buf|] eqn:Hb; [|by rewrite readable_received, Hb].
  rewrite app_assoc. pose proof (serve_app fd (buf ++ a) b s) as Ha.
  pose proof (serve_buffer_of fd fd (buf ++ a) s) as H1.
  destruct (serve fd (buf ++ a) s) as [s1 [r|]]; cbn [fst] in H1.
  - destruct Ha as [-> _]. rewrite readable_received, buffer_put, H1, Hb. cbn [fmap option_fmap option_map].
    rewrite serve_buf. destruct (serve fd (r ++ b) s1) as [s2 [r'|]]; [apply put_buf_twice|apply remove_put_buf].
  - rewrite Ha, readable_received, buffer_removed. done.
Qed.

Lemma server_chunks (fd : Z) (c : bytes) (chunks : list bytes) (s : Server) :
  fold_left (λ s c, readable fd (Received c) s) (c :: chunks) s =
    readable fd (Received (concat (c :: chunks))) s.
Proof.
  revert c s. induction chunks as [|c' chunks IH]; intros c s.
  { cbn. by rewrite app_nil_r. }
  change (fold_left (λ s c, readable fd (Received c) s) (c :: c' :: chunks) s)
    with (fold_left (λ s c, readable fd (Received c) s) (c' :: chunks) (readable fd (Received c) s)).
  rewrite IH, readable_twice. done.
Qed.

(** (C10) Framing is independent of the chunking: whatever the bytes, however they
    were cut by the network, a connection that receives the chunks one at a time
    leaves the server, the replies included, exactly as if all of them had been
    received at once. *)
Theorem server_chunking (fd : Z) (c : bytes) (chunks : list bytes) (s : Server) :
  fold_left (λ s c, readable fd (Received c) s) (c :: chunks) s =
    readable fd (Received (concat (c :: chunks))) s.
Proof. apply server_chunks. Qed.

(** ** Every fill reaches its parties once *)

Lemma recipients_spec fd f s :
  NoDup (cn_fd <$> connections s) →
  NoDup (recipients fd f s) ∧ head (recipients fd f s) = Some fd ∧
  ∀ x, x ∈ recipients fd f s ↔
    x = fd ∨ order_owner_fd s !! resting_order_id f = Some x ∨
    ∃ c, c ∈ connections s ∧ cn_fd c = x ∧ subscribed_to_fills c = true.
Proof.
  intros Hnd. unfold recipients. set (first := fd :: owner_part fd f s).
  assert (NoDup first ∧ ∀ x, x ∈ first ↔ x = fd ∨ order_owner_fd s !! resting_order_id f = Some x) as [H1 H2].
  { unfold first, owner_part. destruct (order_owner_fd s !! _) as [o|].
    - destruct (Z.eqb_spec o fd) as [->|Hne].
      + split; [apply NoDup_singleton|]. set_solver.
      + split; [|set_solver]. apply NoDup_cons. split; [set_solver|apply NoDup_singleton].
    - split; [apply NoDup_singleton|]. set_solver. }
  assert (∀ x, x ∈ subscribers first (connections s) ↔
    (∃ c, c ∈ connections s ∧ cn_fd c = x ∧ subscribed_to_fills c = true) ∧ x ∉ first) as H3.
  { intros x. unfold subscribers. rewrite list_elem_of_fmap. setoid_rewrite list_elem_of_filter. naive_solver. }
  split; [|split; [done|]].
  - apply NoDup_app. split; [done|]. split; [intros x Hx Hs; by apply H3 in Hs as [_ ?]|].
    unfold subscribers. clear -Hnd. induction (connections s) as [|c cs IH]; [constructor|].
    cbn [fmap list_fmap] in Hnd. apply NoDup_cons in Hnd as [Hc Hnd]. rewrite filter_cons.
    destruct (decide _); [|auto]. cbn [fmap list_fmap]. apply NoDup_cons. split; [|auto].
    rewrite list_elem_of_fmap. intros (c' & Heq & [_ Hin]%list_elem_of_filter). apply Hc.
    rewrite Heq. by apply list_elem_of_fmap_2.
  - intros x. rewrite elem_of_app, H3, H2. destruct (decide (x ∈ first)) as [Hx|Hx]; rewrite H2 in Hx; tauto.
Qed.

(** ** The invariant of a server *)

Definition order_fits (o : Order) : Prop := u64 (o_id o) ∧ i64 (o_price_ticks o) ∧ u32 (o_quantity o).

Lemma tick_u64 t : u64 (tick t).
Proof. unfold tick, u64. apply Z.mod_pos_bound. lia. Qed.

Lemma trade_fits crosses queue inc ts :
  Forall order_fits queue → order_fits inc → u64 ts →
  let '(queue', inc', ts', fills) := trade crosses queue inc ts in
  Forall order_fits queue' ∧ order_fits inc' ∧ u64 ts' ∧ Forall FillEvent_ok fills ∧
  o_id inc' = o_id inc ∧ (∀ x, x ∈ ids queue' → x ∈ ids queue) ∧
  (∀ x, x ∈ ids queue → x ∈ ids queue' ∨ x ∈ resting_order_id <$> fills).
Proof.
  intros Hq. revert inc ts. induction Hq as [|r queue Hr Hq IH]; intros inc ts Hi Ht; cbn [trade].
  { split_and!; try done. auto. }
  destruct (_ || _); [split_and!; try done; [by constructor|auto]|].
  set (traded := Z.min (o_quantity inc) (o_quantity r)).
  destruct Hr as (R1 & R2 & R3), Hi as (I1 & I2 & I3). unfold u32 in R3, I3.
  assert (FillEvent_ok (fill_of r inc traded ts)) as Hf.
  { split; [exact R1|]. split; [exact I1|]. split; [exact R2|]. split; [|exact Ht]. unfold u32. cbn. lia. }
  assert (order_fits (set_quantity (o_quantity inc - traded) inc)) as Hi'.
  { split; [exact I1|]. split; [exact I2|]. unfold u32. cbn. lia. }
  assert (order_fits (set_quantity (o_quantity r - traded) r)) as Hr'.
  { split; [exact R1|]. split; [exact R2|]. unfold u32. cbn. lia. }
  destruct (_ <? _).
  - split; [by constructor|]. split; [exact Hi'|]. split; [apply tick_u64|].
    split; [by constructor|]. split; [done|]. split; [done|]. auto.
  - specialize (IH _ (tick ts) Hi' (tick_u64 ts)). destruct (trade _ _ _ _) as [[[queue' inc'] ts'] fills].
    destruct IH as (H1 & H2 & H3 & H4 & H0 & H5 & H6). split; [done|]. split; [done|]. split; [done|].
    split; [by constructor|]. split; [done|]. unfold ids in *. cbn [fmap list_fmap]. split; [set_solver|].
    intros x [->|Hx]%elem_of_cons; [right; by left|]. destruct (H6 x Hx); [by left|right; by right].
Qed.

(** Everything a book holds fits the wire. *)
Definition book_fits (b : OrderBook) : Prop :=
  Forall order_fits (all_orders b) ∧ u64 (next_timestamp_ b).

Lemma enqueue_fits o q : order_fits o → Forall order_fits q → Forall order_fits (enqueue o q).
Proof. intros Ho Hq. rewrite enqueue_perm. by constructor. Qed.

Lemma ids_enqueue o q x : x ∈ ids (enqueue o q) ↔ x = o_id o ∨ x ∈ ids q.
Proof. rewrite (ids_perm _ _ (enqueue_perm o q)). unfold ids. cbn. by rewrite elem_of_cons. Qed.

Lemma rested_fits (c : bool) o own :
  order_fits o → Forall order_fits own →
  let own' := if c then enqueue o own else own in
  Forall order_fits own' ∧ (∀ x, x ∈ ids own' → x ∈ ids own ∨ x = o_id o) ∧
  (∀ x, x ∈ ids own → x ∈ ids own').
Proof.
  intros Ho Hown. destruct c; cbn; [|by auto]. split; [by apply enqueue_fits|].
  setoid_rewrite ids_enqueue. tauto.
Qed.

(** What a submit does to the ids of the book. *)
Lemma submit_fits o b :
  book_ok b → book_fits b → order_fits o → contains (o_id o) b = false →
  let '(b', fills) := submit o b in
  book_ok b' ∧ book_fits b' ∧ Forall FillEvent_ok fills ∧
  (∀ x, x ∈ ids (all_orders b') → x ∈ ids (all_orders b) ∨ x = o_id o) ∧
  (∀ x, x ∈ ids (all_orders b) → x ∈ ids (all_orders b') ∨ x ∈ resting_order_id <$> fills).
Proof.
  intros Hb [Hfit Hts] Ho Hc. pose proof Ho as (_ & _ & Hq). unfold u32 in Hq.
  pose proof (submit_spec o b Hb ltac:(lia)) as H. destruct (submit o b) as [b' fills].
  destruct H as [H Hb']. split; [done|]. rewrite contains_spec in Hc by done.
  apply bool_decide_eq_false in Hc. unfold spec_submit in H. rewrite decide_False in H by done.
  unfold all_orders in Hfit. apply Forall_app in Hfit as [Fb Fa]. unfold book_fits, all_orders.
  set (o1 := set_timestamp (pb_ts (abs b)) o) in *. assert (order_fits o1) as Ho1 by exact Ho.
  change (o_side o1) with (o_side o) in H. cbn [abs pb_bids pb_asks pb_ts] in H.
  rewrite !ids_app. setoid_rewrite elem_of_app.
  destruct (o_side o).
  - pose proof (trade_fits buy_crosses (flat (asks_ b)) o1 _ Fa Ho1 (tick_u64 (next_timestamp_ b))) as Ht.
    destruct (trade _ _ _ _) as [[[opp' q] ts'] fs]. destruct Ht as (T1 & T2 & T3 & T4 & T5 & T6 & T7).
    destruct (rested_fits ((0 <? o_quantity q) && bool_decide (o_type q = LIMIT)) q (flat (bids_ b)) T2 Fb)
      as (R1 & R2 & R3). change (o_id o1) with (o_id o) in T5. rewrite T5 in R2.
    inversion H as [[E1 E2 E3 E4]]. rewrite E1 in R1, R2, R3 |- *. subst opp' ts' fs.
    split; [split; [by apply Forall_app_2|done]|]. split; [done|]. naive_solver.
  - pose proof (trade_fits sell_crosses (flat (bids_ b)) o1 _ Fb Ho1 (tick_u64 (next_timestamp_ b))) as Ht.
    destruct (trade _ _ _ _) as [[[opp' q] ts'] fs]. destruct Ht as (T1 & T2 & T3 & T4 & T5 & T6 & T7).
    destruct (rested_fits ((0 <? o_quantity q) && bool_decide (o_type q = LIMIT)) q (flat (asks_ b)) T2 Fa)
      as (R1 & R2 & R3). change (o_id o1) with (o_id o) in T5. rewrite T5 in R2.
    inversion H as [[E1 E2 E3 E4]]. rewrite E2 in R1, R2, R3 |- *. subst opp' ts' fs.
    split; [split; [by apply Forall_app_2|done]|]. split; [done|]. naive_solver.
Qed.

(** The book's invariant, fields that fit the wire, an owner for every resting
    order and for no other, distinct descriptors, and only messages that the
    clients can decode. *)
Record server_ok (s : Server) : Prop := {
  so_book : book_ok (book s);
  so_fits : book_fits (book s);
  so_owners : ∀ id, is_Some (order_owner_fd s !! id) ↔ id ∈ ids (all_orders (book s));
  so_fds : NoDup (cn_fd <$> connections s);
  so_sent : Forall (λ p, Event_ok p.2) (sv_sent s);
}.

Lemma deliver_owner fd s f id :
  order_owner_fd (deliver_fill fd s f) !! id =
    if decide (id = resting_order_id f ∧ contains id (book s) = false) then None
    else order_owner_fd s !! id.
Proof.
  rewrite deliver_fill_spec. cbv zeta. destruct (decide _) as [[-> Hc]|Hn].
  - rewrite Hc. apply lookup_delete_eq.
  - destruct (contains (resting_order_id f) (book s)) eqn:Hc; [done|]. apply lookup_delete_ne. naive_solver.
Qed.

Lemma delivers_owner fd fs s id :
  order_owner_fd (fold_left (deliver_fill fd) fs s) !! id =
    if decide (id ∈ resting_order_id <$> fs ∧ contains id (book s) = false) then None
    else order_owner_fd s !! id.
Proof.
  revert s. induction fs as [|f fs IH]; intros s; cbn [fold_left fmap list_fmap].
  { rewrite decide_False; [done|]. intros [Hin _]. by apply not_elem_of_nil in Hin. }
  rewrite IH, deliver_owner, deliver_book.
  repeat case_decide; rewrite ?elem_of_cons in *; naive_solver.
Qed.

Lemma sends_ok f fds s :
  FillEvent_ok f → Forall (λ p, Event_ok p.2) (sv_sent s) → Forall (λ p, Event_ok p.2) (sv_sent (sends f fds s)).
Proof.
  intros Hf Hs. cbn [sends sv_sent]. apply Forall_app_2; [done|]. apply Forall_fmap, Forall_true. by intros x.
Qed.

Lemma delivers_sent_ok fd fs s :
  Forall FillEvent_ok fs → Forall (λ p, Event_ok p.2) (sv_sent s) →
  Forall (λ p, Event_ok p.2) (sv_sent (fold_left (deliver_fill fd) fs s)).
Proof.
  intros Hfs. revert s. induction Hfs as [|f fs Hf _ IH]; intros s Hs; cbn [fold_left]; [done|].
  apply IH. rewrite deliver_fill_spec. cbv zeta. destruct (contains _ _); cbn [set_owners sv_sent];
    by apply (sends_ok f (recipients fd f s) s).
Qed.

Lemma ack_event_ok fd id tag st s :
  u64 id → u8 tag → u8 st → Forall (λ p, Event_ok p.2) (sv_sent s) →
  Forall (λ p, Event_ok p.2) (sv_sent (send_ack fd id tag st s)).
Proof. intros. apply Forall_app_2; [done|]. constructor; [|constructor]. done. Qed.

Lemma update_conn_fds fd f s :
  (∀ c, cn_fd (f c) = cn_fd c) → cn_fd <$> connections (update_conn fd f s) = cn_fd <$> connections s.
Proof.
  intros Hf. unfold update_conn, set_connections. cbn [connections]. rewrite <- list_fmap_compose.
  apply list_fmap_ext. intros i c _. cbn. destruct (_ =? _); [apply Hf|done].
Qed.

Lemma update_conn_ok fd f s :
  (∀ c, cn_fd (f c) = cn_fd c) → server_ok s → server_ok (update_conn fd f s).
Proof. intros Hf [H1 H2 H3 H4 H5]. split; try done. by rewrite update_conn_fds. Qed.

Lemma dispatch_new_order_ok fd m s :
  WireOrder_ok m → server_ok s → server_ok (dispatch_new_order fd m s).
Proof.
  intros (M1 & M2 & M3) [H1 H2 H3 H4 H5]. unfold dispatch_new_order.
  destruct (contains (wo_client_order_id m) (book s)) eqn:Hc.
  { split; try done. by apply ack_event_ok. }
  pose proof (submit_fits (order_of m) (book s) H1 H2) as Hs. cbn [order_of o_id] in Hs.
  specialize (Hs ltac:(by split_and!) Hc). destruct (submit _ _) as [b' fills].
  destruct Hs as (B1 & B2 & B3 & B4 & B5). set (s1 := send_ack _ _ _ _ (set_book b' s)).
  assert (Forall (λ p, Event_ok p.2) (sv_sent s1)) as Hs1 by by apply ack_event_ok.
  set (s2 := if contains _ b' then _ else s1).
  assert (book s2 = b' ∧ connections s2 = connections s ∧ sv_sent s2 = sv_sent s1) as (E1 & E2 & E3)
    by by subst s2; destruct (contains _ b').
  destruct (delivers_same fd fills s2) as [D1 D2]. split; rewrite ?D1, ?D2, ?E1, ?E2; try done.
  2:{ apply delivers_sent_ok; [done|]. by rewrite E3. }
  intros id. rewrite delivers_owner, E1.
  assert (is_Some (order_owner_fd s2 !! id) ↔
    id ∈ ids (all_orders (book s)) ∨ id = wo_client_order_id m ∧ id ∈ ids (all_orders b')) as Ho.
  { subst s2. rewrite contains_spec by done. case_bool_decide as Hin.
    - cbn [set_owners order_owner_fd]. destruct (decide (id = wo_client_order_id m)) as [->|Hne].
      + rewrite lookup_insert_eq. naive_solver.
      + rewrite lookup_insert_ne by done. cbn [s1 send_ack send set_book order_owner_fd]. rewrite H3. tauto.
    - cbn [s1 send_ack send set_book order_owner_fd]. rewrite H3. naive_solver. }
  rewrite contains_spec by done. case_decide as Hd.
  - destruct Hd as [Hin Hb%bool_decide_eq_false]. split; [by intros [? ?]|done].
  - rewrite Ho. split.
    + intros [Hin|[_ Hin]]; [|done]. destruct (B5 id Hin) as [|Hf]; [done|].
      destruct (decide (id ∈ ids (all_orders b'))) as [|Hn]; [done|]. destruct Hd. split; [done|].
      by apply bool_decide_eq_false.
    + intros Hin. destruct (B4 id Hin) as [|E]; [by left|]. right. cbn in E. by split.
Qed.

Lemma cancel_fits id b :
  book_ok b → book_fits b →
  let '(b', ok) := cancel id b in
  book_ok b' ∧ book_fits b' ∧ ok = bool_decide (id ∈ ids (all_orders b)) ∧
  ∀ x, x ∈ ids (all_orders b') ↔ x ∈ ids (all_orders b) ∧ x ≠ id.
Proof.
  intros Hb [Hf Ht]. pose proof (cancel_spec id b Hb) as H. destruct (cancel id b) as [b' ok].
  destruct H as [H Hb']. split; [done|]. unfold spec_cancel in H. inversion H as [[E1 E2 E3 E4]].
  assert (all_orders b' = filter (λ o, o_id o ≠ id) (all_orders b)) as Ha.
  { unfold all_orders. rewrite filter_app. cbn [abs pb_bids pb_asks] in E1, E2. by rewrite E1, E2. }
  split; [split; [rewrite Ha; by apply Forall_filter|]|].
  { cbn [abs pb_ts] in E3. by rewrite <- E3. }
  split; [done|]. intros x. rewrite Ha. unfold ids. rewrite !list_elem_of_fmap.
  setoid_rewrite list_elem_of_filter. naive_solver.
Qed.

Lemma dispatch_cancel_ok fd m s :
  u64 (wc_client_order_id m) → server_ok s → server_ok (dispatch_cancel fd m s).
Proof.
  intros Hm [H1 H2 H3 H4 H5]. unfold dispatch_cancel.
  pose proof (cancel_fits (wc_client_order_id m) (book s) H1 H2) as Hc.
  destruct (cancel _ _) as [b' ok]. destruct Hc as (B1 & B2 & -> & B3).
  case_bool_decide as Hin; (split; [done|done| |done|by apply ack_event_ok]); intros id;
    cbn [send_ack send set_owners set_book order_owner_fd book]; rewrite B3.
  - rewrite lookup_delete_is_Some, H3. naive_solver.
  - rewrite H3. split; [|tauto]. intros Hi. split; [done|]. by intros ->.
Qed.

Lemma perform_ok fd q s : request_ok q → server_ok s → server_ok (perform fd q s).
Proof.
  destruct q as [m|m|]; cbn [request_ok perform].
  - apply dispatch_new_order_ok.
  - apply dispatch_cancel_ok.
  - intros _. by apply update_conn_ok.
Qed.

Lemma serve_ok fd buf s : server_ok s → server_ok (serve fd buf s).1.
Proof.
  remember (length buf) as n eqn:Hn. revert buf s Hn.
  induction (lt_wf n) as [n _ IH]. intros buf s -> Hs.
  destruct (parse_total buf) as [[|q rest|] Hx].
  - unfold serve. by rewrite Hx.
  - destruct Hx as (Hq & Hl & Hx). specialize (Hx []). rewrite !app_nil_r in Hx.
    unfold serve. rewrite Hx, serve_enough by lia. apply (IH (length rest)); [done|done|]. by apply perform_ok.
  - unfold serve. specialize (Hx []). rewrite !app_nil_r in Hx. by rewrite Hx.
Qed.

Lemma remove_ok fd s : server_ok s → server_ok (remove_connection fd s).
Proof.
  intros [H1 H2 H3 H4 H5]. split; try done. cbn [remove_connection set_connections connections]. clear -H4.
  induction (connections s) as [|c cs IH]; [constructor|]. cbn [fmap list_fmap] in H4.
  apply NoDup_cons in H4 as [Hc Hnd]. rewrite filter_cons. destruct (decide _); [|auto].
  cbn [fmap list_fmap]. apply NoDup_cons. split; [|auto]. rewrite list_elem_of_fmap.
  intros (c' & Heq & [_ Hin]%list_elem_of_filter). apply Hc. rewrite Heq. by apply list_elem_of_fmap_2.
Qed.

Lemma handle_readable_ok fd buf r s : server_ok s → server_ok (handle_readable fd buf r s).
Proof.
  intros Hs. assert (∀ b, server_ok (match serve fd b s with
    | (s, Some rest) => update_conn fd (set_read_buf rest) s
    | (s, None) => remove_connection fd s end)) as H.
  { intros b. pose proof (serve_ok fd b s Hs) as Hb. destruct (serve fd b s) as [s' [rest|]];
      [by apply update_conn_ok|by apply remove_ok]. }
  destruct r as [c| |]; [apply H|apply H|by apply remove_ok].
Qed.

(** ** Every run of the server *)

(** The kernel hands out a descriptor that is not open, or reports one readable. *)
Inductive server_step : Server → Server → Prop :=
| step_accept fd s : fd ∉ cn_fd <$> connections s → server_step s (accept fd s)
| step_readable fd r s : server_step s (readable fd r s).

Lemma accept_ok fd s : fd ∉ cn_fd <$> connections s → server_ok s → server_ok (accept fd s).
Proof.
  intros Hfd [H1 H2 H3 H4 H5]. split; try done. cbn [accept set_connections connections].
  rewrite fmap_app, NoDup_app. cbn. split; [done|]. split; [set_solver|apply NoDup_singleton].
Qed.

Lemma server_step_ok s s' : server_step s s' → server_ok s → server_ok s'.
Proof.
  intros [fd s1 Hfd|fd r s1] Hs; [by apply accept_ok|].
  unfold readable. destruct (List.find _ _); [by apply handle_readable_ok|done].
Qed.

Lemma new_server_ok : server_ok new_server.
Proof.
  split; [apply empty_book_ok|split; [constructor|unfold u64; cbn; lia]| |constructor|constructor].
  intros id. cbn. rewrite lookup_empty. split; [by intros [? ?]|]. by intros ?%not_elem_of_nil.
Qed.

Lemma rtc_server_ok s : rtc server_step new_server s → server_ok s.
Proof.
  intros Hr. pose proof new_server_ok as H0. revert H0. induction Hr as [|s1 s2 s3 H12 _ IH]; [done|].
  intros H0. by apply IH, (server_step_ok s1).
Qed.

(** (C3) Whatever bytes the clients send, in whatever pieces, and however
    connections come and go: the book keeps its invariant and is never
    crossed, every resting order has an owner and no other order has one, the
    descriptors of the open connections are distinct, and every message sent so
    far fits the wire format. *)
Theorem server_invariant (s : Server) :
  rtc server_step new_server s →
  server_ok s ∧ ∀ p q, best_bid (book s) = Some p → best_ask (book s) = Some q → p < q.
Proof.
  intros Hs%rtc_server_ok. split; [done|]. intros p q. apply book_uncrossed_best, Hs.
Qed.

Definition example_order_bytes (id side price qty : Z) : bytes :=
  tag_byte NEW_ORDER :: encode_WireOrder {| wo_client_order_id := id; wo_side := side;
    wo_order_type := 0; wo_price_ticks := price; wo_quantity := qty |}.

(** A buyer on descriptor 5 whose order arrives in two pieces, then a seller. *)
Definition example_server : Server :=
  readable 6 (Received (example_order_bytes 2 1 100 4))
    (readable 5 (Received (drop 7 (example_order_bytes 1 0 100 10)))
      (readable 5 (Received (take 7 (example_order_bytes 1 0 100 10)))
        (accept 6 (accept 5 new_server)))).

Lemma example_server_run : rtc server_step new_server example_server.
Proof.
  eapply rtc_l; [apply (step_accept 5); set_solver|].
  eapply rtc_l; [apply (step_accept 6); cbn; set_solver|].
  do 3 (eapply rtc_l; [apply step_readable|]). apply rtc_refl.
Qed.

Lemma server_invariant_witness :
  server_ok example_server ∧ best_bid (book example_server) = Some 100 ∧
  order_owner_fd example_server !! 1 = Some 5 ∧
  ((λ p, (p.1, match p.2 with EvFill f => fe_quantity f | EvAck a => - ack_status a end)) <$>
    sv_sent example_server) = [(5, 0); (6, 0); (6, 4); (5, 4)].
Proof.
  destruct (server_invariant example_server example_server_run) as [H _].
  split; [exact H|]. split; [vm_compute; reflexivity|]. split; vm_compute; reflexivity.
Defined.

(** *** Replies to an order *)

(** What the connection that sends an order, the owners and the subscribers are
    sent for its fills: [dests] are the recipients of each. *)
Definition fill_messages (dests : list (list Z)) (fills : list Fill) : list (Z * Event) :=
  concat (zip_with (λ ds f, (λ d, (d, EvFill f)) <$> ds) dests fills).

Definition fill_parties (fd : Z) (s : Server) (ds : list Z) (f : Fill) : Prop :=
  NoDup ds ∧ head ds = Some fd ∧
  ∀ x, x ∈ ds ↔ x = fd ∨ order_owner_fd s !! resting_order_id f = Some x ∨
    ∃ c, c ∈ connections s ∧ cn_fd c = x ∧ subscribed_to_fills c = true.

Lemma elem_of_take_weak {A} n (l : list A) x : x ∈ take n l → x ∈ l.
Proof. intros H. rewrite <- (take_drop n l). apply elem_of_app. by left. Qed.

Lemma delivers_messages fd fs s0 s :
  NoDup (resting_order_id <$> fs) → NoDup (cn_fd <$> connections s) →
  connections s = connections s0 →
  (∀ f, f ∈ fs → order_owner_fd s !! resting_order_id f = order_owner_fd s0 !! resting_order_id f) →
  ∃ dests, sv_sent (fold_left (deliver_fill fd) fs s) = sv_sent s ++ fill_messages dests fs ∧
    Forall2 (fill_parties fd s0) dests fs.
Proof.
  revert s. induction fs as [|f fs IH]; intros s Hnd Hfds Hc Ho; cbn [fold_left].
  { exists []. unfold fill_messages. cbn. by rewrite app_nil_r. }
  cbn [fmap list_fmap] in Hnd. apply NoDup_cons in Hnd as [Hf Hnd].
  destruct (IH (deliver_fill fd s f) Hnd) as (dests & Hs & Hd); try (by rewrite deliver_connections).
  { intros g Hg. rewrite deliver_owner, decide_False; [apply Ho; by right|].
    intros [Heq _]. apply Hf. rewrite <- Heq. by apply list_elem_of_fmap_2. }
  exists (recipients fd f s :: dests). split.
  - rewrite Hs, deliver_fill_spec. cbv zeta. unfold fill_messages. cbn [zip_with concat].
    rewrite app_assoc. by destruct (contains _ _).
  - constructor; [|exact Hd]. unfold fill_parties. rewrite <- Hc, <- (Ho f) by (by left).
    by apply recipients_spec.
Qed.

(** (C21) What a new order is answered with.  A duplicate id is refused with one
    ack of status 1 and changes nothing else.  Otherwise the sender gets one ack of
    status 0, then each fill of the order, in order, goes to the sender, to the
    connection that owns the resting order and to every connection subscribed to
    fills, to each of them exactly once and to the sender first, and to nobody
    else. *)
Theorem new_order_replies (fd : Z) (m : WireOrder) (s : Server) :
  server_ok s → WireOrder_ok m →
  let id := wo_client_order_id m in
  let ack st := (fd, EvAck {| ack_client_order_id := id; ack_request_type := 1; ack_status := st |}) in
  let s' := dispatch_new_order fd m s in
  if decide (id ∈ ids (all_orders (book s))) then
    book s' = book s ∧ order_owner_fd s' = order_owner_fd s ∧ sv_sent s' = sv_sent s ++ [ack 1]
  else
    let '(b, fills) := submit (order_of m) (book s) in
    book s' = b ∧
    ∃ dests, sv_sent s' = sv_sent s ++ ack 0 :: fill_messages dests fills ∧
      Forall2 (fill_parties fd s) dests fills.
Proof.
  intros [H1 H2 H3 H4 H5] (M1 & M2 & M3) id ack s'. subst s'. unfold dispatch_new_order.
  fold id. rewrite contains_spec by done. case_decide as Hin.
  { by rewrite (bool_decide_eq_true_2 _ Hin). }
  rewrite (bool_decide_eq_false_2 _ Hin).
  assert (contains (o_id (order_of m)) (book s) = false) as Hc.
  { rewrite contains_spec by done. by apply bool_decide_eq_false. }
  pose proof (submit_fills_spec (order_of m) (book s) H1) as Hs. unfold u32 in M3. cbn [order_of o_quantity] in Hs.
  specialize (Hs ltac:(lia) Hc). destruct (submit _ _) as [b fills]. destruct Hs as (Hpre & _).
  assert (∀ x, x ∈ ids (opp_queue (order_of m) (book s)) → x ∈ ids (all_orders (book s))) as Hsub.
  { intros x. unfold all_orders, opp_queue. rewrite ids_app, elem_of_app. destruct (o_side _); tauto. }
  assert (NoDup (resting_order_id <$> fills)) as Hnd.
  { rewrite Hpre. eapply sublist_NoDup; [|apply sublist_take].
    pose proof (bk_ids _ H1) as Hnd. unfold all_orders in Hnd. rewrite ids_app in Hnd.
    apply NoDup_app in Hnd as (? & _ & ?). unfold opp_queue. by destruct (o_side _). }
  assert (∀ f, f ∈ fills → resting_order_id f ≠ id) as Hne.
  { intros f Hf Heq. apply Hin, Hsub. rewrite <- Heq. apply (elem_of_take_weak (length fills)).
    rewrite <- Hpre. by apply list_elem_of_fmap_2. }
  set (s1 := send_ack _ _ _ _ (set_book b s)). set (s2 := if contains id b then _ else s1).
  assert (book s2 = b ∧ connections s2 = connections s ∧ sv_sent s2 = sv_sent s ++ [ack 0]) as (E1 & E2 & E3)
    by by subst s2; destruct (contains id b).
  split; [rewrite (proj2 (delivers_same fd fills s2)); exact E1|].
  destruct (delivers_messages fd fills s s2 Hnd) as (dests & Hd & Hp); [by rewrite E2|done| |].
  { intros f Hf. subst s2. destruct (contains id b); [|done]. apply lookup_insert_ne.
    intros Heq. by apply (Hne f Hf). }
  exists dests. split; [|exact Hp]. rewrite Hd, E3, <- app_assoc. done.
Qed.

Lemma new_order_replies_witness :
  let m := {| wo_client_order_id := 3; wo_side := 1; wo_order_type := 1; wo_price_ticks := 0;
              wo_quantity := 20 |} in
  let fills := (submit (order_of m) (book example_server)).2 in
  server_ok example_server ∧ WireOrder_ok m ∧ fe_quantity <$> fills = [6] ∧
  ∃ dests, sv_sent (dispatch_new_order 6 m example_server) = sv_sent example_server ++ (
      (6, EvAck {| ack_client_order_id := 3; ack_request_type := 1; ack_status := 0 |}) ::
        fill_messages dests fills) ∧
    Forall2 (fill_parties 6 example_server) dests fills.
Proof.
  intros m fills. assert (server_ok example_server) as Hs by apply (rtc_server_ok _ example_server_run).
  assert (WireOrder_ok m) as Hm by (split_and!; decide_now).
  split; [exact Hs|]. split; [exact Hm|]. split; [vm_compute; reflexivity|].
  pose proof (new_order_replies 6 m example_server Hs Hm) as H. cbv zeta in H.
  assert (ids (all_orders (book example_server)) = [1]) as Hids by (vm_compute; reflexivity).
  rewrite Hids in H. rewrite decide_False in H by (intros Hx%list_elem_of_singleton; discriminate Hx).
  unfold fills. destruct (submit (order_of m) (book example_server)) as [b fs]. destruct H as [_ H]. exact H.
Defined.

(** A client can be sent the fills of someone else's order.  When a
    connection closes, its resting orders stay and keep its descriptor as their
    owner; once the kernel hands that descriptor to a new client, a trade with
    such an order sends the fill to the new client, which has sent nothing and
    subscribed to nothing. *)
Theorem stale_owner_misroutes :
  ∃ s fd other bs f, rtc server_step new_server s ∧ fd ∉ cn_fd <$> connections s ∧ other ≠ fd ∧
    sv_sent (readable other (Received bs) (accept fd s)) =
      sv_sent s ++ [(other, EvAck {| ack_client_order_id := incoming_order_id f;
                                     ack_request_type := 1; ack_status := 0 |});
                    (other, EvFill f); (fd, EvFill f)].
Proof.
  exists (readable 5 Closed (readable 5 (Received (example_order_bytes 1 0 100 10))
    (accept 6 (accept 5 new_server)))), 5, 6, (example_order_bytes 2 1 100 4),
    {| resting_order_id := 1; incoming_order_id := 2; resting_side := BUY; fe_price_ticks := 100;
       fe_quantity := 4; fe_timestamp := 2 |}.
  split; [|split; [|split; [done|vm_compute; reflexivity]]].
  - eapply rtc_l; [apply (step_accept 5); cbn; set_solver|].
    eapply rtc_l; [apply (step_accept 6); cbn; set_solver|].
    do 2 (eapply rtc_l; [apply step_readable|]). apply rtc_refl.
  - assert (cn_fd <$> connections (readable 5 Closed (readable 5 (Received (example_order_bytes 1 0 100 10))
      (accept 6 (accept 5 new_server)))) = [6]) as -> by (vm_compute; reflexivity).
    by intros Hx%list_elem_of_singleton.
Qed.
