(* ===== verification/Ticks.v ===== *)
(** * The float-to-tick boundary ([strategy/orderbook_client/ticks.py])

    Prices are floats only here; everywhere else they are integer ticks. *)

From S2P Require Import Prelude PyFloat.

Open Scope Z_scope.

(** 0.25 *)
Definition TICK_SIZE : float := dyadic 1 (-2).

Definition price_to_ticks (price : float) : res Z :=
  x ← fdiv price TICK_SIZE; py_round x.

(** [ticks * TICK_SIZE]: the int operand is converted to a float first. *)
Definition ticks_to_price (ticks : Z) : res float :=
  x ← float_of_int ticks; Ok (fmul x TICK_SIZE).

Lemma price_to_ticks_total p : price_to_ticks p ≠ NoFuel.
Proof.
  unfold price_to_ticks, mbind, res_bind, fdiv. cbn [TICK_SIZE dyadic].
  change TICK_SIZE with (S754_finite false 4503599627370496 (-54)).
  unfold py_round. by destruct (SpecFloat.SFdiv _ _ _ _).
Qed.

Lemma TICK_SIZE_repr : repr TICK_SIZE 1 (-2).
Proof. by apply dyadic_repr. Qed.

Lemma ticks_to_price_repr t :
  Z.abs t < 2 ^ 53 → ∃ p, ticks_to_price t = Ok p ∧ repr p t (-2).
Proof.
  intros Ht. destruct (float_of_int_repr t Ht) as (x & Hx & Hr).
  unfold ticks_to_price. rewrite Hx. eexists. split; [reflexivity|].
  apply (fmul_repr _ _ t 0 1 (-2)); [done|apply TICK_SIZE_repr| |split; lia].
  by apply dyeq_same; lia.
Qed.

(** Dividing by a tick is exact, short of overflow. *)
Lemma div_tick_exact p n k :
  repr p n k → exact_range n (k + 2) → ∃ z, fdiv p TICK_SIZE = Ok z ∧ repr z n (k + 2).
Proof.
  intros Hp Hr. apply (fdiv_repr _ _ n k 1 (-2)); [done|apply TICK_SIZE_repr|done| |done].
  replace (k + 2 + -2) with k by lia. apply dyeq_same. lia.
Qed.

Lemma valid_range s m e : valid (S754_finite s m e) = true → Zpos m < 2 ^ 53 ∧ -1074 ≤ e ≤ 971.
Proof.
  intros [H1 H2]%bounded_iff. split; [|lia]. apply Z.log2_lt_pow2; lia.
Qed.

(** Converting ticks to a price and back is lossless for every tick count a
    float can hold exactly. *)
Theorem ticks_roundtrip (ticks : Z) :
  Z.abs ticks < 2 ^ 53 →
  ∃ p, ticks_to_price ticks = Ok p ∧ price_to_ticks p = Ok ticks.
Proof.
  intros Ht. destruct (ticks_to_price_repr ticks Ht) as (p & Hp & Hr). exists p.
  split; [done|]. unfold price_to_ticks.
  destruct (div_tick_exact p ticks (-2) Hr) as (z & -> & Hz); [split; lia|].
  by apply py_round_repr.
Qed.

Lemma ticks_roundtrip_witness :
  Z.abs 19149 < 2 ^ 53 ∧ ∃ p, ticks_to_price 19149 = Ok p ∧ price_to_ticks p = Ok 19149.
Proof. split; [reflexivity|]. apply (ticks_roundtrip 19149). reflexivity. Defined.

(** A price is rounded to a nearest tick, never truncated: for every finite
    price small enough not to overflow when divided by the tick size, the tick
    count differs from the exact quotient [price / 0.25] by at most a half.  A
    NaN price is a [ValueError], an infinite one an [OverflowError]. *)
Theorem price_to_ticks_nearest (p : float) :
  valid p = true →
  match p with
  | S754_nan => price_to_ticks p = Raise ValueError
  | S754_infinity _ => price_to_ticks p = Raise OverflowError
  | S754_finite _ _ e =>
      e ≤ 969 → ∃ t, price_to_ticks p = Ok t ∧ (Qabs (inject_Z t - 4 * fQval p) <= 1 # 2)%Q
  | S754_zero _ => price_to_ticks p = Ok 0
  end.
Proof.
  destruct p as [[]|[]| |s m e]; try done. intros Hv He.
  pose proof (valid_range _ _ _ Hv) as [Hm Hk].
  assert (repr (S754_finite s m e) (cond_Zopp s (Zpos m)) e) as Hp by done.
  destruct (div_tick_exact _ _ _ Hp) as (z & Hz & Hr); [split; [destruct s; cbn; lia|lia]|].
  destruct (py_round_nearest z) as (t & Ht & Hn); [apply Hr|].
  exists t. unfold price_to_ticks. rewrite Hz. split; [done|].
  rewrite (repr_fQval z _ _ Hr) in Hn. unfold fQval. cbn [fval].
  assert (4 * dyQ (cond_Zopp s (Zpos m), e) == dyQ (cond_Zopp s (Zpos m), (e + 2)%Z))%Q as ->; [|done].
  unfold dyQ. cbn [fst snd]. rewrite Qpower_plus by done.
  change (Qpower 2 2) with (4 # 1). ring.
Qed.

Lemma price_to_ticks_nearest_witness :
  let p := S754_finite false 5263561904259891 (-40) in (* 4787.20 *)
  valid p = true ∧ -40 ≤ 969 ∧
  ∃ t, price_to_ticks p = Ok t ∧ (Qabs (inject_Z t - 4 * fQval p) <= 1 # 2)%Q.
Proof.
  split; [vm_compute; reflexivity|]. split; [lia|].
  apply (price_to_ticks_nearest (S754_finite false 5263561904259891 (-40))); [vm_compute; reflexivity|lia].
Defined.
