(* ===== verification/Strategy.v ===== *)
(** * Strategies ([strategy/orderbook_client/strategy.py])

    The action types, the [Strategy] protocol as a type class, and the example
    strategy [FixedOffsetQuoter], which keeps one buy and one sell quote at a
    fixed distance from the last price. *)

From S2P Require Import Prelude Bytes PyFloat PyStruct Protocol.

Open Scope Z_scope.

(** ** Actions *)

Record OrderRequest := {
  or_order_id : Z;
  or_side : Side;
  or_order_type : OrderType;
  or_price_ticks : Z;
  or_quantity : Z;
}.

Record CancelRequest := { cr_order_id : Z }.

(** [StrategyAction = Union[OrderRequest, CancelRequest]] *)
Inductive StrategyAction := ActOrder (r : OrderRequest) | ActCancel (c : CancelRequest).

#[export] Instance OrderRequest_eq_dec : EqDecision OrderRequest.
Proof. solve_decision. Defined.
#[export] Instance CancelRequest_eq_dec : EqDecision CancelRequest.
Proof. solve_decision. Defined.
#[export] Instance StrategyAction_eq_dec : EqDecision StrategyAction.
Proof. solve_decision. Defined.

(** The [Strategy] protocol. *)
Class Strategy (S : Type) := {
  on_price : Z → M S (list StrategyAction);
  on_fill : FillEvent → M S unit;
}.

(** ** FixedOffsetQuoter *)

Record FixedOffsetQuoter := {
  _offset : Z;
  _size : Z;
  _ids : Z;                           (* what [next(self._ids)] returns next *)
  _resting_buy : option (Z * Z);      (* (order_id, price_ticks) *)
  _resting_sell : option (Z * Z);
}.

(** [__init__] *)
Definition new_quoter (offset_ticks size : Z) : FixedOffsetQuoter :=
  {| _offset := offset_ticks; _size := size; _ids := 1;
     _resting_buy := None; _resting_sell := None |}.

Definition resting (side : Side) (q : FixedOffsetQuoter) : option (Z * Z) :=
  match side with BUY => _resting_buy q | SELL => _resting_sell q end.

Definition set_resting (side : Side) (v : option (Z * Z)) (q : FixedOffsetQuoter) :
    FixedOffsetQuoter :=
  match side with
  | BUY => {| _offset := _offset q; _size := _size q; _ids := _ids q;
              _resting_buy := v; _resting_sell := _resting_sell q |}
  | SELL => {| _offset := _offset q; _size := _size q; _ids := _ids q;
               _resting_buy := _resting_buy q; _resting_sell := v |}
  end.

Definition next_id (q : FixedOffsetQuoter) : Z * FixedOffsetQuoter :=
  (_ids q, {| _offset := _offset q; _size := _size q; _ids := _ids q + 1;
              _resting_buy := _resting_buy q; _resting_sell := _resting_sell q |}).

(** One iteration of the loop of [on_price] over the two sides; the state also
    carries the local lists [new_orders] and [cancels]. *)
Definition quote_side (side : Side) (target_price : Z)
    (st : FixedOffsetQuoter * list StrategyAction * list StrategyAction) :
    FixedOffsetQuoter * list StrategyAction * list StrategyAction :=
  let '(q, new_orders, cancels) := st in
  let current := resting side q in
  if match current with Some c => c.2 =? target_price | None => false end then st else
  let '(order_id, q) := next_id q in
  let new_orders := new_orders ++
    [ActOrder {| or_order_id := order_id; or_side := side; or_order_type := LIMIT;
                 or_price_ticks := target_price; or_quantity := _size q |}] in
  let cancels := match current with
                 | Some c => cancels ++ [ActCancel {| cr_order_id := c.1 |}]
                 | None => cancels
                 end in
  (set_resting side (Some (order_id, target_price)) q, new_orders, cancels).

Definition quoter_on_price (price_ticks : Z) (q : FixedOffsetQuoter) :
    FixedOffsetQuoter * list StrategyAction :=
  let st := (q, [], []) in
  let st := quote_side BUY (price_ticks - _offset q) st in
  let st := quote_side SELL (price_ticks + _offset q) st in
  let '(q, new_orders, cancels) := st in
  (q, new_orders ++ cancels).

Definition is_resting (order_id : Z) (v : option (Z * Z)) : bool :=
  match v with Some c => order_id =? c.1 | None => false end.

Definition quoter_on_fill (event : FillEvent) (q : FixedOffsetQuoter) : FixedOffsetQuoter :=
  if is_resting (resting_order_id event) (_resting_buy q) then set_resting BUY None q
  else if is_resting (resting_order_id event) (_resting_sell q) then set_resting SELL None q
  else q.

#[export] Instance quoter_strategy : Strategy FixedOffsetQuoter := {
  on_price p := λ q, let '(q, acts) := quoter_on_price p q in (q, Ok acts);
  on_fill e := modify (quoter_on_fill e);
}.

(** ** What a tick does *)

Definition quote (q : FixedOffsetQuoter) (id : Z) (side : Side) (price : Z) : StrategyAction :=
  ActOrder {| or_order_id := id; or_side := side; or_order_type := LIMIT;
              or_price_ticks := price; or_quantity := _size q |}.

(** The side has no quote at [target]. *)
Definition drifted (side : Side) (target : Z) (q : FixedOffsetQuoter) : bool :=
  match resting side q with Some c => negb (c.2 =? target) | None => true end.

Definition stale_cancel (side : Side) (q : FixedOffsetQuoter) : list StrategyAction :=
  match resting side q with Some c => [ActCancel {| cr_order_id := c.1 |}] | None => [] end.

(** A tick, side by side. *)
Lemma on_price_spec (q : FixedOffsetQuoter) (p : Z) :
  let buy := p - _offset q in
  let sell := p + _offset q in
  let db := drifted BUY buy q in
  let ds := drifted SELL sell q in
  let sell_id := if db then _ids q + 1 else _ids q in
  quoter_on_price p q =
    ({| _offset := _offset q; _size := _size q; _ids := if ds then sell_id + 1 else sell_id;
        _resting_buy := if db then Some (_ids q, buy) else _resting_buy q;
        _resting_sell := if ds then Some (sell_id, sell) else _resting_sell q |},
     (if db then [quote q (_ids q) BUY buy] else []) ++
     (if ds then [quote q sell_id SELL sell] else []) ++
     (if db then stale_cancel BUY q else []) ++
     (if ds then stale_cancel SELL q else [])).
Proof.
  destruct q as [off size ids b s]. unfold quoter_on_price, drifted, stale_cancel, quote, quote_side.
  cbn -[Z.add Z.sub Z.eqb]. destruct b as [[bi bp]|]; cbn -[Z.add Z.sub Z.eqb];
    [destruct (Z.eqb_spec bp (p - off)) as [->|]; cbn -[Z.add Z.sub Z.eqb]|];
    (destruct s as [[si sp]|]; cbn -[Z.add Z.sub Z.eqb];
      [destruct (Z.eqb_spec sp (p + off)) as [->|]; cbn -[Z.add Z.sub Z.eqb]|]);
    reflexivity.
Qed.

(** A side that has not drifted is quoted at the target. *)
Lemma not_drifted side target q :
  drifted side target q = false → ∃ id, resting side q = Some (id, target).
Proof.
  unfold drifted. destruct (resting side q) as [[id t]|]; [|done]. cbn.
  intros ->%negb_false_iff%Z.eqb_eq. by exists id.
Qed.

(** The complete effect of a tick.  Only drifted sides are touched; a drifted
    side is re-quoted at the target price under a fresh id, and the quote it
    replaces is cancelled; all new orders come before all cancels, the buy side
    first.  Afterwards the strategy believes in a buy at [p - offset] and a sell
    at [p + offset]. *)
Theorem on_price_effect (q : FixedOffsetQuoter) (p : Z) :
  let buy := p - _offset q in
  let sell := p + _offset q in
  let db := drifted BUY buy q in
  let ds := drifted SELL sell q in
  let sell_id := if db then _ids q + 1 else _ids q in
  let '(q', acts) := quoter_on_price p q in
  acts = (if db then [quote q (_ids q) BUY buy] else []) ++
         (if ds then [quote q sell_id SELL sell] else []) ++
         (if db then stale_cancel BUY q else []) ++
         (if ds then stale_cancel SELL q else []) ∧
  _resting_buy q' = (if db then Some (_ids q, buy) else _resting_buy q) ∧
  _resting_sell q' = (if ds then Some (sell_id, sell) else _resting_sell q) ∧
  snd <$> _resting_buy q' = Some buy ∧ snd <$> _resting_sell q' = Some sell ∧
  _ids q' = (if ds then sell_id + 1 else sell_id) ∧
  _offset q' = _offset q ∧ _size q' = _size q.
Proof.
  rewrite on_price_spec. cbn [_resting_buy _resting_sell _ids _offset _size].
  do 3 (split; [done|]). split; [|split; [|by split]].
  - destruct (drifted BUY _ q) eqn:H; [done|]. destruct (not_drifted _ _ _ H) as [id Hid].
    cbn [resting] in Hid. by rewrite Hid.
  - destruct (drifted SELL _ q) eqn:H; [done|]. destruct (not_drifted _ _ _ H) as [id Hid].
    cbn [resting] in Hid. by rewrite Hid.
Qed.

(** A second tick at the same price, with no fill in between, does nothing. *)
Theorem on_price_idempotent (q : FixedOffsetQuoter) (p : Z) :
  let '(q', _) := quoter_on_price p q in quoter_on_price p q' = (q', []).
Proof.
  rewrite on_price_spec. set (q' := Build_FixedOffsetQuoter _ _ _ _ _).
  assert (drifted BUY (p - _offset q') q' = false ∧ drifted SELL (p + _offset q') q' = false) as [Hb Hs].
  { split; unfold drifted; cbn [resting q' _resting_buy _resting_sell _offset].
    - destruct (drifted BUY _ q) eqn:H; [by rewrite Z.eqb_refl|].
      destruct (not_drifted _ _ _ H) as [id Hid]. cbn [resting] in Hid. by rewrite Hid, Z.eqb_refl.
    - destruct (drifted SELL _ q) eqn:H; [by rewrite Z.eqb_refl|].
      destruct (not_drifted _ _ _ H) as [id Hid]. cbn [resting] in Hid. by rewrite Hid, Z.eqb_refl. }
  rewrite (on_price_spec q'), Hb, Hs. done.
Qed.

(** ** Every history of a quoter *)

Inductive qinput := InPrice (p : Z) | InFill (f : FillEvent).

(** One call on the strategy, with the actions it returned. *)
Definition quoter_step (i : qinput) (q : FixedOffsetQuoter) :
    FixedOffsetQuoter * list StrategyAction :=
  match i with
  | InPrice p => quoter_on_price p q
  | InFill f => (quoter_on_fill f q, [])
  end.

(** [quoter_run q acts q']: some sequence of prices and fills leads from [q] to
    [q'] while the strategy returns the actions [acts]. *)
Inductive quoter_run (q : FixedOffsetQuoter) : list StrategyAction → FixedOffsetQuoter → Prop :=
| run_start : quoter_run q [] q
| run_step acts q1 i q2 new :
    quoter_run q acts q1 → quoter_step i q1 = (q2, new) → quoter_run q (acts ++ new) q2.

Definition order_ids (acts : list StrategyAction) : list Z :=
  omap (λ a, match a with ActOrder r => Some (or_order_id r) | ActCancel _ => None end) acts.
Definition cancel_ids (acts : list StrategyAction) : list Z :=
  omap (λ a, match a with ActCancel c => Some (cr_order_id c) | ActOrder _ => None end) acts.

Definition live_ids (q : FixedOffsetQuoter) : list Z :=
  omap (λ v, fst <$> v) [_resting_buy q; _resting_sell q].

(** What holds of the strategy after it has issued the order ids [orders] and
    the cancels [cancels] since it was new: its ids count up from 1; the ids of
    its live quotes are distinct and have been issued but never cancelled; no
    id is cancelled twice, and only issued ones are. *)
Record quoter_inv (orders cancels : list Z) (q : FixedOffsetQuoter) : Prop := {
  qi_next : 1 ≤ _ids q;
  qi_orders : orders = seqZ 1 (_ids q - 1);
  qi_distinct : NoDup (live_ids q ++ cancels);
  qi_issued : Forall (λ id, 1 ≤ id < _ids q) (live_ids q ++ cancels);
}.

Definition set_ids (ids : Z) (q : FixedOffsetQuoter) : FixedOffsetQuoter :=
  {| _offset := _offset q; _size := _size q; _ids := ids;
     _resting_buy := _resting_buy q; _resting_sell := _resting_sell q |}.

Definition id_of (v : option (Z * Z)) : list Z := from_option (λ c, [c.1]) [] v.

(** The live ids are those of one side and the rest. *)
Lemma live_side side q : ∃ rest, ∀ ids v,
  live_ids (set_resting side v (set_ids ids q)) ≡ₚ id_of v ++ rest ∧
  _ids (set_resting side v (set_ids ids q)) = ids.
Proof.
  destruct q as [off size i b s], side.
  - exists (id_of s). intros ids v. split; [|done]. by destruct v as [[]|], s as [[]|].
  - exists (id_of b). intros ids v. split; [|done]. cbn.
    destruct v as [[]|], b as [[]|]; cbn; try done. apply Permutation_swap.
Qed.

Lemma set_resting_id side q : set_resting side (resting side q) (set_ids (_ids q) q) = q.
Proof. by destruct q, side. Qed.

(** Dropping a live quote, because it was filled. *)
Lemma inv_forget orders cancels side q :
  quoter_inv orders cancels q → quoter_inv orders cancels (set_resting side None q).
Proof.
  intros [H1 H2 H3 H4]. destruct (live_side side q) as [rest Hl].
  pose proof (Hl (_ids q) (resting side q)) as [Ho _]. rewrite set_resting_id in Ho.
  destruct (Hl (_ids q) None) as [Hn Hi].
  replace (set_ids (_ids q) q) with q in * by by destruct q.
  rewrite Ho, <- app_assoc in H3. rewrite Ho, <- app_assoc in H4. cbn [id_of from_option app] in Hn.
  split; rewrite ?Hi; [done..| |]; rewrite Hn.
  - by apply NoDup_app in H3 as (_ & _ & ?).
  - by apply Forall_app in H4 as [_ ?].
Qed.

(** Replacing a side's quote by a fresh one and cancelling the old one. *)
Lemma inv_requote orders cancels side target q :
  quoter_inv orders cancels q →
  quoter_inv (orders ++ [_ids q]) (cancels ++ id_of (resting side q))
    (set_resting side (Some (_ids q, target)) (set_ids (_ids q + 1) q)).
Proof.
  intros [H1 H2 H3 H4]. destruct (live_side side q) as [rest Hl].
  pose proof (Hl (_ids q) (resting side q)) as [Ho _]. rewrite set_resting_id in Ho.
  destruct (Hl (_ids q + 1) (Some (_ids q, target))) as [Hn Hi].
  assert ((id_of (Some (_ids q, target)) ++ rest) ++ cancels ++ id_of (resting side q)
    ≡ₚ _ids q :: live_ids q ++ cancels) as Hp.
  { rewrite Ho. cbn. constructor. solve_Permutation. }
  split; rewrite ?Hi; [lia| | |].
  - replace (_ids q + 1 - 1) with (_ids q - 1 + 1) by lia.
    rewrite H2, seqZ_app by lia. f_equal. rewrite seqZ_cons by lia. replace (Z.pred 1) with 0 by lia. cbn. f_equal. lia.
  - rewrite Hn, Hp. constructor; [|done]. intros Hin.
    rewrite Forall_forall in H4. apply H4 in Hin. lia.
  - rewrite Hn, Hp. constructor; [lia|]. eapply Forall_impl; [done|]. cbn. lia.
Qed.

Lemma quote_side_inv orders cancels side target q no ca :
  quoter_inv (orders ++ order_ids no) (cancels ++ cancel_ids ca) q →
  let '(q', no', ca') := quote_side side target (q, no, ca) in
  quoter_inv (orders ++ order_ids no') (cancels ++ cancel_ids ca') q' ∧
  (cancel_ids no = [] → cancel_ids no' = []) ∧ (order_ids ca = [] → order_ids ca' = []).
Proof.
  intros Hinv. unfold quote_side. destruct (match resting side q with Some _ => _ | None => _ end); [done|].
  cbn [next_id]. apply (inv_requote _ _ side target) in Hinv.
  unfold order_ids, cancel_ids in *. rewrite omap_app. cbn [omap list_omap or_order_id].
  split_and!.
  - rewrite !app_assoc. fold (set_ids (_ids q + 1) q).
    destruct (resting side q) as [[i pr]|]; cbn [id_of from_option] in *.
    + rewrite omap_app, app_assoc. exact Hinv.
    + rewrite app_nil_r in Hinv. exact Hinv.
  - intros Hno. by rewrite omap_app, Hno.
  - destruct (resting side q); [|done]. intros Hca. by rewrite omap_app, Hca.
Qed.

Lemma quoter_step_inv orders cancels i q :
  quoter_inv orders cancels q →
  let '(q', new) := quoter_step i q in
  quoter_inv (orders ++ order_ids new) (cancels ++ cancel_ids new) q'.
Proof.
  intros Hinv. destruct i as [p|f]; cbn [quoter_step].
  - unfold quoter_on_price.
    pose proof (quote_side_inv orders cancels BUY (p - _offset q) q [] []) as H1.
    cbn [order_ids cancel_ids omap list_omap] in H1. rewrite !app_nil_r in H1.
    destruct (quote_side BUY _ _) as [[q1 no1] ca1]. destruct (H1 Hinv) as (I1 & C1 & O1).
    pose proof (quote_side_inv orders cancels SELL (p + _offset q) q1 no1 ca1 I1) as H2.
    destruct (quote_side SELL _ _) as [[q2 no2] ca2]. destruct H2 as (I2 & C2 & O2).
    unfold order_ids, cancel_ids in *. rewrite !omap_app.
    rewrite C2, O2, app_nil_r by auto. done.
  - rewrite !app_nil_r. unfold quoter_on_fill. repeat case_match; auto using inv_forget.
Qed.

Lemma quoter_run_inv (offset size : Z) (acts : list StrategyAction) (q : FixedOffsetQuoter) :
  quoter_run (new_quoter offset size) acts q →
  quoter_inv (order_ids acts) (cancel_ids acts) q.
Proof.
  induction 1 as [|acts q1 i q2 new _ IH Hstep].
  - split; cbn; [lia|done|constructor..].
  - pose proof (quoter_step_inv _ _ i q1 IH) as H. rewrite Hstep in H.
    unfold order_ids, cancel_ids in *. by rewrite !omap_app.
Qed.

(** (C20) Over any history of prices and fills, a quoter issues the order ids 1, 2,
    3, ... without gap or repetition, cancels only ids it has issued, none
    twice, and never cancels a quote it still counts as live. *)
Theorem quoter_history (offset size : Z) (acts : list StrategyAction) (q : FixedOffsetQuoter) :
  quoter_run (new_quoter offset size) acts q →
  quoter_inv (order_ids acts) (cancel_ids acts) q.
Proof. apply quoter_run_inv. Qed.

Lemma quoter_history_witness :
  ∃ acts q,
    quoter_run (new_quoter 1 10) acts q ∧ length acts = 6%nat ∧
    quoter_inv (order_ids acts) (cancel_ids acts) q.
Proof.
  assert (quoter_run (new_quoter 1 10)
    (([] ++ (quoter_on_price 10000 (new_quoter 1 10)).2) ++
       (quoter_on_price 10002 (quoter_on_price 10000 (new_quoter 1 10)).1).2)
    (quoter_on_price 10002 (quoter_on_price 10000 (new_quoter 1 10)).1).1) as Hrun.
  { apply (run_step _ _ (quoter_on_price 10000 (new_quoter 1 10)).1 (InPrice 10002));
      [|apply surjective_pairing].
    apply (run_step _ _ (new_quoter 1 10) (InPrice 10000)); [apply run_start|apply surjective_pairing]. }
  eexists _, _. split; [exact Hrun|]. split; [vm_compute; reflexivity|].
  exact (quoter_history 1 10 _ _ Hrun).
Defined.
