(* ===== verification/PricingClient.v ===== *)
(** * The pricing service ([pricing_client.py], [risk/src/pricing_protocol.rs])

    A synchronous request/response protocol with its own tags: the Python
    client sends one request and waits for one reply on a blocking socket.  The
    Rust codec is translated next to it and the two are shown to agree; the
    Black-Scholes function the server applies is a parameter. *)

From S2P Require Import Prelude Bytes PyFloat PyStruct Client.

Open Scope Z_scope.

Definition PRICE_REQUEST_TAG : Z := 0x20.
Definition PRICE_RESPONSE_TAG : Z := 0x21.
Definition _REQUEST_FMT : string := "!qqdddB".
Definition _RESPONSE_FMT : string := "!dddddd".
Definition REQUEST_SIZE : res Z := calcsize _REQUEST_FMT.
Definition RESPONSE_SIZE : res Z := calcsize _RESPONSE_FMT.

Record Greeks := {
  g_price : float;
  g_delta : float;
  g_gamma : float;
  g_vega : float;
  g_theta : float;
  g_rho : float;
}.

(** The arguments of [price]. *)
Record PriceRequest := {
  pr_spot_ticks : Z;
  pr_strike_ticks : Z;
  pr_rate : float;
  pr_vol : float;
  pr_time_to_expiry : float;
  pr_is_call : bool;
}.

(** ** The Python client *)

Record PricingClient := { _sock : sock }.

Definition on_psock {A} (m : M sock A) : M PricingClient A :=
  on_field _sock (λ k _, {| _sock := k |}) m.

(** [_recv_exact]: end of stream is a [ConnectionError], a socket error passes. *)
Fixpoint price_recv_loop (fuel n : nat) (buf : bytes) : M sock bytes := λ s,
  if (n <=? length buf)%nat then (s, Ok buf) else
  match fuel with
  | O => (s, NoFuel)
  | S fuel =>
      match recv (n - length buf) s with
      | (s, Ok []) => (s, Raise ConnectionError)
      | (s, Ok chunk) => price_recv_loop fuel n (buf ++ chunk) s
      | (s, Raise e) => (s, Raise e)
      | (s, NoFuel) => (s, NoFuel)
      end
  end.

Definition price_recv_exact (n : nat) : M sock bytes := price_recv_loop n n [].

Definition pack_request (r : PriceRequest) : res bytes :=
  struct_pack _REQUEST_FMT
    [SInt (pr_spot_ticks r); SInt (pr_strike_ticks r); SFloat (pr_rate r); SFloat (pr_vol r);
     SFloat (pr_time_to_expiry r); SInt (if pr_is_call r then 1 else 0)].

Definition unpack_greeks (payload : bytes) : res Greeks :=
  vs ← struct_unpack _RESPONSE_FMT payload;
  match vs with
  | [SFloat p; SFloat d; SFloat g; SFloat v; SFloat t; SFloat r] =>
      Ok {| g_price := p; g_delta := d; g_gamma := g; g_vega := v; g_theta := t; g_rho := r |}
  | _ => Raise TypeError
  end.

Definition price (r : PriceRequest) : M PricingClient Greeks :=
  body ← lift_res (pack_request r);
  _ ← on_psock (sendall (Z_to_byte PRICE_REQUEST_TAG :: body));
  tag ← on_psock (price_recv_exact 1);
  if negb (byte_to_Z (nth 0 tag x00) =? PRICE_RESPONSE_TAG) then raise ValueError else
  size ← lift_res RESPONSE_SIZE;
  payload ← on_psock (price_recv_exact (Z.to_nat size));
  lift_res (unpack_greeks payload).

Definition pricing_close (c : PricingClient) : PricingClient := {| _sock := sock_close (_sock c) |}.

(** ** The Rust side *)

Definition PRICE_REQUEST_SIZE : nat := 8 + 8 + 8 + 8 + 8 + 1.
Definition PRICE_RESPONSE_SIZE : nat := 8 * 6.

(** [f64::from_be_bytes(payload[i..i+8])] and [i64::from_be_bytes]; a slice out of
    range panics ([None]). *)
Definition slice (i n : nat) (p : bytes) : option bytes :=
  if (i + n <=? length p)%nat then Some (take n (drop i p)) else None.
Definition f64_at (i : nat) (p : bytes) : option float :=
  b ← slice i 8 p; Some (float_of_bits (be_decode b)).
Definition i64_at (i : nat) (p : bytes) : option Z :=
  b ← slice i 8 p; Some (to_signed 64 (be_decode b)).

Definition rs_decode_request (p : bytes) : option PriceRequest :=
  spot ← i64_at 0 p;
  strike ← i64_at 8 p;
  rate ← f64_at 16 p;
  vol ← f64_at 24 p;
  t ← f64_at 32 p;
  c ← slice 40 1 p;
  Some {| pr_spot_ticks := spot; pr_strike_ticks := strike; pr_rate := rate; pr_vol := vol;
          pr_time_to_expiry := t; pr_is_call := negb (byte_to_Z (nth 0 c x00) =? 0) |}.

Definition f64_bytes (x : float) : bytes := be_encode 8 (bits_of_float x).

Definition rs_encode_response (g : Greeks) : bytes :=
  Z_to_byte PRICE_RESPONSE_TAG ::
    concat (f64_bytes <$> [g_price g; g_delta g; g_gamma g; g_vega g; g_theta g; g_rho g]).

(** The other half of the codec, which only the crate's tests call. *)
Definition rs_encode_request (r : PriceRequest) : bytes :=
  Z_to_byte PRICE_REQUEST_TAG ::
    be_encode 8 (pr_spot_ticks r) ++ be_encode 8 (pr_strike_ticks r) ++ f64_bytes (pr_rate r) ++
    f64_bytes (pr_vol r) ++ f64_bytes (pr_time_to_expiry r) ++ be_encode 1 (if pr_is_call r then 1 else 0).

Definition rs_decode_response (p : bytes) : option Greeks :=
  let get i := f64_at (i * 8) p in
  price ← get 0%nat;
  delta ← get 1%nat;
  gamma ← get 2%nat;
  vega ← get 3%nat;
  theta ← get 4%nat;
  rho ← get 5%nat;
  Some {| g_price := price; g_delta := delta; g_gamma := gamma; g_vega := vega; g_theta := theta; g_rho := rho |}.

(** ** Agreement *)

Definition Greeks_ok (g : Greeks) : Prop :=
  Forall (λ x, valid x = true) [g_price g; g_delta g; g_gamma g; g_vega g; g_theta g; g_rho g].
Definition PriceRequest_ok (r : PriceRequest) : Prop :=
  i64 (pr_spot_ticks r) ∧ i64 (pr_strike_ticks r) ∧ valid (pr_rate r) = true ∧
  valid (pr_vol r) = true ∧ valid (pr_time_to_expiry r) = true.

Lemma unpack_response g :
  Greeks_ok g →
  ∃ payload, rs_encode_response g = Z_to_byte PRICE_RESPONSE_TAG :: payload ∧
    length payload = 48%nat ∧ unpack_greeks payload = Ok g.
Proof.
  unfold Greeks_ok. rewrite !Forall_cons. intros (H1 & H2 & H3 & H4 & H5 & H6 & _).
  eexists. split; [reflexivity|]. cbn [fmap list_fmap concat].
  split; [rewrite !length_app; unfold f64_bytes; by rewrite !be_encode_length|].
  change (f64_bytes (g_price g) ++ _) with (concat (zip_with enc1 [fd; fd; fd; fd; fd; fd]
    (SFloat <$> [g_price g; g_delta g; g_gamma g; g_vega g; g_theta g; g_rho g]))).
  unfold unpack_greeks. rewrite (struct_unpack_eq _ [fd; fd; fd; fd; fd; fd]); [by destruct g|done|].
  by repeat constructor.
Qed.

Lemma slice_app i n pre x post :
  length pre = i → length x = n → slice i n (pre ++ x ++ post) = Some x.
Proof.
  intros <- <-. unfold slice. rewrite !length_app, (proj2 (Nat.leb_le _ _)) by lia.
  by rewrite drop_app_length, take_app_length.
Qed.

(** Every request the Python client can send reads back on the Rust side as the
    arguments of the call. *)
Lemma request_body (r : PriceRequest) :
  PriceRequest_ok r →
  ∃ body, pack_request r = Ok body ∧ length body = PRICE_REQUEST_SIZE ∧
    rs_decode_request body = Some r.
Proof.
  intros (H1 & H2 & H3 & H4 & H5). set (c := if pr_is_call r then 1 else 0).
  assert (u8 c) as Hc by (subst c; by destruct (pr_is_call r)).
  unfold pack_request. fold c. rewrite (struct_pack_eq _ [fq; fq; fd; fd; fd; fB]) by (done || fits_tac).
  eexists. split; [reflexivity|]. cbn [zip_with concat enc1 fmt_size]. rewrite app_nil_r.
  split; [by rewrite !length_app, !be_encode_length|].
  set (a1 := be_encode 8 (pr_spot_ticks r)). set (a2 := be_encode 8 (pr_strike_ticks r)).
  set (a3 := be_encode 8 (bits_of_float (pr_rate r))). set (a4 := be_encode 8 (bits_of_float (pr_vol r))).
  set (a5 := be_encode 8 (bits_of_float (pr_time_to_expiry r))). set (a6 := be_encode 1 c).
  assert (∀ n z, length (be_encode n z) = n) as Hl by apply be_encode_length.
  assert (slice 0 8 (a1 ++ a2 ++ a3 ++ a4 ++ a5 ++ a6) = Some a1) as S1.
  { by apply (slice_app 0 8 []). }
  assert (slice 8 8 (a1 ++ a2 ++ a3 ++ a4 ++ a5 ++ a6) = Some a2) as S2.
  { by apply slice_app. }
  assert (slice 16 8 (a1 ++ a2 ++ a3 ++ a4 ++ a5 ++ a6) = Some a3) as S3.
  { rewrite (app_assoc a1). by apply slice_app. }
  assert (slice 24 8 (a1 ++ a2 ++ a3 ++ a4 ++ a5 ++ a6) = Some a4) as S4.
  { rewrite (app_assoc a1), (app_assoc _ a3). by apply slice_app. }
  assert (slice 32 8 (a1 ++ a2 ++ a3 ++ a4 ++ a5 ++ a6) = Some a5) as S5.
  { rewrite (app_assoc a1), (app_assoc _ a3), (app_assoc _ a4). by apply slice_app. }
  assert (slice 40 1 (a1 ++ a2 ++ a3 ++ a4 ++ a5 ++ a6) = Some a6) as S6.
  { rewrite (app_assoc a1), (app_assoc _ a3), (app_assoc _ a4), (app_assoc _ a5).
    rewrite <- (app_nil_r a6) at 1. by apply slice_app. }
  unfold rs_decode_request, i64_at, f64_at. rewrite S1, S2, S3, S4, S5, S6. cbn [mbind option_bind].
  subst a1 a2 a3 a4 a5 a6.
  rewrite (be_decode_encode 8 (pr_spot_ticks r)), (be_decode_encode 8 (pr_strike_ticks r)).
  change (256 ^ Z.of_nat 8) with (2 ^ 64). rewrite !to_signed_mod by done.
  rewrite !be_decode_encode_small by by apply float_bits_range.
  rewrite !float_bits_roundtrip by done.
  subst c. by destruct r as [????? []].
Qed.

(** The Rust encoder writes what the Python client sends, so the decoder of the
    same file reads it back. *)
Theorem rs_request_round_trip (r : PriceRequest) :
  PriceRequest_ok r →
  ∃ body, rs_encode_request r = Z_to_byte PRICE_REQUEST_TAG :: body ∧ pack_request r = Ok body ∧
    length body = PRICE_REQUEST_SIZE ∧ rs_decode_request body = Some r.
Proof.
  intros Hr. destruct (request_body r Hr) as (body & Hb & Hl & Hd). exists body.
  split; [|done]. unfold rs_encode_request. f_equal. revert Hb.
  destruct Hr as (H1 & H2 & H3 & H4 & H5). set (c := if pr_is_call r then 1 else 0).
  assert (u8 c) as Hc by (subst c; by destruct (pr_is_call r)).
  unfold pack_request. fold c. rewrite (struct_pack_eq _ [fq; fq; fd; fd; fd; fB]) by (done || fits_tac).
  intros <-%(inj Ok). cbn [zip_with concat enc1]. by rewrite app_nil_r.
Qed.

(** A reply reads back, by the Rust decoder and by the Python client alike. *)
Theorem rs_response_round_trip (g : Greeks) :
  Greeks_ok g →
  ∃ payload, rs_encode_response g = Z_to_byte PRICE_RESPONSE_TAG :: payload ∧
    length payload = PRICE_RESPONSE_SIZE ∧ rs_decode_response payload = Some g ∧ unpack_greeks payload = Ok g.
Proof.
  intros Hg. destruct (unpack_response g Hg) as (payload & Hp & Hl & Hu). exists payload.
  split; [done|]. split; [done|]. split; [|done].
  apply (f_equal (@tail _)) in Hp. unfold rs_encode_response in Hp. cbn [tail] in Hp. subst payload. clear Hl Hu.
  unfold Greeks_ok in Hg. rewrite !Forall_cons in Hg. destruct Hg as (H1 & H2 & H3 & H4 & H5 & H6 & _).
  cbn [fmap list_fmap concat]. rewrite app_nil_r.
  assert (∀ i pre x post, length pre = i → valid x = true → f64_at i (pre ++ f64_bytes x ++ post) = Some x) as Hat.
  { intros i pre x post Hi Hx. unfold f64_at. rewrite (slice_app i 8) by (done || apply be_encode_length).
    cbn [mbind option_bind]. unfold f64_bytes. rewrite be_decode_encode_small by apply float_bits_range, Hx.
    by rewrite float_bits_roundtrip. }
  assert (∀ x, length (f64_bytes x) = 8%nat) as Hl by (intros x; apply be_encode_length).
  set (a1 := f64_bytes (g_price g)). set (a2 := f64_bytes (g_delta g)). set (a3 := f64_bytes (g_gamma g)).
  set (a4 := f64_bytes (g_vega g)). set (a5 := f64_bytes (g_theta g)). set (a6 := f64_bytes (g_rho g)).
  assert (f64_at 0 (a1 ++ a2 ++ a3 ++ a4 ++ a5 ++ a6) = Some (g_price g)) as S1 by by apply (Hat 0%nat []).
  assert (f64_at 8 (a1 ++ a2 ++ a3 ++ a4 ++ a5 ++ a6) = Some (g_delta g)) as S2 by by apply Hat.
  assert (f64_at 16 (a1 ++ a2 ++ a3 ++ a4 ++ a5 ++ a6) = Some (g_gamma g)) as S3
    by (rewrite (app_assoc a1); by apply Hat).
  assert (f64_at 24 (a1 ++ a2 ++ a3 ++ a4 ++ a5 ++ a6) = Some (g_vega g)) as S4
    by (rewrite (app_assoc a1), (app_assoc _ a3); by apply Hat).
  assert (f64_at 32 (a1 ++ a2 ++ a3 ++ a4 ++ a5 ++ a6) = Some (g_theta g)) as S5
    by (rewrite (app_assoc a1), (app_assoc _ a3), (app_assoc _ a4); by apply Hat).
  assert (f64_at 40 (a1 ++ a2 ++ a3 ++ a4 ++ a5 ++ a6) = Some (g_rho g)) as S6
    by (rewrite (app_assoc a1), (app_assoc _ a3), (app_assoc _ a4), (app_assoc _ a5), <- (app_nil_r a6); by apply Hat).
  unfold rs_decode_response. cbv zeta. change (0 * 8)%nat with 0%nat. change (1 * 8)%nat with 8%nat.
  change (2 * 8)%nat with 16%nat. change (3 * 8)%nat with 24%nat. change (4 * 8)%nat with 32%nat.
  change (5 * 8)%nat with 40%nat. rewrite S1, S2, S3, S4, S5, S6. cbn [mbind option_bind].
  by destruct g.
Qed.

(** The decoder looks only at the request. *)
Lemma slice_app_l i n p tl x : slice i n p = Some x → slice i n (p ++ tl) = Some x.
Proof.
  unfold slice. rewrite length_app. destruct (Nat.leb_spec (i + n) (length p)); [|done].
  rewrite (proj2 (Nat.leb_le _ _)) by lia. intros [= <-]. f_equal.
  by rewrite drop_app_le, take_app_le by (rewrite ?length_drop; lia).
Qed.

Lemma request_prefix body tl r :
  rs_decode_request body = Some r → rs_decode_request (body ++ tl) = Some r.
Proof.
  unfold rs_decode_request, i64_at, f64_at. intros H.
  destruct (slice 0 8 body) as [s1|] eqn:E1; [|done].
  destruct (slice 8 8 body) as [s2|] eqn:E2; [|done].
  destruct (slice 16 8 body) as [s3|] eqn:E3; [|done].
  destruct (slice 24 8 body) as [s4|] eqn:E4; [|done].
  destruct (slice 32 8 body) as [s5|] eqn:E5; [|done].
  destruct (slice 40 1 body) as [s6|] eqn:E6; [|done].
  by rewrite (slice_app_l _ _ _ _ _ E1), (slice_app_l _ _ _ _ _ E2), (slice_app_l _ _ _ _ _ E3),
    (slice_app_l _ _ _ _ _ E4), (slice_app_l _ _ _ _ _ E5), (slice_app_l _ _ _ _ _ E6).
Qed.

(** ** A pricing session *)

(** The blocking receive differs from the reader thread's only in how it
    reports the end of the stream. *)
Lemma price_recv_loop_eq fuel n buf s :
  match recv_exact_loop fuel n buf s with
  | (s', Ok (Some b)) => price_recv_loop fuel n buf s = (s', Ok b)
  | (s', Ok None) => ∃ e, price_recv_loop fuel n buf s = (s', Raise e) ∧
      (e = ConnectionError ∨ e = OSError)
  | (s', Raise e) => price_recv_loop fuel n buf s = (s', Raise e)
  | (s', NoFuel) => price_recv_loop fuel n buf s = (s', NoFuel)
  end.
Proof.
  revert buf s. induction fuel as [|fuel IH]; intros buf s; cbn [recv_exact_loop price_recv_loop];
    destruct (n <=? length buf)%nat; try done.
  destruct (recv _ s) as [s' [[|c cs]|e|]]; [by eauto|apply IH| |done].
  destruct e; eauto.
Qed.

Lemma price_recv_exact_spec n s :
  sk_closed s = false →
  let bs := stream (sk_incoming s) in
  ∃ l, if (n <=? length bs)%nat then
         price_recv_exact n s = (sk_set_incoming l s, Ok (take n bs)) ∧ stream l = drop n bs
       else ∃ e, price_recv_exact n s = (sk_set_incoming l s, Raise e) ∧
         (e = ConnectionError ∨ e = OSError).
Proof.
  intros Hc bs. destruct (recv_exact_loop_spec n n [] s Hc) as [l Hl]; [cbn; lia|]. exists l.
  cbn zeta in Hl. cbn [length] in Hl. rewrite Nat.sub_0_r in Hl. subst bs.
  pose proof (price_recv_loop_eq n n [] s) as He. unfold price_recv_exact.
  destruct (n <=? _)%nat; [destruct Hl as [Hl ?]|]; by rewrite Hl in He.
Qed.

(** A received chunk is never empty, so the receive loop always ends. *)
Lemma price_recv_total fuel n buf s :
  (n ≤ fuel + length buf)%nat → (price_recv_loop fuel n buf s).2 ≠ NoFuel.
Proof.
  revert buf s. induction fuel as [|fuel IH]; intros buf s Hf; cbn [price_recv_loop];
    destruct (Nat.leb_spec n (length buf)) as [|Hlt]; try done; [cbn in *; lia|].
  assert ((recv (n - length buf) s).2 ≠ NoFuel) as Hr by by unfold recv; repeat case_match.
  destruct (recv _ s) as [s' [[|c cs]|e|]]; [done| |done|done].
  apply IH. rewrite length_app. cbn. lia.
Qed.

Lemma price_total r : always_ends (price r).
Proof.
  unfold price, pack_request, on_psock. change RESPONSE_SIZE with (@Ok Z 48).
  assert (∀ n, always_ends (price_recv_exact n)) as Hx by (intros n s; apply price_recv_total; cbn; lia).
  assert (∀ bs, always_ends (sendall bs)) as Hs by (intros bs s; unfold sendall; by repeat case_match).
  assert (∀ p, fuel_free (unpack_greeks p)) as Hu.
  { intros p. apply fuel_free_bind; [apply struct_unpack_fuel|]. intros vs.
    repeat (case_match; try done). }
  repeat (apply total_bind; [auto with total|intros]). case_match; auto with total.
Qed.

(** The open connection's stream. *)
Definition pc_stream (c : PricingClient) : bytes := stream (sk_incoming (_sock c)).

(** One call, against a connection whose stream starts with a reply. *)
Lemma price_reply r g c rest :
  PriceRequest_ok r → Greeks_ok g → sk_live (_sock c) →
  pc_stream c = rs_encode_response g ++ rest →
  ∃ c' body, price r c = (c', Ok g) ∧ pack_request r = Ok body ∧
    sk_sent (_sock c') = sk_sent (_sock c) ++ Z_to_byte PRICE_REQUEST_TAG :: body ∧
    pc_stream c' = rest ∧ sk_live (_sock c').
Proof.
  intros Hr Hg [Hc Hfl] Hs. destruct (request_body r Hr) as (body & Hb & _ & _).
  destruct (unpack_response g Hg) as (payload & Hp & Hl & Hu). rewrite Hp in Hs.
  unfold price, mbind, M_bind, lift_res. rewrite Hb.
  set (k1 := {| sk_incoming := sk_incoming (_sock c);
    sk_sent := sk_sent (_sock c) ++ Z_to_byte PRICE_REQUEST_TAG :: body; sk_faults := []; sk_closed := false |}).
  assert (on_psock (sendall (Z_to_byte PRICE_REQUEST_TAG :: body)) c = ({| _sock := k1 |}, Ok tt)) as ->.
  { unfold on_psock, on_field, sendall. by rewrite Hc, Hfl. }
  assert (stream (sk_incoming k1) = (Z_to_byte PRICE_RESPONSE_TAG :: payload) ++ rest) as Hk1 by done.
  destruct (price_recv_exact_spec 1 k1) as [l1 H1]; [done|]. cbv zeta in H1.
  rewrite Hk1, (proj2 (Nat.leb_le _ _)) in H1 by (cbn; lia). destruct H1 as [H1 Hl1].
  change (drop 1 _) with (payload ++ rest) in Hl1. change (take 1 _) with [Z_to_byte PRICE_RESPONSE_TAG] in H1.
  assert (∀ n k, on_psock (price_recv_exact n) {| _sock := k |} =
    let '(k', x) := price_recv_exact n k in ({| _sock := k' |}, x)) as Hon by done.
  rewrite Hon, H1. cbn [nth].
  change (byte_to_Z (Z_to_byte PRICE_RESPONSE_TAG) =? PRICE_RESPONSE_TAG) with true. cbn [negb].
  change RESPONSE_SIZE with (Ok 48).
  destruct (price_recv_exact_spec 48 (sk_set_incoming l1 k1)) as [l2 H2]; [done|].
  cbv zeta in H2. cbn [sk_incoming sk_set_incoming] in H2.
  rewrite Hl1, (proj2 (Nat.leb_le _ _)) in H2 by (rewrite length_app; lia). destruct H2 as [H2 Hl2].
  rewrite Hon. change (Z.to_nat 48) with 48%nat. rewrite H2. rewrite <- Hl, take_app_length in *. rewrite drop_app_length in Hl2. rewrite Hu.
  by eexists _, body.
Qed.

(** A sequence of calls. *)
Fixpoint price_seq (rs : list PriceRequest) : M PricingClient (list Greeks) :=
  match rs with
  | [] => mret []
  | r :: rs => g ← price r; gs ← price_seq rs; mret (g :: gs)
  end.

Section Server.
(** What the server computes for the parameters it reads ([price_scalar] on the
    converted ticks). *)
Context (answer : PriceRequest → Greeks).

(** [handle_connection], on everything the peer sends: one reply per complete
    request, until the stream ends or a tag is unknown. *)
Fixpoint serve (fuel : nat) (bs : bytes) : bytes :=
  match fuel, bs with
  | S fuel, tag :: bs =>
      if negb (byte_to_Z tag =? PRICE_REQUEST_TAG) then []
      else match rs_decode_request bs with
           | Some req => rs_encode_response (answer req) ++ serve fuel (drop PRICE_REQUEST_SIZE bs)
           | None => []
           end
  | _, _ => []
  end.

(** The bytes of a list of requests. *)
Definition requests (rs : list PriceRequest) : res bytes :=
  bodies ← res_map pack_request rs;
  Ok (concat ((λ b, Z_to_byte PRICE_REQUEST_TAG :: b) <$> bodies)).

Lemma requests_cons r rs body sent :
  pack_request r = Ok body → requests (r :: rs) = Ok sent →
  ∃ tl, requests rs = Ok tl ∧ sent = Z_to_byte PRICE_REQUEST_TAG :: body ++ tl.
Proof.
  intros Hb. unfold requests. cbn [res_map]. rewrite Hb.
  destruct (res_map pack_request rs) as [bs|e|]; cbn; [|done..]. intros [= <-]. by eexists.
Qed.

Lemma serve_cons fuel body tl r :
  rs_decode_request body = Some r → length body = PRICE_REQUEST_SIZE →
  serve (S fuel) (Z_to_byte PRICE_REQUEST_TAG :: body ++ tl) =
    rs_encode_response (answer r) ++ serve fuel tl.
Proof.
  intros Hdec Hl. cbn [serve]. rewrite byte_to_Z_of_Z, (request_prefix body tl r) by done.
  change (PRICE_REQUEST_TAG mod 256 =? PRICE_REQUEST_TAG) with true. cbn [negb].
  by rewrite <- Hl, drop_app_length.
Qed.

(** (C28) A pricing session is transparent: when a client makes the calls [rs] over a
    connection to the server, then for every chunking of the server's replies
    each call returns what the server computes for its arguments, and what the
    client has sent is what the server answered. *)
Theorem pricing_session (rs : list PriceRequest) (c : PricingClient) (sent rest : bytes) fuel :
  Forall PriceRequest_ok rs → (∀ r, Greeks_ok (answer r)) → sk_live (_sock c) →
  requests rs = Ok sent → (length rs ≤ fuel)%nat →
  pc_stream c = serve fuel sent ++ rest →
  ∃ c', price_seq rs c = (c', Ok (answer <$> rs)) ∧
    sk_sent (_sock c') = sk_sent (_sock c) ++ sent ∧ pc_stream c' = rest.
Proof.
  intros Hrs Ha. revert c sent fuel. induction Hrs as [|r rs Hr _ IH]; intros c sent fuel Hc Hq Hf Hs.
  { apply (inj Ok) in Hq as <-. exists c. cbn. rewrite app_nil_r. split_and!; [done..|].
    rewrite Hs. by destruct fuel. }
  destruct fuel as [|fuel]; [cbn in Hf; lia|]. cbn [length] in Hf.
  destruct (request_body r Hr) as (body & Hb & Hbl & Hdec).
  destruct (requests_cons r rs body sent Hb Hq) as (tl & Htl & ->).
  rewrite (serve_cons fuel body tl r) in Hs by done. rewrite <- app_assoc in Hs.
  destruct (price_reply r (answer r) c _ Hr (Ha r) Hc Hs) as (c1 & body' & H1 & Hb' & Hsent & Hs1 & Hc1).
  rewrite Hb in Hb'. apply (inj Ok) in Hb' as <-.
  destruct (IH c1 tl fuel) as (c2 & H2 & Hsent2 & Hs2); [done|done|lia|done|].
  exists c2. cbn [price_seq]. py_unfold. rewrite H1, H2. split_and!; [done| |done].
  rewrite Hsent2, Hsent, <- app_assoc. done.
Qed.
End Server.

(** Two calls, with the replies arriving seven bytes at a time. *)
Lemma pricing_session_witness :
  let answer := λ r, {| g_price := f_zero; g_delta := if pr_spot_ticks r =? 128 then dyadic 1 (-1) else dyadic 1 (-2); g_gamma := f_zero;
                        g_vega := f_zero; g_theta := f_zero; g_rho := f_zero |} in
  let req := λ spot, {| pr_spot_ticks := spot; pr_strike_ticks := 100; pr_rate := f_zero;
                        pr_vol := dyadic 1 (-2); pr_time_to_expiry := dyadic 1 0; pr_is_call := true |} in
  ∃ sent c c', requests [req 128; req 64] = Ok sent ∧ sk_sent (_sock c) = [] ∧
    price_seq [req 128; req 64] c = (c', Ok (answer <$> [req 128; req 64])) ∧
    sk_sent (_sock c') = sent.
Proof.
  intros answer req.
  set (sent := match requests [req 128; req 64] with Ok b => b | _ => [] end).
  set (bs := serve answer 2 sent).
  set (c := {| _sock := {| sk_incoming := (λ i, Data (take 7 (drop (7 * i) bs))) <$> seq 0 15;
                           sk_sent := []; sk_faults := []; sk_closed := false |} |}).
  destruct (pricing_session answer [req 128; req 64] c sent [] 2) as (c' & H1 & H2 & _).
  - repeat constructor; decide_now.
  - intros r. unfold Greeks_ok, answer. cbn [g_price g_delta g_gamma g_vega g_theta g_rho].
    destruct (pr_spot_ticks r =? 128); decide_now.
  - by split.
  - vm_compute. reflexivity.
  - cbn. lia.
  - vm_compute. reflexivity.
  - exists sent, c, c'. split_and!; [vm_compute; reflexivity|reflexivity|exact H1|exact H2].
Defined.
