(* ===== verification/Pricing.v ===== *)
(** * Black-Scholes pricing ([risk/src/pricing.rs])

    The scalar pricer, and the batch pricer that prices four options at a time
    on SIMD lanes.  A Rust [f64] is the binary64 number of [PyFloat]; its
    division never raises.  [exp] and [ln] come from the platform and are
    parameters ([F64Math]), as is the third-party vector type [f64x4] ([Wide]),
    of which the code relies on acting lane by lane. *)

From stdpp Require Import vector.
From S2P Require Import Prelude PyFloat FloatBounds FloatEnclosure PyStruct PricingClient.

Open Scope Z_scope.

Class F64Math := { f64_exp : float → float; f64_ln : float → float }.

(** Division of [f64]. *)
Definition fquot : float → float → float := SFdiv prec emax.
Definition f_abs : float → float := SFabs.

(** A decimal literal [n / d]: the float nearest to it. *)
Definition lit (n d : Z) : float := from_res S754_nan (int_truediv n d).

Abbreviation f_one := (dyadic 1 0).
Abbreviation f_mone := (dyadic (-1) 0).
Abbreviation f_half := (dyadic 1 (-1)).
Abbreviation f_mhalf := (dyadic (-1) (-1)).
Abbreviation f_two := (dyadic 2 0).

Declare Scope f64_scope.
Delimit Scope f64_scope with f64.
Infix "+" := fadd : f64_scope.
Infix "-" := fsub : f64_scope.
Infix "*" := fmul : f64_scope.
Infix "/" := fquot : f64_scope.
Notation "- x" := (fopp x) : f64_scope.

Definition SQRT_2PI : float := lit 25066282746310002 (10 ^ 16).

Record OptionParams := {
  op_spot : float;
  op_strike : float;
  op_rate : float;
  op_vol : float;
  op_time_to_expiry : float;
  op_is_call : bool;
}.

(** ** The scalar pricer *)

Definition CDF_P : float := lit 2316419 (10 ^ 7).
Definition B1 : float := lit 319381530 (10 ^ 9).
Definition B2 : float := fopp (lit 356563782 (10 ^ 9)).
Definition B3 : float := lit 1781477937 (10 ^ 9).
Definition B4 : float := fopp (lit 1821255978 (10 ^ 9)).
Definition B5 : float := lit 1330274429 (10 ^ 9).

Section Scalar.
Context `{F64Math}.

Definition norm_pdf (x : float) : float := (f64_exp (f_mhalf * x * x) / SQRT_2PI)%f64.

Definition norm_cdf (x : float) : float :=
  let sign := if fltb x f_zero then f_mone else f_one in
  let x_abs := f_abs x in
  let t := (f_one / (f_one + CDF_P * x_abs))%f64 in
  let poly := (t * (B1 + t * (B2 + t * (B3 + t * (B4 + t * B5)))))%f64 in
  let cdf_abs := (f_one - norm_pdf x_abs * poly)%f64 in
  (f_half + sign * (cdf_abs - f_half))%f64.

Definition price_scalar (p : OptionParams) : Greeks :=
  let phi := if op_is_call p then f_one else f_mone in
  let sqrt_t := fsqrt (op_time_to_expiry p) in
  let vol_sqrt_t := (op_vol p * sqrt_t)%f64 in
  let d1 := ((f64_ln (op_spot p / op_strike p) +
              (op_rate p + f_half * op_vol p * op_vol p) * op_time_to_expiry p) / vol_sqrt_t)%f64 in
  let d2 := (d1 - vol_sqrt_t)%f64 in
  let discount := f64_exp (- op_rate p * op_time_to_expiry p)%f64 in
  let n_phi_d1 := norm_cdf (phi * d1)%f64 in
  let n_phi_d2 := norm_cdf (phi * d2)%f64 in
  let pdf_d1 := norm_pdf d1 in
  {| g_price := (phi * (op_spot p * n_phi_d1 - op_strike p * discount * n_phi_d2))%f64;
     g_delta := (phi * n_phi_d1)%f64;
     g_gamma := (pdf_d1 / (op_spot p * vol_sqrt_t))%f64;
     g_vega := (op_spot p * pdf_d1 * sqrt_t)%f64;
     g_theta := (- (op_spot p * pdf_d1 * op_vol p) / (f_two * sqrt_t)
                 - phi * op_rate p * op_strike p * discount * n_phi_d2)%f64;
     g_rho := (phi * op_strike p * op_time_to_expiry p * discount * n_phi_d2)%f64 |}.
End Scalar.

(** ** The SIMD batch pricer *)

(** The crate's [f64x4]: four lanes, and the operations the pricer uses.  A
    comparison gives a mask, which is again a vector. *)
Class Wide (V : Type) := {
  v_new : vec float 4 → V;
  v_to_array : V → vec float 4;
  v_splat : float → V;
  v_add : V → V → V;
  v_sub : V → V → V;
  v_mul : V → V → V;
  v_div : V → V → V;
  v_sqrt : V → V;
  v_abs : V → V;
  v_exp : V → V;
  v_ln : V → V;
  v_simd_lt : V → V → V;
  v_blend : V → V → V → V;
}.

Declare Scope wide_scope.
Delimit Scope wide_scope with w.
Infix "+" := v_add : wide_scope.
Infix "-" := v_sub : wide_scope.
Infix "*" := v_mul : wide_scope.
Infix "/" := v_div : wide_scope.

Section Simd.
Context `{!Wide V}.

Definition norm_pdf_simd (x : V) : V :=
  (v_exp (x * x * v_splat f_mhalf) * v_splat (fquot f_one SQRT_2PI))%w.

Definition norm_cdf_simd (x : V) : V :=
  let neg_mask := v_simd_lt x (v_splat f_zero) in
  let sign := v_blend neg_mask (v_splat f_mone) (v_splat f_one) in
  let x_abs := v_abs x in
  let p := v_splat CDF_P in
  let b1 := v_splat B1 in
  let b2 := v_splat B2 in
  let b3 := v_splat B3 in
  let b4 := v_splat B4 in
  let b5 := v_splat B5 in
  let t := (v_splat f_one / (v_splat f_one + p * x_abs))%w in
  let poly := (t * (b1 + t * (b2 + t * (b3 + t * (b4 + t * b5)))))%w in
  let cdf_abs := (v_splat f_one - norm_pdf_simd x_abs * poly)%w in
  (v_splat f_half + sign * (cdf_abs - v_splat f_half))%w.

(** [price; delta; gamma; vega; theta; rho], each of four options. *)
Definition price_lane_simd (spot strike rate vol t phi : V) : vec V 6 :=
  let sqrt_t := v_sqrt t in
  let vol_sqrt_t := (vol * sqrt_t)%w in
  let d1 := ((v_ln (spot / strike) + (rate + v_splat f_half * vol * vol) * t) / vol_sqrt_t)%w in
  let d2 := (d1 - vol_sqrt_t)%w in
  let discount := v_exp (rate * t * v_splat f_mone)%w in
  let n_phi_d1 := norm_cdf_simd (phi * d1)%w in
  let n_phi_d2 := norm_cdf_simd (phi * d2)%w in
  let pdf_d1 := norm_pdf_simd d1 in
  let price := (phi * (spot * n_phi_d1 - strike * discount * n_phi_d2))%w in
  let delta := (phi * n_phi_d1)%w in
  let gamma := (pdf_d1 / (spot * vol_sqrt_t))%w in
  let vega := (spot * pdf_d1 * sqrt_t)%w in
  let theta := ((spot * pdf_d1 * vol) / (v_splat f_two * sqrt_t) * v_splat f_mone
                - phi * rate * strike * discount * n_phi_d2)%w in
  let rho := (phi * strike * t * discount * n_phi_d2)%w in
  [# price; delta; gamma; vega; theta; rho].

(** *** Arrays

    The batch is held as six arrays, of the parameters in and of the Greeks
    out.  Every array access of Rust is checked: out of range it panics, which
    is [None] here. *)

(** The fields of one option, in the order of the arrays. *)
Definition params_row (p : OptionParams) : vec float 6 :=
  [# op_spot p; op_strike p; op_rate p; op_vol p; op_time_to_expiry p;
     if op_is_call p then f_one else f_mone].

Definition zeros (len : nat) : vec (list float) 6 := vreplicate 6 (replicate len f_zero).

(** [spot[i] = ...; strike[i] = ...; ...] and the reads of the six. *)
Definition set_row (i : nat) (r : vec float 6) (a : vec (list float) 6) : option (vec (list float) 6) :=
  if forallb (λ l : list float, (i <? length l)%nat) (vec_to_list a)
  then Some (vzip_with (λ x l, <[i := x]> l) r a) else None.
Definition get_row (i : nat) (a : vec (list float) 6) : option (vec float 6) :=
  if forallb (λ l : list float, (i <? length l)%nat) (vec_to_list a)
  then Some (vmap (λ l, default f_zero (l !! i)) a) else None.

(** [x[i..i + 4].try_into().unwrap()] *)
Definition lanes_at (i : nat) (l : list float) : option (vec float 4) :=
  match take 4 (drop i l) with
  | [a; b; c; d] => Some [# a; b; c; d]
  | _ => None
  end.

(** [out[i..i + 4].copy_from_slice(&v.to_array())] for the six arrays. *)
Definition copy_lanes (i : nat) (v : vec V 6) (out : vec (list float) 6) : option (vec (list float) 6) :=
  if forallb (λ l : list float, (i + 4 <=? length l)%nat) (vec_to_list out)
  then Some (vzip_with (λ v l, take i l ++ vec_to_list (v_to_array v) ++ drop (i + 4) l) v out) else None.

(** [for a in l: s = f(a, s)], up to the first panic. *)
Fixpoint for_loop {A S} (f : A → S → option S) (l : list A) (s : S) : option S :=
  match l with
  | [] => Some s
  | a :: l => s ← f a s; for_loop f l s
  end.

Definition div_ceil (n d : nat) : nat := (n / d + if n mod d =? 0 then 0 else 1)%nat.

(** [(0..len).step_by(4)] *)
Definition step_by_4 (len : nat) : list nat := (λ k, 4 * k)%nat <$> seq 0 (div_ceil len 4).

(** Fill the parameter arrays, and their padding with the last option. *)
Definition fill_params (params : list OptionParams) (padded_len : nat) : option (vec (list float) 6) :=
  let n := length params in
  a ← for_loop (λ '(i, p) a, set_row i (params_row p) a) (imap pair params) (zeros padded_len);
  for_loop (λ i a, r ← get_row (n - 1) a; set_row i r a) (seq n (padded_len - n)) a.

(** The four options from [i] on. *)
Definition price_group (a : vec (list float) 6) (i : nat) (out : vec (list float) 6) :
    option (vec (list float) 6) :=
  spot ← lanes_at i (a !!! 0%fin);
  strike ← lanes_at i (a !!! 1%fin);
  rate ← lanes_at i (a !!! 2%fin);
  vol ← lanes_at i (a !!! 3%fin);
  t ← lanes_at i (a !!! 4%fin);
  phi ← lanes_at i (a !!! 5%fin);
  copy_lanes i (price_lane_simd (v_new spot) (v_new strike) (v_new rate) (v_new vol) (v_new t) (v_new phi)) out.

Definition greeks_of (r : vec float 6) : Greeks :=
  {| g_price := r !!! 0%fin; g_delta := r !!! 1%fin; g_gamma := r !!! 2%fin;
     g_vega := r !!! 3%fin; g_theta := r !!! 4%fin; g_rho := r !!! 5%fin |}.

Definition price_batch_simd (params : list OptionParams) : option (list Greeks) :=
  let n := length params in
  if decide (n = 0%nat) then Some [] else
  let padded_len := (div_ceil n 4 * 4)%nat in
  a ← fill_params params padded_len;
  out ← for_loop (price_group a) (step_by_4 padded_len) (zeros padded_len);
  mapM (λ i, greeks_of <$> get_row i out) (seq 0 n).
End Simd.

(** ** One lane

    What [price_lane_simd] computes in a lane, on floats.  It differs from
    [price_scalar] in three expressions: the density multiplies by a rounded
    [1 / SQRT_2PI] where the scalar one divides, and two signs are written as
    products with -1. *)

Section Lane.
Context `{F64Math}.

Definition norm_pdf_lane (x : float) : float :=
  (f64_exp (x * x * f_mhalf) * (f_one / SQRT_2PI))%f64.

(** The common form of the two pricers, over the density [pdf]. *)
Definition cdf_of (pdf : float → float) (x : float) : float :=
  let sign := if fltb x f_zero then f_mone else f_one in
  let t := (f_one / (f_one + CDF_P * f_abs x))%f64 in
  let poly := (t * (B1 + t * (B2 + t * (B3 + t * (B4 + t * B5)))))%f64 in
  (f_half + sign * ((f_one - pdf (f_abs x) * poly) - f_half))%f64.

Definition black_scholes (pdf : float → float) (p : OptionParams) : Greeks :=
  let phi := if op_is_call p then f_one else f_mone in
  let sqrt_t := fsqrt (op_time_to_expiry p) in
  let vol_sqrt_t := (op_vol p * sqrt_t)%f64 in
  let d1 := ((f64_ln (op_spot p / op_strike p) +
              (op_rate p + f_half * op_vol p * op_vol p) * op_time_to_expiry p) / vol_sqrt_t)%f64 in
  let d2 := (d1 - vol_sqrt_t)%f64 in
  let discount := f64_exp (- (op_rate p * op_time_to_expiry p))%f64 in
  let n1 := cdf_of pdf (phi * d1)%f64 in
  let n2 := cdf_of pdf (phi * d2)%f64 in
  {| g_price := (phi * (op_spot p * n1 - op_strike p * discount * n2))%f64;
     g_delta := (phi * n1)%f64;
     g_gamma := (pdf d1 / (op_spot p * vol_sqrt_t))%f64;
     g_vega := (op_spot p * pdf d1 * sqrt_t)%f64;
     g_theta := (- ((op_spot p * pdf d1 * op_vol p) / (f_two * sqrt_t))
                 - phi * op_rate p * op_strike p * discount * n2)%f64;
     g_rho := (phi * op_strike p * op_time_to_expiry p * discount * n2)%f64 |}.
End Lane.

(** *** Signs are exact *)

Lemma fmul_opp_l x y : fmul (fopp x) y = fopp (fmul x y).
Proof.
  destruct x as [[]|[]| |sx mx ex], y as [[]|[]| |sy my ey]; try done; cbn [fopp SFopp fmul SFmul];
    try (by destruct sx); try (by destruct sy).
  unfold binary_round_aux. repeat case_match; simplify_eq; try done; by destruct sx, sy.
Qed.

Lemma fquot_opp_l x y : fquot (fopp x) y = fopp (fquot x y).
Proof.
  destruct x as [[]|[]| |sx mx ex], y as [[]|[]| |sy my ey]; try done; cbn [fopp SFopp fquot SFdiv];
    try (by destruct sx); try (by destruct sy).
  unfold fquot. cbn [SFdiv]. destruct (SFdiv_core_binary _ _ _ _ _ _) as [[q e] l].
  unfold binary_round_aux. repeat case_match; simplify_eq; try done; by destruct sx, sy.
Qed.

(** Multiplying by -1 changes the sign and nothing else. *)
Lemma fmul_mone x : valid x = true → fmul x f_mone = fopp x.
Proof.
  intros V. destruct x as [[]|[]| |s m e]; try done.
  change f_mone with (S754_finite true 4503599627370496 (-52)). cbn [fmul SFmul fopp SFopp].
  rewrite (round_aux_exact _ m e); [by destruct s|done|lia|].
  replace (e - (e + -52)) with 52 by lia. lia.
Qed.

Lemma fmul_comm x y : fmul x y = fmul y x.
Proof.
  destruct x as [[]|[]| |[] mx ex], y as [[]|[]| |[] my ey]; try done; cbn [fmul SFmul];
    by rewrite (Pos.mul_comm mx), (Z.add_comm ex).
Qed.

Lemma fmul_mone_l x : valid x = true → fmul f_mone x = fopp x.
Proof. rewrite fmul_comm. apply fmul_mone. Qed.

Lemma fmul_one_l x : valid x = true → fmul f_one x = x.
Proof.
  intros V. change f_one with (fopp f_mone). rewrite fmul_opp_l, fmul_mone_l by done.
  by destruct x as [[]|[]| |[] m e].
Qed.

(** ** The scalar pricer is the common form over its density *)

(** A result of type [f64] is a binary64 value (its mantissa and exponent are in
    range); nothing is said of which.  This is all the batch pricer is assumed to
    get from the lane functions of the vector crate. *)
Class F64MathValid `{F64Math} : Prop := {
  exp_valid x : valid x = true → valid (f64_exp x) = true;
  ln_valid x : valid x = true → valid (f64_ln x) = true;
}.

(** What the bounds of the scalar pricer use of the platform's [f64::exp]
    besides: NaN in NaN out, and an exponential of a number that is not positive
    lies between 0 and 1. *)
Class F64MathOk `{F64Math} : Prop := {
  math_valid :: F64MathValid;
  exp_nan : f64_exp S754_nan = S754_nan;
  exp_unit x : valid x = true → fleb x f_zero = true → in_range (f64_exp x) 0 1 0;
}.

Definition OptionParams_ok (p : OptionParams) : Prop :=
  Forall (λ x, valid x = true) [op_spot p; op_strike p; op_rate p; op_vol p; op_time_to_expiry p].

#[export] Instance OptionParams_ok_dec p : Decision (OptionParams_ok p).
Proof. unfold OptionParams_ok. apply _. Defined.

Lemma norm_cdf_form `{F64Math} x : norm_cdf x = cdf_of norm_pdf x.
Proof. reflexivity. Qed.

Lemma price_scalar_form `{F64Math} p : price_scalar p = black_scholes norm_pdf p.
Proof.
  unfold price_scalar, black_scholes. cbv zeta. rewrite !norm_cdf_form, !fmul_opp_l, fquot_opp_l. done.
Qed.

(** ** The batch pricer is a map *)

(** The operations of [f64x4] act lane by lane, with the crate's own [exp] and
    [ln] in each lane; no value of these two is assumed. *)
Class WideLaws (V : Type) `{!Wide V} (lane_math : F64Math) : Prop := {
  new_lane a i : v_to_array (v_new a) !!! i = a !!! i;
  splat_lane x i : v_to_array (v_splat x) !!! i = x;
  add_lane x y i : v_to_array (v_add x y) !!! i = fadd (v_to_array x !!! i) (v_to_array y !!! i);
  sub_lane x y i : v_to_array (v_sub x y) !!! i = fsub (v_to_array x !!! i) (v_to_array y !!! i);
  mul_lane x y i : v_to_array (v_mul x y) !!! i = fmul (v_to_array x !!! i) (v_to_array y !!! i);
  div_lane x y i : v_to_array (v_div x y) !!! i = fquot (v_to_array x !!! i) (v_to_array y !!! i);
  sqrt_lane x i : v_to_array (v_sqrt x) !!! i = fsqrt (v_to_array x !!! i);
  abs_lane x i : v_to_array (v_abs x) !!! i = f_abs (v_to_array x !!! i);
  exp_lane x i : v_to_array (v_exp x) !!! i = f64_exp (v_to_array x !!! i);
  ln_lane x i : v_to_array (v_ln x) !!! i = f64_ln (v_to_array x !!! i);
  blend_lane x y a b i :
    v_to_array (v_blend (v_simd_lt x y) a b) !!! i =
      if fltb (v_to_array x !!! i) (v_to_array y !!! i) then v_to_array a !!! i else v_to_array b !!! i;
}.

Lemma lit_valid n d : valid (lit n d) = true.
Proof.
  unfold lit, int_truediv. destruct d as [|d|d], n as [|n|n]; try done.
  all: destruct (SFdiv_core_binary _ _ _ _ _ _) as [[q e] l] eqn:E; cbn [Z.abs] in E;
    apply quotient_core in E as (Hq & He & _);
    match goal with |- context [binary_round_aux _ _ ?s _ _ _] =>
      pose proof (round_valid s q e l Hq He); by destruct (binary_round_aux prec emax s q e l) end.
Qed.

Lemma SQRT_2PI_valid : valid SQRT_2PI = true.
Proof. apply lit_valid. Qed.

#[export] Hint Resolve lit_valid SQRT_2PI_valid exp_valid ln_valid math_valid : valid_float.

Lemma norm_pdf_lane_valid `{F64MathValid} x : valid x = true → valid (norm_pdf_lane x) = true.
Proof. intros. unfold norm_pdf_lane. auto 20 with valid_float. Qed.
#[export] Hint Resolve norm_pdf_lane_valid : valid_float.

Section Batch.
Context `{!Wide V} (lane_math : F64Math) `{!WideLaws V lane_math} `{!F64MathValid}.

Lemma norm_pdf_lanes x i : v_to_array (norm_pdf_simd x) !!! i = norm_pdf_lane (v_to_array x !!! i).
Proof. unfold norm_pdf_simd. by rewrite mul_lane, exp_lane, !mul_lane, !splat_lane. Qed.

Lemma norm_cdf_lanes x i :
  v_to_array (norm_cdf_simd x) !!! i = cdf_of norm_pdf_lane (v_to_array x !!! i).
Proof.
  unfold norm_cdf_simd, cdf_of. cbv zeta.
  repeat first [rewrite splat_lane | rewrite blend_lane | rewrite norm_pdf_lanes | rewrite abs_lane
    | rewrite add_lane | rewrite sub_lane | rewrite mul_lane | rewrite div_lane]. done.
Qed.

(** What is computed for an option, as a row of the output. *)
Definition lane_greeks (p : OptionParams) : vec float 6 :=
  let g := black_scholes norm_pdf_lane p in
  [# g_price g; g_delta g; g_gamma g; g_vega g; g_theta g; g_rho g].

Definition lane_is (p : OptionParams) (v : vec V 6) (i : fin 4) : Prop :=
  vmap (λ x, v_to_array x !!! i) v = params_row p.

Lemma price_lane_lanes (spot strike rate vol t phi : V) (p : OptionParams) (i : fin 4) :
  OptionParams_ok p → lane_is p [# spot; strike; rate; vol; t; phi] i →
  vmap (λ x, v_to_array x !!! i) (price_lane_simd spot strike rate vol t phi) = lane_greeks p.
Proof.
  unfold OptionParams_ok. rewrite !Forall_cons. intros (V1 & V2 & V3 & V4 & V5 & _) Hp.
  unfold lane_is, params_row in Hp. cbn in Hp.
  pose proof (f_equal (λ v, v !!! 0%fin) Hp) as H0. pose proof (f_equal (λ v, v !!! 1%fin) Hp) as H1.
  pose proof (f_equal (λ v, v !!! 2%fin) Hp) as H2. pose proof (f_equal (λ v, v !!! 3%fin) Hp) as H3.
  pose proof (f_equal (λ v, v !!! 4%fin) Hp) as H4. pose proof (f_equal (λ v, v !!! 5%fin) Hp) as H5.
  cbn in H0, H1, H2, H3, H4, H5. clear Hp.
  assert (valid (op_rate p * op_time_to_expiry p)%f64 = true) as VR by auto with valid_float.
  unfold price_lane_simd, lane_greeks, black_scholes. cbv zeta. cbn [vmap Vector.map g_price g_delta g_gamma g_vega g_theta g_rho].
  repeat first [rewrite splat_lane | rewrite norm_cdf_lanes | rewrite norm_pdf_lanes
    | rewrite sqrt_lane | rewrite exp_lane | rewrite ln_lane
    | rewrite add_lane | rewrite sub_lane | rewrite mul_lane | rewrite div_lane].
  rewrite H0, H1, H2, H3, H4, H5. rewrite (fmul_mone (op_rate p * op_time_to_expiry p)%f64) by exact VR.
  match goal with |- context [fmul ?x f_mone] => rewrite (fmul_mone x) end.
  2:{ unfold fquot. auto 20 with valid_float. }
  reflexivity.
Qed.

(** *** The arrays hold the rows *)

(** The arrays of a list of rows. *)
Definition columns (rows : list (vec float 6)) : vec (list float) 6 :=
  fun_to_vec (λ c, (λ r, r !!! c) <$> rows).

Lemma columns_checked (P : nat → bool) rows :
  P (length rows) = true → forallb (λ l : list float, P (length l)) (vec_to_list (columns rows)) = true.
Proof. intros HP. cbn. by rewrite !length_map, HP. Qed.

Lemma zeros_columns len : zeros len = columns (replicate len (vreplicate 6 f_zero)).
Proof.
  apply vec_eq. intros c. unfold zeros, columns. rewrite lookup_fun_to_vec, vlookup_replicate.
  by rewrite fmap_replicate, vlookup_replicate.
Qed.

Lemma set_row_columns i r rows :
  (i < length rows)%nat → set_row i r (columns rows) = Some (columns (<[i := r]> rows)).
Proof.
  intros Hi. unfold set_row. rewrite (columns_checked (λ n, i <? n)%nat) by by apply Nat.ltb_lt.
  f_equal. apply vec_eq. intros c. unfold columns. by rewrite vlookup_zip_with, !lookup_fun_to_vec, list_fmap_insert.
Qed.

Lemma get_row_columns i rows r :
  rows !! i = Some r → get_row i (columns rows) = Some r.
Proof.
  intros Hi. unfold get_row. rewrite (columns_checked (λ n, i <? n)%nat).
  2:{ apply Nat.ltb_lt. by eapply lookup_lt_Some. }
  f_equal. apply vec_eq. intros c. unfold columns. by rewrite vlookup_map, lookup_fun_to_vec, list_lookup_fmap, Hi.
Qed.

Lemma lanes_at_columns done r0 r1 r2 r3 todo c :
  lanes_at (length done) (columns (done ++ r0 :: r1 :: r2 :: r3 :: todo) !!! c) =
    Some [# r0 !!! c; r1 !!! c; r2 !!! c; r3 !!! c].
Proof.
  unfold lanes_at, columns. rewrite lookup_fun_to_vec, fmap_app.
  rewrite drop_app_length' by by rewrite length_map. done.
Qed.

Lemma copy_lanes_columns done z0 z1 z2 z3 todo (v : vec V 6) :
  copy_lanes (length done) v (columns (done ++ z0 :: z1 :: z2 :: z3 :: todo)) =
    Some (columns (done ++ vec_to_list (fun_to_vec (λ i, vmap (λ x, v_to_array x !!! i) v)) ++ todo)).
Proof.
  unfold copy_lanes. rewrite (columns_checked (λ n, length done + 4 <=? n)%nat).
  2:{ apply Nat.leb_le. rewrite length_app. cbn. lia. }
  f_equal. apply vec_eq. intros c. unfold columns. rewrite vlookup_zip_with, !lookup_fun_to_vec, !fmap_app.
  rewrite take_app_length', drop_app_ge by (rewrite ?length_map; lia).
  f_equal. rewrite length_map. replace (length done + 4 - length done)%nat with 4%nat by lia. cbn [drop fmap list_fmap].
  f_equal. rewrite <- vec_to_list_map. f_equal. apply vec_eq. intros i.
  by rewrite vlookup_map, lookup_fun_to_vec, vlookup_map.
Qed.

(** *** The loops *)

(** Writing the options into the arrays. *)
Lemma options_loop (params : list OptionParams) (before todo : list (vec float 6)) :
  (length params ≤ length todo)%nat →
  for_loop (λ '(i, p) a, set_row i (params_row p) a) (imap (λ i p, (length before + i, p)%nat) params)
    (columns (before ++ todo)) =
    Some (columns (before ++ (params_row <$> params) ++ drop (length params) todo)).
Proof.
  revert before todo. induction params as [|p params IH]; intros before todo Hl; [done|].
  destruct todo as [|z todo]; cbn in Hl; [lia|]. cbn [imap for_loop fmap list_fmap drop length].
  rewrite Nat.add_0_r, set_row_columns by (rewrite length_app; cbn; lia).
  cbn [mbind option_bind]. rewrite insert_app_r_alt, Nat.sub_diag by lia. cbn [insert list_insert].
  specialize (IH (before ++ [params_row p]) todo ltac:(lia)). rewrite <- !app_assoc in IH. cbn [app] in IH.
  etransitivity; [|exact IH]. f_equal. apply imap_ext. intros i q _. rewrite length_app. cbn. f_equal. lia.
Qed.

(** Repeating the last option. *)
Lemma padding_loop (last : nat) (r : vec float 6) (before todo : list (vec float 6)) :
  before !! last = Some r →
  for_loop (λ i a, r ← get_row last a; set_row i r a) (seq (length before) (length todo))
    (columns (before ++ todo)) = Some (columns (before ++ replicate (length todo) r)).
Proof.
  revert before. induction todo as [|z todo IH]; intros before Hr; [done|].
  cbn [length seq for_loop replicate].
  rewrite (get_row_columns last _ r) by by apply lookup_app_l_Some. cbn [mbind option_bind].
  rewrite set_row_columns by (rewrite length_app; cbn; lia).
  cbn [mbind option_bind]. rewrite insert_app_r_alt, Nat.sub_diag by lia. cbn [insert list_insert].
  specialize (IH (before ++ [r])). rewrite length_app, <- !app_assoc in IH. cbn [length app] in IH.
  rewrite Nat.add_1_r in IH. apply IH. by apply lookup_app_l_Some.
Qed.

(** Four options at a time. *)
Lemma price_group_step (ps : list OptionParams) q0 q1 q2 q3 qs out z0 z1 z2 z3 zs :
  Forall OptionParams_ok [q0; q1; q2; q3] → length out = length ps →
  price_group (columns (params_row <$> (ps ++ q0 :: q1 :: q2 :: q3 :: qs))) (length out)
    (columns (out ++ z0 :: z1 :: z2 :: z3 :: zs)) =
    Some (columns (out ++ (lane_greeks <$> [q0; q1; q2; q3]) ++ zs)).
Proof.
  intros Hok Hout. unfold price_group. rewrite fmap_app. cbn [fmap list_fmap].
  assert (length out = length (params_row <$> ps)) as Hlen by by rewrite length_map.
  rewrite Hlen, !lanes_at_columns. cbn [mbind option_bind]. rewrite <- Hlen, copy_lanes_columns. clear Hlen.
  match goal with |- context [fun_to_vec ?f] =>
    assert (fun_to_vec f = vmap lane_greeks [# q0; q1; q2; q3]) as Hf end.
  { apply vec_eq. intros i. rewrite lookup_fun_to_vec, vlookup_map. apply price_lane_lanes.
    - apply Forall_vlookup_1. exact Hok.
    - unfold lane_is, params_row. cbn [vmap Vector.map]. rewrite !new_lane. by inv_all_vec_fin. }
  by rewrite Hf.
Qed.

Lemma groups_loop (k s : nat) (ps qs : list OptionParams) (out zs : list (vec float 6)) :
  Forall OptionParams_ok qs → length ps = (4 * s)%nat → length qs = (4 * k)%nat →
  length zs = length qs → length out = length ps →
  for_loop (price_group (columns (params_row <$> (ps ++ qs)))) ((λ k, 4 * k)%nat <$> seq s k)
    (columns (out ++ zs)) = Some (columns (out ++ (lane_greeks <$> qs))).
Proof.
  revert s ps qs out zs. induction k as [|k IH]; intros s ps qs out zs Hok Hps Hqs Hzs Hout.
  { destruct qs, zs; done. }
  destruct qs as [|q0 [|q1 [|q2 [|q3 qs]]]]; cbn in Hqs; try lia.
  destruct zs as [|z0 [|z1 [|z2 [|z3 zs]]]]; cbn in Hzs; try lia.
  change (q0 :: q1 :: q2 :: q3 :: qs) with ([q0; q1; q2; q3] ++ qs) in Hok.
  apply Forall_app in Hok as [Hok4 Hok].
  cbn [seq for_loop]. rewrite fmap_cons. cbn [for_loop].
  replace (4 * s)%nat with (length out) by lia. rewrite price_group_step by done. cbn [mbind option_bind].
  specialize (IH (S s) (ps ++ [q0; q1; q2; q3]) qs (out ++ (lane_greeks <$> [q0; q1; q2; q3])) zs).
  rewrite <- !app_assoc in IH. apply IH; [done|rewrite ?length_app; cbn; lia..].
Qed.

Lemma div_ceil_multiple k : div_ceil (k * 4) 4 = k.
Proof. unfold div_ceil. rewrite Nat.div_mul, Nat.Div0.mod_mul by lia. cbn. lia. Qed.

Lemma div_ceil_ge n : (n ≤ div_ceil n 4 * 4)%nat.
Proof.
  unfold div_ceil. pose proof (Nat.div_mod_eq n 4). pose proof (Nat.mod_upper_bound n 4 ltac:(lia)).
  destruct (Nat.eqb_spec (n mod 4) 0); lia.
Qed.

(** The parameter arrays: the options, then copies of the last one. *)
Lemma fill_params_eq params last k :
  (length params ≤ k)%nat → params !! (length params - 1)%nat = Some last →
  fill_params params k =
    Some (columns (params_row <$> (params ++ replicate (k - length params) last))).
Proof.
  intros Hk Hlast. unfold fill_params. rewrite zeros_columns.
  pose proof (options_loop params [] (replicate k (vreplicate 6 f_zero))) as H1.
  rewrite length_replicate in H1. specialize (H1 Hk). cbn [app length Nat.add] in H1.
  rewrite (imap_ext _ pair) in H1 by done. rewrite H1. cbn [mbind option_bind].
  rewrite drop_replicate.
  pose proof (padding_loop (length params - 1) (params_row last) (params_row <$> params)
    (replicate (k - length params) (vreplicate 6 f_zero))) as H2.
  rewrite length_map, length_replicate in H2. rewrite H2 by by rewrite list_lookup_fmap, Hlast.
  by rewrite fmap_app, fmap_replicate.
Qed.

Lemma read_rows (rows : list (vec float 6)) (n : nat) :
  (n ≤ length rows)%nat →
  mapM (λ i, greeks_of <$> get_row i (columns rows)) (seq 0 n) = Some (greeks_of <$> take n rows).
Proof.
  intros Hn. apply mapM_Some, Forall2_same_length_lookup_2.
  { rewrite length_seq, length_map, length_take. lia. }
  intros i j g Hj Hg. apply lookup_seq in Hj as [-> Hi].
  apply list_lookup_fmap_Some in Hg as (r & -> & Hr). apply lookup_take_Some in Hr as [Hr _].
  by rewrite (get_row_columns _ _ r).
Qed.

(** (C16) The batch pricer never panics and gives one result per option, in
    order: each is what one lane computes for that option alone, whatever its
    neighbours and the padding are.  That function and the scalar pricer are
    the same formula; they differ only in how the normal density is rounded
    and in the exponential and logarithm they are given.  Of the vector type it
    is assumed that it acts lane by lane; of its exponential and logarithm only
    that a lane is a float. *)
Theorem batch_is_map (params : list OptionParams) :
  Forall OptionParams_ok params →
  price_batch_simd params = Some (black_scholes norm_pdf_lane <$> params) ∧
  ∀ (platform : F64Math) p, @price_scalar platform p = @black_scholes platform (@norm_pdf platform) p.
Proof.
  intros Hok. split; [|intros platform p; apply price_scalar_form].
  unfold price_batch_simd. destruct (decide _) as [Hn|Hn].
  { by destruct params. }
  set (k := div_ceil (length params) 4). pose proof (div_ceil_ge (length params)) as Hk. fold k in Hk.
  destruct (lookup_lt_is_Some_2 params (length params - 1)) as [last Hlast]; [lia|].
  rewrite (fill_params_eq params last) by done. cbn [mbind option_bind].
  set (padded := params ++ replicate (k * 4 - length params) last).
  assert (length padded = 4 * k)%nat as Hpadded by (subst padded; rewrite length_app, length_replicate; lia).
  pose proof (groups_loop k 0 [] padded [] (replicate (k * 4) (vreplicate 6 f_zero))) as Hloop.
  unfold step_by_4. rewrite div_ceil_multiple. cbn [app length] in Hloop.
  rewrite zeros_columns, Hloop; [|..]; try (rewrite ?length_replicate; lia).
  2:{ subst padded. apply Forall_app. split; [done|]. apply Forall_replicate.
      rewrite Forall_forall in Hok. apply Hok. by eapply list_elem_of_lookup_2. }
  cbn [mbind option_bind]. rewrite read_rows by (rewrite length_map; lia).
  rewrite <- fmap_take. subst padded. rewrite take_app_length, <- list_fmap_compose.
  f_equal.
Qed.
End Batch.

(** *** An instance *)

Module Lanes.
#[export] Instance wide : Wide (vec float 4) := {
  v_new a := a; v_to_array a := a; v_splat x := vreplicate 4 x;
  v_add := vzip_with fadd; v_sub := vzip_with fsub; v_mul := vzip_with fmul; v_div := vzip_with fquot;
  v_sqrt := vmap fsqrt; v_abs := vmap f_abs;
  v_exp := vmap (λ x, if is_nan x then x else if fltb x f_zero then f_half else f_one); v_ln := vmap (λ x, fsub x f_one);
  v_simd_lt := vzip_with (λ x y, if fltb x y then f_one else f_zero);
  v_blend m a b := vzip_with (λ c '(x, y), if feqb c f_one then x else y) m (vzip_with pair a b);
}.

(** A stand-in for the platform: a step and a line. *)
Definition math : F64Math :=
  {| f64_exp := λ x, if is_nan x then x else if fltb x f_zero then f_half else f_one; f64_ln := λ x, fsub x f_one |}.

#[export] Instance math_is_valid : @F64MathValid math.
Proof.
  split; cbn; intros x Hx.
  - destruct (is_nan x); [done|]. by destruct (fltb x f_zero).
  - by apply fsub_valid.
Qed.

#[export] Instance math_ok : @F64MathOk math.
Proof.
  split; cbn; [apply _|done|].
  intros x _ Hle. destruct x as [s|s| |s m e]; try done; cbn [is_nan]; destruct (fltb _ f_zero); decide_now.
Qed.

#[export] Instance laws : WideLaws (vec float 4) math.
Proof.
  split; cbn; intros; rewrite ?vlookup_zip_with, ?vlookup_map, ?vlookup_replicate; try done.
  - by inv_all_vec_fin.
  - by destruct (fltb _ _).
Qed.
End Lanes.
Import Lanes.

Lemma batch_is_map_witness :
  let p spot call := {| op_spot := dyadic spot 0; op_strike := dyadic 100 0; op_rate := dyadic 1 (-5);
    op_vol := dyadic 1 (-2); op_time_to_expiry := dyadic 1 0; op_is_call := call |} in
  let params := [p 90 true; p 95 false; p 100 true; p 105 false; p 110 true] in
  length (default [] (@price_batch_simd _ Lanes.wide params)) = 5%nat ∧
  @price_batch_simd _ Lanes.wide params =
    Some (@black_scholes Lanes.math (@norm_pdf_lane Lanes.math) <$> params).
Proof.
  intros p params. split; [vm_compute; reflexivity|].
  refine (proj1 (batch_is_map Lanes.math params _)). decide_now.
Defined.

(** ** Bounds of the Greeks *)

Section GreekBounds.
Context {M : F64Math} {MO : F64MathOk}.

(** The argument of the density's exponential is never positive. *)
Lemma pdf_argument x :
  valid x = true → x ≠ S754_nan →
  let y := (f_mhalf * x * x)%f64 in valid y = true ∧ fleb y f_zero = true.
Proof.
  intros V Hx y. split; [subst y; auto with valid_float|]. subst y.
  assert (∃ s, signed s x) as [s S] by (destruct x as [s|s| |s m e]; try done; by exists s).
  assert (valid (f_mhalf * x)%f64 = true) as V1 by auto with valid_float.
  assert (signed true f_mhalf) as S0 by done.
  destruct x as [z|z| |z m e]; try done; cbn [signed] in S; subst; [by destruct s..|].
  pose proof (fmul_signed_finite s true f_mhalf m e V eq_refl S0) as S1.
  pose proof (fmul_signed_finite s _ _ m e V V1 S1) as E. clear S1 V1.
  replace (xorb (xorb true s) s) with true in E by by destruct s.
  by destruct (f_mhalf * S754_finite s m e * S754_finite s m e)%f64 as [[]|[]| |[] p f].
Qed.

Lemma norm_pdf_fixed x : valid x = true → x ≠ S754_nan → fixed (norm_pdf x) 0 (2 ^ 39).
Proof.
  intros V S. destruct (pdf_argument x V S) as [V1 H1].
  pose proof (exp_unit _ V1 H1) as (F & VE & Hlo & Hhi). unfold norm_pdf.
  set (y := f64_exp _) in *. clearbody y.
  assert (SQRT_2PI = S754_finite false 5644425081792261 (-51)) as -> by (vm_compute; reflexivity).
  unfold fquot, fixed. destruct y as [s| | |[] m e]; try discriminate F; cbn [fval cond_Zopp] in *.
  - cbn [SFdiv]. apply (zero_in _ _ _ _ 0); decide_now.
  - apply dyle_sign in Hlo; lia.
  - apply quotient_in; [lia|decide_now|]. rewrite Hhi. decide_now.
Qed.

Lemma abs_signed x : x ≠ S754_nan → signed false (f_abs x).
Proof. by destruct x. Qed.

(** The interpolation variable of the approximation. *)
Lemma cdf_t_fixed x : valid x = true → signed false x →
  fixed (f_one / (f_one + CDF_P * x))%f64 0 (2 ^ 40).
Proof.
  intros V S. apply (in_range_scale _ 0 1 0 40); [lia|]. unfold fquot.
  assert (CDF_P = S754_finite false 8345778996187150 (-55)) as -> by (vm_compute; reflexivity).
  set (P := S754_finite false 8345778996187150 (-55)). assert (valid P = true) as VP by (vm_compute; reflexivity).
  assert (signed false (P * x)%f64) as S1 by (rewrite fmul_comm; exact (fmul_signed_finite _ _ _ _ _ VP V S)).
  assert (valid (P * x)%f64 = true) as V1 by by apply fmul_valid.
  apply reciprocal_in; [by apply fadd_valid|]. by apply one_plus_ge.
Qed.

Lemma B1_fixed : fixed B1 351163705931 351163705932.
Proof. decide_now. Qed.
Lemma B2_fixed : fixed B2 (-392046024353) (-392046024352).
Proof. decide_now. Qed.
Lemma B3_fixed : fixed B3 1958755706357 1958755706358.
Proof. decide_now. Qed.
Lemma B4_fixed : fixed B4 (-2002492124968) (-2002492124967).
Proof. decide_now. Qed.
Lemma B5_fixed : fixed B5 1462652202818 1462652202819.
Proof. decide_now. Qed.

(** Horner's scheme on the two halves of the unit interval. *)
Lemma cdf_poly_fixed t :
  fixed t 0 (2 ^ 40) → fixed (t * (B1 + t * (B2 + t * (B3 + t * (B4 + t * B5)))))%f64 0 (2 ^ 41).
Proof.
  intros Ht. generalize B1_fixed, B2_fixed, B3_fixed, B4_fixed, B5_fixed.
  generalize B1 B2 B3 B4 B5. intros c1 c2 c3 c4 c5 I1 I2 I3 I4 I5.
  assert (fixed t 0 (2 ^ 39) ∨ fixed t (2 ^ 39) (2 ^ 40)) as [Ht'|Ht'].
  { destruct Ht as (F & V & Hlo & Hhi). unfold fixed, in_range.
    destruct (decide (fval t ≤d (2 ^ 39, -40))) as [Hle|Hnle]; [by left|right].
    split; [done|]. split; [done|]. split; [|done]. destruct (fval t) as [n k].
    set (c := Z.min k (-40)). rewrite (dyle_base c) in Hnle |- * by lia. lia. }
  - clear Ht. enclose_within.
  - clear Ht. enclose_within.
Qed.

(** The normal distribution function stays in the unit interval. *)
Lemma norm_cdf_unit x : valid x = true → x ≠ S754_nan → in_range (norm_cdf x) 0 1 0.
Proof.
  intros V Hx. pose proof (abs_signed x Hx) as S. pose proof (fabs_valid x V) as VA. fold (f_abs x) in VA.
  apply (in_range_unscale _ 0 1 0 40); [lia|]. change (fixed (norm_cdf x) 0 (2 ^ 40)). unfold norm_cdf.
  assert (f_abs x ≠ S754_nan) as Hna by by destruct x.
  pose proof (norm_pdf_fixed _ VA Hna) as Hpdf. pose proof (cdf_poly_fixed _ (cdf_t_fixed _ VA S)) as Hpoly.
  cbv zeta. set (poly := (_ * (B1 + _))%f64) in *. set (pdf := norm_pdf _) in *. clearbody poly pdf.
  assert (fixed f_one (2 ^ 40) (2 ^ 40)) by decide_now. assert (fixed f_half (2 ^ 39) (2 ^ 39)) by decide_now.
  assert (fixed (if fltb x f_zero then f_mone else f_one) (- 2 ^ 40) (2 ^ 40)) as Hs
    by (destruct (fltb x f_zero); decide_now).
  set (sign := if fltb x f_zero then _ else _) in *. clearbody sign.
  enclose_within.
Qed.

Lemma norm_pdf_nonneg x : valid x = true → nonneg (norm_pdf x).
Proof.
  intros V. destruct (decide (x = S754_nan)) as [->|Hx].
  - unfold norm_pdf. change (f_mhalf * S754_nan * S754_nan)%f64 with S754_nan. by rewrite exp_nan.
  - exact (in_range_nonneg _ _ _ (norm_pdf_fixed x V Hx)).
Qed.

Lemma norm_pdf_valid x : valid x = true → valid (norm_pdf x) = true.
Proof. intros. unfold norm_pdf. auto 20 with valid_float. Qed.

Lemma norm_cdf_valid x : valid x = true → valid (norm_cdf x) = true.
Proof.
  intros V. pose proof (norm_pdf_valid (f_abs x) (fabs_valid x V)).
  assert (valid (f_abs x) = true) by by apply fabs_valid.
  unfold norm_cdf, CDF_P, B1, B2, B3, B4, B5, fquot. cbv zeta.
  assert (valid (if fltb x f_zero then f_mone else f_one) = true) by by destruct (fltb x f_zero).
  auto 40 with valid_float.
Qed.

(** [d1], which the delta is the distribution function of. *)
Definition d1_of (p : OptionParams) : float :=
  ((f64_ln (op_spot p / op_strike p) +
    (op_rate p + f_half * op_vol p * op_vol p) * op_time_to_expiry p)
   / (op_vol p * fsqrt (op_time_to_expiry p)))%f64.

Lemma d1_valid p : OptionParams_ok p → valid (d1_of p) = true.
Proof.
  unfold OptionParams_ok. rewrite !Forall_cons. intros (V1 & V2 & V3 & V4 & V5 & _).
  unfold d1_of, fquot. auto 20 with valid_float.
Qed.

Lemma norm_cdf_nan : norm_cdf S754_nan = S754_nan.
Proof.
  unfold norm_cdf. change (f_abs S754_nan) with S754_nan.
  change (f_one / (f_one + CDF_P * S754_nan))%f64 with S754_nan. cbn. by destruct (norm_pdf S754_nan).
Qed.

(** The phi trick: the delta is the distribution function of [d1], or minus that
    of [- d1]. *)
Lemma delta_eq p : OptionParams_ok p →
  g_delta (price_scalar p) =
    if op_is_call p then norm_cdf (d1_of p) else fopp (norm_cdf (fopp (d1_of p))).
Proof.
  intros Hp. pose proof (d1_valid p Hp) as V. unfold price_scalar. cbv zeta. cbn [g_delta]. fold (d1_of p).
  destruct (op_is_call p).
  - rewrite (fmul_one_l (d1_of p)) by exact V. apply fmul_one_l. by apply norm_cdf_valid.
  - rewrite (fmul_mone_l (d1_of p)) by exact V. apply fmul_mone_l. by apply norm_cdf_valid, fopp_valid.
Qed.

Lemma delta_range p : OptionParams_ok p → d1_of p ≠ S754_nan →
  if op_is_call p then in_range (g_delta (price_scalar p)) 0 1 0 else in_range (g_delta (price_scalar p)) (-1) 0 0.
Proof.
  intros Hp Hn. pose proof (d1_valid p Hp) as V. rewrite (delta_eq p Hp).
  destruct (op_is_call p); [by apply norm_cdf_unit|].
  apply (fopp_in _ 0 1), norm_cdf_unit; [by apply fopp_valid|by destruct (d1_of p)].
Qed.

Lemma delta_nan p : OptionParams_ok p → g_delta (price_scalar p) = S754_nan ↔ d1_of p = S754_nan.
Proof.
  intros Hp. split; intros Hn.
  - destruct (decide (d1_of p = S754_nan)) as [|Hne]; [done|].
    pose proof (delta_range p Hp Hne) as Hr. rewrite Hn in Hr. by destruct (op_is_call p), Hr.
  - rewrite (delta_eq p Hp), Hn. destruct (op_is_call p); cbn [fopp SFopp]; by rewrite norm_cdf_nan.
Qed.

Lemma greeks_valid p : OptionParams_ok p → Greeks_ok (price_scalar p).
Proof.
  intros Hp. pose proof (d1_valid p Hp) as V.
  unfold OptionParams_ok in Hp. rewrite !Forall_cons in Hp. destruct Hp as (V1 & V2 & V3 & V4 & V5 & _).
  assert (valid (norm_pdf (d1_of p)) = true) as VP by by apply norm_pdf_valid.
  assert (∀ b : bool, valid (if b then f_one else f_mone) = true) as Vphi by by intros [].
  unfold Greeks_ok, price_scalar. cbv zeta. fold (d1_of p). cbn [g_price g_delta g_gamma g_vega g_theta g_rho].
  set (phi := if op_is_call p then f_one else f_mone). assert (valid phi = true) by apply Vphi.
  assert (valid (norm_cdf (phi * d1_of p)%f64) = true) by (apply norm_cdf_valid; auto with valid_float).
  assert (valid (norm_cdf (phi * (d1_of p - op_vol p * fsqrt (op_time_to_expiry p)))%f64) = true)
    by (apply norm_cdf_valid; auto with valid_float).
  assert (valid (f64_exp (- op_rate p * op_time_to_expiry p)%f64) = true) by auto with valid_float.
  unfold fquot. repeat constructor; auto 20 with valid_float.
Qed.

(** (C17) Every answer of the scalar pricer on well-formed inputs is well
    formed: its six figures are binary64 numbers, the delta is a NaN exactly
    when [d1] is and otherwise lies in the closed unit interval for a call, in
    its mirror image for a put, and when the sign bits of spot, volatility and
    time are clear neither gamma nor vega is negative. *)
Theorem greeks_well_formed (p : OptionParams) :
  OptionParams_ok p →
  let g := price_scalar p in
  Greeks_ok g ∧
  (g_delta g = S754_nan ↔ d1_of p = S754_nan) ∧
  (d1_of p ≠ S754_nan → if op_is_call p then in_range (g_delta g) 0 1 0 else in_range (g_delta g) (-1) 0 0) ∧
  (Forall (signed false) [op_spot p; op_vol p; op_time_to_expiry p] → nonneg (g_gamma g) ∧ nonneg (g_vega g)).
Proof.
  intros Hp g. pose proof (d1_valid p Hp) as V.
  split; [by apply greeks_valid|]. split; [by apply delta_nan|]. split; [by apply delta_range|].
  unfold OptionParams_ok in Hp. rewrite !Forall_cons in Hp. destruct Hp as (V1 & V2 & V3 & V4 & V5 & _).
  assert (valid (fsqrt (op_time_to_expiry p)) = true) as VS by auto with valid_float.
  assert (valid (norm_pdf (d1_of p)) = true) as VP by by apply norm_pdf_valid.
  rewrite !Forall_cons. intros (S1 & S2 & S3 & _). apply fsqrt_signed in S3.
  pose proof (norm_pdf_nonneg _ V) as Hpdf.
  unfold g, price_scalar. cbv zeta. fold (d1_of p). cbn [g_gamma g_vega]. split.
  - apply SFdiv_nonneg; [done|].
    destruct (fmul_signed false false _ _ V4 VS S2 S3) as [E|E].
    { left. rewrite E. by destruct (op_spot p). }
    apply (fmul_signed false false); auto with valid_float.
  - apply fmul_nonneg; [auto with valid_float|done| |by apply signed_nonneg; right].
    apply fmul_nonneg; [done|done|by apply signed_nonneg; right|done].
Qed.
End GreekBounds.

Lemma greeks_well_formed_witness :
  let p := {| op_spot := dyadic 100 0; op_strike := dyadic 90 0; op_rate := dyadic 1 (-5);
    op_vol := dyadic 1 (-2); op_time_to_expiry := dyadic 1 0; op_is_call := false |} in
  in_range (g_delta (@price_scalar Lanes.math p)) (-1) 0 0 ∧ nonneg (g_gamma (@price_scalar Lanes.math p)).
Proof.
  intros p.
  destruct (@greeks_well_formed Lanes.math Lanes.math_ok p) as (_ & _ & H1 & H2).
  - decide_now.
  - split; [apply H1; decide_now|]. apply H2. by repeat constructor.
Defined.
