(* ===== verification/NaiveBlackScholes.v ===== *)
(** * The Python pricing benchmark ([risk/bench/naive_black_scholes.py])

    A plain Black-Scholes price with [math.erf], and the benchmark that times
    it.  [math.sqrt], [math.log] and [math.exp] raise where the C functions
    would return a NaN or an infinity; the C functions themselves are
    parameters ([CMath]). *)

From S2P Require Import Prelude PyFloat FloatBounds FloatEnclosure PyStruct PyStatistics PricingClient Pricing.

Open Scope Z_scope.

Class CMath := { c_log : float → float; c_exp : float → float; c_erf : float → float }.

(** The exponential of a finite number that is not positive does not overflow. *)
Class CMathOk `{CMath} : Prop :=
  c_exp_finite x : is_finite x = true → fleb x f_zero = true → is_finite (c_exp x) = true.

Definition is_zero (x : float) : bool := match x with S754_zero _ => true | _ => false end.

Section Naive.
Context {C : CMath}.

(** [math.sqrt], [math.log] and [math.exp] *)
Definition math_sqrt (x : float) : res float :=
  if fltb x f_zero then Raise ValueError else Ok (fsqrt x).
Definition math_log (x : float) : res float :=
  if is_nan x then Ok x else if fleb x f_zero then Raise ValueError else Ok (c_log x).
Definition math_exp (x : float) : res float :=
  match c_exp x with
  | S754_infinity s => if is_finite x then Raise OverflowError else Ok (S754_infinity s)
  | y => Ok y
  end.

Definition naive_norm_cdf (x : float) : res float :=
  r ← math_sqrt f_two;
  q ← fdiv x r;
  Ok (f_half * (f_one + c_erf q))%f64.

Definition naive_price (spot strike rate vol time_to_expiry : float) (is_call : bool) : res float :=
  let phi := if is_call then f_one else f_mone in
  sqrt_t ← math_sqrt time_to_expiry;
  let vol_sqrt_t := (vol * sqrt_t)%f64 in
  q ← fdiv spot strike;
  l ← math_log q;
  d1 ← fdiv (l + (rate + f_half * vol * vol) * time_to_expiry)%f64 vol_sqrt_t;
  let d2 := (d1 - vol_sqrt_t)%f64 in
  discount ← math_exp (- rate * time_to_expiry)%f64;
  n1 ← naive_norm_cdf (phi * d1)%f64;
  n2 ← naive_norm_cdf (phi * d2)%f64;
  Ok (phi * (spot * n1 - strike * discount * n2))%f64.

(** One row of the batch: spot, strike, rate, vol, time_to_expiry, is_call. *)
Definition BatchRow : Type := float * float * float * float * float * bool.

Definition batch_row (i : Z) : BatchRow :=
  ((dyadic 80 0 + dyadic (i mod 40) 0)%f64, dyadic 100 0, lit 3 100, lit 2 10,
   (dyadic 1 (-2) + dyadic (i mod 8) 0 * dyadic 1 (-3))%f64, (i mod 2 =? 0)).
Definition make_batch (count : Z) : list BatchRow := batch_row <$> seqZ 0 count.

(** [for spot, strike, rate, vol, t, is_call in batch: price(...)] *)
Fixpoint price_all (batch : list BatchRow) : res unit :=
  match batch with
  | [] => Ok tt
  | (spot, strike, rate, vol, t, is_call) :: batch =>
      _ ← naive_price spot strike rate vol t is_call; price_all batch
  end.

(** [min(best, elapsed)] *)
Definition py_min (x y : float) : float := if fltb y x then y else x.

(** The readings of [time.perf_counter]. *)
Context (clock : nat → float).

Fixpoint timed_repeats (repeats : nat) (now : nat) (batch : list BatchRow) (best : float) : res float :=
  match repeats with
  | O => Ok best
  | S repeats =>
      let start := clock now in
      _ ← price_all batch;
      let elapsed := fsub (clock (S now)) start in
      timed_repeats repeats (S (S now)) batch (py_min best elapsed)
  end.

(** The figures of the printed report. *)
Record BenchReport := {
  br_count : Z;
  br_repeats : nat;
  br_elapsed_ms : float;
  br_options_per_sec : float;
  br_us_per_option : float;
}.

(** [main]; the argument is the outcome of [int(sys.argv[1])], if there is one. *)
Definition naive_main (argv1 : option (res Z)) : res BenchReport :=
  count ← match argv1 with Some r => r | None => Ok 4096 end;
  let batch := make_batch count in
  _ ← price_all batch;
  _ ← price_all batch;
  _ ← price_all batch;
  best_elapsed ← timed_repeats 10 0 batch (S754_infinity false);
  n ← float_of_int count;
  options_per_sec ← fdiv n best_elapsed;
  us_per_option ← fdiv (best_elapsed * dyadic 1000000 0)%f64 n;
  Ok {| br_count := count; br_repeats := 10; br_elapsed_ms := (best_elapsed * dyadic 1000 0)%f64;
        br_options_per_sec := options_per_sec; br_us_per_option := us_per_option |}.

(** ** One formula *)

(** The price of the common formula, over the logarithm, the exponential and the
    distribution function. *)
Definition bs_price (ln exp cdf : float → float) (p : OptionParams) : float :=
  let phi := if op_is_call p then f_one else f_mone in
  let vol_sqrt_t := (op_vol p * fsqrt (op_time_to_expiry p))%f64 in
  let d1 := ((ln (op_spot p / op_strike p) +
              (op_rate p + f_half * op_vol p * op_vol p) * op_time_to_expiry p) / vol_sqrt_t)%f64 in
  let d2 := (d1 - vol_sqrt_t)%f64 in
  (phi * (op_spot p * cdf (phi * d1)
          - op_strike p * exp (- op_rate p * op_time_to_expiry p) * cdf (phi * d2)))%f64.

Definition erf_cdf (x : float) : float := (f_half * (f_one + c_erf (x / fsqrt f_two)))%f64.

Lemma fdiv_cases x y : fdiv x y = if is_zero y then Raise ZeroDivisionError else Ok (fquot x y).
Proof. by destruct y. Qed.

Lemma naive_norm_cdf_eq x : naive_norm_cdf x = Ok (erf_cdf x).
Proof. reflexivity. Qed.

Lemma math_exp_ok x y : math_exp x = Ok y → y = c_exp x.
Proof. unfold math_exp. repeat case_match; congruence. Qed.
Lemma math_exp_raise x e : math_exp x = Raise e → e = OverflowError.
Proof. unfold math_exp. repeat case_match; congruence. Qed.
Lemma math_exp_fuel x : math_exp x ≠ NoFuel.
Proof. unfold math_exp. repeat case_match; congruence. Qed.

Definition price_of (p : OptionParams) : res float :=
  naive_price (op_spot p) (op_strike p) (op_rate p) (op_vol p) (op_time_to_expiry p) (op_is_call p).

(** How [price] ends. *)
Lemma price_cases (p : OptionParams) :
  let ratio := (op_spot p / op_strike p)%f64 in
  let deviation := (op_vol p * fsqrt (op_time_to_expiry p))%f64 in
  let log := λ x, if is_nan x then x else c_log x in
  price_of p =
    (if fltb (op_time_to_expiry p) f_zero then Raise ValueError
     else if is_zero (op_strike p) then Raise ZeroDivisionError
     else if fleb ratio f_zero then Raise ValueError
     else if is_zero deviation then Raise ZeroDivisionError
     else match math_exp (- op_rate p * op_time_to_expiry p)%f64 with
          | Ok _ => Ok (bs_price log c_exp erf_cdf p)
          | _ => Raise OverflowError
          end).
Proof.
  intros ratio deviation log.
  unfold price_of, naive_price, math_sqrt. destruct (fltb (op_time_to_expiry p) f_zero); [reflexivity|].
  cbn [mbind res_bind]. rewrite fdiv_cases. destruct (is_zero (op_strike p)); [reflexivity|].
  cbn [mbind res_bind]. fold ratio. unfold math_log.
  assert (is_nan ratio = true → fleb ratio f_zero = false) as Hnan by by destruct ratio.
  assert (∀ l, l = log ratio →
    (d1 ← fdiv (l + (op_rate p + f_half * op_vol p * op_vol p) * op_time_to_expiry p)%f64 deviation;
     discount ← math_exp (- op_rate p * op_time_to_expiry p)%f64;
     n1 ← naive_norm_cdf ((if op_is_call p then f_one else f_mone) * d1)%f64;
     n2 ← naive_norm_cdf ((if op_is_call p then f_one else f_mone) * (d1 - deviation))%f64;
     Ok ((if op_is_call p then f_one else f_mone) * (op_spot p * n1 - op_strike p * discount * n2))%f64) =
    (if is_zero deviation then Raise ZeroDivisionError
     else match math_exp (- op_rate p * op_time_to_expiry p)%f64 with
          | Ok _ => Ok (bs_price log c_exp erf_cdf p)
          | _ => Raise OverflowError
          end)) as Hrest.
  { intros l ->. rewrite fdiv_cases. destruct (is_zero deviation); [reflexivity|]. cbn [mbind res_bind].
    destruct (math_exp _) as [y|e|] eqn:E; [|by apply math_exp_raise in E as ->|by apply math_exp_fuel in E].
    apply math_exp_ok in E as ->. reflexivity. }
  destruct (is_nan ratio) eqn:En; [rewrite Hnan by done|destruct (fleb ratio f_zero)];
    [|reflexivity|]; cbn [mbind res_bind]; apply Hrest; unfold log; by rewrite En.
Qed.

(** (C40) The Python benchmark and the Rust pricer compute one formula, with
    their own distribution function: Rust for every input, Python unless it
    raises, and it raises exactly a [ValueError] for a negative time or a ratio
    of spot to strike that is not positive, a [ZeroDivisionError] for a zero
    strike or a zero deviation, and an [OverflowError] for a discount factor
    beyond the floats. *)
Theorem naive_formula (p : OptionParams) :
  let ratio := (op_spot p / op_strike p)%f64 in
  let deviation := (op_vol p * fsqrt (op_time_to_expiry p))%f64 in
  let log := λ x, if is_nan x then x else c_log x in
  price_of p =
    (if fltb (op_time_to_expiry p) f_zero then Raise ValueError
     else if is_zero (op_strike p) then Raise ZeroDivisionError
     else if fleb ratio f_zero then Raise ValueError
     else if is_zero deviation then Raise ZeroDivisionError
     else match math_exp (- op_rate p * op_time_to_expiry p)%f64 with
          | Ok _ => Ok (bs_price log c_exp erf_cdf p)
          | _ => Raise OverflowError
          end) ∧
  ∀ `{F64Math}, g_price (price_scalar p) = bs_price f64_ln f64_exp norm_cdf p.
Proof. intros ratio deviation log. split; [apply price_cases|reflexivity]. Qed.

(** ** The benchmark *)

End Naive.

Section Bench.
Context {C : CMath} {CO : CMathOk}.

Definition row_params (r : BatchRow) : OptionParams :=
  let '(spot, strike, rate, vol, t, is_call) := r in
  {| op_spot := spot; op_strike := strike; op_rate := rate; op_vol := vol; op_time_to_expiry := t; op_is_call := is_call |}.

(** None of the ways in which [price] raises. *)
Definition safe_row (r : BatchRow) : bool :=
  let p := row_params r in
  let x := (- op_rate p * op_time_to_expiry p)%f64 in
  negb (fltb (op_time_to_expiry p) f_zero) && negb (is_zero (op_strike p)) &&
  negb (fleb (op_spot p / op_strike p)%f64 f_zero) &&
  negb (is_zero (op_vol p * fsqrt (op_time_to_expiry p))%f64) && is_finite x && fleb x f_zero.

Lemma safe_row_prices r : safe_row r = true → is_ok (price_of (row_params r)) = true.
Proof.
  unfold safe_row. rewrite !andb_true_iff, !negb_true_iff. intros [[[[[H1 H2] H3] H4] H5] H6].
  rewrite price_cases, H1, H2, H3, H4. unfold math_exp.
  pose proof (c_exp_finite _ H5 H6) as Hf. by destruct (c_exp _).
Qed.

(** The rows repeat after forty. *)
Lemma batch_row_mod i : batch_row i = batch_row (i mod 40).
Proof.
  unfold batch_row. rewrite Zmod_mod, (Z.mod_mod_divide i 40 8), (Z.mod_mod_divide i 40 2); [done|..].
  - by exists 20.
  - by exists 5.
Qed.

Lemma batch_rows_safe : Forall (λ i, safe_row (batch_row i) = true) (seqZ 0 40).
Proof. decide_now. Qed.

Lemma batch_row_safe i : safe_row (batch_row i) = true.
Proof.
  rewrite batch_row_mod. pose proof batch_rows_safe as Hs. rewrite Forall_forall in Hs. apply Hs, elem_of_seqZ.
  pose proof (Z.mod_pos_bound i 40 ltac:(lia)). lia.
Qed.

Lemma price_all_ok count : price_all (make_batch count) = Ok tt.
Proof.
  unfold make_batch. induction (seqZ 0 count) as [|i l IH]; [done|]. rewrite fmap_cons.
  pose proof (safe_row_prices _ (batch_row_safe i)) as Hp.
  destruct (batch_row i) as [[[[[spot strike] rate] vol] t] call] eqn:E. cbn [price_all].
  change (is_ok (naive_price spot strike rate vol t call) = true) in Hp.
  by destruct (naive_price spot strike rate vol t call).
Qed.

(** The elapsed time of a repeat. *)
Definition elapsed (clock : nat → float) (k : nat) : float := fsub (clock (2 * k + 1)%nat) (clock (2 * k)%nat).

Lemma timed_repeats_eq clock count repeats (k : nat) best :
  timed_repeats clock repeats (2 * k)%nat (make_batch count) best =
    Ok (foldl py_min best (elapsed clock <$> seq k repeats)).
Proof.
  revert k best. induction repeats as [|repeats IH]; intros k best; [done|].
  cbn [timed_repeats seq]. rewrite price_all_ok. cbn [mbind res_bind].
  replace (S (S (2 * k)))%nat with (2 * S k)%nat by lia. rewrite IH.
  assert (elapsed clock k = fsub (clock (S (2 * k))) (clock (2 * k)%nat)) as <-; [|done].
  unfold elapsed. by replace (2 * k + 1)%nat with (S (2 * k)) by lia.
Qed.

(** The benchmark prices its whole batch without an exception: one row per
    option, the same after every forty, each of them priced.  Its report has
    the shortest of the ten timings; it raises exactly when the argument does
    not parse, for a count of zero, and when the clock did not advance. *)
Theorem benchmark_runs (clock : nat → float) (count : Z) :
  small count →
  let batch := make_batch count in
  let best := foldl py_min (S754_infinity false) (elapsed clock <$> seq 0 10) in
  length batch = Z.to_nat count ∧
  (∀ k row, batch !! k = Some row → row = batch_row (Z.of_nat k mod 40) ∧ is_ok (price_of (row_params row)) = true) ∧
  naive_main clock None = naive_main clock (Some (Ok 4096)) ∧
  (∀ e, naive_main clock (Some (Raise e)) = Raise e) ∧
  (if (count =? 0) || is_zero best then naive_main clock (Some (Ok count)) = Raise ZeroDivisionError
   else ∃ n, repr n count 0 ∧ naive_main clock (Some (Ok count)) =
     Ok {| br_count := count; br_repeats := 10; br_elapsed_ms := (best * dyadic 1000 0)%f64;
           br_options_per_sec := (n / best)%f64; br_us_per_option := (best * dyadic 1000000 0 / n)%f64 |}).
Proof.
  intros Hsmall batch best. split; [unfold batch, make_batch; by rewrite length_map, length_seqZ|].
  split; [|split; [done|split; [done|]]].
  { intros k row Hrow. apply list_lookup_fmap_Some in Hrow as (i & -> & Hi).
    apply lookup_seqZ in Hi as [-> _]. rewrite Z.add_0_l. split; [apply batch_row_mod|].
    apply safe_row_prices, batch_row_safe. }
  destruct (float_of_int_repr count Hsmall) as (n & Hn & Hr).
  assert (is_zero n = (count =? 0)) as Hz.
  { destruct (Z.eqb_spec count 0) as [->|Hne].
    - vm_compute in Hn. by injection Hn as <-.
    - destruct n; try done. by apply repr_zero in Hr. }
  unfold naive_main. cbn [mbind res_bind]. rewrite !price_all_ok. cbn [mbind res_bind].
  rewrite (timed_repeats_eq clock count 10 0). cbn [mbind res_bind]. rewrite Hn. cbn [mbind res_bind].
  fold best. rewrite !fdiv_cases, Hz.
  destruct (is_zero best), (count =? 0); cbn [orb mbind res_bind]; try done. by exists n.
Qed.
End Bench.

(** *** An instance *)

Definition step_math : CMath :=
  {| c_log := λ x, fsub x f_one; c_exp := λ x, f_half; c_erf := λ x, f_half |}.

Lemma benchmark_runs_witness :
  let clock := λ k, dyadic (Z.of_nat k) (-10) in
  is_ok (@naive_main step_math clock (Some (Ok 100))) = true ∧
  @naive_main step_math clock (Some (Ok 0)) = Raise ZeroDivisionError.
Proof.
  intros clock. assert (@CMathOk step_math) as Hok by by intros x _ _.
  split; [vm_compute; reflexivity|].
  destruct (@benchmark_runs step_math Hok clock 0) as (_ & _ & _ & _ & H); [decide_now|]. exact H.
Defined.
