(* ===== verification/DeltaHedger.v ===== *)
(** * Delta hedging ([options.py], [delta_hedger.py])

    An option book priced through the pricing service on every tick, and the
    strategy that keeps a futures position against its aggregate delta. *)

From S2P Require Import Prelude Bytes PyFloat PyStruct PyStatistics Protocol Client PricingClient.
From S2P Require Import Strategy.

Open Scope Z_scope.

(** What the option book needs of a pricing client: one synchronous call. *)
Class Pricer (P : Type) := price_option : PriceRequest → M P Greeks.

#[export] Instance pricing_client : Pricer PricingClient := price.

(** ** The option book *)

Record OptionLeg := {
  strike_ticks : Z;
  time_to_expiry_years : float;
  vol : float;
  is_call : bool;
  ol_quantity : Z;
}.

Record OptionBook := { _legs : list OptionLeg; _rate : float }.

Section Options.
Context `{!Pricer P}.

Definition leg_request (spot_ticks : Z) (rate : float) (l : OptionLeg) : PriceRequest :=
  {| pr_spot_ticks := spot_ticks; pr_strike_ticks := strike_ticks l; pr_rate := rate;
     pr_vol := vol l; pr_time_to_expiry := time_to_expiry_years l; pr_is_call := is_call l |}.

(** [OptionLeg.delta] and [OptionLeg.value] *)
Definition leg_delta (spot_ticks : Z) (rate : float) (l : OptionLeg) : M P float :=
  greeks ← price_option (leg_request spot_ticks rate l); mret (g_delta greeks).
Definition leg_value (spot_ticks : Z) (rate : float) (l : OptionLeg) : M P float :=
  greeks ← price_option (leg_request spot_ticks rate l); mret (g_price greeks).

(** [sum(leg.f(...) * leg.quantity for leg in self._legs)] *)
Fixpoint sum_legs (f : OptionLeg → M P float) (legs : list OptionLeg) (acc : num) : M P num :=
  match legs with
  | [] => mret acc
  | l :: legs =>
      x ← f l;
      t ← lift_res (num_mul (NFloat x) (NInt (ol_quantity l)));
      acc ← lift_res (num_add acc t);
      sum_legs f legs acc
  end.

Definition aggregate_delta (b : OptionBook) (spot_ticks : Z) : M P num :=
  sum_legs (leg_delta spot_ticks (_rate b)) (_legs b) (NInt 0).
Definition aggregate_value (b : OptionBook) (spot_ticks : Z) : M P num :=
  sum_legs (leg_value spot_ticks (_rate b)) (_legs b) (NInt 0).
End Options.

(** [-x] *)
Definition num_opp (x : num) : num :=
  match x with NInt z => NInt (- z) | NFloat f => NFloat (fopp f) end.

(** ** The hedger *)

Record DeltaHedger (P : Type) := {
  _options_book : OptionBook;
  _pricing_client : P;
  _hedge_band : Z;
  _ids : Z;                      (* what [next(self._ids)] returns next *)
  _current_futures_position : Z;
  _my_order_ids : gset Z;
  _hedge_error_history : list Z;
  _rehedge_count : Z;
}.
Arguments Build_DeltaHedger {P}.
Arguments _options_book {P}.
Arguments _pricing_client {P}.
Arguments _hedge_band {P}.
Arguments _ids {P}.
Arguments _current_futures_position {P}.
Arguments _my_order_ids {P}.
Arguments _hedge_error_history {P}.
Arguments _rehedge_count {P}.

Section Hedger.
Context `{!Pricer P}.
Abbreviation H := (DeltaHedger P).

(** [__init__] *)
Definition new_hedger (b : OptionBook) (p : P) (band : Z) : H :=
  {| _options_book := b; _pricing_client := p; _hedge_band := band; _ids := 1;
     _current_futures_position := 0; _my_order_ids := ∅; _hedge_error_history := [];
     _rehedge_count := 0 |}.

Definition with_pricer {A} : M P A → M H A :=
  on_field _pricing_client (λ p h, Build_DeltaHedger (_options_book h) p (_hedge_band h) (_ids h)
    (_current_futures_position h) (_my_order_ids h) (_hedge_error_history h) (_rehedge_count h)).

(** [self._hedge_error_history.append(hedge_error)] *)
Definition record_error (e : Z) (h : H) : H :=
  Build_DeltaHedger (_options_book h) (_pricing_client h) (_hedge_band h) (_ids h)
    (_current_futures_position h) (_my_order_ids h) (_hedge_error_history h ++ [e])
    (_rehedge_count h).

(** [self._rehedge_count += 1; order_id = next(self._ids); ....add(order_id)] *)
Definition issue_order (h : H) : H :=
  Build_DeltaHedger (_options_book h) (_pricing_client h) (_hedge_band h) (_ids h + 1)
    (_current_futures_position h) ({[_ids h]} ∪ _my_order_ids h) (_hedge_error_history h)
    (_rehedge_count h + 1).

Definition hedger_on_price (price_ticks : Z) : M H (list StrategyAction) :=
  b ← gets _options_book;
  delta ← with_pricer (aggregate_delta b price_ticks);
  target ← lift_res (num_round (num_opp delta));
  position ← gets _current_futures_position;
  let hedge_error := position - target in
  _ ← modify (record_error hedge_error);
  band ← gets _hedge_band;
  if Z.abs hedge_error <=? band then mret [] else
  order_id ← gets _ids;
  _ ← modify issue_order;
  let side := if 0 <? hedge_error then SELL else BUY in
  mret [ActOrder {| or_order_id := order_id; or_side := side; or_order_type := MARKET;
                    or_price_ticks := 0; or_quantity := Z.abs hedge_error |}].

(** [event.quantity if event.incoming_side == Side.BUY else -event.quantity] *)
Definition signed_fill (event : FillEvent) : Z :=
  if decide (incoming_side event = BUY) then fe_quantity event else - fe_quantity event.

Definition hedger_on_fill (event : FillEvent) (h : H) : H :=
  if decide (incoming_order_id event ∈ _my_order_ids h) then
    Build_DeltaHedger (_options_book h) (_pricing_client h) (_hedge_band h) (_ids h)
      (_current_futures_position h + signed_fill event) (_my_order_ids h) (_hedge_error_history h)
      (_rehedge_count h)
  else h.

#[export] Instance hedger_strategy : Strategy H := {
  on_price := hedger_on_price;
  on_fill e := modify (hedger_on_fill e);
}.
End Hedger.

(** ** What a tick does *)

Section HedgerTheorems.
Context `{!Pricer P}.
Abbreviation H := (DeltaHedger P).
Implicit Types h : H.

(** The futures position that offsets the book at [price_ticks]: the negated
    aggregate delta rounded to whole contracts, and the pricer left behind. *)
Definition hedge_target (h : H) (price_ticks : Z) : P * res Z :=
  let '(p, d) := aggregate_delta (_options_book h) price_ticks (_pricing_client h) in
  (p, x ← d; num_round (num_opp x)).

Definition set_pricer (p : P) (h : H) : H :=
  Build_DeltaHedger (_options_book h) p (_hedge_band h) (_ids h) (_current_futures_position h)
    (_my_order_ids h) (_hedge_error_history h) (_rehedge_count h).

Lemma hedger_on_price_eq p h :
  hedger_on_price p h =
    let '(pc, r) := hedge_target h p in
    let h := set_pricer pc h in
    match r with
    | Ok target =>
        let err := _current_futures_position h - target in
        let h := record_error err h in
        if Z.abs err <=? _hedge_band h then (h, Ok []) else
        (issue_order h, Ok [ActOrder {| or_order_id := _ids h;
           or_side := if 0 <? err then SELL else BUY; or_order_type := MARKET;
           or_price_ticks := 0; or_quantity := Z.abs err |}])
    | Raise e => (h, Raise e)
    | NoFuel => (h, NoFuel)
    end.
Proof.
  unfold hedger_on_price, hedge_target, with_pricer, on_field. py_unfold.
  destruct (aggregate_delta _ _ _) as [pc [d|e|]]; [|done..].
  cbn. destruct (num_round (num_opp d)) as [t|e|]; [|done..]. cbn.
  by destruct (_ <=? _).
Qed.

(** The contracts a list of fills of one order buys (or sells). *)
Definition filled (fs : list FillEvent) : Z := sumZ (fe_quantity <$> fs).

Definition order_fills (r : OrderRequest) (fs : list FillEvent) : Prop :=
  Forall (λ f, incoming_order_id f = or_order_id r ∧ incoming_side f = or_side r) fs.

Lemma fills_position r fs h :
  or_order_id r ∈ _my_order_ids h → order_fills r fs →
  let h' := foldl (λ h f, hedger_on_fill f h) h fs in
  _current_futures_position h' =
    _current_futures_position h +
      (match or_side r with BUY => filled fs | SELL => - filled fs end) ∧
  _my_order_ids h' = _my_order_ids h.
Proof.
  intros Hid Hfs. revert h Hid. unfold filled.
  induction Hfs as [|f fs [Hi Hs] _ IH]; intros h Hid; cbn [foldl fmap list_fmap].
  { autorewrite with velo_rw. split; [destruct (or_side r); cbn; lia|done]. }
  assert (hedger_on_fill f h = Build_DeltaHedger (_options_book h) (_pricing_client h) (_hedge_band h)
    (_ids h) (_current_futures_position h + signed_fill f) (_my_order_ids h)
    (_hedge_error_history h) (_rehedge_count h)) as ->.
  { unfold hedger_on_fill. by rewrite Hi, decide_True. }
  destruct (IH (Build_DeltaHedger (_options_book h) (_pricing_client h) (_hedge_band h) (_ids h)
    (_current_futures_position h + signed_fill f) (_my_order_ids h) (_hedge_error_history h)
    (_rehedge_count h)) Hid) as [IH1 IH2].
  cbn [_current_futures_position _my_order_ids] in IH1, IH2. rewrite IH1, IH2.
  split; [|done]. rewrite sumZ_cons. unfold signed_fill. rewrite Hs.
  destruct (or_side r); [rewrite decide_True by done|rewrite decide_False by done]; lia.
Qed.

(** (C12) The rebalancing rule.  A tick whose target can be computed records the error
    (position minus target) and, when its size is within the band, orders
    nothing.  Otherwise it sends one market order under a fresh id, for the whole
    error, on the side that reduces it; and when [k] contracts of that order are
    then filled, in however many pieces, the position is off the target by
    exactly the unfilled rest: a complete fill leaves the book hedged.  A tick
    whose target cannot be computed raises and changes nothing but the pricer. *)
Theorem rebalance (p : Z) h :
  match hedge_target h p with
  | (pc, Ok target) =>
      let err := _current_futures_position h - target in
      ∃ h', _hedge_error_history h' = _hedge_error_history h ++ [err] ∧
        _current_futures_position h' = _current_futures_position h ∧
        if Z.abs err <=? _hedge_band h then
          hedger_on_price p h = (h', Ok []) ∧ _rehedge_count h' = _rehedge_count h
        else ∃ r, hedger_on_price p h = (h', Ok [ActOrder r]) ∧
          or_order_type r = MARKET ∧ or_order_id r = _ids h ∧ or_quantity r = Z.abs err ∧
          _rehedge_count h' = _rehedge_count h + 1 ∧ _ids h' = _ids h + 1 ∧
          ∀ fs, order_fills r fs →
            let h'' := foldl (λ h f, hedger_on_fill f h) h' fs in
            _current_futures_position h'' - target =
              (if 0 <? err then 1 else -1) * (or_quantity r - filled fs)
  | (pc, Raise e) => hedger_on_price p h = (set_pricer pc h, Raise e)
  | (pc, NoFuel) => True
  end.
Proof.
  pose proof (hedger_on_price_eq p h) as He.
  destruct (hedge_target h p) as [pc [target|e|]]; [|done..].
  cbn [set_pricer _current_futures_position _hedge_band] in He. cbv zeta in He |- *.
  set (err := _current_futures_position h - target) in *.
  change (_hedge_band (record_error err (set_pricer pc h))) with (_hedge_band h) in He.
  destruct (Z.abs err <=? _hedge_band h) eqn:Hb; rewrite He; eexists.
  { by split_and!; cycle 2; [reflexivity|..]. }
  split; [|split]; cycle 2; [eexists; split; [reflexivity|]|reflexivity..].
  do 5 (split; [reflexivity|]). intros fs Hfs.
  assert (_ids h ∈ _my_order_ids (issue_order (record_error err (set_pricer pc h)))) as Hid.
  { cbn. set_solver. }
  destruct (fills_position {| or_order_id := _ids h; or_side := if 0 <? err then SELL else BUY;
    or_order_type := MARKET; or_price_ticks := 0; or_quantity := Z.abs err |} fs _ Hid Hfs) as [Hp _].
  cbv zeta. rewrite Hp. cbn [or_side or_quantity].
  change (_current_futures_position (issue_order _)) with (_current_futures_position h).
  destruct (Z.ltb_spec 0 err); cbn match; lia.
Qed.

(** ** Every history of a hedger *)

Inductive hinput := HPrice (p : Z) | HFill (f : FillEvent).

Definition hedger_step (i : hinput) h : H * res (list StrategyAction) :=
  match i with
  | HPrice p => hedger_on_price p h
  | HFill f => (hedger_on_fill f h, Ok [])
  end.

(** [hedger_run h acts errs net h']: from [h] some prices and fills lead to [h'],
    while the hedger returned [acts], recorded the errors [errs] and was told of
    fills of orders it had sent by then with the signed total [net].  A tick that
    raises ends no history: the session catches nothing, but the state it leaves
    is included. *)
Inductive hedger_run h : list StrategyAction → list Z → Z → H → Prop :=
| hrun_start : hedger_run h [] [] 0 h
| hrun_price acts errs net h1 p h2 new :
    hedger_run h acts errs net h1 → hedger_on_price p h1 = (h2, Ok new) →
    hedger_run h (acts ++ new)
      (errs ++ [_current_futures_position h1 - from_res 0 (hedge_target h1 p).2]) net h2
| hrun_raise acts errs net h1 p h2 e :
    hedger_run h acts errs net h1 → hedger_on_price p h1 = (h2, Raise e) →
    hedger_run h acts errs net h2
| hrun_fill acts errs net h1 f :
    hedger_run h acts errs net h1 →
    hedger_run h acts errs
      (net + if decide (incoming_order_id f ∈ order_ids acts) then signed_fill f else 0)
      (hedger_on_fill f h1).

(** (C13) The band never changes, the ids count up from 1, the hedger's own order set is
    what it has sent, the rehedge count is the number of orders and the number of
    recorded errors beyond the band, and the position is the signed total of the
    fills of its own orders: fills of other orders never move it. *)
Theorem hedger_history (b : OptionBook) (p : P) (band : Z) acts errs net h :
  hedger_run (new_hedger b p band) acts errs net h →
  _hedge_band h = band ∧ _options_book h = b ∧
  order_ids acts = seqZ 1 (_ids h - 1) ∧ cancel_ids acts = [] ∧
  _my_order_ids h = list_to_set (order_ids acts) ∧
  _hedge_error_history h = errs ∧
  _rehedge_count h = Z.of_nat (length acts) ∧
  _rehedge_count h = Z.of_nat (length (filter (λ e, band < Z.abs e) errs)) ∧
  _current_futures_position h = net ∧ 1 ≤ _ids h.
Proof.
  induction 1 as [|acts errs net h1 p1 h2 new _ IH Hp|acts errs net h1 p1 h2 e _ IH Hp|acts errs net h1 f _ IH].
  - by split_and!.
  - destruct IH as (Hb & Ho & Hi & Hc & Hm & He & Hr & Hr2 & Hn & H1).
    rewrite hedger_on_price_eq in Hp. destruct (hedge_target h1 p1) as [pc [t|e|]]; [|done..].
    cbn in Hp. rewrite Hb in Hp.
    assert (∀ e, Z.of_nat (length (filter (λ e, band < Z.abs e) (errs ++ [e]))) =
      Z.of_nat (length (filter (λ e, band < Z.abs e) errs)) + if Z.abs e <=? band then 0 else 1) as Hf.
    { intros e. rewrite filter_app, length_app. cbn [filter list_filter].
      destruct (Z.leb_spec (Z.abs e) band), (decide (band < Z.abs e)); cbn; lia. }
    cbn [snd from_res]. destruct (Z.abs _ <=? band) eqn:Hband; injection Hp as <- <-;
      cbn; rewrite ?app_nil_r, ?Hf, ?Hband, ?He.
    { by split_and!; (done || lia). }
    unfold order_ids, cancel_ids in *. rewrite !omap_app, Hi, Hc, length_app. cbn.
    split_and!; try done; try lia.
    + replace (_ids h1 + 1 - 1) with (_ids h1 - 1 + 1) by lia. rewrite seqZ_app by lia.
      f_equal. rewrite seqZ_cons by lia. cbn. f_equal. lia.
    + rewrite Hm, list_to_set_app_L, Hi. set_solver.
  - destruct IH as (Hb & Ho & Hi & Hc & Hm & He & Hr & Hr2 & Hn & H1).
    rewrite hedger_on_price_eq in Hp. destruct (hedge_target h1 p1) as [pc [t|e'|]]; [|..|done].
    { cbn in Hp. by case_match. }
    cbn in Hp. injection Hp as <- <-. cbn. by split_and!.
  - destruct IH as (Hb & Ho & Hi & Hc & Hm & He & Hr & Hr2 & Hn & H1).
    unfold hedger_on_fill. rewrite Hm.
    destruct (decide (incoming_order_id f ∈ order_ids acts)) as [Hin|Hin].
    + rewrite decide_True by by apply elem_of_list_to_set. cbn. rewrite <- Hm.
      split_and!; try done. lia.
    + rewrite decide_False by by rewrite elem_of_list_to_set. split_and!; try done; lia.
Qed.
End HedgerTheorems.

(** A pricer with a fixed delta of 0.5, for the witness. *)
Definition half_delta : Pricer unit := λ _ s, (s, Ok
  {| g_price := f_zero; g_delta := dyadic 1 (-1); g_gamma := f_zero; g_vega := f_zero;
     g_theta := f_zero; g_rho := f_zero |}).

(** A book of 100 calls at delta 0.5: the first tick sells 50 futures, the fill
    of a part of it leaves an error within the band. *)
Lemma hedger_history_witness :
  let _ := half_delta in
  let b := {| _legs := [{| strike_ticks := 100; time_to_expiry_years := dyadic 1 (-2);
                           vol := dyadic 1 (-2); is_call := true; ol_quantity := 100 |}];
              _rate := f_zero |} in
  let order := ActOrder {| or_order_id := 1; or_side := SELL; or_order_type := MARKET;
                           or_price_ticks := 0; or_quantity := 50 |} in
  ∃ h, hedger_run (new_hedger b tt 5) [order] [50; 4] (-46) h ∧
    _current_futures_position h = -46 ∧ _rehedge_count h = 1 ∧ _hedge_error_history h = [50; 4].
Proof.
  intros ? b order.
  set (h0 := new_hedger b tt 5). set (h1 := (hedger_on_price 100 h0).1).
  set (f := {| resting_order_id := 7; incoming_order_id := 1; resting_side := BUY;
               fe_price_ticks := 99; fe_quantity := 46; fe_timestamp := 3 |}).
  set (h2 := hedger_on_fill f h1). set (h3 := (hedger_on_price 101 h2).1).
  assert (hedger_run h0 [order] [50; 4] (-46) h3) as Hrun.
  { assert (_current_futures_position h0 - from_res 0 (hedge_target h0 100).2 = 50) as E1
      by (vm_compute; reflexivity).
    assert (_current_futures_position h2 - from_res 0 (hedge_target h2 101).2 = 4) as E2
      by (vm_compute; reflexivity).
    assert (hedger_on_price 100 h0 = (h1, Ok [order])) as P1 by (vm_compute; reflexivity).
    assert (hedger_on_price 101 h2 = (h3, Ok [])) as P2 by (vm_compute; reflexivity).
    pose proof (hrun_price h0 [] [] 0 h0 100 h1 [order] (hrun_start h0) P1) as R1.
    rewrite E1 in R1. pose proof (hrun_fill h0 [order] [50] 0 h1 f R1) as R2.
    pose proof (hrun_price h0 [order] [50] (-46) h2 101 h3 [] R2 P2) as R3.
    rewrite E2 in R3. exact R3. }
  exists h3. split; [exact Hrun|].
  destruct (hedger_history b tt 5 _ _ _ _ Hrun) as (_ & _ & _ & _ & _ & He & Hr & _ & Hn & _).
  split_and!; [exact Hn|exact Hr|exact He].
Defined.
