(* ===== verification/TradeLog.v ===== *)
(** * The trade log ([strategy/orderbook_client/trade_log.py])

    An append-only list of rows; a row is a dict with string keys.  The k-th
    row is stamped with the k-th reading of the clock.  [to_csv] is modelled up
    to the table of cells handed to the [csv] module. *)

From stdpp Require Import strings sorting.
From S2P Require Import Prelude Bytes PyFloat PyStruct Protocol.

Open Scope Z_scope.

(** The values rows hold. *)
Inductive pyval := VInt (z : Z) | VFloat (f : float) | VStr (s : string).

#[export] Instance pyval_eq_dec : EqDecision pyval.
Proof. solve_decision. Defined.

Abbreviation row := (gmap string pyval).

#[export] Instance VStr_inj : Inj (=) (=) VStr.
Proof. by intros ?? [= ->]. Qed.

Definition row_of (l : list (string * pyval)) : row := list_to_map l.

Record TradeLog := {
  _rows : list row;
  tl_time : nat → float;   (* the successive results of [time.time()] *)
}.

Definition new_log (time : nat → float) : TradeLog := {| _rows := []; tl_time := time |}.

(** [self._rows.append({..., "ts": time.time()})] *)
Definition append_row (fields : list (string * pyval)) (l : TradeLog) : TradeLog :=
  {| _rows := _rows l ++ [<["ts"%string := VFloat (tl_time l (length (_rows l)))]> (row_of fields)];
     tl_time := tl_time l |}.

Definition order_sent (order_id : Z) (side : Z) (price_ticks qty : Z) : TradeLog → TradeLog :=
  append_row [("event", VStr "order_sent"); ("order_id", VInt order_id); ("side", VInt side);
              ("price_ticks", VInt price_ticks); ("qty", VInt qty)]%string.

Definition cancel_sent (order_id : Z) : TradeLog → TradeLog :=
  append_row [("event", VStr "cancel_sent"); ("order_id", VInt order_id)]%string.

Definition log_ack (order_id status : Z) : TradeLog → TradeLog :=
  append_row [("event", VStr "ack"); ("order_id", VInt order_id); ("status", VInt status)]%string.

Definition log_fill (resting_id incoming_id incoming_side price_ticks qty : Z) :
    TradeLog → TradeLog :=
  append_row [("event", VStr "fill"); ("resting_id", VInt resting_id);
              ("incoming_id", VInt incoming_id); ("incoming_side", VInt incoming_side);
              ("price_ticks", VInt price_ticks); ("qty", VInt qty)]%string.

Definition rows (l : TradeLog) : list row := _rows l.

(** ** CSV *)

(** [sorted({key for row in self._rows for key in row})] *)
Definition fieldnames (rs : list row) : list string :=
  merge_sort String.le (elements (⋃ ((λ r : row, dom r) <$> rs) : gset string)).

(** [DictWriter] with its default [restval]: absent keys become empty cells. *)
Definition csv_row (names : list string) (r : row) : list pyval :=
  (λ k, default (VStr "") (r !! k)) <$> names.

Definition csv_header (names : list string) : list pyval := VStr <$> names.

Definition to_csv (l : TradeLog) : list (list pyval) :=
  let names := fieldnames (_rows l) in
  csv_header names :: (csv_row names <$> _rows l).

(** Reading a table back: cell [i] of a row belongs to name [i] of the header,
    and an empty cell is an absent key. *)
Definition csv_read_row (names : list string) (cells : list pyval) : row :=
  list_to_map (filter (λ kv, kv.2 ≠ VStr "") (zip names cells)).

(** The rows the log writes never hold an empty string. *)
Definition row_ok (r : row) : Prop := map_Forall (λ _ v, v ≠ VStr "") r.
Definition log_ok (l : TradeLog) : Prop := Forall row_ok (_rows l).

#[export] Instance log_ok_dec l : Decision (log_ok l).
Proof. unfold log_ok, row_ok. apply _. Defined.

Lemma append_row_ok fields l :
  Forall (λ kv, kv.2 ≠ VStr "") fields → log_ok l → log_ok (append_row fields l).
Proof.
  intros Hf Hl. apply Forall_app_2; [done|]. apply Forall_singleton.
  apply map_Forall_insert_2; [done|]. intros k v Hk%elem_of_list_to_map_2.
  rewrite Forall_forall in Hf. by apply (Hf (k, v)).
Qed.

Lemma fieldnames_spec rs :
  StronglySorted String.le (fieldnames rs) ∧ NoDup (fieldnames rs) ∧
  ∀ k, k ∈ fieldnames rs ↔ ∃ r, r ∈ rs ∧ is_Some (r !! k).
Proof.
  unfold fieldnames. split_and!.
  - apply (StronglySorted_merge_sort _).
  - rewrite merge_sort_Permutation. apply NoDup_elements.
  - intros k. rewrite merge_sort_Permutation, elem_of_elements, elem_of_union_list.
    setoid_rewrite list_elem_of_fmap. split.
    + intros (? & (r & -> & Hr) & Hk). exists r. by apply elem_of_dom in Hk.
    + intros (r & Hr & Hk). exists (dom r). apply elem_of_dom in Hk. eauto.
Qed.

Lemma csv_row_roundtrip names (r : row) :
  NoDup names → row_ok r → (∀ k, is_Some (r !! k) → k ∈ names) →
  csv_read_row names (csv_row names r) = r.
Proof.
  intros Hnd Hok Hdom. apply map_eq. intros k. unfold csv_read_row, csv_row.
  set (g k := default (VStr "") (r !! k)).
  assert (zip names (g <$> names) = (λ k, (k, g k)) <$> names) as ->.
  { clear. induction names as [|n ns IH]; cbn; [done|]. by rewrite IH. }
  assert (NoDup (filter (λ kv, kv.2 ≠ VStr "") ((λ k, (k, g k)) <$> names)).*1) as Hnd'.
  { clear Hdom. induction Hnd as [|n ns Hn _ IH]; cbn; [constructor|].
    destruct (decide _); cbn; [|done]. constructor; [|done].
    rewrite list_elem_of_fmap. intros ([n' v] & -> & Hin).
    apply list_elem_of_filter in Hin as [_ Hin]. apply list_elem_of_fmap in Hin as (? & [= -> _] & ?).
    by cbn in *. }
  destruct (r !! k) as [v|] eqn:Hk.
  - apply elem_of_list_to_map_1; [done|]. apply list_elem_of_filter. cbn.
    split; [by apply (Hok k)|]. apply list_elem_of_fmap. exists k.
    unfold g. rewrite Hk. split; [done|]. apply Hdom. by rewrite Hk.
  - apply not_elem_of_list_to_map_1. rewrite list_elem_of_fmap.
    intros ([n v] & -> & Hin). apply list_elem_of_filter in Hin as [Hv Hin].
    apply list_elem_of_fmap in Hin as (? & [= -> ->] & _). cbn in *. unfold g in Hv.
    by rewrite Hk in Hv.
Qed.

(** (C36) The table [to_csv] writes has one header, whose names are the keys of the
    rows, sorted, each once, and it keeps every row: reading the table back
    gives exactly the rows of the log, in order. *)
Theorem to_csv_roundtrip (l : TradeLog) :
  log_ok l →
  ∃ names cells, to_csv l = csv_header names :: cells ∧
    StronglySorted String.le names ∧ NoDup names ∧
    (∀ k, k ∈ names ↔ ∃ r, r ∈ rows l ∧ is_Some (r !! k)) ∧
    csv_read_row names <$> cells = rows l.
Proof.
  intros Hok. destruct (fieldnames_spec (_rows l)) as (Hs & Hnd & Hk).
  exists (fieldnames (_rows l)), (csv_row (fieldnames (_rows l)) <$> _rows l).
  split_and!; try done. rewrite <- list_fmap_compose.
  transitivity (id <$> _rows l); [|apply list_fmap_id]. apply list_fmap_ext.
  intros i r Hi. unfold compose. cbn. apply list_elem_of_lookup_2 in Hi.
  unfold log_ok in Hok. rewrite Forall_forall in Hok.
  apply csv_row_roundtrip; [done|by apply Hok|]. intros k Hr. apply Hk. eauto.
Qed.

Lemma to_csv_roundtrip_witness :
  let l := log_ack 1 0 (order_sent 1 0 10000 10 (new_log (λ _, f_zero))) in
  log_ok l ∧ ∃ names cells, to_csv l = csv_header names :: cells ∧
    names = ["event"; "order_id"; "price_ticks"; "qty"; "side"; "status"; "ts"]%string ∧
    csv_read_row names <$> cells = rows l.
Proof.
  intros l. assert (log_ok l) as Hok by decide_now. split; [exact Hok|].
  destruct (to_csv_roundtrip l Hok) as (names & cells & He & _ & _ & _ & Hr).
  exists names, cells. split; [exact He|]. split; [|exact Hr].
  assert (csv_header names = csv_header (fieldnames (rows l))) as Hn%(inj (fmap VStr)).
  { apply (f_equal head), (inj Some) in He. symmetry. exact He. }
  rewrite Hn.
  vm_compute. reflexivity.
Defined.
