(* ===== verification/SessionRunner.v ===== *)
(** * The strategy loop ([strategy/orderbook_client/session_runner.py])

    [run_strategy_loop] connects a feed, a strategy, a client and a trade log.
    The code is written against the methods these objects share, so the model
    is written against the classes [Feed], [Strategy] and [BookClient].  What
    the runner relies on is stated by [BookClientSpec], [StrategyTotal],
    [FeedTotal] and [FiniteFeed], which the TCP client, the strategies and the
    feeds implement. *)

From S2P Require Import Prelude Bytes PyFloat PyStruct Protocol Client Strategy TradeLog.

Open Scope Z_scope.

(** ** The interfaces *)

Class Feed (F : Type) := next_price : M F Z.

Class BookClient (C : Type) := {
  bc_submit_limit : Z → Side → Z → Z → M C unit;   (* order_id side price_ticks qty *)
  bc_submit_market : Z → Side → Z → M C unit;      (* order_id side qty *)
  bc_cancel : Z → M C unit;
  bc_poll_events : option float → M C (list Event);
  bc_close : C → C;
}.

#[export] Instance orderbook_client : BookClient Client := {
  bc_submit_limit := submit_limit;
  bc_submit_market := submit_market;
  bc_cancel := cancel;
  bc_poll_events := poll_events;
  bc_close := client_close;
}.

(** ** The loop *)

Record Session (F S C : Type) := {
  ss_feed : F;
  ss_strategy : S;
  ss_client : C;
  ss_log : TradeLog;
}.
Arguments ss_feed {F S C}.
Arguments ss_strategy {F S C}.
Arguments ss_client {F S C}.
Arguments ss_log {F S C}.

Section Runner.
Context {F S C : Type} `{!Feed F, !Strategy S, !BookClient C}.
Abbreviation SS := (Session F S C).

Definition with_feed {A} : M F A → M SS A :=
  on_field ss_feed (λ f s, {| ss_feed := f; ss_strategy := ss_strategy s;
                              ss_client := ss_client s; ss_log := ss_log s |}).
Definition with_strategy {A} : M S A → M SS A :=
  on_field ss_strategy (λ x s, {| ss_feed := ss_feed s; ss_strategy := x;
                                  ss_client := ss_client s; ss_log := ss_log s |}).
Definition with_client {A} : M C A → M SS A :=
  on_field ss_client (λ c s, {| ss_feed := ss_feed s; ss_strategy := ss_strategy s;
                                ss_client := c; ss_log := ss_log s |}).
Definition with_log (f : TradeLog → TradeLog) : M SS unit :=
  modify (λ s, {| ss_feed := ss_feed s; ss_strategy := ss_strategy s;
                  ss_client := ss_client s; ss_log := f (ss_log s) |}).

(** One iteration of [drain]. *)
Definition drain_event (event : Event) : M SS unit :=
  match event with
  | EvAck a => with_log (log_ack (ack_client_order_id a) (ack_status a))
  | EvFill f =>
      _ ← with_log (log_fill (resting_order_id f) (incoming_order_id f)
                      (Side_value (incoming_side f)) (fe_price_ticks f) (fe_quantity f));
      with_strategy (on_fill f)
  end.

Definition drain (events : list Event) : M SS unit := for_each events drain_event.

(** The body of the loop over the strategy's actions. *)
Definition send_action (action : StrategyAction) : M SS unit :=
  match action with
  | ActOrder r =>
      _ ← with_client
        (if decide (or_order_type r = MARKET)
         then bc_submit_market (or_order_id r) (or_side r) (or_quantity r)
         else bc_submit_limit (or_order_id r) (or_side r) (or_price_ticks r) (or_quantity r));
      with_log (order_sent (or_order_id r) (Side_value (or_side r)) (or_price_ticks r)
                  (or_quantity r))
  | ActCancel c =>
      _ ← with_client (bc_cancel (cr_order_id c));
      with_log (cancel_sent (cr_order_id c))
  end.

(** One pass of the [while] loop after the price has been read. *)
Definition process_tick (timeout : float) (price : Z) : M SS unit :=
  actions ← with_strategy (on_price price);
  _ ← for_each actions send_action;
  events ← with_client (bc_poll_events (Some timeout));
  drain events.

Definition ticks_left (max_ticks : option Z) (ticks_done : Z) : bool :=
  match max_ticks with None => true | Some m => ticks_done <? m end.

Fixpoint tick_loop (fuel : nat) (max_ticks : option Z) (timeout : float) (ticks_done : Z) :
    M SS Z := λ s,
  if ticks_left max_ticks ticks_done then
    match fuel with
    | O => (s, NoFuel)
    | Datatypes.S fuel =>
        match with_feed next_price s with
        | (s, Raise StopIteration) => (s, Ok ticks_done)
        | (s, Raise e) => (s, Raise e)
        | (s, NoFuel) => (s, NoFuel)
        | (s, Ok price) =>
            let ticks_done := ticks_done + 1 in
            (_ ← process_tick timeout price; tick_loop fuel max_ticks timeout ticks_done) s
        end
    end
  else (s, Ok ticks_done).

Fixpoint final_drain (fuel : nat) (timeout : float) : M SS unit :=
  match fuel with
  | O => λ s, (s, NoFuel)
  | Datatypes.S fuel =>
      events ← with_client (bc_poll_events (Some timeout));
      match events with
      | [] => mret tt
      | _ => _ ← drain events; final_drain fuel timeout
      end
  end.

Definition close_client (s : SS) : SS :=
  {| ss_feed := ss_feed s; ss_strategy := ss_strategy s;
     ss_client := bc_close (ss_client s); ss_log := ss_log s |}.

Definition run_strategy_loop (fuel : nat) (max_ticks : option Z)
    (tick_poll_timeout final_drain_timeout : float) : M SS Z :=
  try_finally
    (ticks_done ← tick_loop fuel max_ticks tick_poll_timeout 0;
     _ ← final_drain fuel final_drain_timeout;
     mret ticks_done)
    close_client.
End Runner.

(** ** What the runner relies on *)

(** The bytes of an action on the wire; a market order carries price 0. *)
Definition action_bytes (a : StrategyAction) : res bytes :=
  match a with
  | ActOrder r => encode_new_order
      {| com_client_order_id := or_order_id r; com_side := or_side r;
         com_order_type := or_order_type r;
         com_price_ticks := if decide (or_order_type r = MARKET) then 0 else or_price_ticks r;
         com_quantity := or_quantity r |}
  | ActCancel c => encode_cancel {| cm_client_order_id := cr_order_id c |}
  end.

(** The client call an action is turned into. *)
Definition submit_action `{!BookClient C} (a : StrategyAction) : M C unit :=
  match a with
  | ActOrder r =>
      if decide (or_order_type r = MARKET)
      then bc_submit_market (or_order_id r) (or_side r) (or_quantity r)
      else bc_submit_limit (or_order_id r) (or_side r) (or_price_ticks r) (or_quantity r)
  | ActCancel c => bc_cancel (cr_order_id c)
  end.

(** A client, as the runner sees it: the bytes it has sent, the events it will
    return, and whether it is closed. *)
Class BookClientSpec (C : Type) `{!BookClient C} := {
  bc_sent : C → bytes;
  bc_pending : C → list Event;
  bc_closed : C → bool;
  bc_live : C → Prop;   (* open, and no send will fail *)
  (** A submission sends the encoding of the action or raises; on a live
      connection it raises only what the encoder raises.  It may make new events
      arrive. *)
  bc_submit_spec a c : ∃ c' r arrived, submit_action a c = (c', r) ∧
    bc_pending c' = bc_pending c ++ arrived ∧ bc_closed c' = bc_closed c ∧
    (bc_live c → bc_live c') ∧
    match r with
    | Ok _ => ∃ bs, action_bytes a = Ok bs ∧ bc_sent c' = bc_sent c ++ bs
    | Raise e => bc_sent c' = bc_sent c ∧ (bc_live c → action_bytes a = Raise e)
    | NoFuel => False
    end;
  (** A poll takes a prefix of the pending events. *)
  bc_poll_spec t c : ∃ c' evs, bc_poll_events t c = (c', Ok evs) ∧
    evs ++ bc_pending c' = bc_pending c ∧ bc_sent c' = bc_sent c ∧ bc_closed c' = bc_closed c ∧
    (bc_live c → bc_live c');
  bc_close_spec c : bc_closed (bc_close c) = true ∧ bc_sent (bc_close c) = bc_sent c ∧
    bc_pending (bc_close c) = bc_pending c;
}.

(** The TCP client is one. *)
Lemma client_send_spec (r : res bytes) c :
  ∃ c' x, (buf ← lift_res r; _send buf) c = (c', x) ∧
    pending c' = pending c ∧ sk_closed (cl_sock c') = sk_closed (cl_sock c) ∧
    (sk_live (cl_sock c) → sk_live (cl_sock c')) ∧
    match x with
    | Ok _ => ∃ bs, r = Ok bs ∧ sk_sent (cl_sock c') = sk_sent (cl_sock c) ++ bs
    | Raise e => sk_sent (cl_sock c') = sk_sent (cl_sock c) ∧
        (sk_live (cl_sock c) → r = Raise e)
    | NoFuel => r = NoFuel
    end.
Proof.
  py_unfold. destruct r as [bs|e|]; [|by exists c, (Raise e)|by exists c, NoFuel].
  unfold _send, cl_on_sock, on_field, sendall, sk_live. destruct (sk_closed (cl_sock c)) eqn:Hc;
    [|destruct (default _ _) eqn:Hd];
    eexists _, _; (split; [reflexivity|]); cbn; rewrite ?Hc; split_and!; try done;
    try (by intros [??]); try (intros [_ Hf]; by rewrite Hf in * ).
  by exists bs.
Qed.

Lemma action_bytes_fuel a : action_bytes a ≠ NoFuel.
Proof.
  destruct a as [r|c]; cbn [action_bytes].
  - unfold encode_new_order. change (struct_pack _NEW_ORDER_FMT) with (pack_fields [fQ; fB; fB; fq; fI]).
    cbn. unfold pack_int. repeat (py_unfold; case_match; try done).
  - rewrite encode_cancel_eq. by case_decide.
Qed.

#[export, refine] Instance orderbook_client_spec : BookClientSpec Client := {
  bc_sent c := sk_sent (cl_sock c);
  bc_pending := pending;
  bc_closed c := sk_closed (cl_sock c);
  bc_live c := sk_live (cl_sock c);
}.
Proof.
  - intros a c. pose proof (action_bytes_fuel a) as Hf.
    destruct (client_send_spec (action_bytes a) c) as (c' & x & H & Hp & Hc & Hlv & Hx).
    exists c', x, []. rewrite app_nil_r. split_and!; [|done..|by destruct x].
    rewrite <- H. destruct a as [r|]; [|done]. cbn [submit_action action_bytes].
    destruct r as [id side [|] p q]; done.
  - intros t c. destruct (poll_events_spec t c) as (c' & evs & ? & ? & ? & Hk & ?).
    exists c', evs. rewrite Hk. by split_and!.
  - done.
Defined.

(** No iteration bound of the model is hidden in a strategy or a feed. *)
Class StrategyTotal (S : Type) `{!Strategy S} : Prop := {
  on_price_total p (s : S) : (on_price p s).2 ≠ NoFuel;
  on_fill_total e (s : S) : (on_fill e s).2 ≠ NoFuel;
}.

Class FeedTotal (F : Type) `{!Feed F} : Prop :=
  next_price_total (f : F) : (next_price f).2 ≠ NoFuel.

(** A feed that ends: every price it gives brings it closer. *)
Class FiniteFeed (F : Type) `{!Feed F} := {
  feed_left : F → nat;
  feed_left_spec f f' p : next_price f = (f', Ok p) → (feed_left f' < feed_left f)%nat;
}.

#[export] Instance quoter_total : StrategyTotal FixedOffsetQuoter.
Proof. split; intros; cbn; [|done]. by destruct (quoter_on_price p s). Qed.

(** ** The history of a session *)

(** What the log records: actions sent and events received. *)
Inductive item := ItAction (a : StrategyAction) | ItEvent (e : Event).

Definition log_item (i : item) : TradeLog → TradeLog :=
  match i with
  | ItAction (ActOrder r) =>
      order_sent (or_order_id r) (Side_value (or_side r)) (or_price_ticks r) (or_quantity r)
  | ItAction (ActCancel c) => cancel_sent (cr_order_id c)
  | ItEvent (EvAck a) => log_ack (ack_client_order_id a) (ack_status a)
  | ItEvent (EvFill f) =>
      log_fill (resting_order_id f) (incoming_order_id f) (Side_value (incoming_side f))
        (fe_price_ticks f) (fe_quantity f)
  end.

Definition log_history (h : list item) (l : TradeLog) : TradeLog :=
  fold_left (λ l i, log_item i l) h l.

Definition h_actions (h : list item) : list StrategyAction :=
  omap (λ i, match i with ItAction a => Some a | ItEvent _ => None end) h.
Definition h_events (h : list item) : list Event :=
  omap (λ i, match i with ItEvent e => Some e | ItAction _ => None end) h.

(** One tick: its price, the actions the strategy answered with, and the events
    polled afterwards. *)
Record round := { rd_price : Z; rd_actions : list StrategyAction; rd_polled : list Event }.

Definition round_items (r : round) : list item :=
  (ItAction <$> rd_actions r) ++ (ItEvent <$> rd_polled r).

Definition fills_of (evs : list Event) : list FillEvent :=
  omap (λ e, match e with EvFill f => Some f | EvAck _ => None end) evs.

Lemma log_history_app h1 h2 l : log_history (h1 ++ h2) l = log_history h2 (log_history h1 l).
Proof. apply fold_left_app. Qed.
Lemma h_actions_app h1 h2 : h_actions (h1 ++ h2) = h_actions h1 ++ h_actions h2.
Proof. apply omap_app. Qed.
Lemma h_events_app h1 h2 : h_events (h1 ++ h2) = h_events h1 ++ h_events h2.
Proof. apply omap_app. Qed.
Lemma h_actions_ItAction acts : h_actions (ItAction <$> acts) = acts.
Proof. induction acts; cbn; [done|]. f_equal. done. Qed.
Lemma h_actions_ItEvent evs : h_actions (ItEvent <$> evs) = [].
Proof. by induction evs. Qed.
Lemma h_events_ItEvent evs : h_events (ItEvent <$> evs) = evs.
Proof. induction evs; cbn; [done|]. f_equal. done. Qed.
Lemma h_events_ItAction acts : h_events (ItAction <$> acts) = [].
Proof. by induction acts. Qed.
Create Rewrite HintDb history.
#[export] Hint Rewrite log_history_app h_actions_app h_events_app h_actions_ItAction
  h_actions_ItEvent h_events_ItEvent h_events_ItAction : history.

Lemma for_each_app {S A} (l1 l2 : list A) (f : A → M S unit) s s1 :
  for_each l1 f s = (s1, Ok tt) → for_each (l1 ++ l2) f s = for_each l2 f s1.
Proof.
  revert s. induction l1 as [|a l1 IH]; intros s; cbn [for_each app]; py_unfold.
  - by intros [= ->].
  - destruct (f a s) as [s' [[]|e|]]; [apply IH|done..].
Qed.

Section History.
Context {F S C : Type} `{!Feed F, !Strategy S, !BookClient C, !BookClientSpec C}.
Abbreviation SS := (Session F S C).
Implicit Types s : SS.

(** [effect h lost s s']: between [s] and [s'] the runner logged exactly the
    items of [h], sent exactly the encodings of its actions, in order, and took
    exactly its events, in order, from those pending, then the events [lost]
    without logging them. *)
Record effect (h : list item) (lost : list Event) s s' : Prop := {
  ef_log : ss_log s' = log_history h (ss_log s);
  ef_sent : ∃ bss, res_map action_bytes (h_actions h) = Ok bss ∧
    bc_sent (ss_client s') = bc_sent (ss_client s) ++ concat bss;
  ef_events : ∃ arrived,
    h_events h ++ lost ++ bc_pending (ss_client s') = bc_pending (ss_client s) ++ arrived;
  ef_closed : bc_closed (ss_client s') = bc_closed (ss_client s);
}.

Lemma effect_refl s : effect [] [] s s.
Proof.
  split; [done| | |done].
  - exists []. cbn. by rewrite app_nil_r.
  - exists []. cbn. by rewrite app_nil_r.
Qed.

Lemma effect_trans h1 h2 lost s1 s2 s3 :
  effect h1 [] s1 s2 → effect h2 lost s2 s3 → effect (h1 ++ h2) lost s1 s3.
Proof.
  intros [Hl1 (b1 & Hb1 & Hs1) (a1 & Ha1) Hc1] [Hl2 (b2 & Hb2 & Hs2) (a2 & Ha2) Hc2].
  split.
  - by rewrite log_history_app, Hl2, Hl1.
  - exists (b1 ++ b2). rewrite h_actions_app, res_map_app, Hb1, Hb2, concat_app, app_assoc, <- Hs1.
    done.
  - exists (a1 ++ a2). cbn in Ha1. rewrite h_events_app, <- app_assoc, Ha2, app_assoc, Ha1.
    by rewrite app_assoc.
  - congruence.
Qed.

(** Steps that touch only the feed or the strategy. *)
Lemma effect_same h lost s0 s s' :
  effect h lost s0 s → ss_log s' = ss_log s → ss_client s' = ss_client s → effect h lost s0 s'.
Proof. intros [????] Hl Hc. split; by rewrite ?Hl, ?Hc. Qed.

(** Draining. *)
Lemma drain_spec evs s : ∃ done rest s' r,
  drain evs s = (s', r) ∧ evs = done ++ rest ∧
  ss_log s' = log_history (ItEvent <$> done) (ss_log s) ∧
  ss_client s' = ss_client s ∧ ss_feed s' = ss_feed s ∧
  for_each (fills_of done) on_fill (ss_strategy s) = (ss_strategy s', r) ∧
  (is_ok r = true → rest = []).
Proof.
  revert s. induction evs as [|e evs IH]; intros s.
  { exists [], [], s, (Ok tt). by destruct s. }
  unfold drain in *. cbn [for_each]. destruct e as [a|f].
  - destruct (IH ({| ss_feed := ss_feed s; ss_strategy := ss_strategy s; ss_client := ss_client s;
      ss_log := log_item (ItEvent (EvAck a)) (ss_log s) |})) as (d & rest & s' & r & Hd & -> & H).
    exists (EvAck a :: d), rest, s', r. py_unfold. by cbn in *; rewrite Hd.
  - set (s1 := {| ss_feed := ss_feed s; ss_strategy := ss_strategy s; ss_client := ss_client s;
      ss_log := log_item (ItEvent (EvFill f)) (ss_log s) |}).
    assert (drain_event (EvFill f) s = with_strategy (on_fill f) s1) as Hdr by done.
    py_unfold. rewrite Hdr. unfold with_strategy, on_field.
    destruct (on_fill f (ss_strategy s1)) as [x r] eqn:Hx.
    set (s2 := {| ss_feed := _; ss_strategy := x; ss_client := _; ss_log := _ |}).
    destruct r as [[]|e|].
    + destruct (IH s2) as (d & rest & s' & r & Hd & -> & Hl & Hc & Hf & Hs & Hr).
      exists (EvFill f :: d), rest, s', r. rewrite Hd. cbn. py_unfold. subst s1; cbn in *.
      rewrite Hx. by split_and!.
    + exists [EvFill f], evs, s2, (Raise e). cbn. py_unfold. subst s1; cbn in *. by rewrite Hx.
    + exists [EvFill f], evs, s2, NoFuel. cbn. py_unfold. subst s1; cbn in *. by rewrite Hx.
Qed.

(** Sending one action. *)
Lemma send_action_spec a s : ∃ s' r,
  send_action a s = (s', r) ∧ ss_strategy s' = ss_strategy s ∧ ss_feed s' = ss_feed s ∧
  r ≠ NoFuel ∧
  effect (if is_ok r then [ItAction a] else []) [] s s' ∧
  (bc_live (ss_client s) → bc_live (ss_client s') ∧
     ∀ e, r = Raise e → action_bytes a = Raise e).
Proof.
  destruct (bc_submit_spec a (ss_client s)) as (c' & r & arr & Hs & Hp & Hc & Hlv & Hr).
  assert (send_action a s = (_ ← with_client (submit_action a); with_log (log_item (ItAction a))) s)
    as -> by by destruct a.
  py_unfold. unfold with_client, on_field. rewrite Hs.
  destruct r as [[]|e|]; [| |done]; eexists _, _; (split; [reflexivity|]); cbn; split_and!; try done.
  - destruct Hr as (bs & Hb & Hsent). split; cbn; [done| | |done].
    + exists [bs]. py_unfold. rewrite Hb, Hsent. cbn. by rewrite app_nil_r.
    + by exists arr.
  - intros Hl. split; [by apply Hlv|done].
  - destruct Hr as [Hsent _]. split; cbn; [done| | |done].
    + exists []. rewrite Hsent. cbn. by rewrite app_nil_r.
    + by exists arr.
  - intros Hl. split; [by apply Hlv|]. intros e' [= <-]. by apply Hr.
Qed.

Lemma send_actions_spec acts s : ∃ s' r sent rest,
  for_each acts send_action s = (s', r) ∧ acts = sent ++ rest ∧
  ss_strategy s' = ss_strategy s ∧ ss_feed s' = ss_feed s ∧ r ≠ NoFuel ∧
  effect (ItAction <$> sent) [] s s' ∧ (is_ok r = true → rest = []).
Proof.
  revert s. induction acts as [|a acts IH]; intros s; cbn [for_each].
  { exists s, (Ok tt), [], []. split_and!; try done. apply effect_refl. }
  destruct (send_action_spec a s) as (s1 & r & H1 & Hs1 & Hf1 & Hr1 & He1 & _).
  py_unfold. rewrite H1. destruct r as [[]|e|]; [| |done].
  - destruct (IH s1) as (s' & r & sent & rest & Hl & -> & Hs & Hf & Hn & He & Hr).
    exists s', r, (a :: sent), rest. rewrite Hl. split_and!; try done; [congruence..|].
    by apply (effect_trans [ItAction a]) with s1.
  - exists s1, (Raise e), [], (a :: acts). by split_and!.
Qed.

(** What one round does to the strategy, and a sequence of rounds to the feed
    and the strategy. *)
Definition strategy_round (rd : round) (x x' : S) : Prop := ∃ x1,
  on_price (rd_price rd) x = (x1, Ok (rd_actions rd)) ∧
  for_each (fills_of (rd_polled rd)) on_fill x1 = (x', Ok tt).

Inductive rounds_run : F → S → list round → F → S → Prop :=
| rounds_nil f x : rounds_run f x [] f x
| rounds_cons f f1 f2 x x1 x2 rd rds :
    next_price f = (f1, Ok (rd_price rd)) → strategy_round rd x x1 →
    rounds_run f1 x1 rds f2 x2 → rounds_run f x (rd :: rds) f2 x2.

Lemma poll_effect t s : ∃ evs c',
  with_client (bc_poll_events (Some t)) s =
    ({| ss_feed := ss_feed s; ss_strategy := ss_strategy s; ss_client := c'; ss_log := ss_log s |},
     Ok evs) ∧
  evs ++ bc_pending c' = bc_pending (ss_client s) ∧ bc_sent c' = bc_sent (ss_client s) ∧
  bc_closed c' = bc_closed (ss_client s) ∧ (bc_live (ss_client s) → bc_live c').
Proof.
  destruct (bc_poll_spec (Some t) (ss_client s)) as (c' & evs & Hp & H). exists evs, c'.
  unfold with_client, on_field. by rewrite Hp.
Qed.

(** A poll followed by the drain of what it returned. *)
Lemma poll_drain_spec t s : ∃ evs done lost s' r,
  (events ← with_client (bc_poll_events (Some t)); drain events) s = (s', r) ∧
  evs = done ++ lost ∧ effect (ItEvent <$> done) lost s s' ∧ ss_feed s' = ss_feed s ∧
  for_each (fills_of done) on_fill (ss_strategy s) = (ss_strategy s', r) ∧
  (is_ok r = true → lost = []).
Proof.
  destruct (poll_effect t s) as (evs & c' & Hp & Hev & Hs & Hc & _). py_unfold. rewrite Hp.
  destruct (drain_spec evs {| ss_feed := ss_feed s; ss_strategy := ss_strategy s; ss_client := c';
    ss_log := ss_log s |}) as (d & rest & s' & r & Hd & He & Hl & Hc' & Hf & Hx & Hr).
  exists evs, d, rest, s', r. split_and!; try done. split.
  - by rewrite Hl.
  - exists []. autorewrite with history. cbn. by rewrite app_nil_r, Hc', <- Hs.
  - exists []. autorewrite with history. rewrite app_nil_r, Hc', app_assoc, <- He. done.
  - by rewrite Hc', <- Hc.
Qed.

Lemma process_tick_spec t p s : ∃ s' r h lost,
  process_tick t p s = (s', r) ∧ effect h lost s s' ∧ ss_feed s' = ss_feed s ∧
  (is_ok r = true → lost = [] ∧ ∃ rd, h = round_items rd ∧ rd_price rd = p ∧
     strategy_round rd (ss_strategy s) (ss_strategy s')).
Proof.
  unfold process_tick. unfold with_strategy at 1, on_field at 1.
  unfold mbind at 1, M_bind at 1.
  destruct (on_price p (ss_strategy s)) as [x [acts|e|]] eqn:Hx;
    [|eexists _, _, [], []; split_and!; try done; eapply effect_same; (apply effect_refl || done)..].
  set (s1 := {| ss_feed := _; ss_strategy := x; ss_client := _; ss_log := _ |}).
  assert (effect [] [] s s1) as He1 by by (eapply effect_same; [apply effect_refl|..]).
  destruct (send_actions_spec acts s1) as (s2 & r2 & sent & rest & H2 & Ha & Hs2 & Hf2 & Hn2 & He2 & Hr2).
  unfold mbind at 1, M_bind at 1. rewrite H2.
  assert (effect (ItAction <$> sent) [] s s2) as He12 by by apply (effect_trans [] _ _ _ s1).
  destruct r2 as [[]|e|]; [|by eexists _, _, _, []|done].
  specialize (Hr2 eq_refl) as ->. rewrite app_nil_r in Ha. subst sent.
  destruct (poll_drain_spec t s2) as (evs & d & lost & s' & r & H3 & Hev & He3 & Hf3 & Hx3 & Hr3).
  exists s', r, ((ItAction <$> acts) ++ (ItEvent <$> d)), lost.
  split_and!; [done|by apply effect_trans with s2|by rewrite Hf3, Hf2|].
  intros Hok. split; [by apply Hr3|]. exists {| rd_price := p; rd_actions := acts; rd_polled := d |}.
  split_and!; [done..|]. exists x. split; [done|]. cbn [rd_polled]. rewrite Hs2 in Hx3. cbn [s1 ss_strategy] in Hx3.
  rewrite Hx3. by destruct r as [[]| |].
Qed.

Lemma rounds_app f1 f2 f3 x1 x2 x3 rs1 rs2 :
  rounds_run f1 x1 rs1 f2 x2 → rounds_run f2 x2 rs2 f3 x3 → rounds_run f1 x1 (rs1 ++ rs2) f3 x3.
Proof. induction 1; [done|]. intros. econstructor; eauto. Qed.

(** The loop over the ticks. *)
Lemma tick_loop_spec fuel m t k s : ∃ s' r h lost,
  tick_loop fuel m t k s = (s', r) ∧ effect h lost s s' ∧
  match r with
  | Ok n => lost = [] ∧ ∃ rds f, h = concat (round_items <$> rds) ∧ n = k + Z.of_nat (length rds) ∧
      rounds_run (ss_feed s) (ss_strategy s) rds f (ss_strategy s') ∧
      match m with Some m => n ≤ Z.max k m | None => True end ∧
      (f = ss_feed s' ∧ ticks_left m n = false ∨ next_price f = (ss_feed s', Raise StopIteration))
  | _ => True
  end.
Proof.
  revert k s. induction fuel as [|fuel IH]; intros k s; cbn [tick_loop].
  { destruct (ticks_left m k) eqn:Hm; [by eexists _, _, [], []; split_and!; [|apply effect_refl|]|].
    exists s, (Ok k), [], []. split_and!; [done|apply effect_refl|done|].
    exists [], (ss_feed s). split_and!; [done|cbn; lia|constructor|destruct m; [lia|done]|by left]. }
  destruct (ticks_left m k) eqn:Hm.
  2:{ exists s, (Ok k), [], []. split_and!; [done|apply effect_refl|done|].
    exists [], (ss_feed s). split_and!; [done|cbn; lia|constructor|destruct m; [lia|done]|by left]. }
  unfold with_feed at 1, on_field at 1. destruct (next_price (ss_feed s)) as [f r] eqn:Hf.
  set (s1 := {| ss_feed := f; ss_strategy := _; ss_client := _; ss_log := _ |}).
  assert (effect [] [] s s1) as He1 by by (eapply effect_same; [apply effect_refl|..]).
  destruct r as [p|e|]; [| |by eexists _, _, [], []].
  2:{ destruct e; try by eexists _, _, [], []. exists s1, (Ok k), [], [].
      split_and!; [done..|]. exists [], (ss_feed s).
      split_and!; [done|cbn; lia|constructor|destruct m; [lia|done]|by right]. }
  destruct (process_tick_spec t p s1) as (s2 & r2 & h2 & lost & H2 & He2 & Hf2 & Hr2).
  py_unfold. rewrite H2.
  destruct r2 as [[]|e|]; [|exists s2, (Raise e), h2, lost|exists s2, NoFuel, h2, lost];
    [|split_and!; [done|by apply (effect_trans [] _ _ _ s1)|done]..].
  destruct (Hr2 eq_refl) as (-> & rd & -> & <- & Hrd).
  destruct (IH (k + 1) s2) as (s' & r & h & lost & H3 & He3 & H4).
  exists s', r, (round_items rd ++ h), lost. rewrite H3.
  split_and!; [done|by apply (effect_trans _ _ _ _ s2); [apply (effect_trans [] _ _ _ s1)|]|].
  destruct r as [n|e|]; [|done..]. destruct H4 as (-> & rds & f' & -> & -> & Hrun & Hmax & Hend).
  split; [done|]. exists (rd :: rds), f'. split_and!; [done|cbn [length]; lia| | |done].
  - econstructor; [done|done|]. rewrite Hf2 in Hrun. exact Hrun.
  - destruct m; [|done]. cbn in Hm. bool_to_prop. lia.
Qed.

(** The final drain. *)
Lemma final_drain_spec fuel t s : ∃ s' r evs lost,
  final_drain fuel t s = (s', r) ∧ effect (ItEvent <$> evs) lost s s' ∧ ss_feed s' = ss_feed s ∧
  (r = Ok tt → lost = [] ∧ for_each (fills_of evs) on_fill (ss_strategy s) = (ss_strategy s', Ok tt)).
Proof.
  revert s. induction fuel as [|fuel IH]; intros s; cbn [final_drain].
  { eexists s, NoFuel, [], []. split_and!; [done|apply effect_refl|done..]. }
  destruct (poll_drain_spec t s) as (evs & d & lost & s1 & r1 & H1 & Hev & He1 & Hf1 & Hx1 & Hr1).
  destruct (poll_effect t s) as (evs' & c' & Hp & Hev' & Hs & Hc & _).
  unfold mbind, M_bind in H1 |- *. rewrite Hp in H1 |- *.
  destruct evs' as [|e evs'].
  { injection H1 as <- <-. cbn [is_ok] in Hr1. specialize (Hr1 eq_refl) as ->.
    eexists _, (Ok tt), d, []. split_and!; [reflexivity|exact He1|done|done]. }
  rewrite H1. destruct r1 as [[]|x|];
    [|exists s1, (Raise x), d, lost|exists s1, NoFuel, d, lost]; [|split_and!; done..].
  specialize (Hr1 eq_refl) as ->.
  destruct (IH s1) as (s' & r & evs2 & lost & H2 & He2 & Hf2 & Hr2).
  exists s', r, (d ++ evs2), lost. split_and!; [done| |congruence|].
  - rewrite fmap_app. by apply effect_trans with s1.
  - intros ->. destruct (Hr2 eq_refl) as [-> Hx2]. split; [done|].
    unfold fills_of in *. by rewrite omap_app, (for_each_app _ _ _ _ _ Hx1).
Qed.

(** Everything a session did, in one history, however it ended. *)
Lemma session_history fuel m t1 t2 s : ∃ s' r h lost s0,
  run_strategy_loop fuel m t1 t2 s = (s', r) ∧ effect h lost s s0 ∧
  (r ≠ NoFuel → s' = close_client s0) ∧
  match r with
  | Ok n => lost = [] ∧ ∃ rds tail f x,
      h = concat (round_items <$> rds) ++ (ItEvent <$> tail) ∧ n = Z.of_nat (length rds) ∧
      rounds_run (ss_feed s) (ss_strategy s) rds f x ∧
      for_each (fills_of tail) on_fill x = (ss_strategy s', Ok tt) ∧
      match m with Some m => n ≤ Z.max 0 m | None => True end ∧
      (f = ss_feed s' ∧ ticks_left m n = false ∨ next_price f = (ss_feed s', Raise StopIteration))
  | _ => True
  end.
Proof.
  unfold run_strategy_loop, try_finally, mbind, M_bind.
  destruct (tick_loop_spec fuel m t1 0 s) as (s1 & r1 & h1 & lost1 & -> & He1 & H1).
  destruct r1 as [n|e|]; [|by eexists _, _, h1, lost1, s1..].
  destruct H1 as (-> & rds & f & -> & Hn & Hrun & Hmax & Hend).
  destruct (final_drain_spec fuel t2 s1) as (s2 & r2 & tail & lost2 & -> & He2 & Hf2 & H2).
  pose proof (effect_trans _ _ _ _ _ _ He1 He2) as He.
  destruct r2 as [[]|e|]; [|by eexists _, _, _, lost2, s2..].
  destruct (H2 eq_refl) as [-> Hx2]. eexists _, (Ok n), _, [], s2.
  split_and!; [reflexivity|exact He|done|done|]. exists rds, tail, f, (ss_strategy s1).
  split_and!; [done|lia|done|done|done|]. cbn. by rewrite Hf2.
Qed.

(** (C2) A session's record is faithful however it ends, by exhausting its ticks or
    its feed or by any exception.  There is one history of actions and events
    such that: the log has gained one row per item, in that order; the bytes
    sent are the encodings of exactly its actions, in that order; its events are
    those the client had to deliver, in order and without repetition, followed
    only by events [lost] to an exception that interrupted a drain; and the
    client has been closed. *)
Theorem session_record (fuel : nat) (max_ticks : option Z) (t1 t2 : float) s s' (r : res Z) :
  run_strategy_loop fuel max_ticks t1 t2 s = (s', r) → r ≠ NoFuel →
  ∃ h lost bss arrived,
    ss_log s' = log_history h (ss_log s) ∧
    res_map action_bytes (h_actions h) = Ok bss ∧
    bc_sent (ss_client s') = bc_sent (ss_client s) ++ concat bss ∧
    h_events h ++ lost ++ bc_pending (ss_client s') = bc_pending (ss_client s) ++ arrived ∧
    (is_ok r = true → lost = []) ∧
    bc_closed (ss_client s') = true.
Proof.
  intros Hrun Hr.
  destruct (session_history fuel max_ticks t1 t2 s) as (s1 & r1 & h & lost & s0 & H & He & Hc & Hok).
  rewrite H in Hrun. simplify_eq. rewrite (Hc Hr).
  destruct He as [Hl (bss & Hb & Hs) (arr & Hev) _].
  destruct (bc_close_spec (ss_client s0)) as (Hcl & Hse & Hpe).
  exists h, lost, bss, arr. cbn [close_client ss_log ss_client]. rewrite Hse, Hpe.
  split_and!; try done. intros Ho. destruct r; [|done..]. by destruct Hok.
Qed.

(** What a session that returns has done.  It returns the number of rounds it
    ran, at most [max_ticks]; the rounds' prices are the feed's, in order; each
    round's actions are the strategy's answer to its price, and the strategy has
    then been told of exactly the fills among the round's events, in order,
    before the next price; the history is the rounds, then a tail of drained
    events whose fills the strategy has seen too.  It stopped because the ticks
    ran out or because the feed did. *)
Theorem session_rounds (fuel : nat) (max_ticks : option Z) (t1 t2 : float) s s' (n : Z) :
  run_strategy_loop fuel max_ticks t1 t2 s = (s', Ok n) →
  ∃ rounds tail f x,
    n = Z.of_nat (length rounds) ∧
    match max_ticks with Some m => n ≤ Z.max 0 m | None => True end ∧
    rounds_run (ss_feed s) (ss_strategy s) rounds f x ∧
    for_each (fills_of tail) on_fill x = (ss_strategy s', Ok tt) ∧
    ss_log s' = log_history (concat (round_items <$> rounds) ++ (ItEvent <$> tail)) (ss_log s) ∧
    (f = ss_feed s' ∧ ticks_left max_ticks n = false ∨
     next_price f = (ss_feed s', Raise StopIteration)).
Proof.
  intros Hrun.
  destruct (session_history fuel max_ticks t1 t2 s) as (s1 & r1 & h & lost & s0 & H & He & Hc & Hok).
  rewrite H in Hrun. simplify_eq. destruct Hok as (-> & rds & tail & f & x & -> & -> & ? & ? & ? & ?).
  exists rds, tail, f, x. split_and!; try done. rewrite (Hc ltac:(done)). apply He.
Qed.

(** *** Termination *)

Section Termination.
Context `{!FeedTotal F, !StrategyTotal S}.

Lemma for_each_total (fs : list FillEvent) (x : S) : (for_each fs on_fill x).2 ≠ NoFuel.
Proof.
  revert x. induction fs as [|f fs IH]; intros x; cbn [for_each]; py_unfold; [done|].
  pose proof (on_fill_total f x) as H. destruct (on_fill f x) as [x' [[]|e|]]; [apply IH|done..].
Qed.

Lemma process_tick_total t p s : (process_tick t p s).2 ≠ NoFuel.
Proof.
  unfold process_tick. unfold with_strategy at 1, on_field at 1. unfold mbind at 1, M_bind at 1.
  pose proof (on_price_total p (ss_strategy s)) as Hp.
  destruct (on_price p (ss_strategy s)) as [x [acts|e|]]; [|done..].
  set (s1 := {| ss_feed := _; ss_strategy := x; ss_client := _; ss_log := _ |}).
  destruct (send_actions_spec acts s1) as (s2 & r2 & _ & _ & H2 & _ & _ & _ & Hn & _).
  unfold mbind at 1, M_bind at 1. rewrite H2. destruct r2 as [[]|e|]; [|done..].
  destruct (poll_drain_spec t s2) as (evs & d & lost & s' & r & H3 & _ & _ & _ & Hx & _).
  rewrite H3. pose proof (for_each_total (fills_of d) (ss_strategy s2)) as Ht. by rewrite Hx in Ht.
Qed.

(** More fuel never changes a finished run. *)
Lemma tick_loop_more fuel m t k s :
  (tick_loop fuel m t k s).2 ≠ NoFuel → tick_loop (Datatypes.S fuel) m t k s = tick_loop fuel m t k s.
Proof.
  revert k s. induction fuel as [|fuel IH]; intros k s; cbn [tick_loop].
  - by destruct (ticks_left m k).
  - destruct (ticks_left m k); [|done]. destruct (with_feed next_price s) as [s1 [p|e|]]; [|done..].
    py_unfold. destruct (process_tick t p s1) as [s2 [[]|e|]]; [|done..]. apply IH.
Qed.

Lemma final_drain_more fuel t s :
  (final_drain fuel t s).2 ≠ NoFuel → final_drain (Datatypes.S fuel) t s = final_drain fuel t s.
Proof.
  revert s. induction fuel as [|fuel IH]; intros s; [done|].
  cbn [final_drain]. py_unfold. destruct (with_client _ s) as [s1 [[|e evs]|x|]]; [done| |done..].
  destruct (drain (e :: evs) s1) as [s2 [[]|x|]]; [apply IH|done..].
Qed.

(** Every non-empty poll takes an event, so the final drain ends. *)
Lemma final_drain_total fuel t s :
  (length (bc_pending (ss_client s)) < fuel)%nat → (final_drain fuel t s).2 ≠ NoFuel.
Proof.
  revert s. induction fuel as [|fuel IH]; intros s Hf; [lia|]. cbn [final_drain].
  destruct (poll_effect t s) as (evs & c' & Hp & Hev & _). py_unfold. rewrite Hp.
  destruct evs as [|e evs]; [done|].
  set (s1 := {| ss_feed := _; ss_strategy := _; ss_client := c'; ss_log := _ |}).
  destruct (drain_spec (e :: evs) s1) as (d & rest & s2 & r & Hd & _ & _ & Hc & _ & Hx & _).
  rewrite Hd. pose proof (for_each_total (fills_of d) (ss_strategy s1)) as Ht. rewrite Hx in Ht.
  destruct r as [[]|x|]; [|done..]. apply IH. rewrite Hc. cbn.
  rewrite <- Hev in Hf. cbn in Hf. rewrite length_app in Hf. lia.
Qed.

Lemma tick_loop_total fuel m t k s (left : F → nat) :
  (∀ f f' p, next_price f = (f', Ok p) → left f' < left f)%nat ∨
    (∃ n, m = Some n ∧ (Z.to_nat (n - k) ≤ fuel)%nat) →
  (∃ n, m = Some n ∧ (Z.to_nat (n - k) ≤ fuel)%nat) ∨ (left (ss_feed s) < fuel)%nat →
  (tick_loop fuel m t k s).2 ≠ NoFuel.
Proof.
  intros Hleft. revert k s Hleft. induction fuel as [|fuel IH]; intros k s Hleft Hf; cbn [tick_loop].
  - destruct Hf as [(n & -> & Hn)|]; [|lia]. cbn.
    by rewrite (proj2 (Z.ltb_ge _ _)) by lia.
  - destruct (ticks_left m k) eqn:Hm; [|done].
    unfold with_feed at 1, on_field at 1. pose proof (next_price_total (ss_feed s)) as Ht.
    destruct (next_price (ss_feed s)) as [f [p|e|]] eqn:Hnp; [|by destruct e|done].
    set (s1 := {| ss_feed := f; ss_strategy := _; ss_client := _; ss_log := _ |}).
    pose proof (process_tick_total t p s1) as Hpt.
    destruct (process_tick_spec t p s1) as (s2 & r2 & _ & _ & H2 & _ & Hf2 & _).
    py_unfold. rewrite H2 in *. destruct r2 as [[]|e|]; [|done..].
    assert ((∃ n, m = Some n ∧ (Z.to_nat (n - k) ≤ Datatypes.S fuel)%nat) →
      ∃ n, m = Some n ∧ (Z.to_nat (n - (k + 1)) ≤ fuel)%nat) as Hstep.
    { intros (n & -> & Hn). exists n. split; [done|]. cbn in Hm. bool_to_prop. lia. }
    apply IH.
    + destruct Hleft as [Hl|Hb]; [by left|right; auto].
    + destruct Hf as [Hb|Hb]; [left; auto|]. destruct Hleft as [Hl|Hb']; [|left; auto].
      right. rewrite Hf2. cbn. apply Hl in Hnp. lia.
Qed.

Lemma run_total (N : nat) m t1 t2 s :
  (∀ fuel, (N ≤ fuel)%nat → (tick_loop fuel m t1 0 s).2 ≠ NoFuel) →
  ∃ s' r N', r ≠ NoFuel ∧
    ∀ fuel, (N' ≤ fuel)%nat → run_strategy_loop fuel m t1 t2 s = (s', r).
Proof.
  intros Htl. destruct (tick_loop N m t1 0 s) as [s1 r1] eqn:H1.
  assert (r1 ≠ NoFuel) as Hr1 by (specialize (Htl N ltac:(lia)); by rewrite H1 in Htl).
  assert (∀ fuel, (N ≤ fuel)%nat → tick_loop fuel m t1 0 s = (s1, r1)) as Hst.
  { intros fuel. induction 1 as [|fuel Hle IH]; [done|].
    by rewrite tick_loop_more by by rewrite IH. }
  set (M := Datatypes.S (length (bc_pending (ss_client s1)))).
  destruct (final_drain M t2 s1) as [s2 r2] eqn:H2.
  assert (r2 ≠ NoFuel) as Hr2.
  { pose proof (final_drain_total M t2 s1 ltac:(lia)) as H. by rewrite H2 in H. }
  assert (∀ fuel, (M ≤ fuel)%nat → final_drain fuel t2 s1 = (s2, r2)) as Hfd.
  { intros fuel. induction 1 as [|fuel Hle IH]; [done|].
    by rewrite final_drain_more by by rewrite IH. }
  unfold run_strategy_loop, try_finally, mbind, M_bind.
  destruct r1 as [n|e|]; [|exists (close_client s1), (Raise e), N; split; [done|];
    intros fuel Hf; by rewrite Hst|done].
  exists (close_client s2), (match r2 with Ok _ => Ok n | Raise e => Raise e | NoFuel => NoFuel end),
    (N + M)%nat. split; [by destruct r2|]. intros fuel Hf. rewrite Hst, Hfd by lia.
  by destruct r2.
Qed.

Lemma bounded_total (n : Z) t1 t2 s :
  ∃ s' r N, r ≠ NoFuel ∧
    ∀ fuel, (N ≤ fuel)%nat → run_strategy_loop fuel (Some n) t1 t2 s = (s', r).
Proof.
  apply (run_total (Z.to_nat n)). intros fuel Hf.
  apply (tick_loop_total _ _ _ _ _ (λ _, 0%nat)); [right|left]; exists n; (split; [done|lia]).
Qed.

Lemma finite_total `{!FiniteFeed F} (max_ticks : option Z) t1 t2 s :
  ∃ s' r N, r ≠ NoFuel ∧
    ∀ fuel, (N ≤ fuel)%nat → run_strategy_loop fuel max_ticks t1 t2 s = (s', r).
Proof.
  apply (run_total (Datatypes.S (feed_left (ss_feed s)))). intros fuel Hf.
  apply (tick_loop_total _ _ _ _ _ feed_left); [left; apply feed_left_spec|right; lia].
Qed.

(** (C22) The loop ends: with a bound on the ticks, whatever the feed, and without
    one on a feed that ends.  From some number of iterations on, more iterations
    change neither the result nor the state left behind. *)
Theorem session_terminates (max_ticks : option Z) (t1 t2 : float) s :
  (max_ticks = None → FiniteFeed F) →
  ∃ s' r N, r ≠ NoFuel ∧
    ∀ fuel, (N ≤ fuel)%nat → run_strategy_loop fuel max_ticks t1 t2 s = (s', r).
Proof.
  intros Hf. destruct max_ticks as [n|]; [apply bounded_total|].
  pose proof (Hf eq_refl). apply finite_total.
Qed.
End Termination.
End History.
