(* ===== verification/Feeds.v ===== *)
(** * Price feeds ([feed.py], [historical_feed.py], [live_feed.py])

    Three implementations of the [Feed] interface of the strategy loop: a
    random walk, a cached download, and a queue filled by a live connection. *)

From stdpp Require Import strings.
From S2P Require Import Prelude Bytes PyFloat PyStruct PyStatistics Protocol Ticks Client Strategy TradeLog.
From S2P Require Import SessionRunner.

Open Scope Z_scope.

(** ** The synthetic feed *)

Module Synthetic.

Definition _STEPS : list Z := [-2; -1; 0; 1; 2].

(** [random.Random(seed)] and its [choice], for a generator whose states are
    [R]: [choice] indexes its argument with a number the generator draws below
    its length. *)
Class Random (R : Type) := {
  rng_new : Z → R;
  randbelow : Z → R → R * Z;
  randbelow_range n r : 0 < n → 0 ≤ (randbelow n r).2 < n;
}.

Definition choice `{!Random R} (seq : list Z) (r : R) : R * res Z :=
  let '(r, i) := randbelow (Z.of_nat (length seq)) r in
  (r, match seq !! Z.to_nat i with Some x => Ok x | None => Raise IndexError end).

Record SyntheticPriceFeed (R : Type) := { _price : Z; _rng : R }.
Arguments _price {R}.
Arguments _rng {R}.

Section Feed.
Context `{!Random R}.

Definition new_feed (start_price_ticks seed : Z) : SyntheticPriceFeed R :=
  {| _price := start_price_ticks; _rng := rng_new seed |}.

#[export] Instance synthetic_feed : Feed (SyntheticPriceFeed R) := λ f,
  let '(r, step) := choice _STEPS (_rng f) in
  match step with
  | Ok step => let p := _price f + step in ({| _price := p; _rng := r |}, Ok p)
  | Raise e => ({| _price := _price f; _rng := r |}, Raise e)
  | NoFuel => ({| _price := _price f; _rng := r |}, NoFuel)
  end.

Lemma next_price_step (f : SyntheticPriceFeed R) : ∃ f' step,
  next_price f = (f', Ok (_price f')) ∧ _price f' = _price f + step ∧ -2 ≤ step ≤ 2.
Proof.
  unfold next_price, synthetic_feed, choice. pose proof (randbelow_range 5 (_rng f) ltac:(lia)) as Hr.
  change (Z.of_nat (length _STEPS)) with 5. destruct (randbelow 5 (_rng f)) as [r i]. cbn in Hr.
  assert (∃ step, _STEPS !! Z.to_nat i = Some step ∧ -2 ≤ step ≤ 2) as (step & -> & Hs).
  { assert (i = 0 ∨ i = 1 ∨ i = 2 ∨ i = 3 ∨ i = 4) as [->|[->|[->|[->| ->]]]] by lia;
      eexists; (split; [reflexivity|lia]). }
  exists {| _price := _price f + step; _rng := r |}, step. split_and!; (done || lia).
Qed.

#[export] Instance synthetic_total : FeedTotal (SyntheticPriceFeed R).
Proof. intros f. destruct (next_price_step f) as (f' & step & -> & _). done. Qed.

Lemma walk_spec {S} `{!Strategy S} f x rds f' x' :
  rounds_run f x rds f' (x' : S) →
  _price f' = default (_price f) (last (rd_price <$> rds)) ∧
  Forall2 (λ p q, Z.abs (q - p) ≤ 2) (take (length rds) (_price f :: (rd_price <$> rds)))
    (rd_price <$> rds) ∧
  Z.abs (_price f' - _price f) ≤ 2 * Z.of_nat (length rds).
Proof.
  induction 1 as [f x|f f1 f2 x x1 x2 rd rds Hn Hs Hrun (IH2 & IH3 & IH4)].
  - split_and!; [done|constructor|cbn; lia].
  - destruct (next_price_step f) as (f' & step & Hn' & Hp & Hstep). rewrite Hn in Hn'.
    injection Hn' as <- Hpr.
    split_and!; [| |cbn [length]; lia].
    + rewrite IH2. cbn [fmap list_fmap]. rewrite last_cons. by destruct (last _).
    + rewrite <- Hpr in IH3. cbn. rewrite Hpr in *. constructor; [lia|done].
Qed.

(** The feed never ends and never fails, every price it gives is its current
    price, and it moves by at most two ticks at a time: over any run of the
    strategy loop, consecutive prices differ by at most 2, so the n-th price is
    within 2n of the start. *)
Theorem synthetic_walk {S} `{!Strategy S} f x rds f' x' :
  rounds_run f x rds f' (x' : S) →
  (∀ e, (next_price f').2 ≠ Raise e) ∧
  _price f' = default (_price f) (last (rd_price <$> rds)) ∧
  Forall2 (λ p q, Z.abs (q - p) ≤ 2) (take (length rds) (_price f :: (rd_price <$> rds)))
    (rd_price <$> rds) ∧
  Z.abs (_price f' - _price f) ≤ 2 * Z.of_nat (length rds).
Proof.
  intros Hrun. split; [|exact (walk_spec _ _ _ _ _ Hrun)].
  intros e. by destruct (next_price_step f') as (f'' & step & -> & _).
Qed.
End Feed.
End Synthetic.

(** ** The historical feed *)

Module Historical.

(** The cached closes, as the tables of cells the [csv] module writes and
    reads, by path. *)
Definition fs : Type := gmap string (list (list string)).

Record HistoricalPriceFeed := { _prices : list Z; _index : nat }.

(** [next_price] *)
#[export] Instance historical_feed : Feed HistoricalPriceFeed := λ f,
  match _prices f !! _index f with
  | None => (f, Raise StopIteration)
  | Some price => ({| _prices := _prices f; _index := S (_index f) |}, Ok price)
  end.

(** [__len__] *)
Definition feed_len (f : HistoricalPriceFeed) : nat := length (_prices f).

(** [s.replace(a, b)] for one-character strings. *)
Fixpoint replace_char (a b : Ascii.ascii) (s : string) : string :=
  match s with
  | EmptyString => EmptyString
  | String c s => String (if decide (c = a) then b else c) (replace_char a b s)
  end.

Fixpoint ends_with (c : Ascii.ascii) (s : string) : bool :=
  match s with
  | EmptyString => false
  | String c' EmptyString => bool_decide (c = c')
  | String _ s => ends_with c s
  end.

(** [os.path.join(a, b)] on POSIX. *)
Definition path_join (a b : string) : string :=
  match b with
  | String "/" _ => b
  | _ => if decide (a = "") then b
         else if ends_with "/" a then a +:+ b else a +:+ "/" +:+ b
  end.

Definition _cache_path (cache_dir ticker start end_ interval : string) : string :=
  let safe_ticker := replace_char "/" "_" (replace_char "=" "_" ticker) in
  path_join cache_dir (safe_ticker +:+ "_" +:+ interval +:+ "_" +:+ start +:+ "_" +:+ end_ +:+ ".csv").

Section Cache.
(** [repr] and [float] of the language. *)
Context (float_repr : float → string) (float_parse : string → res float).

(** (ticker, start, end, interval) -> list of raw close prices, oldest first. *)
Definition Downloader : Type := string → string → string → string → res (list float).

(** [csv.DictReader]: blank rows are skipped; a missing cell reads [None],
    which [float] refuses. *)
Definition dict_rows (table : list (list string)) : list (list (string * string)) :=
  match table with
  | [] => []
  | names :: rows => (λ r, zip names r) <$> filter (λ r, r ≠ []) rows
  end.

Definition header (table : list (list string)) : list string := default [] (head table).

Definition read_close (names : list string) (r : list (string * string)) : res Z :=
  match list_to_map (M := gmap string string) (reverse r) !! "close"%string with
  | Some cell => x ← float_parse cell; price_to_ticks x
  | None => Raise (if decide ("close"%string ∈ names) then TypeError else KeyError)
  end.

Definition read_prices (table : list (list string)) : res (list Z) :=
  res_map (read_close (header table)) (dict_rows table).

(** [_load_or_download]; the path is looked up, filled on a miss, then read. *)
Definition _load_or_download (ticker start end_ interval cache_dir : string)
    (downloader : Downloader) : M fs (list Z) := λ d,
  let path := _cache_path cache_dir ticker start end_ interval in
  let load d :=
    match d !! path with
    | Some table => (d, read_prices table)
    | None => (d, Raise OSError)
    end in
  match d !! path with
  | Some _ => load d
  | None =>
      match downloader ticker start end_ interval with
      | Ok closes => load (<[path := ["close"%string] :: ((λ c, [float_repr c]) <$> closes)]> d)
      | Raise e => (d, Raise e)
      | NoFuel => (d, NoFuel)
      end
  end.

(** [__init__] *)
Definition new_feed (ticker start end_ interval cache_dir : string)
    (downloader : Downloader) : M fs HistoricalPriceFeed :=
  prices ← _load_or_download ticker start end_ interval cache_dir downloader;
  mret {| _prices := prices; _index := 0 |}.

(** The download of the package [yfinance]: its ["Close"] is a column or, in newer
    versions, a table with a column per ticker. *)
Inductive CloseData := CloseColumn (values : list num) | CloseTable (columns : list (list num)).

Definition yfinance_downloader (download : string → string → string → string → res CloseData) :
    Downloader := λ ticker start end_ interval,
  close ← download ticker start end_ interval;
  close ← match close with
          | CloseColumn values => Ok values
          | CloseTable (values :: _) => Ok values
          | CloseTable [] => Raise IndexError
          end;
  res_map to_float close.

(** What the feed needs of the language: [repr] writes a non-empty text that
    [float] reads back. *)
Hypothesis float_repr_parse : ∀ x, valid x = true → float_parse (float_repr x) = Ok x.

Lemma read_written closes :
  Forall (λ x, valid x = true) closes →
  read_prices (["close"%string] :: ((λ c, [float_repr c]) <$> closes)) =
    res_map price_to_ticks closes.
Proof.
  intros Hv. unfold read_prices, dict_rows, header. cbn [head default from_option id].
  induction Hv as [|x closes Hx _ IH]; [done|]. cbn [fmap list_fmap].
  rewrite filter_cons_True by done. cbn [fmap list_fmap res_map].
  assert (read_close ["close"%string] (zip ["close"%string] [float_repr x]) = price_to_ticks x) as ->.
  { unfold read_close.
    change (list_to_map (reverse (zip ["close"%string] [float_repr x])) : gmap string string)
      with ({["close"%string := float_repr x]} : gmap string string).
    rewrite lookup_singleton_eq. by rewrite float_repr_parse. }
  py_unfold. by rewrite IH.
Qed.

(** The cache is transparent.  When nothing is cached, a failed download fails
    the feed and leaves nothing behind; a successful one gives the feed the
    closes rounded to ticks, in order, and from then on building the feed again
    reads those same prices back, whatever the network would answer. *)
Theorem historical_cache (ticker start end_ interval cache_dir : string)
    (downloader : Downloader) (d : fs) :
  d !! _cache_path cache_dir ticker start end_ interval = None →
  match downloader ticker start end_ interval with
  | Ok closes => Forall (λ x, valid x = true) closes →
      ∃ d', new_feed ticker start end_ interval cache_dir downloader d =
          (d', prices ← res_map price_to_ticks closes; Ok {| _prices := prices; _index := 0 |}) ∧
        is_Some (d' !! _cache_path cache_dir ticker start end_ interval) ∧
        ∀ downloader', new_feed ticker start end_ interval cache_dir downloader' d' =
          new_feed ticker start end_ interval cache_dir downloader d
  | Raise e => new_feed ticker start end_ interval cache_dir downloader d = (d, Raise e)
  | NoFuel => True
  end.
Proof.
  intros Hm. set (path := _cache_path cache_dir ticker start end_ interval) in *.
  destruct (downloader _ _ _ _) as [closes|e|] eqn:Hd; [|
    unfold new_feed, _load_or_download, mbind, M_bind; fold path; by rewrite Hm, Hd|done].
  intros Hv. set (table := ["close"%string] :: ((λ c, [float_repr c]) <$> closes)).
  set (d' := <[path := table]> d). exists d'.
  assert (d' !! path = Some table) as Hd' by apply lookup_insert_eq.
  assert (new_feed ticker start end_ interval cache_dir downloader d =
    (d', prices ← res_map price_to_ticks closes; Ok {| _prices := prices; _index := 0 |})) as Hnew.
  { unfold new_feed, _load_or_download, mbind, M_bind, res_bind. fold path.
    rewrite Hm, Hd. fold table d'. rewrite Hd'. unfold table. rewrite read_written by done.
    by destruct (res_map price_to_ticks closes). }
  split_and!; [done|by rewrite Hd'|]. intros downloader'. rewrite Hnew.
  unfold new_feed, _load_or_download, mbind, M_bind, res_bind. fold path. rewrite Hd'.
  unfold table. rewrite read_written by done. by destruct (res_map price_to_ticks closes).
Qed.
End Cache.

(** A text form of floats for the witness: the eight bytes of the value. *)
Definition bits_repr (x : float) : string := String.string_of_list_byte (be_encode 8 (bits_of_float x)).
Definition bits_parse (s : string) : res float :=
  Ok (float_of_bits (be_decode (String.list_byte_of_string s))).

Lemma bits_repr_parse x : valid x = true → bits_parse (bits_repr x) = Ok x.
Proof.
  intros Hv. unfold bits_parse, bits_repr. rewrite String.list_byte_of_string_of_list_byte.
  pose proof (float_bits_range x Hv). rewrite be_decode_encode_small by done.
  by rewrite float_bits_roundtrip.
Qed.

Lemma historical_cache_witness :
  let closes := [dyadic 19149 (-2); dyadic 38299 (-3)] in
  let down := λ _ _ _ _, Ok closes in
  ∃ d', new_feed bits_repr bits_parse "ES=F" "2024-01-01" "2024-06-01" "1d" "data" down ∅ =
      (d', Ok {| _prices := [19149; 19150]; _index := 0 |}) ∧
    new_feed bits_repr bits_parse "ES=F" "2024-01-01" "2024-06-01" "1d" "data"
      (λ _ _ _ _, Raise ConnectionError) d' = (d', Ok {| _prices := [19149; 19150]; _index := 0 |}).
Proof.
  intros closes down.
  destruct (historical_cache bits_repr bits_parse bits_repr_parse "ES=F" "2024-01-01" "2024-06-01"
    "1d" "data" down ∅) as (d' & H1 & _ & H2); [reflexivity|repeat constructor; vm_compute; done|].
  exists d'. rewrite H2, H1. split; vm_compute; reflexivity.
Defined.

#[export] Instance historical_total : FeedTotal HistoricalPriceFeed.
Proof. intros f. unfold next_price, historical_feed. by destruct (_ !! _). Qed.

#[export, refine] Instance historical_finite : FiniteFeed HistoricalPriceFeed := {
  feed_left f := (length (_prices f) - _index f)%nat;
}.
Proof.
  intros f f' p. unfold next_price, historical_feed. destruct (_ !! _) eqn:Hp; [|done].
  apply lookup_lt_Some in Hp. intros [= <- _]. cbn. lia.
Defined.
End Historical.

(** ** The live feed *)

Module Live.

(** [time.monotonic()] is read once per price; the k-th reading is [clock k].
    Prices reach the queue from the connection's thread in batches, the next
    one by each [get]; a [get] that finds nothing before its timeout raises
    [queue.Empty]. *)
Record LiveIBKRFeed := {
  _queue : list float;
  _deadline : float;
  lf_arrivals : list (list float);
  lf_clock : nat → float;
  lf_reads : nat;   (* readings of the clock so far *)
}.

(** [__init__]: the deadline is set before the subscription. *)
Definition new_feed (duration_seconds : float) (arrivals : list (list float))
    (clock : nat → float) : LiveIBKRFeed :=
  {| _queue := []; _deadline := fadd (clock 0%nat) duration_seconds;
     lf_arrivals := arrivals; lf_clock := clock; lf_reads := 1 |}.

Definition live_set (q : list float) (arr : list (list float)) (f : LiveIBKRFeed) : LiveIBKRFeed :=
  {| _queue := q; _deadline := _deadline f; lf_arrivals := arr;
     lf_clock := lf_clock f; lf_reads := S (lf_reads f) |}.

Definition remaining (f : LiveIBKRFeed) : float := fsub (_deadline f) (lf_clock f (lf_reads f)).

#[export] Instance live_feed : Feed LiveIBKRFeed := λ f,
  if fleb (remaining f) f_zero then (live_set (_queue f) (lf_arrivals f) f, Raise StopIteration) else
  match _queue f ++ default [] (head (lf_arrivals f)) with
  | [] => (live_set [] (tail (lf_arrivals f)) f, Raise StopIteration)
  | price :: q => (live_set q (tail (lf_arrivals f)) f, price_to_ticks price)
  end.

Definition live_pending (f : LiveIBKRFeed) : list float := _queue f ++ concat (lf_arrivals f).

#[export] Instance live_total : FeedTotal LiveIBKRFeed.
Proof.
  intros f. unfold next_price, live_feed. destruct (fleb _ _); [done|].
  destruct (_ ++ _) as [|p q]; [done|]. cbn [snd]. apply price_to_ticks_total.
Qed.

(** The feed ends with the last tick that arrives, if not before. *)
#[export, refine] Instance live_finite : FiniteFeed LiveIBKRFeed := {
  feed_left f := length (live_pending f);
}.
Proof.
  intros f f' p. unfold next_price, live_feed. destruct (fleb _ _); [done|].
  destruct (_queue f ++ default [] (head (lf_arrivals f))) as [|x q] eqn:Hq; [done|].
  intros [= <- _]. unfold live_pending. cbn.
  assert (concat (lf_arrivals f) = default [] (head (lf_arrivals f)) ++ concat (tail (lf_arrivals f)))
    as -> by by destruct (lf_arrivals f).
  rewrite app_assoc, Hq. cbn. lia.
Defined.

Lemma live_raw {S} `{!Strategy S} f x rds f' x' :
  rounds_run f x rds f' (x' : S) →
  ∃ raw, live_pending f = raw ++ live_pending f' ∧
    Forall2 (λ p rd, price_to_ticks p = Ok (rd_price rd)) raw rds ∧
    _deadline f' = _deadline f ∧ lf_clock f' = lf_clock f ∧
    lf_reads f' = (lf_reads f + length rds)%nat ∧
    ∀ k, (lf_reads f ≤ k < lf_reads f')%nat → fleb (fsub (_deadline f) (lf_clock f k)) f_zero = false.
Proof.
  induction 1 as [f x|f f1 f2 x x1 x2 rd rds Hn Hs Hrun IH].
  - exists []. cbn. split_and!; try done; intros; lia.
  - destruct IH as (raw & Hp & Hraw & Hd & Hc & Hr & Hk).
    unfold next_price, live_feed in Hn. destruct (fleb (remaining f) f_zero) eqn:Hrem; [done|].
    destruct (_queue f ++ default [] (head (lf_arrivals f))) as [|p q] eqn:Hq; [done|].
    injection Hn as <- Hpr. cbn in *. exists (p :: raw). split_and!; try done.
    + cbn. rewrite <- Hp. unfold live_pending. cbn.
      assert (concat (lf_arrivals f) = default [] (head (lf_arrivals f)) ++ concat (tail (lf_arrivals f)))
        as -> by by destruct (lf_arrivals f).
      by rewrite app_assoc, Hq.
    + by constructor.
    + lia.
    + intros k Hk'. destruct (decide (k = lf_reads f)) as [->|]; [done|]. apply Hk. lia.
Qed.

(** The live feed turns the ticks of the connection into prices one for one:
    over any run of the strategy loop the prices are the first ticks that
    arrived, in order of arrival, each rounded to the tick grid, and each was
    asked for before the deadline had passed. *)
Theorem live_fifo {S} `{!Strategy S} f x rds f' x' :
  rounds_run f x rds f' (x' : S) →
  ∃ raw, live_pending f = raw ++ live_pending f' ∧
    Forall2 (λ p rd, price_to_ticks p = Ok (rd_price rd)) raw rds ∧
    _deadline f' = _deadline f ∧ lf_clock f' = lf_clock f ∧
    lf_reads f' = (lf_reads f + length rds)%nat ∧
    ∀ k, (lf_reads f ≤ k < lf_reads f')%nat → fleb (fsub (_deadline f) (lf_clock f k)) f_zero = false.
Proof. apply live_raw. Qed.

(** A clock that passes the deadline for good ends the feed: from the reading
    on from which no time remains, every request stops the session. *)
Lemma live_stops f : fleb (remaining f) f_zero = true → (next_price f).2 = Raise StopIteration.
Proof. intros H. unfold next_price, live_feed. by rewrite H. Qed.
End Live.
