(* ===== verification/BacktestReport.v ===== *)
(** * The backtest report ([strategy/orderbook_client/backtest_report.py])

    Replays the fills of a trade log into a position with an average entry
    price, a float, and reports realized P&L, drawdown, win rate and Sharpe
    ratio. *)

From stdpp Require Import strings.
From S2P Require Import Prelude PyFloat PyStatistics TradeLog.

Open Scope Z_scope.

Record BacktestReport := {
  sharpe_ratio : num;
  max_drawdown_ticks : Z;
  win_rate : num;
  num_trades : Z;
  total_realized_pnl_ticks : Z;
}.

(** [_sign] *)
Definition _sign (x : Z) : Z := Z.b2z (0 <? x) - Z.b2z (x <? 0).

(** ** [_PositionReplay] *)

Record PositionReplay := {
  net_position : Z;
  realized_pnl_ticks : Z;
  _avg_entry_price_ticks : float;
}.

Definition new_replay : PositionReplay :=
  {| net_position := 0; realized_pnl_ticks := 0; _avg_entry_price_ticks := f_zero |}.

(** [(avg * old_abs + price_ticks * add_abs) / (old_abs + add_abs)] *)
Definition weighted_avg (avg : float) (old_abs price_ticks add_abs : Z) : res float :=
  o ← float_of_int old_abs;
  a ← float_of_int (price_ticks * add_abs);
  n ← float_of_int (old_abs + add_abs);
  fdiv (fadd (fmul avg o) a) n.

(** [int(round(direction * closing_qty * (price_ticks - avg)))] *)
Definition closed_pnl (direction closing_qty price_ticks : Z) (avg : float) : res Z :=
  p ← float_of_int price_ticks;
  k ← float_of_int (direction * closing_qty);
  py_round (fmul k (fsub p avg)).

Definition replay_on_fill (incoming_side quantity price_ticks : Z) : M PositionReplay Z := λ s,
  let signed_qty := if incoming_side =? 0 then quantity else - quantity in
  let same_direction :=
    (net_position s =? 0) || (_sign (net_position s) =? _sign signed_qty) in
  if same_direction then
    match weighted_avg (_avg_entry_price_ticks s) (Z.abs (net_position s)) price_ticks
            (Z.abs signed_qty) with
    | Ok avg => ({| net_position := net_position s + signed_qty;
                    realized_pnl_ticks := realized_pnl_ticks s;
                    _avg_entry_price_ticks := avg |}, Ok 0)
    | Raise e => (s, Raise e)
    | NoFuel => (s, NoFuel)
    end
  else
    let direction := _sign (net_position s) in
    let closing_qty := Z.min (Z.abs signed_qty) (Z.abs (net_position s)) in
    match closed_pnl direction closing_qty price_ticks (_avg_entry_price_ticks s) with
    | Ok delta =>
        let s := {| net_position := net_position s + signed_qty;
                    realized_pnl_ticks := realized_pnl_ticks s + delta;
                    _avg_entry_price_ticks := _avg_entry_price_ticks s |} in
        if negb (net_position s =? 0) && negb (_sign (net_position s) =? direction) then
          match float_of_int price_ticks with
          | Ok p => ({| net_position := net_position s;
                        realized_pnl_ticks := realized_pnl_ticks s;
                        _avg_entry_price_ticks := p |}, Ok delta)
          | Raise e => (s, Raise e)
          | NoFuel => (s, NoFuel)
          end
        else (s, Ok delta)
    | Raise e => (s, Raise e)
    | NoFuel => (s, NoFuel)
    end.

(** ** [build_report] *)

(** [row[key]], of a row whose value there is an int. *)
Definition row_get (k : string) (r : row) : res pyval :=
  match r !! k with Some v => Ok v | None => Raise KeyError end.
Definition row_int (k : string) (r : row) : res Z :=
  v ← row_get k r; match v with VInt z => Ok z | _ => Raise TypeError end.

(** The locals of [build_report]. *)
Record ReportState := {
  rs_replay : PositionReplay;
  trade_pnls : list Z;
  equity_curve : list Z;
}.

Definition start_report : ReportState :=
  {| rs_replay := new_replay; trade_pnls := []; equity_curve := [0] |}.

(** One iteration of the loop over the rows. *)
Definition report_row (r : row) (s : ReportState) : res ReportState :=
  ev ← row_get "event" r;
  if negb (bool_decide (ev = VStr "fill")) then Ok s else
  side ← row_int "incoming_side" r;
  qty ← row_int "qty" r;
  price ← row_int "price_ticks" r;
  match replay_on_fill side qty price (rs_replay s) with
  | (p, Ok delta) =>
      Ok {| rs_replay := p;
            trade_pnls := if delta =? 0 then trade_pnls s else trade_pnls s ++ [delta];
            equity_curve := equity_curve s ++ [List.last (equity_curve s) 0 + delta] |}
  | (_, Raise e) => Raise e
  | (_, NoFuel) => NoFuel
  end.

Fixpoint report_rows (rs : list row) (s : ReportState) : res ReportState :=
  match rs with [] => Ok s | r :: rs => s ← report_row r s; report_rows rs s end.

(** [_max_drawdown]; the curve of a report is never empty. *)
Definition _max_drawdown (curve : list Z) : res Z :=
  match curve with
  | [] => Raise IndexError
  | first :: _ =>
      let '(_, max_dd) := fold_left (λ acc value,
        let peak := Z.max acc.1 value in (peak, Z.min acc.2 (value - peak))) curve (first, 0) in
      Ok max_dd
  end.

(** [_win_rate] *)
Definition _win_rate (pnls : list Z) : res num :=
  match pnls with
  | [] => Ok (NFloat f_zero)
  | _ =>
      let wins := Z.of_nat (length (filter (λ p, 0 < p) pnls)) in
      q ← int_truediv wins (Z.of_nat (length pnls)); Ok (NFloat q)
  end.

Section Report.
(** [periods_per_year ** 0.5]: the power function of the C library. *)
Context (float_pow : float → float → res float).
Definition half : float := dyadic 1 (-1).

Definition _sharpe_ratio (pnls : list Z) (periods_per_year : num) : res num :=
  if (length pnls <? 2)%nat then Ok (NFloat f_zero) else
  m ← mean (NInt <$> pnls);
  sd ← stdev pnls;
  if feqb sd f_zero then Ok (NFloat f_zero) else
  q ← num_div m (NFloat sd);
  p ← to_float periods_per_year;
  pw ← float_pow p half;
  num_mul q (NFloat pw).

Definition build_report (rows : list row) (periods_per_year : num) : res BacktestReport :=
  s ← report_rows rows start_report;
  sharpe ← _sharpe_ratio (trade_pnls s) periods_per_year;
  dd ← _max_drawdown (equity_curve s);
  wr ← _win_rate (trade_pnls s);
  Ok {| sharpe_ratio := sharpe; max_drawdown_ticks := dd; win_rate := wr;
        num_trades := Z.of_nat (length (trade_pnls s));
        total_realized_pnl_ticks := realized_pnl_ticks (rs_replay s) |}.
End Report.

(** ** Drawdown *)

(** [dd] is the largest fall of the curve: no later value lies further below an
    earlier one, and some pair of positions attains it. *)
Definition largest_fall (curve : list Z) (dd : Z) : Prop :=
  (∀ i j a b, (i ≤ j)%nat → curve !! i = Some a → curve !! j = Some b → dd ≤ b - a) ∧
  (∃ i j a b, (i ≤ j)%nat ∧ curve !! i = Some a ∧ curve !! j = Some b ∧ dd = b - a).

Definition dd_step (acc : Z * Z) (value : Z) : Z * Z :=
  let peak := Z.max acc.1 value in (peak, Z.min acc.2 (value - peak)).

Lemma dd_fold_spec first l :
  head l = Some first →
  let '(peak, dd) := fold_left dd_step l (first, 0) in
  (∃ i, l !! i = Some peak) ∧ (∀ i a, l !! i = Some a → a ≤ peak) ∧ largest_fall l dd.
Proof.
  induction l as [|x l IH] using rev_ind; [done|]. intros Hh. rewrite fold_left_app. cbn [fold_left].
  destruct l as [|y l].
  { cbn in Hh. injection Hh as ->. cbn [fold_left dd_step app fst snd]. rewrite Z.max_id, Z.sub_diag.
    split_and!; [by exists 0%nat| |].
    - intros [|i] a; cbn; [intros [= ->]; lia|done].
    - split; [|by exists 0%nat, 0%nat, first, first; cbn; split_and!; [..|lia]].
      intros [|i] [|j] a b _; cbn; try done. intros [= ->] [= ->]. cbn. lia. }
  specialize (IH Hh). destruct (fold_left dd_step (y :: l) (first, 0)) as [peak dd].
  destruct IH as ((ip & Hip) & Hmax & Hall & i & j & a & b & Hij & Hi & Hj & Hdd).
  unfold dd_step. cbn [fst snd]. set (L := y :: l) in *.
  assert (∀ k c, (L ++ [x]) !! k = Some c → L !! k = Some c ∨ k = length L ∧ c = x) as Hlk.
  { intros k c [Hk|[Hge Hk]]%lookup_app_Some; [by left|right].
    apply list_lookup_singleton_Some in Hk as [Hk ->]. split; [lia|done]. }
  assert ((L ++ [x]) !! length L = Some x) as Hlast by by apply list_lookup_middle.
  assert (∀ k c, L !! k = Some c → (L ++ [x]) !! k = Some c) as Hl by by intros; apply lookup_app_l_Some.
  split; [|split; [|split]].
  - destruct (Z.max_spec peak x) as [[_ ->]|[_ ->]]; eauto.
  - intros k c [Hk|[_ ->]]%Hlk; [apply Hmax in Hk|]; lia.
  - intros i' j' a' b' Hij' [Ha|[-> ->]]%Hlk [Hb|[-> ->]]%Hlk.
    + specialize (Hall _ _ _ _ Hij' Ha Hb). lia.
    + apply Hmax in Ha. lia.
    + apply lookup_lt_Some in Hb. lia.
    + lia.
  - destruct (Z.min_spec dd (x - Z.max peak x)) as [[_ ->]|[_ ->]].
    + exists i, j, a, b. split_and!; eauto.
    + destruct (Z.max_spec peak x) as [[_ ->]|[_ ->]].
      * exists (length L), (length L), x, x. by split_and!.
      * exists ip, (length L), peak, x. split_and!; eauto. apply lookup_lt_Some in Hip. lia.
Qed.

Lemma max_drawdown_fall curve :
  match _max_drawdown curve with
  | Ok dd => largest_fall curve dd
  | Raise e => curve = [] ∧ e = IndexError
  | NoFuel => False
  end.
Proof.
  destruct curve as [|first curve]; [done|]. cbn [_max_drawdown].
  pose proof (dd_fold_spec first (first :: curve) eq_refl) as H. unfold dd_step in H.
  destruct (fold_left _ _ _) as [peak dd]. by destruct H as (_ & _ & H).
Qed.

(** The one-pass drawdown is the largest fall between two points of the curve in
    order, zero or negative: the same number as comparing every pair.  It only
    fails on an empty curve. *)
Theorem max_drawdown_spec (curve : list Z) :
  match _max_drawdown curve with
  | Ok dd => largest_fall curve dd ∧ dd ≤ 0
  | Raise e => curve = [] ∧ e = IndexError
  | NoFuel => False
  end.
Proof.
  pose proof (max_drawdown_fall curve) as H. destruct (_max_drawdown curve); [|done..].
  split; [done|]. destruct H as (Hall & i & _ & x & _ & _ & Hx & _).
  specialize (Hall i i x x ltac:(lia) Hx Hx). lia.
Qed.

(** ** No loop is cut off *)

Lemma replay_total side qty price : always_ends (replay_on_fill side qty price).
Proof.
  intros s. unfold replay_on_fill. destruct (_ || _).
  - assert (fuel_free (weighted_avg (_avg_entry_price_ticks s) (Z.abs (net_position s)) price
      (Z.abs (if side =? 0 then qty else - qty)))) as H by (unfold weighted_avg; auto 6 with total).
    by destruct (weighted_avg _ _ _ _).
  - set (d := _sign (net_position s)).
    assert (∀ q, fuel_free (closed_pnl d q price (_avg_entry_price_ticks s))) as H
      by (intros; unfold closed_pnl; auto 6 with total).
    specialize (H (Z.min (Z.abs (if side =? 0 then qty else - qty)) (Z.abs (net_position s)))).
    destruct (closed_pnl _ _ _ _); [|done..]. destruct (_ && _); [|done].
    pose proof (float_of_int_fuel price). by destruct (float_of_int price).
Qed.

Lemma report_rows_fuel rs s : fuel_free (report_rows rs s).
Proof.
  revert s. induction rs as [|r rs IH]; intros s; cbn [report_rows]; [done|].
  apply fuel_free_bind; [|exact IH].
  unfold report_row, row_int, row_get.
  repeat (apply fuel_free_bind; [repeat case_match; done|intros]).
  destruct (negb _); [done|].
  repeat (apply fuel_free_bind; [repeat (apply fuel_free_bind; intros); repeat case_match; done|intros]).
  pose proof (replay_total a0 a1 a2 (rs_replay s)) as H. by destruct (replay_on_fill _ _ _ _) as [? [| |]].
Qed.

Lemma build_report_fuel float_pow rs periods :
  (∀ x y, fuel_free (float_pow x y)) → fuel_free (build_report float_pow rs periods).
Proof.
  intros Hp. unfold build_report. apply fuel_free_bind; [apply report_rows_fuel|intros s].
  apply fuel_free_bind.
  { unfold _sharpe_ratio. destruct (_ <? _)%nat; [done|]. apply fuel_free_bind; [auto with total|intros m].
    apply fuel_free_bind; [auto with total|intros sd]. destruct (feqb sd f_zero); [done|].
    repeat (apply fuel_free_bind; [auto with total|intros]). apply num_op_fuel. }
  intros sh. apply fuel_free_bind.
  { pose proof (max_drawdown_spec (equity_curve s)) as H. by destruct (_max_drawdown _). }
  intros dd. apply fuel_free_bind; [|done]. unfold _win_rate. destruct (trade_pnls s); auto with total.
Qed.

(** ** What a report counts *)

(** The fills of a log, as (side, quantity, price). *)
Definition fill_of_row (r : row) : option (Z * Z * Z) :=
  match r !! "event"%string, r !! "incoming_side"%string, r !! "qty"%string,
        r !! "price_ticks"%string with
  | Some (VStr ev), Some (VInt s), Some (VInt q), Some (VInt p) =>
      if decide (ev = "fill"%string) then Some (s, q, p) else None
  | _, _, _, _ => None
  end.

Definition signed (side qty : Z) : Z := if side =? 0 then qty else - qty.

(** The running sums of a list, from [acc]. *)
Fixpoint equity (acc : Z) (deltas : list Z) : list Z :=
  acc :: match deltas with [] => [] | d :: ds => equity (acc + d) ds end.

(** Replaying fills one after the other, with the delta of each. *)
Fixpoint replay_all (fs : list (Z * Z * Z)) : M PositionReplay (list Z) :=
  match fs with
  | [] => mret []
  | (s, q, p) :: fs => d ← replay_on_fill s q p; ds ← replay_all fs; mret (d :: ds)
  end.

Lemma equity_app acc ds d : equity acc (ds ++ [d]) = equity acc ds ++ [acc + sumZ ds + d].
Proof.
  revert acc. induction ds as [|x ds IH]; intros acc; cbn [app equity].
  - rewrite sumZ_nil, Z.add_0_r. done.
  - rewrite IH, sumZ_cons. cbn [app]. do 3 f_equal. lia.
Qed.

Lemma equity_last acc ds : List.last (equity acc ds) 0 = acc + sumZ ds.
Proof.
  destruct ds as [|d ds _] using rev_ind; [by rewrite sumZ_nil, Z.add_0_r|]. rewrite equity_app, last_last.
  autorewrite with velo_rw. lia.
Qed.

Lemma report_row_fill r s s' :
  report_row r s = Ok s' →
  (fill_of_row r = None ∧ s' = s) ∨
  ∃ side q p d, fill_of_row r = Some (side, q, p) ∧
    replay_on_fill side q p (rs_replay s) = (rs_replay s', Ok d) ∧
    trade_pnls s' = trade_pnls s ++ filter (λ x, x ≠ 0) [d] ∧
    equity_curve s' = equity_curve s ++ [List.last (equity_curve s) 0 + d].
Proof.
  unfold report_row, fill_of_row, row_int, row_get. py_unfold.
  destruct (r !! "event"%string) as [ev|]; [|done]. case_bool_decide as Hev; cbn [negb].
  2:{ intros [= <-]. left. split; [|done]. destruct ev; try done.
      repeat case_match; try done. subst. done. }
  subst ev. destruct (r !! "incoming_side"%string) as [[side| |]|]; try done.
  destruct (r !! "qty"%string) as [[q| |]|]; try done.
  destruct (r !! "price_ticks"%string) as [[p| |]|]; try done.
  destruct (replay_on_fill side q p (rs_replay s)) as [x [d|e|]] eqn:Hr; try done.
  intros [= <-]. right. exists side, q, p, d. cbn. split_and!; try done.
  destruct (Z.eqb_spec d 0) as [->|]; [by rewrite app_nil_r|]. by rewrite decide_True.
Qed.

Lemma report_rows_spec rs s s' :
  report_rows rs s = Ok s' →
  ∃ ds, replay_all (omap fill_of_row rs) (rs_replay s) = (rs_replay s', Ok ds) ∧
    trade_pnls s' = trade_pnls s ++ filter (λ x, x ≠ 0) ds ∧
    ∀ acc ds0, equity_curve s = equity acc ds0 → equity_curve s' = equity acc (ds0 ++ ds).
Proof.
  revert s. induction rs as [|r rs IH]; intros s; cbn [report_rows].
  { intros [= <-]. exists []. cbn. rewrite app_nil_r. split_and!; try done.
    intros. by rewrite app_nil_r. }
  intros (s1 & Hr & Hrs)%res_bind_ok. destruct (IH s1 Hrs) as (ds & H1 & H2 & H3).
  destruct (report_row_fill r s s1 Hr) as [[Hf ->]|(side & q & p & d & Hf & Hd & Ht & He)];
    cbn [omap list_omap]; rewrite Hf; [by exists ds|].
  exists (d :: ds). cbn [replay_all]. py_unfold. rewrite Hd, H1. split_and!; [done| |].
  - rewrite H2, Ht, <- app_assoc. f_equal. by rewrite <- filter_app.
  - intros acc ds0 Heq. rewrite (cons_middle d ds0 ds), app_assoc. apply H3.
    by rewrite He, Heq, equity_last, equity_app.
Qed.

Lemma replay_on_fill_position side q p s s' d :
  replay_on_fill side q p s = (s', Ok d) →
  net_position s' = net_position s + signed side q ∧
  realized_pnl_ticks s' = realized_pnl_ticks s + d.
Proof.
  unfold replay_on_fill, signed. intros. repeat case_match; simplify_eq; cbn; lia.
Qed.

Lemma replay_all_position fs s s' ds :
  replay_all fs s = (s', Ok ds) →
  net_position s' = net_position s + sumZ ((λ f, signed f.1.1 f.1.2) <$> fs) ∧
  realized_pnl_ticks s' = realized_pnl_ticks s + sumZ ds ∧ length ds = length fs.
Proof.
  revert s ds. induction fs as [|[[side q] p] fs IH]; intros s ds; cbn [replay_all]; py_unfold.
  { intros [= <- <-]. cbn. autorewrite with velo_rw. split_and!; (done || lia). }
  destruct (replay_on_fill side q p s) as [s1 [d|e|]] eqn:H1; try done.
  destruct (replay_all fs s1) as [s2 [ds'|e|]] eqn:H2; try done. intros [= <- <-].
  apply replay_on_fill_position in H1 as [Hn Hr]. destruct (IH _ _ H2) as (Hn2 & Hr2 & Hl).
  cbn. autorewrite with velo_rw. cbn. split_and!; [lia|lia|by f_equal].
Qed.

(** ** The Sharpe ratio

    What the ratio of a list of trades is, in exact terms: 0.0 for fewer than two
    trades and for a deviation of 0.0, else the quotient of the mean and the
    deviation of the sample (squares over one less than the number of trades)
    times the periods in a year to the power 0.5.  The mean is the exact mean
    rounded once, the deviation the float [statistics] computes for the square
    root of the exact sample variance ([sqrt_rounded]); the division and the
    product round again. *)
Definition sharpe_of (float_pow : float → float → res float) (trades : list Z)
    (periods_per_year sharpe : num) : Prop :=
  if decide (length trades < 2)%nat then sharpe = NFloat f_zero else
  ∃ sd, sqrt_rounded (sample_variance (inject_Z <$> trades)) = Ok sd ∧
    if feqb sd f_zero then sharpe = NFloat f_zero else
    ∃ m q periods root, exact_mean (NInt <$> trades) = Ok m ∧ num_div m (NFloat sd) = Ok (NFloat q) ∧
      to_float periods_per_year = Ok periods ∧ float_pow periods half = Ok root ∧
      sharpe = NFloat (fmul q root).

Lemma int_data_finite (ts : list Z) : finite_data (NInt <$> ts).
Proof. apply Forall_fmap, Forall_true. intros z. by eexists. Qed.

Lemma sharpe_ratio_spec float_pow ts periods sh :
  _sharpe_ratio float_pow ts periods = Ok sh → sharpe_of float_pow ts periods sh.
Proof.
  unfold _sharpe_ratio, sharpe_of. intros H. destruct (Nat.ltb_spec (length ts) 2) as [Hl|Hl].
  { rewrite decide_True by done. by apply (inj Ok) in H. }
  rewrite decide_False by lia. apply res_bind_ok in H as (m & Hm & H).
  apply res_bind_ok in H as (sd & Hsd & H). rewrite stdev_exact in Hsd by done.
  exists sd. split; [exact Hsd|]. destruct (feqb sd f_zero); [by apply (inj Ok) in H|].
  apply res_bind_ok in H as (q & Hq & H). apply res_bind_ok in H as (f & Hf & H).
  apply res_bind_ok in H as (r & Hr & H). destruct (num_div_float _ _ _ Hq) as [q' ->].
  exists m, q', f, r. apply (inj Ok) in H. split; [|by split_and!].
  rewrite <- Hm. symmetry. apply mean_exact; [apply int_data_finite|]. by destruct ts; cbn in *; [lia|].
Qed.

Lemma sharpe_constant float_pow t ts periods sh :
  Forall (eq t) ts → _sharpe_ratio float_pow ts periods = Ok sh → sh = NFloat f_zero.
Proof.
  intros Ht H. unfold _sharpe_ratio in H. destruct (Nat.ltb_spec (length ts) 2) as [Hl|Hl].
  { by apply (inj Ok) in H. }
  apply res_bind_ok in H as (m & _ & H). rewrite (stdev_constant t) in H by done.
  by apply (inj Ok) in H.
Qed.

Lemma win_rate_spec ts wr :
  _win_rate ts = Ok wr →
  ts = [] ∧ wr = NFloat f_zero ∨
  ∃ w, int_truediv (Z.of_nat (length (filter (λ d, 0 < d) ts))) (Z.of_nat (length ts)) = Ok w ∧ wr = NFloat w.
Proof.
  unfold _win_rate. intros H. destruct ts as [|t ts]; [left; by apply (inj Ok) in H|right].
  apply res_bind_ok in H as (w & Hw & H). apply (inj Ok) in H. by exists w.
Qed.

(** (C30) Every figure of a report comes from one sequence of deltas, one per fill of
    the log.  Their sum is the realized P&L.  A trade is a non-zero delta, so
    opening fills and fills that close at the entry price are not counted, though
    the design document says that [num_trades] is the number of fills.  The win
    rate is the number of positive deltas over the number of trades, rounded
    once, or 0.0 without trades.  The drawdown is the largest fall of the running
    sum, which starts from 0.  The Sharpe ratio is that of the trades
    ([sharpe_of]), and 0.0 when they are all equal.  The replayed position is the
    signed sum of the fills. *)
Theorem report_figures (float_pow : float → float → res float) (rows : list row)
    (periods_per_year : num) (rep : BacktestReport) :
  build_report float_pow rows periods_per_year = Ok rep →
  let fs := omap fill_of_row rows in
  ∃ ds p, replay_all fs new_replay = (p, Ok ds) ∧ length ds = length fs ∧
    net_position p = sumZ ((λ f, signed f.1.1 f.1.2) <$> fs) ∧
    total_realized_pnl_ticks rep = sumZ ds ∧
    let trades := filter (λ d, d ≠ 0) ds in
    num_trades rep = Z.of_nat (length trades) ∧
    largest_fall (equity 0 ds) (max_drawdown_ticks rep) ∧
    (num_trades rep = 0 ∧ win_rate rep = NFloat f_zero ∨
     ∃ w, int_truediv (Z.of_nat (length (filter (λ d, 0 < d) ds))) (num_trades rep) = Ok w ∧
       win_rate rep = NFloat w) ∧
    sharpe_of float_pow trades periods_per_year (sharpe_ratio rep) ∧
    (∀ t, Forall (eq t) trades → sharpe_ratio rep = NFloat f_zero).
Proof.
  unfold build_report. intros (s & Hs & (sh & Hsh & (dd & Hdd & (wr & Hwr & Hrep)%res_bind_ok)%res_bind_ok)
    %res_bind_ok)%res_bind_ok. apply (inj Ok) in Hrep as <-. cbn.
  destruct (report_rows_spec _ _ _ Hs) as (ds & Hr & Ht & He). cbn in Ht.
  specialize (He 0 [] eq_refl). cbn [app] in He.
  destruct (replay_all_position _ _ _ _ Hr) as (Hn & Hp & Hl). cbn in Hn, Hp.
  exists ds, (rs_replay s). rewrite Ht in Hsh, Hwr |- *.
  split; [done|]. split; [done|]. split; [lia|]. split; [lia|]. split; [done|]. split; [|split; [|split]].
  - pose proof (max_drawdown_fall (equity_curve s)) as Hf. by rewrite Hdd, He in Hf.
  - destruct (win_rate_spec _ _ Hwr) as [[-> ->]|(w & Hw & ->)]; [by left|right].
    exists w. split; [|done]. rewrite <- Hw. do 3 f_equal.
    rewrite list_filter_filter. apply list_filter_iff. intros; lia.
  - by apply sharpe_ratio_spec.
  - intros t Ht'. exact (sharpe_constant _ _ _ _ _ Ht' Hsh).
Qed.

(** ** Exactness

    The accounting the float replay is meant to compute, on integers: a position
    with one entry price.  A fill against the position realizes the price
    difference on the quantity it closes; a fill through flat re-enters at its
    own price.  It is undefined when a fill adds to a position at another price
    than the entry, the case where the average need not be an integer. *)
Record IntReplay := { ir_net : Z; ir_entry : Z; ir_realized : Z }.

Definition int_fill (f : Z * Z * Z) (s : IntReplay) : option (IntReplay * Z) :=
  let '(side, q, p) := f in
  let sq := signed side q in
  if decide (q ≤ 0) then None
  else if decide (ir_net s = 0) then
    Some ({| ir_net := sq; ir_entry := p; ir_realized := ir_realized s |}, 0)
  else if decide (0 < ir_net s * sq) then
    if decide (p = ir_entry s) then
      Some ({| ir_net := ir_net s + sq; ir_entry := p; ir_realized := ir_realized s |}, 0)
    else None
  else
    let d := Z.sgn (ir_net s) * Z.min (Z.abs sq) (Z.abs (ir_net s)) * (p - ir_entry s) in
    Some ({| ir_net := ir_net s + sq;
             ir_entry := if decide (ir_net s * (ir_net s + sq) < 0) then p else ir_entry s;
             ir_realized := ir_realized s + d |}, d).

Fixpoint int_replay (fs : list (Z * Z * Z)) (s : IntReplay) : option (IntReplay * list Z) :=
  match fs with
  | [] => Some (s, [])
  | f :: fs =>
      '(s, d) ← int_fill f s; '(s, ds) ← int_replay fs s; Some (s, d :: ds)
  end.

(** What cash flow says of the same fills: buying costs, selling pays. *)
Definition cash (fs : list (Z * Z * Z)) : Z :=
  sumZ ((λ f, - signed f.1.1 f.1.2 * f.2) <$> fs).

(** The signed quantity a fill closes: all of the position when it flips, else
    all of the fill. *)
Lemma closed_qty n sq :
  n ≠ 0 → n * sq < 0 →
  Z.sgn n * Z.min (Z.abs sq) (Z.abs n) = if decide (n * (n + sq) < 0) then n else - sq.
Proof.
  intros Hn Hs. destruct (Z.lt_trichotomy n 0) as [Hlt|[|Hgt]]; [|done|].
  - assert (0 < sq) by nia. rewrite Z.sgn_neg by done. case_decide; nia.
  - assert (sq < 0) by nia. rewrite Z.sgn_pos by done. case_decide; nia.
Qed.

Lemma signed_nonzero side q : 0 < q → signed side q ≠ 0 ∧ Z.abs (signed side q) = q.
Proof. unfold signed. case_match; lia. Qed.

Lemma int_fill_cash f s s' d :
  int_fill f s = Some (s', d) →
  ir_realized s' = ir_realized s + d ∧
  ir_realized s' - ir_net s' * ir_entry s' =
    ir_realized s - ir_net s * ir_entry s + (- signed f.1.1 f.1.2 * f.2).
Proof.
  destruct f as [[side q] p]. unfold int_fill. cbn [fst snd]. intros H.
  destruct (decide (q ≤ 0)); [done|]. destruct (signed_nonzero side q ltac:(lia)) as [Hsq _].
  set (sq := signed side q) in *. case_decide as Hn; [simplify_eq; cbn; split; nia|].
  case_decide as Hd; [case_decide; simplify_eq; cbn; split; nia|]. simplify_eq. cbn.
  rewrite closed_qty by nia. split; [done|]. case_decide; nia.
Qed.

Lemma int_replay_cash fs s s' ds :
  int_replay fs s = Some (s', ds) →
  ir_realized s' = ir_realized s + sumZ ds ∧
  ir_realized s' - ir_net s' * ir_entry s' = ir_realized s - ir_net s * ir_entry s + cash fs.
Proof.
  revert s ds. induction fs as [|f fs IH]; intros s ds; cbn [int_replay].
  { intros [= <- <-]. unfold cash. cbn. autorewrite with velo_rw. lia. }
  intros H. destruct (int_fill f s) as [[s1 d]|] eqn:Hf; [|done].
  destruct (int_replay fs s1) as [[s2 ds']|] eqn:Hr; [|cbn in H; by rewrite Hr in H].
  cbn in H. rewrite Hr in H. cbn in H. simplify_eq.
  destruct (int_fill_cash _ _ _ _ Hf), (IH _ _ Hr). unfold cash in *. cbn [fmap list_fmap].
  autorewrite with velo_rw. lia.
Qed.

(** The magnitudes for which floats are exact: prices up to [P], quantities
    adding up to at most [Q]. *)
Definition within (P : Z) (f : Z * Z * Z) : Prop := Z.abs f.2 ≤ P.

(** The float replay is at [s] when the integer one is at [i]. *)
Record replay_rel (P : Z) (s : PositionReplay) (i : IntReplay) : Prop := {
  rr_net : net_position s = ir_net i;
  rr_realized : realized_pnl_ticks s = ir_realized i;
  rr_avg : repr (_avg_entry_price_ticks s) (ir_entry i) 0;
  rr_entry : Z.abs (ir_entry i) ≤ P;
}.

Lemma sign_sgn x : _sign x = Z.sgn x.
Proof. unfold _sign. destruct x; reflexivity. Qed.

Lemma weighted_avg_exact avg e o p a P Q :
  repr avg e 0 → Z.abs e ≤ P → Z.abs p ≤ P → 0 ≤ o → 0 < a → o + a ≤ Q →
  2 * P * Q < 2 ^ 53 → Q < 2 ^ 53 → (o = 0 ∨ e = p) →
  ∃ z, weighted_avg avg o p a = Ok z ∧ repr z p 0.
Proof.
  intros Ha He Hp Ho Hapos HQ HPQ HQs Hop. unfold weighted_avg.
  assert (small o) by (unfold small; lia). assert (small (o + a)) by (unfold small; lia).
  assert (small (p * a)) by (unfold small; nia).
  destruct (float_of_int_repr o) as (xo & -> & Ro); [done|].
  destruct (float_of_int_repr (p * a)) as (xa & -> & Ra); [done|].
  destruct (float_of_int_repr (o + a)) as (xn & -> & Rn); [done|]. cbn [mbind res_bind].
  assert (small (e * o)) by (unfold small; nia).
  pose proof (fmul_int _ _ _ _ Ha Ro ltac:(done)) as Rm.
  assert (small (e * o + p * a)) by (destruct Hop as [->| ->]; unfold small in *; nia).
  pose proof (fadd_int _ _ _ _ Rm Ra ltac:(done)) as Rs.
  apply (fdiv_int _ _ _ _ Rs Rn p); [lia|destruct Hop as [->| ->]; lia|unfold small; nia].
Qed.

Lemma closed_pnl_exact k c p avg e P Q :
  repr avg e 0 → Z.abs e ≤ P → Z.abs p ≤ P → Z.abs (k * c) ≤ Q → 1 ≤ Q →
  2 * P * Q < 2 ^ 53 → Q < 2 ^ 53 →
  closed_pnl k c p avg = Ok (k * c * (p - e)).
Proof.
  intros Ha He Hp Hk HQ HPQ HQs. unfold closed_pnl.
  destruct (float_of_int_repr p) as (xp & -> & Rp); [nia|].
  destruct (float_of_int_repr (k * c)) as (xk & -> & Rk); [lia|]. cbn [mbind res_bind].
  pose proof (fsub_int _ _ _ _ Rp Ha ltac:(unfold small; nia)) as Rd.
  apply py_round_repr. apply (fmul_int _ _ _ _ Rk Rd). unfold small.
  rewrite Z.abs_mul. assert (Z.abs (p - e) ≤ 2 * P) by lia. nia.
Qed.

Lemma fill_sim P Q s i side q p i' d :
  2 * P * Q < 2 ^ 53 → Q < 2 ^ 53 →
  replay_rel P s i → within P (side, q, p) → Z.abs (ir_net i) + q ≤ Q →
  int_fill (side, q, p) i = Some (i', d) →
  ∃ s', replay_on_fill side q p s = (s', Ok d) ∧ replay_rel P s' i' ∧ 0 < q ∧
    Z.abs (ir_net i') ≤ Z.abs (ir_net i) + q.
Proof.
  intros HPQ HQs [Hn Hr Ha He] Hp HQ. unfold within in Hp. cbn [snd] in Hp. unfold int_fill.
  destruct (decide (q ≤ 0)); [done|]. destruct (signed_nonzero side q ltac:(lia)) as [Hsq Habs].
  unfold replay_on_fill. change (if side =? 0 then q else - q) with (signed side q).
  set (sq := signed side q) in *. rewrite !sign_sgn, Hn, Habs. intros Hi.
  destruct (decide (ir_net i = 0)) as [H0|H0].
  { injection Hi as <- <-. rewrite H0. change (0 =? 0) with true. change (Z.abs 0) with 0. cbn [orb].
    destruct (weighted_avg_exact _ _ 0 p q P Q Ha He Hp ltac:(lia) ltac:(lia) ltac:(lia) HPQ HQs
      ltac:(by left)) as (z & -> & Hz).
    eexists. split; [reflexivity|]. split; [by split; cbn; rewrite ?Hn, ?H0|cbn; lia]. }
  rewrite (proj2 (Z.eqb_neq _ _)) by done. cbn [orb].
  destruct (decide (0 < ir_net i * sq)) as [Hs|Hs].
  - destruct (decide (p = ir_entry i)) as [Hpe|]; [|done]. injection Hi as <- <-.
    rewrite (proj2 (Z.eqb_eq _ _)) by nia.
    destruct (weighted_avg_exact _ _ (Z.abs (ir_net i)) p q P Q Ha He Hp ltac:(lia) ltac:(lia)
      ltac:(lia) HPQ HQs ltac:(by right)) as (z & -> & Hz).
    eexists. split; [reflexivity|]. split; [by split; cbn|cbn; lia].
  - injection Hi as <- <-. rewrite (proj2 (Z.eqb_neq _ _)) by nia.
    assert (Z.abs (Z.sgn (ir_net i) * Z.min q (Z.abs (ir_net i))) ≤ Q) as Hc by nia.
    rewrite (closed_pnl_exact _ _ p _ _ P Q Ha He Hp Hc ltac:(lia) HPQ HQs).
    cbn [net_position realized_pnl_ticks _avg_entry_price_ticks].
    destruct (float_of_int_repr p) as (xp & Hxp & Rp); [nia|]. rewrite Hxp, sign_sgn.
    set (flip := negb (ir_net i + sq =? 0) && negb (Z.sgn (ir_net i + sq) =? Z.sgn (ir_net i))).
    assert (flip = bool_decide (ir_net i * (ir_net i + sq) < 0)) as ->.
    { subst flip. case_bool_decide as Hb.
      - rewrite (proj2 (Z.eqb_neq _ _)), (proj2 (Z.eqb_neq _ _)) by nia. done.
      - destruct (Z.eqb_spec (ir_net i + sq) 0) as [|Hne]; [done|]. cbn [negb andb].
        rewrite (proj2 (Z.eqb_eq _ _)); [done|]. nia. }
    case_bool_decide as Hb; (eexists; split; [reflexivity|]);
      (split; [split; cbn; rewrite ?decide_True, ?decide_False by done; (done || congruence)|cbn; lia]).
Qed.

Lemma int_replay_qty fs i i' ds :
  int_replay fs i = Some (i', ds) → 0 ≤ sumZ ((λ f, f.1.2) <$> fs).
Proof.
  revert i i' ds. induction fs as [|[[side q] p] fs IH]; intros i i' ds; cbn [int_replay]; [done|].
  destruct (int_fill (side, q, p) i) as [[i1 d]|] eqn:Hf; [|done]. cbn.
  destruct (int_replay fs i1) as [[i2 ds']|] eqn:Hr; [|done]. intros _.
  autorewrite with velo_rw. apply IH in Hr. unfold int_fill in Hf.
  destruct (decide (q ≤ 0)); [done|]. cbn. lia.
Qed.

(** A fill moves the account by no more than its quantity. *)
Lemma fill_sim_bound side q p i i' d :
  int_fill (side, q, p) i = Some (i', d) →
  0 < q ∧ Z.abs (ir_net i') ≤ Z.abs (ir_net i) + q ∧ ir_realized i' = ir_realized i + d.
Proof.
  unfold int_fill. intros H. destruct (decide (q ≤ 0)); [done|].
  destruct (signed_nonzero side q ltac:(lia)) as [Hsq Habs].
  repeat case_decide; simplify_eq; cbn; split_and!; lia.
Qed.

Lemma replay_sim P Q fs s i i' ds :
  2 * P * Q < 2 ^ 53 → Q < 2 ^ 53 → replay_rel P s i → Forall (within P) fs →
  Z.abs (ir_net i) + sumZ ((λ f, f.1.2) <$> fs) ≤ Q →
  int_replay fs i = Some (i', ds) →
  ∃ s', replay_all fs s = (s', Ok ds) ∧ replay_rel P s' i'.
Proof.
  intros HPQ HQs Hrel Hw. revert s i ds Hrel.
  induction Hw as [|[[side q] p] fs Hp _ IH]; intros s i ds Hrel HQ; cbn [int_replay replay_all].
  { intros [= <- <-]. by exists s. }
  destruct (int_fill (side, q, p) i) as [[i1 d]|] eqn:Hf; [|done]. cbn.
  destruct (int_replay fs i1) as [[i2 ds']|] eqn:Hr; [|done]. cbn. intros [= <- <-].
  pose proof (int_replay_qty _ _ _ _ Hr). cbn [fmap list_fmap fst snd] in HQ. autorewrite with velo_rw in HQ.
  destruct (fill_sim P Q s i side q p i1 d) as (s1 & H1 & Hrel1 & Hq & Hb); try done.
  { cbn in HQ. lia. }
  destruct (IH s1 i1 ds') as (s' & H2 & Hrel2); [done|cbn in HQ; lia|done|].
  exists s'. py_unfold. by rewrite H1, H2.
Qed.

(** (C29) The replay is exact wherever an integer account exists: on any sequence of
    fills that never adds to a position at a price other than its entry, and
    whose prices and total quantity are small enough (twice their product below
    2^53), the float replay raises nothing, rounds nothing, and its realized P&L
    is the cash of the fills plus the open position at its entry price.  In
    particular a sequence that ends flat has realized exactly its cash flow. *)
Theorem replay_exact (P Q : Z) (fs : list (Z * Z * Z)) i ds :
  0 ≤ P → 2 * P * Q < 2 ^ 53 → Q < 2 ^ 53 → Forall (within P) fs →
  sumZ ((λ f, f.1.2) <$> fs) ≤ Q →
  int_replay fs {| ir_net := 0; ir_entry := 0; ir_realized := 0 |} = Some (i, ds) →
  ∃ s, replay_all fs new_replay = (s, Ok ds) ∧
    net_position s = sumZ ((λ f, signed f.1.1 f.1.2) <$> fs) ∧
    realized_pnl_ticks s = cash fs + net_position s * ir_entry i ∧
    repr (_avg_entry_price_ticks s) (ir_entry i) 0.
Proof.
  intros HP HPQ HQs Hw HQ Hi. set (i0 := {| ir_net := 0; ir_entry := 0; ir_realized := 0 |}) in *.
  assert (replay_rel P new_replay i0) as Hrel.
  { split; cbn; [done|done|by apply repr_zero|lia]. }
  destruct (replay_sim P Q fs _ _ _ _ HPQ HQs Hrel Hw HQ Hi) as (s & Hs & [Hn Hr Ha _]).
  destruct (int_replay_cash _ _ _ _ Hi) as [_ Hcash]. destruct (replay_all_position _ _ _ _ Hs) as [Hp _].
  exists s. cbn in *. split; [done|]. split; [lia|]. split; [|done]. rewrite Hr, Hn. lia.
Qed.

(** Two round trips: long 10 at 100 closed at 105 and 98, then a flip. *)
Lemma replay_exact_witness :
  let fs := [(0, 10, 100); (1, 4, 105); (1, 6, 98); (1, 5, 99); (0, 8, 90)] in
  ∃ s, replay_all fs new_replay = (s, Ok [0; 20; -12; 0; 45]) ∧ net_position s = 3 ∧
    realized_pnl_ticks s = cash fs + 3 * 90.
Proof.
  intros fs.
  destruct (replay_exact 1000 100 fs {| ir_net := 3; ir_entry := 90; ir_realized := 53 |}
    [0; 20; -12; 0; 45]) as (s & Hs & Hn & Hr & _);
    [lia|lia|lia|repeat constructor; unfold within; cbn; lia|vm_compute; discriminate|
     vm_compute; reflexivity|].
  exists s. split; [exact Hs|]. rewrite Hr, Hn. split; reflexivity.
Defined.

Lemma report_figures_witness :
  let rows := (λ f : Z * Z * Z, row_of [("event", VStr "fill"); ("incoming_side", VInt f.1.1);
                ("qty", VInt f.1.2); ("price_ticks", VInt f.2)]%string) <$>
              [(0, 10, 100); (1, 4, 105); (1, 6, 98)] in
  let pow := λ x _, Ok x in
  ∃ rep ds p, build_report pow rows (NInt 1) = Ok rep ∧
    replay_all (omap fill_of_row rows) new_replay = (p, Ok ds) ∧ ds = [0; 20; -12] ∧
    num_trades rep = 2 ∧ total_realized_pnl_ticks rep = 8 ∧ max_drawdown_ticks rep = -12 ∧
    win_rate rep = NFloat (dyadic 1 (-1)).
Proof.
  intros rows pow.
  assert (∃ rep, build_report pow rows (NInt 1) = Ok rep ∧ total_realized_pnl_ticks rep = 8 ∧
    max_drawdown_ticks rep = -12 ∧ win_rate rep = NFloat (dyadic 1 (-1))) as (rep & Hb & Ht & Hd & Hw).
  { eexists. split; [vm_compute; reflexivity|]. split_and!; vm_compute; reflexivity. }
  destruct (report_figures pow rows (NInt 1) rep Hb) as (ds & p & Hr & _ & _ & _ & Hn & _).
  assert (ds = [0; 20; -12]) as ->.
  { assert ((replay_all (omap fill_of_row rows) new_replay).2 = Ok [0; 20; -12]) as He
      by (vm_compute; reflexivity).
    rewrite Hr in He. by apply (inj Ok) in He. }
  exists rep, [0; 20; -12], p. rewrite Hn. split_and!; try done.
Defined.
