(* ===== verification/RiskPosition.v ===== *)
(** * The risk engine's position tracker ([risk/src/position.rs])

    The Rust counterpart of the report's replay, which the Python module calls
    "the same math".  It differs in one place: Rust truncates the average entry
    price to an [i64] before it multiplies, Python rounds the product.  Integer
    overflow is a panic ([None]), as in a build with overflow checks. *)

From S2P Require Import Prelude Bytes PyFloat FloatBounds PyStatistics Protocol TradeLog BacktestReport.

Open Scope Z_scope.

(** [x as i64] on an [f64]: truncation, saturating; a NaN is 0. *)
Definition f64_as_i64 (x : float) : Z :=
  match x with
  | S754_zero _ | S754_nan => 0
  | S754_infinity s => if s then - 2 ^ 63 else 2 ^ 63 - 1
  | S754_finite s m e =>
      let t := cond_Zopp s (if 0 <=? e then Zpos m * 2 ^ e else Zpos m / 2 ^ (- e)) in
      Z.max (- 2 ^ 63) (Z.min (2 ^ 63 - 1) t)
  end.

(** [n as f64] on an integer of at most 64 bits. *)
Definition as_f64 (n : Z) : float := dyadic n 0.

(** Checked [i64] arithmetic. *)
Definition chk (n : Z) : option Z := if decide (i64 n) then Some n else None.

Record PositionTracker := {
  pt_net_position : Z;
  pt_realized_pnl_ticks : Z;
  pt_last_trade_price_ticks : Z;
  pt_avg_entry_price_ticks : float;
}.

Definition new_tracker : PositionTracker :=
  {| pt_net_position := 0; pt_realized_pnl_ticks := 0; pt_last_trade_price_ticks := 0;
     pt_avg_entry_price_ticks := f_zero |}.

Definition tracker_on_fill (incoming_side : Side) (quantity price_ticks : Z) (t : PositionTracker) :
    option PositionTracker :=
  let signed_qty := match incoming_side with BUY => quantity | SELL => - quantity end in
  let net := pt_net_position t in
  let avg := pt_avg_entry_price_ticks t in
  if (net =? 0) || (Z.sgn net =? Z.sgn signed_qty) then
    let old_abs := as_f64 (Z.abs net) in
    let add_abs := as_f64 (Z.abs signed_qty) in
    net' ← chk (net + signed_qty);
    Some {| pt_net_position := net'; pt_realized_pnl_ticks := pt_realized_pnl_ticks t;
            pt_last_trade_price_ticks := price_ticks;
            pt_avg_entry_price_ticks :=
              SFdiv prec emax (fadd (fmul avg old_abs) (fmul (as_f64 price_ticks) add_abs))
                (fadd old_abs add_abs) |}
  else
    let direction := Z.sgn net in
    let closing_qty := Z.min (Z.abs signed_qty) (Z.abs net) in
    k ← chk (direction * closing_qty);
    diff ← chk (price_ticks - f64_as_i64 avg);
    pnl ← chk (k * diff);
    realized ← chk (pt_realized_pnl_ticks t + pnl);
    net' ← chk (net + signed_qty);
    Some {| pt_net_position := net'; pt_realized_pnl_ticks := realized;
            pt_last_trade_price_ticks := price_ticks;
            pt_avg_entry_price_ticks :=
              if negb (net' =? 0) && negb (Z.sgn net' =? direction) then as_f64 price_ticks
              else avg |}.

Definition unrealized_pnl_ticks (t : PositionTracker) : option Z :=
  diff ← chk (pt_last_trade_price_ticks t - f64_as_i64 (pt_avg_entry_price_ticks t));
  chk (pt_net_position t * diff).

Fixpoint tracker_all (fs : list (Z * Z * Z)) (t : PositionTracker) : option PositionTracker :=
  match fs with
  | [] => Some t
  | (s, q, p) :: fs =>
      t ← tracker_on_fill (if s =? 0 then BUY else SELL) q p t; tracker_all fs t
  end.

(** The claim "same math" does not hold in general: buying 1 at 100 and 1 at 101
    and selling 2 at 102 realizes 3 in the Python report and 4 in the Rust
    tracker, which truncates the average 100.5 to 100. *)
Theorem python_rust_diverge :
  let fs := [(0, 1, 100); (0, 1, 101); (1, 2, 102)] in
  (realized_pnl_ticks <$> match replay_all fs new_replay with (s, Ok _) => Some s | _ => None end)
    = Some 3 ∧
  (pt_realized_pnl_ticks <$> tracker_all fs new_tracker) = Some 4.
Proof. split; vm_compute; reflexivity. Qed.

(** ** Where the two do agree *)

Lemma f64_as_i64_repr x n : repr x n 0 → small n → f64_as_i64 x = n.
Proof.
  unfold small. intros (F & V & H) Hn. destruct x as [s| | |s m e]; try done.
  - by apply dyeq_zero_l in H as ->.
  - cbn [f64_as_i64 fval] in *. cbv zeta.
    assert (cond_Zopp s (if 0 <=? e then Zpos m * 2 ^ e else Zpos m / 2 ^ (- e)) = n) as ->; [|lia].
    destruct (Z.leb_spec 0 e).
    + rewrite (dyeq_base 0) in H by lia. rewrite !Z.sub_0_r, Z.mul_1_r in H.
      by rewrite cond_Zopp_scale.
    + rewrite (dyeq_base e) in H by lia. rewrite Z.sub_diag, Z.mul_1_r in H.
      replace (0 - e) with (- e) in H by lia. pose proof (Z.pow_pos_nonneg 2 (- e)).
      assert (Zpos m = cond_Zopp s n * 2 ^ (- e)) as -> by (destruct s; cbn in *; lia).
      rewrite Z.div_mul by lia. by destruct s; cbn; lia.
Qed.

Lemma as_f64_repr n : small n → repr (as_f64 n) n 0.
Proof. intros. apply dyadic_repr. by split; [|lia]. Qed.

Lemma chk_ok n : i64 n → chk n = Some n.
Proof. intros. unfold chk. by rewrite decide_True. Qed.

(** The tracker is at [t] when the integer account is at [i]. *)
Record tracker_rel (P : Z) (t : PositionTracker) (i : IntReplay) : Prop := {
  tr_net : pt_net_position t = ir_net i;
  tr_realized : pt_realized_pnl_ticks t = ir_realized i;
  tr_avg : repr (pt_avg_entry_price_ticks t) (ir_entry i) 0;
  tr_entry : Z.abs (ir_entry i) ≤ P;
}.

Lemma rust_avg_exact avg e o p a P Q :
  repr avg e 0 → Z.abs e ≤ P → Z.abs p ≤ P → 0 ≤ o → 0 < a → o + a ≤ Q →
  2 * P * Q < 2 ^ 53 → Q < 2 ^ 53 → (o = 0 ∨ e = p) →
  repr (SFdiv prec emax (fadd (fmul avg (as_f64 o)) (fmul (as_f64 p) (as_f64 a)))
    (fadd (as_f64 o) (as_f64 a))) p 0.
Proof.
  intros Ha He Hp Ho Hapos HQ HPQ HQs Hop.
  assert (small o ∧ small a ∧ small (o + a)) as (So & Sa & Soa) by (unfold small; lia).
  assert (small p) as Sp by (unfold small; nia).
  pose proof (fmul_int _ _ _ _ Ha (as_f64_repr o So) ltac:(unfold small; nia)) as R1.
  pose proof (fmul_int _ _ _ _ (as_f64_repr p Sp) (as_f64_repr a Sa) ltac:(unfold small; nia)) as R2.
  pose proof (fadd_int _ _ _ _ R1 R2 ltac:(destruct Hop as [->| ->]; unfold small; nia)) as R3.
  pose proof (fadd_int _ _ _ _ (as_f64_repr o So) (as_f64_repr a Sa) Soa) as R4.
  destruct (fdiv_int _ _ _ _ R3 R4 p) as (z & Hz & Rz); [lia|destruct Hop as [->| ->]; lia|done|].
  destruct R4 as (_ & _ & Hv). unfold fdiv in Hz.
  destruct (fadd (as_f64 o) (as_f64 a)) as [s| | |]; [|by apply (inj Ok) in Hz as <-..].
  apply dyeq_zero_l in Hv. lia.
Qed.

Lemma tracker_sim_step P Q t i side q p i' d :
  2 * P * Q < 2 ^ 53 → Q < 2 ^ 53 → tracker_rel P t i → within P (side, q, p) →
  Z.abs (ir_net i) + q ≤ Q → Z.abs (ir_realized i) + Z.abs d < 2 ^ 62 →
  int_fill (side, q, p) i = Some (i', d) →
  ∃ t', tracker_on_fill (if side =? 0 then BUY else SELL) q p t = Some t' ∧ tracker_rel P t' i'.
Proof.
  intros HPQ HQs [Hn Hr Ha He] Hp HQ Hd. unfold within in Hp. cbn [snd] in Hp. unfold int_fill.
  destruct (decide (q ≤ 0)); [done|]. destruct (signed_nonzero side q ltac:(lia)) as [Hsq Habs].
  unfold tracker_on_fill.
  assert (match (if side =? 0 then BUY else SELL) with BUY => q | SELL => - q end = signed side q)
    as -> by (unfold signed; by destruct (side =? 0)).
  set (sq := signed side q) in *. cbv zeta. rewrite Hn, Habs. intros Hi.
  assert (i64 (ir_net i + sq)) as Hi64 by (unfold i64; lia).
  destruct (decide (ir_net i = 0)) as [H0|H0].
  { injection Hi as <- <-. rewrite (proj2 (Z.eqb_eq _ _)) by done. cbn [orb].
    rewrite chk_ok by done. eexists. split; [reflexivity|]. split; cbn; [lia|done| |done].
    rewrite H0. change (Z.abs 0) with 0. eapply rust_avg_exact; eauto; lia. }
  rewrite (proj2 (Z.eqb_neq _ _)) by done. cbn [orb].
  destruct (decide (0 < ir_net i * sq)) as [Hs|Hs].
  - destruct (decide (p = ir_entry i)) as [Hpe|]; [|done]. injection Hi as <- <-.
    rewrite (proj2 (Z.eqb_eq _ _)) by nia. rewrite chk_ok by done.
    eexists. split; [reflexivity|]. split; cbn; [lia|done| |done].
    eapply rust_avg_exact; eauto; lia.
  - injection Hi as <- <-. rewrite (proj2 (Z.eqb_neq _ _)) by nia.
    rewrite (f64_as_i64_repr _ _ Ha) by (unfold small; nia).
    set (c := Z.sgn (ir_net i) * Z.min q (Z.abs (ir_net i))) in *.
    assert (Z.abs c ≤ Q) as Hc by (subst c; nia).
    assert (Z.abs (c * (p - ir_entry i)) < 2 ^ 62) as Hpnl by lia.
    rewrite (chk_ok c), (chk_ok (p - _)) by (unfold i64; nia). cbn [mbind option_bind].
    rewrite (chk_ok (c * _)) by (unfold i64; lia). cbn [mbind option_bind].
    rewrite Hr, (chk_ok (ir_realized i + _)) by (unfold i64; lia). cbn [mbind option_bind].
    rewrite chk_ok by done. cbn [mbind option_bind].
    eexists. split; [reflexivity|]. split; cbn; [lia|done| |by case_decide].
    destruct (Z.eqb_spec (ir_net i + sq) 0) as [Hz|Hne]; cbn [negb andb].
    + by rewrite decide_False by (rewrite Hz; lia).
    + case_decide as Hb.
      * rewrite (proj2 (Z.eqb_neq _ _)) by nia. apply as_f64_repr. unfold small. nia.
      * by rewrite (proj2 (Z.eqb_eq _ _)) by nia.
Qed.

(** (C31) Wherever an integer account exists, the two implementations agree: on any
    sequence of fills that never adds to a position at a price other than its
    entry, with small prices and quantities, the Rust tracker overflows nothing
    and ends with the position and the realized P&L of the Python replay. *)
Theorem python_rust_agree (P Q : Z) (fs : list (Z * Z * Z)) i ds :
  0 ≤ P → 2 * P * Q < 2 ^ 53 → Q < 2 ^ 53 → Forall (within P) fs →
  sumZ ((λ f, f.1.2) <$> fs) ≤ Q → sumZ (Z.abs <$> ds) < 2 ^ 62 →
  int_replay fs {| ir_net := 0; ir_entry := 0; ir_realized := 0 |} = Some (i, ds) →
  ∃ s t, replay_all fs new_replay = (s, Ok ds) ∧ tracker_all fs new_tracker = Some t ∧
    pt_net_position t = net_position s ∧ pt_realized_pnl_ticks t = realized_pnl_ticks s.
Proof.
  intros HP HPQ HQs Hw HQ Hds Hi. set (i0 := {| ir_net := 0; ir_entry := 0; ir_realized := 0 |}) in *.
  assert (replay_rel P new_replay i0) as Hrel0.
  { split; cbn; [done|done|by apply repr_zero|lia]. }
  assert (tracker_rel P new_tracker i0) as Hrel.
  { split; cbn; [done|done|by apply repr_zero|lia]. }
  assert (Z.abs (ir_net i0) + sumZ ((λ f, f.1.2) <$> fs) ≤ Q) as HQ' by (cbn; lia).
  assert (Z.abs (ir_realized i0) + sumZ (Z.abs <$> ds) < 2 ^ 62) as Hd' by (cbn; lia).
  destruct (replay_sim P Q fs _ _ _ _ HPQ HQs Hrel0 Hw HQ' Hi) as (s & Hs & [Hn Hr _ _]).
  clear Hrel0.
  exists s. enough (∃ t, tracker_all fs new_tracker = Some t ∧ tracker_rel P t i) as (t & Ht & [Hn' Hr' _ _]).
  { exists t. split_and!; try done; congruence. }
  clear Hs Hn Hr s HQ Hds. revert Hi Hrel HQ' Hd'. generalize i0, new_tracker. clear i0. revert ds.
  induction Hw as [|[[side q] p] fs Hp Hw IH]; intros ds i0 t; cbn [int_replay tracker_all].
  { intros [= <- <-] Hrel _ _. by exists t. }
  destruct (int_fill (side, q, p) i0) as [[i1 d]|] eqn:Hf; [|done]. cbn.
  destruct (int_replay fs i1) as [[i2 ds']|] eqn:Hi; [|done]. cbn. intros [= <- <-] Hrel HQ' Hd'.
  cbn [fmap list_fmap fst snd] in HQ', Hd'. autorewrite with velo_rw in HQ', Hd'.
  destruct (fill_sim_bound side q p i0 i1 d Hf) as (Hq & Hb & Hrz).
  assert (0 ≤ sumZ ((λ f, f.1.2) <$> fs)) by by eapply int_replay_qty.
  assert (0 ≤ sumZ (Z.abs <$> ds')).
  { apply sumZ_nonneg, Forall_fmap, Forall_forall. intros; cbn; lia. }
  destruct (tracker_sim_step P Q t i0 side q p i1 d) as (t1 & Ht1 & Hrel1); try done; [cbn in *; lia..|].
  rewrite Ht1. cbn. apply (IH ds' i1); [done|done|cbn in *; lia|lia].
Qed.

Lemma python_rust_agree_witness :
  let fs := [(0, 10, 100); (1, 4, 105); (1, 6, 98); (1, 5, 99); (0, 8, 90)] in
  ∃ s t, replay_all fs new_replay = (s, Ok [0; 20; -12; 0; 45]) ∧
    tracker_all fs new_tracker = Some t ∧ pt_realized_pnl_ticks t = realized_pnl_ticks s.
Proof.
  intros fs.
  destruct (python_rust_agree 1000 100 fs {| ir_net := 3; ir_entry := 90; ir_realized := 53 |}
    [0; 20; -12; 0; 45]) as (s & t & Hs & Ht & _ & Hr);
    [lia|lia|lia|repeat constructor; unfold within; cbn; lia|vm_compute; discriminate|
     vm_compute; reflexivity|vm_compute; reflexivity|].
  exists s, t. split_and!; [exact Hs|exact Ht|exact Hr].
Defined.

(** ** No overflow

    The average entry price never leaves the range of the prices seen, so the
    products of the tracker are bounded by price and traded volume. *)

Definition signed_qty (f : Z * Z * Z) : Z := let '(s, q, _) := f in if s =? 0 then q else - q.
Definition net_after (fs : list (Z * Z * Z)) : Z := sumZ (signed_qty <$> fs).
Definition volume (fs : list (Z * Z * Z)) : Z := sumZ ((λ f, f.1.2) <$> fs).

(** A fill of at least one contract at a price of at most [k] bits. *)
Definition fill_in (k : Z) (f : Z * Z * Z) : Prop := 0 < f.1.2 ∧ Z.abs f.2 ≤ 2 ^ k.

(** Prices of [k] bits and a volume of [v] leave the P&L within an [i64]. *)
Definition room (k v : Z) : Prop := 0 ≤ k ≤ 52 ∧ v < 2 ^ 53 ∧ 2 * 2 ^ k * v < 2 ^ 63.

Record tracker_in (k v : Z) (t : PositionTracker) : Prop := {
  ti_net : Z.abs (pt_net_position t) ≤ v;
  ti_realized : Z.abs (pt_realized_pnl_ticks t) ≤ 2 * 2 ^ k * v;
  ti_last : Z.abs (pt_last_trade_price_ticks t) ≤ 2 ^ k;
  ti_avg : bounded_by (pt_avg_entry_price_ticks t) 1 k;
}.

Lemma f64_as_i64_bounded x k : 0 ≤ k ≤ 62 → bounded_by x 1 k → Z.abs (f64_as_i64 x) ≤ 2 ^ k.
Proof.
  intros Hk Hx. assert (0 < 2 ^ k < 2 ^ 63) by (split; [apply Z.pow_pos_nonneg|apply Z.pow_lt_mono_r]; lia).
  destruct x as [s| | |s m e]; [cbn; lia|by destruct Hx..|].
  pose proof (bounded_trunc s m e k ltac:(lia) Hx) as H'. cbn [f64_as_i64]. cbv zeta. lia.
Qed.

Lemma abs_mul_le a b x y : Z.abs a ≤ x → Z.abs b ≤ y → Z.abs (a * b) ≤ x * y.
Proof. intros. rewrite Z.abs_mul. apply Z.mul_le_mono_nonneg; lia. Qed.

Lemma new_tracker_in k : 0 ≤ k → tracker_in k 0 new_tracker.
Proof.
  intros. pose proof (Z.pow_pos_nonneg 2 k). split; cbn; try lia. by apply zero_bounded.
Qed.

Lemma tracker_step_in k v t s q p :
  room k (v + q) → tracker_in k v t → fill_in k (s, q, p) → 0 ≤ v →
  ∃ t', tracker_on_fill (if s =? 0 then BUY else SELL) q p t = Some t' ∧ tracker_in k (v + q) t' ∧
    pt_net_position t' = pt_net_position t + signed_qty (s, q, p).
Proof.
  intros (Hk & Hv & Hr) [Hn Hz Hl Ha] [Hq Hp] Hv0. cbn [fst snd] in *.
  assert (0 < 2 ^ k ≤ 2 ^ 52) as Hk2 by (split; [apply Z.pow_pos_nonneg|apply Z.pow_le_mono_r]; lia).
  unfold tracker_on_fill, signed_qty.
  assert (match (if s =? 0 then BUY else SELL) with BUY => q | SELL => - q end =
    if s =? 0 then q else - q) as -> by by destruct (s =? 0).
  set (sq := if s =? 0 then q else - q).
  assert (Z.abs sq = q) as Hsq by (subst sq; destruct (s =? 0); lia). cbv zeta. rewrite Hsq.
  set (net := pt_net_position t) in *. set (avg := pt_avg_entry_price_ticks t) in *.
  pose proof (f64_as_i64_bounded avg k ltac:(lia) Ha) as Ht.
  assert (2 * 2 ^ k * (v + q) = 2 * 2 ^ k * v + 2 * 2 ^ k * q) as Hdist by lia.
  assert (0 ≤ 2 * 2 ^ k * q) by (apply Z.mul_nonneg_nonneg; lia).
  rewrite (chk_ok (net + sq)) by (unfold i64; lia).
  destruct ((net =? 0) || _) eqn:Hdir; cbn [mbind option_bind].
  - eexists. split; [reflexivity|]. split; [|done]. split; cbn; [lia|lia|done|].
    assert (small (Z.abs net) ∧ small q ∧ small p ∧ small (Z.abs net + q)) as (S1 & S2 & S3 & S4)
      by (unfold small; lia).
    apply (running_average_bounded _ _ _ _ _ k (Z.abs net) p q); auto using as_f64_repr; [lia| |lia..].
    apply fadd_int; auto using as_f64_repr.
  - assert (Z.abs (Z.sgn net * Z.min q (Z.abs net)) ≤ q) as Hc by nia.
    set (c := Z.sgn net * Z.min q (Z.abs net)) in *.
    assert (Z.abs (c * (p - f64_as_i64 avg)) ≤ 2 * 2 ^ k * q) as Hpnl.
    { rewrite (Z.mul_comm (2 * 2 ^ k)). apply abs_mul_le; lia. }
    rewrite (chk_ok c), (chk_ok (p - _)) by (unfold i64; lia). cbn [mbind option_bind].
    rewrite (chk_ok (c * _)) by (unfold i64; lia). cbn [mbind option_bind].
    rewrite (chk_ok (_ + c * _)) by (unfold i64; lia). cbn [mbind option_bind].
    eexists. split; [reflexivity|]. split; [|done]. split; cbn; [lia|lia|done|].
    destruct (negb _ && _); [|done]. apply (bounded_dyeq _ (2 ^ k) 0).
    + rewrite (dyeq_base 0) by lia. rewrite !Z.sub_0_r. lia.
    + apply (repr_bounded _ p); [apply as_f64_repr; unfold small; lia|done].
Qed.

Lemma unrealized_in k v t : room k v → tracker_in k v t →
  ∃ u, unrealized_pnl_ticks t = Some u ∧ Z.abs u ≤ 2 * 2 ^ k * v.
Proof.
  intros (Hk & Hv & Hr) [Hn Hz Hl Ha]. unfold unrealized_pnl_ticks.
  assert (0 < 2 ^ k ≤ 2 ^ 52) as Hk2 by (split; [apply Z.pow_pos_nonneg|apply Z.pow_le_mono_r]; lia).
  pose proof (f64_as_i64_bounded _ k ltac:(lia) Ha) as Ht.
  set (a := f64_as_i64 _) in *.
  rewrite (chk_ok (_ - a)) by (unfold i64; lia). cbn [mbind option_bind].
  assert (Z.abs (pt_net_position t * (pt_last_trade_price_ticks t - a)) ≤ 2 * 2 ^ k * v) as Hu.
  { rewrite (Z.mul_comm (2 * 2 ^ k)). apply abs_mul_le; lia. }
  rewrite chk_ok by (unfold i64; lia). by eexists.
Qed.

Lemma tracker_all_in k v fs t :
  room k (v + volume fs) → tracker_in k v t → Forall (fill_in k) fs → 0 ≤ v →
  ∃ t', tracker_all fs t = Some t' ∧ tracker_in k (v + volume fs) t' ∧
    pt_net_position t' = pt_net_position t + net_after fs.
Proof.
  intros Hroom Ht Hfs. revert v t Hroom Ht. induction Hfs as [|[[s q] p] fs Hf Hfs IH]; intros v t Hroom Ht Hv.
  { exists t. unfold volume, net_after in *. cbn. autorewrite with velo_rw. rewrite !Z.add_0_r. done. }
  unfold volume, net_after in *. cbn [fmap list_fmap fst snd] in *. autorewrite with velo_rw in *.
  assert (0 ≤ sumZ ((λ f, f.1.2) <$> fs)).
  { apply sumZ_nonneg, Forall_fmap. eapply Forall_impl; [exact Hfs|]. intros ? [? _]. cbn. lia. }
  destruct Hroom as (Hk & Hv53 & Hr). pose proof (Z.pow_pos_nonneg 2 k). pose proof (proj1 Hf) as Hq. cbn in Hq.
  destruct (tracker_step_in k v t s q p) as (t1 & Ht1 & Hin & Hn1); [|done..|].
  { split; [done|]. split; [lia|]. nia. }
  cbn [tracker_all]. rewrite Ht1. cbn [mbind option_bind].
  destruct (IH (v + q) t1) as (t' & Ht' & Hin' & Hn'); [|done|lia|].
  { split; [done|]. split; [lia|]. by rewrite <- Z.add_assoc. }
  exists t'. split; [done|]. split; [by rewrite Z.add_assoc|]. lia.
Qed.

(** (C32) The tracker's checked arithmetic never overflows on realistic fills: with
    prices of at most [k] bits and a traded volume [v] such that [2^(k+1) * v]
    fits an [i64] (and [v] a float), whatever the sides, every fill is
    processed; the position is the signed sum of the fills, the average entry
    price never leaves the range of the prices although it is rounded at every
    step, and realized and unrealized P&L are at most [2^(k+1) * v]. *)
Theorem tracker_bounded (k : Z) (fs : list (Z * Z * Z)) :
  room k (volume fs) → Forall (fill_in k) fs →
  ∃ t u, tracker_all fs new_tracker = Some t ∧ unrealized_pnl_ticks t = Some u ∧
    pt_net_position t = net_after fs ∧
    bounded_by (pt_avg_entry_price_ticks t) 1 k ∧
    Z.abs (pt_realized_pnl_ticks t) ≤ 2 * 2 ^ k * volume fs ∧ Z.abs u ≤ 2 * 2 ^ k * volume fs.
Proof.
  intros Hroom Hfs.
  destruct (tracker_all_in k 0 fs new_tracker) as (t & Ht & Hin & Hn);
    [done|apply new_tracker_in, Hroom|done|lia|].
  destruct (unrealized_in k (volume fs) t Hroom Hin) as (u & Hu & Hb).
  exists t, u. split; [done|]. split; [done|]. split; [exact Hn|].
  split; [apply Hin|]. split; [apply Hin|done].
Qed.

(** Two lots at 100 and 101 average to 100.5, sold at 97 and turned short. *)
Lemma tracker_bounded_witness :
  let fs := [(0, 1, 100); (0, 1, 101); (1, 3, 97)] in
  ∃ t u, tracker_all fs new_tracker = Some t ∧ unrealized_pnl_ticks t = Some u ∧
    pt_net_position t = -1 ∧ Z.abs u ≤ 1280.
Proof.
  intros fs. destruct (tracker_bounded 7 fs) as (t & u & Ht & Hu & Hn & _ & _ & Hb);
    [decide_now|repeat constructor; decide_now|].
  exists t, u. split; [exact Ht|]. split; [exact Hu|]. split; [exact Hn|exact Hb].
Defined.
