(* ===== verification/PricedHedge.v ===== *)
(** * Hedging against the pricing server

    The whole path of a hedge target: the option book of [options.py] asks the
    pricing client for one option after the other, the requests cross the wire
    to [pricing_server.rs], which converts ticks to prices and applies
    [price_scalar], and the deltas come back to [delta_hedger.py].  Because a
    delta is never outside the unit interval, the target is never larger than
    the number of option contracts. *)

From S2P Require Import Prelude Bytes PyFloat FloatBounds FloatEnclosure PyStruct PyStatistics Protocol Client.
From S2P Require Import Strategy PricingClient Pricing DeltaHedger RiskPosition.

Open Scope Z_scope.

(** ** The server *)

(** [TICK_SIZE] of [pricing_server.rs]. *)
Definition SERVER_TICK_SIZE : float := dyadic 1 (-2).

Section Server.
Context {M : F64Math} {MO : F64MathOk}.

(** The body of [handle_connection] between reading and writing. *)
Definition request_params (req : PriceRequest) : OptionParams :=
  {| op_spot := fmul (as_f64 (pr_spot_ticks req)) SERVER_TICK_SIZE;
     op_strike := fmul (as_f64 (pr_strike_ticks req)) SERVER_TICK_SIZE;
     op_rate := pr_rate req; op_vol := pr_vol req; op_time_to_expiry := pr_time_to_expiry req;
     op_is_call := pr_is_call req |}.
Definition server_answer (req : PriceRequest) : Greeks := price_scalar (request_params req).

Lemma request_params_ok req : PriceRequest_ok req → OptionParams_ok (request_params req).
Proof.
  intros (_ & _ & V1 & V2 & V3). unfold OptionParams_ok, request_params, as_f64, SERVER_TICK_SIZE.
  repeat constructor; cbn; auto with valid_float.
Qed.
End Server.

(** ** Weighted sums *)

(** [sum(x * q for ...)] from [acc]. *)
Fixpoint weigh (xs : list (float * Z)) (acc : num) : res num :=
  match xs with
  | [] => Ok acc
  | (x, q) :: xs =>
      t ← num_mul (NFloat x) (NInt q);
      acc ← num_add acc t;
      weigh xs acc
  end.

(** A Python number at most [b] in absolute value. *)
Definition num_bounded (x : num) (b : Z) : Prop :=
  match x with NInt z => Z.abs z ≤ b | NFloat f => bounded_by f b 0 end.

Lemma in_range_bounded x b j : in_range x (- b) b j → bounded_by x b j.
Proof.
  intros (F & V & H1 & H2). split; [done|]. split; [done|].
  destruct x as [s| | |s m e]; try done; cbn [fval magnitude] in *.
  destruct s; cbn [cond_Zopp] in *; [|done]. apply dyle_neg. exact H1.
Qed.

Lemma num_float x b : num_bounded x b → b < 2 ^ 53 → ∃ f, to_float x = Ok f ∧ bounded_by f b 0.
Proof.
  destruct x as [z|f]; cbn; [|by exists f]. intros Hz Hb.
  destruct (float_of_int_repr z ltac:(lia)) as (f & Hf & Hr). exists f. split; [done|].
  by apply (repr_bounded _ z).
Qed.

Lemma num_mul_float x q fq : float_of_int q = Ok fq → num_mul (NFloat x) (NInt q) = Ok (NFloat (fmul x fq)).
Proof. intros Hq. unfold num_mul, num_op. cbn [to_float mbind res_bind]. by rewrite Hq. Qed.
Lemma num_add_float x y f : to_float x = Ok f → num_add x (NFloat y) = Ok (NFloat (fadd f y)).
Proof. intros Hf. unfold num_add, num_op. destruct x; by rewrite Hf. Qed.

Lemma weigh_step x q xs acc f fq :
  to_float acc = Ok f → float_of_int q = Ok fq →
  weigh ((x, q) :: xs) acc = weigh xs (NFloat (fadd f (fmul x fq))).
Proof.
  intros Hf Hq. cbn [weigh]. unfold num_mul, num_add, num_op. cbn [to_float]. rewrite Hq. cbn [mbind res_bind].
  destruct acc; rewrite Hf; done.
Qed.

(** Every summand is at most its weight, and so is every partial sum. *)
Lemma weigh_bounded xs acc a :
  Forall (λ '(x, _), bounded_by x 1 0) xs → num_bounded acc a → 0 ≤ a →
  a + sumZ (Z.abs ∘ snd <$> xs) < 2 ^ 53 →
  ∃ v, weigh xs acc = Ok v ∧ num_bounded v (a + sumZ (Z.abs ∘ snd <$> xs)).
Proof.
  intros Hxs. revert acc a. induction Hxs as [|[x q] xs Hx Hxs IH]; intros acc a Hacc Ha Hlt.
  { exists acc. cbn. rewrite sumZ_nil, Z.add_0_r. done. }
  cbn [fmap list_fmap] in Hlt |- *. rewrite sumZ_cons in Hlt |- *. cbn [compose snd] in Hlt |- *.
  assert (0 ≤ sumZ (Z.abs ∘ snd <$> xs)) as Hs.
  { apply sumZ_nonneg, Forall_fmap, Forall_true. intros []. cbn. lia. }
  destruct (float_of_int_repr q ltac:(lia)) as (fq & Hfq & Hrq).
  assert (bounded_by (fmul x fq) (Z.abs q) 0) as Hp.
  { replace (Z.abs q) with (1 * Z.abs q) by lia. change 0 with (0 + 0).
    apply fmul_bounded; [lia|lia|split; lia|done|by apply (repr_bounded _ q)]. }
  destruct (num_float acc a Hacc ltac:(lia)) as (fa & Hfa & Hba).
  assert (num_bounded (NFloat (fadd fa (fmul x fq))) (a + Z.abs q)) as Hsum.
  { apply fadd_bounded; [done|lia|split; lia|done|done]. }
  destruct (IH _ _ Hsum ltac:(lia) ltac:(lia)) as (v & Hv & Hb).
  exists v. split; [|by rewrite Z.add_assoc].
  by rewrite (weigh_step _ _ _ _ fa fq Hfa Hfq).
Qed.

Lemma fadd_nan_l x : fadd S754_nan x = S754_nan.
Proof. by destruct x. Qed.
Lemma fadd_nan_r x : fadd x S754_nan = S754_nan.
Proof. by destruct x as [[]|[]| |]. Qed.

(** A NaN stays. *)
Lemma weigh_nan xs acc :
  Forall (λ q, small q) xs.*2 → is_ok (to_float acc) = true →
  acc = NFloat S754_nan ∨ S754_nan ∈ xs.*1 → weigh xs acc = Ok (NFloat S754_nan).
Proof.
  revert acc. induction xs as [|[x q] xs IH]; intros acc Hq Hacc Hn.
  { destruct Hn as [->|Hn]; [done|]. by apply elem_of_nil in Hn. }
  cbn [fmap list_fmap fst snd] in Hq, Hn. apply Forall_cons in Hq as [Hq Hqs].
  destruct (to_float acc) as [f|e|] eqn:Hf; try done.
  destruct (float_of_int_repr q Hq) as (fq & Hfq & _).
  rewrite (weigh_step _ _ _ _ f fq Hf Hfq). apply IH; [done|done|].
  destruct Hn as [->|Hn]; [left; injection Hf as <-; by rewrite fadd_nan_l|].
  apply elem_of_cons in Hn as [<-|Hn]; [left|by right].
  change (fmul S754_nan fq) with S754_nan. by rewrite fadd_nan_r.
Qed.

(** [round] of a number at most an integer. *)
Lemma div_rne_le a d b : 0 < d → Z.abs a ≤ b * d → Z.abs (div_rne a d) ≤ b.
Proof. intros Hd Ha. pose proof (div_rne_nearest a d Hd). nia. Qed.

Lemma num_round_bounded x b :
  num_bounded x b → ∃ t, num_round (num_opp x) = Ok t ∧ Z.abs t ≤ b.
Proof.
  destruct x as [z|f]; cbn [num_bounded num_opp num_round]; [intros; exists (- z); split; [done|lia]|].
  intros (F & V & H)%bounded_opp. destruct (fopp f) as [s| | |s m e]; try done; (eexists; split; [reflexivity|]).
  { apply dyle_same in H. cbn. lia. }
  cbn [magnitude] in H. destruct (Z.leb_spec 0 e).
  - rewrite (dyle_base 0) in H by lia. rewrite !Z.sub_0_r, Z.mul_1_r in H. destruct s; cbn [cond_Zopp]; lia.
  - apply div_rne_le; [apply Z.pow_pos_nonneg; lia|]. rewrite (dyle_base e) in H by lia.
    rewrite Z.sub_diag, Z.mul_1_r in H. replace (0 - e) with (- e) in H by lia. destruct s; cbn [cond_Zopp]; lia.
Qed.

(** ** The book over the wire *)

Section Served.
Context {M : F64Math} {MO : F64MathOk}.

(** The requests of a tick, and the weighted deltas the server answers with. *)
Definition book_requests (b : OptionBook) (spot_ticks : Z) : list PriceRequest :=
  leg_request spot_ticks (_rate b) <$> _legs b.
Definition served_deltas (b : OptionBook) (spot_ticks : Z) : list (float * Z) :=
  (λ l, (g_delta (server_answer (leg_request spot_ticks (_rate b) l)), ol_quantity l)) <$> _legs b.

(** The contracts of the book, long and short. *)
Definition contracts (b : OptionBook) : Z := sumZ (Z.abs ∘ ol_quantity <$> _legs b).

Lemma sum_legs_served (spot : Z) (rate : float) (legs : list OptionLeg) (c : PricingClient) sent rest fuel f acc :
  let rs := leg_request spot rate <$> legs in
  Forall PriceRequest_ok rs → Forall (λ l, small (ol_quantity l)) legs → to_float acc = Ok f →
  sk_live (_sock c) → requests rs = Ok sent → (length rs ≤ fuel)%nat →
  pc_stream c = serve server_answer fuel sent ++ rest →
  ∃ c', sum_legs (leg_delta spot rate) legs acc c =
      (c', weigh ((λ l, (g_delta (server_answer (leg_request spot rate l)), ol_quantity l)) <$> legs) acc) ∧
    sk_sent (_sock c') = sk_sent (_sock c) ++ sent ∧ pc_stream c' = rest ∧ sk_live (_sock c').
Proof.
  intros rs. subst rs. revert c sent fuel f acc. induction legs as [|l legs IH]; intros c sent fuel f acc Hrs Hq Hf Hc Hs Hl Hst.
  { apply (inj Ok) in Hs as <-. exists c. split; [done|]. split; [by rewrite app_nil_r|]. split; [|done].
    rewrite Hst. by destruct fuel. }
  rewrite fmap_cons in Hrs, Hs, Hl. apply Forall_cons in Hrs as [Hr Hrs]. apply Forall_cons in Hq as [Hq1 Hq].
  destruct fuel as [|fuel]; [cbn in Hl; lia|]. cbn [length] in Hl.
  destruct (request_body _ Hr) as (body & Hb & Hbl & Hdec).
  destruct (requests_cons _ _ body sent Hb Hs) as (tl & Htl & ->).
  rewrite (serve_cons server_answer fuel body tl _ Hdec Hbl) in Hst. rewrite <- app_assoc in Hst.
  assert (Greeks_ok (server_answer (leg_request spot rate l))) as Hg.
  { apply greeks_valid, request_params_ok, Hr. }
  destruct (price_reply _ _ c _ Hr Hg Hc Hst) as (c1 & body' & H1 & Hb' & Hsent & Hs1 & Hc1).
  rewrite Hb in Hb'. apply (inj Ok) in Hb' as <-.
  destruct (float_of_int_repr _ Hq1) as (fq & Hfq & _).
  destruct (IH c1 tl fuel (fadd f (fmul (g_delta (server_answer (leg_request spot rate l))) fq))
    (NFloat (fadd f (fmul (g_delta (server_answer (leg_request spot rate l))) fq)))) as (c2 & H2 & Hsent2 & Hs2 & Hc2);
    [done|done|done|done|done|lia|done|].
  exists c2. split; [|split; [by rewrite Hsent2, Hsent, <- app_assoc|by split]].
  rewrite fmap_cons, (weigh_step _ _ _ _ f fq Hf Hfq), <- H2.
  assert (leg_delta spot rate l c = (c1, Ok (g_delta (server_answer (leg_request spot rate l))))) as Hld.
  { unfold leg_delta, price_option, pricing_client, mbind, M_bind. rewrite H1. reflexivity. }
  cbn [sum_legs]. unfold mbind, M_bind. rewrite Hld. unfold lift_res.
  by rewrite (num_mul_float _ _ fq Hfq), (num_add_float _ _ f Hf).
Qed.
(** What the aggregate delta of a served book rounds to. *)
Definition priceable (b : OptionBook) (spot : Z) : Prop :=
  Forall (λ r, d1_of (request_params r) ≠ S754_nan) (book_requests b spot).

Lemma contracts_eq b spot : sumZ (Z.abs ∘ snd <$> served_deltas b spot) = contracts b.
Proof. unfold contracts, served_deltas. by rewrite <- list_fmap_compose. Qed.

Lemma contracts_small b : contracts b < 2 ^ 53 → Forall (λ l, small (ol_quantity l)) (_legs b).
Proof.
  unfold contracts. induction (_legs b) as [|l ls IH]; [by constructor|].
  rewrite fmap_cons, sumZ_cons. cbn [compose]. intros Hc.
  assert (0 ≤ sumZ (Z.abs ∘ ol_quantity <$> ls)) by (apply sumZ_nonneg, Forall_fmap, Forall_true; intros; cbn; lia).
  constructor; [unfold small; lia|]. apply IH. lia.
Qed.

Lemma served_target (b : OptionBook) (spot : Z) :
  Forall PriceRequest_ok (book_requests b spot) → contracts b < 2 ^ 53 →
  (priceable b spot → ∃ v t, weigh (served_deltas b spot) (NInt 0) = Ok v ∧
    num_round (num_opp v) = Ok t ∧ Z.abs t ≤ contracts b) ∧
  (¬ priceable b spot → weigh (served_deltas b spot) (NInt 0) = Ok (NFloat S754_nan)).
Proof.
  unfold priceable, book_requests. rewrite !Forall_fmap. intros Hok Hc.
  assert (Forall (λ q, small q) (served_deltas b spot).*2) as Hsmall.
  { unfold served_deltas. rewrite <- list_fmap_compose. apply Forall_fmap.
    exact (contracts_small b Hc). }
  split.
  - intros Hn. destruct (weigh_bounded (served_deltas b spot) (NInt 0) 0) as (v & Hv & Hb); [|done|done| |].
    + unfold served_deltas. apply Forall_fmap. rewrite Forall_forall in Hok, Hn |- *.
      intros l Hl. cbn. pose proof (request_params_ok _ (Hok l Hl)) as Hp.
      pose proof (delta_range _ Hp (Hn l Hl)) as Hr. unfold server_answer. apply in_range_bounded.
      destruct (op_is_call _); eapply in_range_weaken; [| |exact Hr| | |exact Hr]; lia.
    + by rewrite contracts_eq.
    + rewrite contracts_eq in Hb. destruct (num_round_bounded v _ Hb) as (t & Ht & Hle). by exists v, t.
  - intros Hn. apply weigh_nan; [done|done|right].
    apply not_Forall_Exists in Hn; [|intros l; apply _]. apply Exists_exists in Hn as (l & Hl & Hd).
    apply dec_stable in Hd. rewrite Forall_forall in Hok.
    apply (delta_nan _ (request_params_ok _ (Hok l Hl))) in Hd. unfold served_deltas.
    rewrite <- list_fmap_compose. apply list_elem_of_fmap. exists l. by split; [symmetry|].
Qed.

(** (C15) Against the pricing server, a tick's hedge target is never larger
    than the number of option contracts in the book, whatever the prices: the
    requests are sent in order, the replies consumed exactly, the error between
    the position and the target recorded, and beyond the band one market order
    for exactly that error is issued; a book with an option whose [d1] is not a
    number makes the tick raise and changes nothing. *)
Theorem target_within_contracts (spot : Z) (h : DeltaHedger PricingClient) (sent rest : bytes) (fuel : nat) :
  let b := _options_book h in let c := _pricing_client h in
  Forall PriceRequest_ok (book_requests b spot) → contracts b < 2 ^ 53 → sk_live (_sock c) →
  requests (book_requests b spot) = Ok sent → (length (_legs b) ≤ fuel)%nat →
  pc_stream c = serve server_answer fuel sent ++ rest →
  ∃ h' r, hedger_on_price spot h = (h', r) ∧
    sk_sent (_sock (_pricing_client h')) = sk_sent (_sock c) ++ sent ∧ pc_stream (_pricing_client h') = rest ∧
    _current_futures_position h' = _current_futures_position h ∧
    (priceable b spot → ∃ target, Z.abs target ≤ contracts b ∧
       let err := _current_futures_position h - target in
       _hedge_error_history h' = _hedge_error_history h ++ [err] ∧
       if Z.abs err <=? _hedge_band h then r = Ok []
       else r = Ok [ActOrder {| or_order_id := _ids h; or_side := if 0 <? err then SELL else BUY;
                                or_order_type := MARKET; or_price_ticks := 0; or_quantity := Z.abs err |}]) ∧
    (¬ priceable b spot → r = Raise ValueError ∧ _hedge_error_history h' = _hedge_error_history h).
Proof.
  intros b c Hok Hc Hlive Hsent Hfuel Hst. destruct (served_target b spot Hok Hc) as [Hyes Hno].
  pose proof (contracts_small b Hc) as Hsmall.
  destruct (sum_legs_served spot (_rate b) (_legs b) c sent rest fuel f_zero (NInt 0)) as (c' & Hsum & Hs & Hr & _);
    [done|done|done|done|done|by rewrite length_map|done|].
  fold (aggregate_delta b spot) in Hsum. fold (served_deltas b spot) in Hsum.
  rewrite hedger_on_price_eq. unfold hedge_target. fold b c. rewrite Hsum.
  destruct (decide (priceable b spot)) as [Hp|Hp].
  - destruct (Hyes Hp) as (v & t & Hv & Ht & Hle). rewrite Hv. cbn [mbind res_bind]. rewrite Ht.
    cbv zeta. destruct (Z.abs (_ - t) <=? _) eqn:Hband; (eexists _, _; split; [reflexivity|]).
    all: split; [exact Hs|]; split; [exact Hr|]; split; [reflexivity|]; split; [intros _|done].
    all: exists t; split; [exact Hle|]; split; [reflexivity|]; cbn in Hband; by rewrite Hband.
  - rewrite (Hno Hp). cbn [mbind res_bind]. eexists _, _; split; [reflexivity|].
    split; [exact Hs|]. split; [exact Hr|]. split; [reflexivity|]. split; [done|]. by intros _.
Qed.
End Served.

(** Two legs, with the replies arriving eleven bytes at a time. *)
Lemma target_within_contracts_witness :
  let leg k q call := {| strike_ticks := k; time_to_expiry_years := dyadic 1 (-2); vol := dyadic 1 (-2);
                         is_call := call; ol_quantity := q |} in
  let b := {| _legs := [leg 30000 100 true; leg 29000 (-40) false]; _rate := dyadic 1 (-5) |} in
  ∃ c h' r target, let h := new_hedger b c 5 in
    hedger_on_price 30010 h = (h', r) ∧ Z.abs target ≤ 140 ∧ _hedge_error_history h' = [0 - target].
Proof.
  intros leg b.
  set (sent := from_res [] (requests (book_requests b 30010))).
  set (bs := serve (@server_answer Lanes.math) 2 sent).
  set (c := {| _sock := {| sk_incoming := (λ i, Data (take 11 (drop (11 * i) bs))) <$> seq 0 9;
                           sk_sent := []; sk_faults := []; sk_closed := false |} |}).
  destruct (@target_within_contracts Lanes.math Lanes.math_ok 30010 (new_hedger b c 5) sent [] 2)
    as (h' & r & H1 & _ & _ & _ & H2 & _).
  - repeat (apply Forall_cons; split); [| |by apply Forall_nil]; unfold PriceRequest_ok; decide_now.
  - vm_compute. reflexivity.
  - by split.
  - vm_compute. reflexivity.
  - cbn. lia.
  - vm_compute. reflexivity.
  - destruct H2 as (target & Ht & He & _).
    { unfold priceable. repeat (apply Forall_cons; split); [| |by apply Forall_nil]; decide_now. }
    exists c, h', r, target. split; [exact H1|]. split; [exact Ht|exact He].
Defined.
