(* ===== verification/HedgeReport.v ===== *)
(** * The hedge report ([strategy/orderbook_client/hedge_report.py]) *)

From S2P Require Import Prelude PyFloat FloatBounds FloatEnclosure PyStatistics.

Open Scope Z_scope.

Record HedgeReport := {
  mean_abs_hedge_error_contracts : num;
  rehedge_count : Z;
  hedged_pnl_variance : num;
  unhedged_pnl_variance : num;
  variance_reduction_pct : num;
}.

(** [statistics.pvariance(series) if len(series) > 1 else 0.0] *)
Definition series_variance (series : list num) : res num :=
  if (1 <? length series)%nat then pvariance series else Ok (NFloat f_zero).

Definition f_one : float := dyadic 1 0.
Definition f_hundred : float := dyadic 100 0.

Definition build_hedge_report (hedge_error_history : list Z) (rehedge_count : Z)
    (hedged_pnl_series unhedged_pnl_series : list num) : res HedgeReport :=
  m ← match hedge_error_history with
      | [] => Ok (NFloat f_zero)
      | _ => mean ((λ e, NInt (Z.abs e)) <$> hedge_error_history)
      end;
  hedged_var ← series_variance hedged_pnl_series;
  unhedged_var ← series_variance unhedged_pnl_series;
  pct ← (if num_pos unhedged_var then
           q ← num_div hedged_var unhedged_var;
           d ← num_sub (NFloat f_one) q;
           num_mul d (NFloat f_hundred)
         else Ok (NFloat f_zero));
  Ok {| mean_abs_hedge_error_contracts := m; rehedge_count := rehedge_count;
        hedged_pnl_variance := hedged_var; unhedged_pnl_variance := unhedged_var;
        variance_reduction_pct := pct |}.

Example report_ex :
  variance_reduction_pct <$> build_hedge_report [3; -1; 0] 1
    [NFloat f_zero; NFloat f_one] [NFloat f_zero; NFloat (dyadic 2 0)] =
    Ok (NFloat (dyadic 75 0)).
Proof. vm_compute. reflexivity. Qed.

Lemma build_hedge_report_fuel es rc hs us : fuel_free (build_hedge_report es rc hs us).
Proof.
  unfold build_hedge_report, series_variance. apply fuel_free_bind; [destruct es; auto with total|intros m].
  do 2 (apply fuel_free_bind; [destruct (_ <? _)%nat; auto with total|intros ?]).
  apply fuel_free_bind; [|done]. destruct (num_pos _); [|done].
  repeat (apply fuel_free_bind; [auto with total; apply num_op_fuel|intros]). apply num_op_fuel.
Qed.

(** ** What the figures mean *)

(** The population variance of a finite series as a rational, rounded once. *)
Definition exact_variance (xs : list num) : res num :=
  if (1 <? length xs)%nat then convert (variance (ratios xs)) xs else Ok (NFloat f_zero).

Lemma series_variance_exact xs : finite_data xs → series_variance xs = exact_variance xs.
Proof.
  intros Hf. unfold series_variance, exact_variance. destruct (Nat.ltb_spec 1 (length xs)); [|done].
  apply pvariance_finite; [done|]. by destruct xs; cbn in *; [lia|].
Qed.

Definition abs_errors (es : list Z) : list num := (λ e, NInt (Z.abs e)) <$> es.

Lemma abs_errors_finite es : finite_data (abs_errors es).
Proof. apply Forall_fmap, Forall_true. intros e. cbn. by eexists. Qed.

(** All values of a series are the same number. *)
Definition constant (xs : list num) : Prop :=
  ∃ c, Forall (λ x, ∃ q, as_ratio x = Some q ∧ (q == c)%Q) xs.

Lemma constant_finite xs : constant xs → finite_data xs.
Proof. intros [c Hc]. eapply Forall_impl; [exact Hc|]. intros x (q & Hq & _). by eexists. Qed.

Lemma constant_variance xs :
  constant xs → exact_variance xs = Ok (NFloat f_zero) ∨ exact_variance xs = Ok (NInt 0).
Proof.
  intros [c Hc]. unfold exact_variance. destruct (Nat.ltb_spec 1 (length xs)) as [Hl|]; [|by left].
  rewrite convert_zero.
  - destruct (existsb is_float xs); [by left|by right].
  - apply (variance_constant c).
    + clear Hl. unfold ratios. induction Hc as [|x xs (q & Hq & Hqc) _ IH]; [constructor|].
      cbn [omap list_omap]. rewrite Hq. by constructor.
    + intros E. destruct (finite_specials xs) as [_ Hr]; [apply constant_finite; by exists c|].
      rewrite E in Hr. cbn in Hr. lia.
Qed.

Lemma zero_division v x q :
  fltb f_zero x = true → v = NFloat f_zero ∨ v = NInt 0 → num_div v (NFloat x) = Ok q →
  q = NFloat f_zero.
Proof.
  assert (fltb f_zero x = true → fdiv f_zero x = Ok f_zero) as Hd.
  { destruct x as [[]|[]| |[] m e]; cbn; done. }
  intros Hx Hv Hq. destruct Hv as [-> | ->]; cbn [num_div to_float] in Hq.
  - cbn [mbind res_bind] in Hq. rewrite Hd in Hq by done. cbn in Hq. congruence.
  - change (float_of_int 0) with (Ok f_zero) in Hq. cbn [mbind res_bind] in Hq.
    rewrite Hd in Hq by done. cbn in Hq. congruence.
Qed.

Lemma build_hedge_report_inv es rc hs us rep :
  build_hedge_report es rc hs us = Ok rep →
  match es with [] => Ok (NFloat f_zero) | _ => mean (abs_errors es) end =
    Ok (mean_abs_hedge_error_contracts rep) ∧
  rehedge_count rep = rc ∧
  series_variance hs = Ok (hedged_pnl_variance rep) ∧
  series_variance us = Ok (unhedged_pnl_variance rep) ∧
  (if num_pos (unhedged_pnl_variance rep) then
     q ← num_div (hedged_pnl_variance rep) (unhedged_pnl_variance rep);
     d ← num_sub (NFloat f_one) q; num_mul d (NFloat f_hundred)
   else Ok (NFloat f_zero)) = Ok (variance_reduction_pct rep).
Proof.
  unfold build_hedge_report.
  intros (m & Hm & (h & Hh & (u & Hu & (p & Hp & Hr)%res_bind_ok)%res_bind_ok)%res_bind_ok)%res_bind_ok.
  apply (inj Ok) in Hr as <-. by split_and!.
Qed.

(** ** The reduction *)

(** The reduction as the code computes it from two variances: the quotient, its
    difference from 1.0 and 100.0 times that, each operation rounded; 0.0 when the
    unhedged variance is not positive. *)
Definition reduction_of (hedged unhedged pct : num) : Prop :=
  if num_pos unhedged then
    ∃ q, num_div hedged unhedged = Ok (NFloat q) ∧ pct = NFloat (fmul (fsub f_one q) f_hundred)
  else pct = NFloat f_zero.

Lemma build_hedge_report_reduction es rc hs us rep :
  build_hedge_report es rc hs us = Ok rep →
  reduction_of (hedged_pnl_variance rep) (unhedged_pnl_variance rep) (variance_reduction_pct rep).
Proof.
  intros (_ & _ & _ & _ & H)%build_hedge_report_inv. unfold reduction_of.
  destruct (num_pos _); [|by apply (inj Ok) in H]. apply res_bind_ok in H as (q & Hq & H).
  destruct (num_div_float _ _ _ Hq) as [f ->]. exists f. split; [done|]. by apply (inj Ok) in H.
Qed.

(** A variance reported as a float is finite and not negative. *)
Definition variance_float (x : float) : Prop := is_finite x = true ∧ valid x = true ∧ signed false x.

Lemma exact_variance_float xs x : exact_variance xs = Ok (NFloat x) → variance_float x.
Proof.
  unfold exact_variance. destruct (_ <? _)%nat; [|by intros [= <-]]. unfold convert.
  destruct (_ && _); [done|]. intros (y & Hy & H)%res_bind_ok. apply (inj Ok), (inj NFloat) in H as <-.
  apply (int_truediv_finite (Qnum (Qred (variance (ratios xs)))) (Zpos (Qden (Qred (variance (ratios xs))))));
    [apply Qred_nonneg, variance_nonneg|lia|exact Hy].
Qed.

(** A hedge that leaves no more variance than there was is given a reduction
    between 0 and 100, one that leaves no less a reduction that is not positive;
    equal variances are given 0. *)
Lemma reduction_sign h u pct :
  variance_float h → variance_float u → fltb f_zero u = true → reduction_of (NFloat h) (NFloat u) (NFloat pct) →
  (fleb h u = true → in_range pct 0 100 0) ∧ (fleb u h = true → fltb f_zero pct = false).
Proof.
  intros (Fh & Vh & Sh) (Fu & Vu & Su) Hu Hr. unfold reduction_of in Hr. cbn [num_pos] in Hr. rewrite Hu in Hr.
  destruct Hr as (q & Hq & Hp). apply (inj NFloat) in Hp as ->.
  assert (q = SFdiv prec emax h u) as ->.
  { destruct u as [| | |s m e]; try done. cbn [num_div to_float mbind res_bind fdiv] in Hq. by apply (inj Ok) in Hq as [= <-]. }
  split; intros Hle.
  - pose proof (quotient_unit h u Fh Vh Sh Vu Fu Hu Hle) as Hq1. set (q := SFdiv _ _ _ _) in *. clearbody q.
    assert (in_range (fsub f_one q) (1 - 1) (1 - 0) 0) as Hd
      by (apply fsub_in; [decide_now|decide_now|decide_now|exact Hq1]).
    apply (fmul_in _ _ 0 1 100 100 0 0); [decide_now|decide_now|exact Hd|decide_now|decide_now].
  - pose proof (quotient_ge_one h u Fh Vh Sh Vu Fu Hu Hle) as Hq1.
    pose proof (SFdiv_valid h u Vh Vu) as Vq. cbv zeta in Hq1. set (q := SFdiv _ _ _ _) in *. clearbody q.
    pose proof (one_minus_nonpos q Hq1) as Hd. pose proof (fsub_valid f_one q eq_refl Vq) as Vd.
    change (dyadic 1 0) with f_one in Hd. cbv zeta in Hd. set (d := fsub f_one q) in *. clearbody d.
    destruct Hd as [[[] ->]|Hd]; [reflexivity|reflexivity|].
    change f_hundred with (S754_finite false 7036874417766400 (-46)).
    pose proof (fmul_signed_finite false true d 7036874417766400 (-46) eq_refl Vd Hd) as Hs. cbn [xorb] in Hs.
    destruct (fmul d _) as [[]|[]| |[] m e]; done.
Qed.

(** (C35) A report on finite data.  The mean of the absolute hedge errors and the
    population variance (mean squared deviation from the mean) of each P&L series
    are exact figures rounded once, with 0.0 for no errors and for fewer than two
    values.  The variance reduction is computed from the two reported variances
    as [(1.0 - hedged / unhedged) * 100.0], each of the three operations rounded,
    and is 0.0 when the unhedged variance is not positive.  So it is 0.0 when the
    unhedged series is constant, and, the variances being floats, lies between 0
    and 100 when the hedged one is at most the unhedged one, and is not positive
    when it is at least the unhedged one. *)
Theorem hedge_report_figures (es : list Z) (rc : Z) (hs us : list num) (rep : HedgeReport) :
  finite_data hs → finite_data us → build_hedge_report es rc hs us = Ok rep →
  match es with [] => Ok (NFloat f_zero) | _ => exact_mean (abs_errors es) end =
    Ok (mean_abs_hedge_error_contracts rep) ∧
  rehedge_count rep = rc ∧
  exact_variance hs = Ok (hedged_pnl_variance rep) ∧
  exact_variance us = Ok (unhedged_pnl_variance rep) ∧
  reduction_of (hedged_pnl_variance rep) (unhedged_pnl_variance rep) (variance_reduction_pct rep) ∧
  (constant us → variance_reduction_pct rep = NFloat f_zero) ∧
  (∀ h u pct, hedged_pnl_variance rep = NFloat h → unhedged_pnl_variance rep = NFloat u →
     variance_reduction_pct rep = NFloat pct → fltb f_zero u = true →
     (fleb h u = true → in_range pct 0 100 0) ∧ (fleb u h = true → fltb f_zero pct = false)).
Proof.
  intros Hh Hu Hr. destruct (build_hedge_report_inv _ _ _ _ _ Hr) as (H1 & H2 & H3 & H4 & _).
  pose proof (build_hedge_report_reduction _ _ _ _ _ Hr) as H5.
  rewrite series_variance_exact in H3, H4 by done.
  split; [|split; [done|split; [done|split; [done|split; [done|split]]]]].
  - destruct es; [done|]. rewrite <- H1. symmetry. apply mean_exact; [apply abs_errors_finite|done].
  - intros Hc. unfold reduction_of in H5.
    destruct (constant_variance us Hc) as [E|E]; rewrite H4 in E; apply (inj Ok) in E; by rewrite E in H5.
  - intros h u pct Eh Eu Ep Hpos. rewrite Eh in H3, H5. rewrite Eu in H4, H5. rewrite Ep in H5.
    apply reduction_sign; [exact (exact_variance_float _ _ H3)|exact (exact_variance_float _ _ H4)|done|done].
Qed.

Lemma hedge_report_figures_witness :
  let hs := [NFloat f_one; NFloat f_zero] in
  let us := [NFloat f_zero; NFloat (dyadic 3 0); NFloat f_one] in
  ∃ rep, build_hedge_report [4; -2] 1 hs us = Ok rep ∧
    exact_mean (abs_errors [4; -2]) = Ok (mean_abs_hedge_error_contracts rep) ∧
    mean_abs_hedge_error_contracts rep = NInt 3 ∧
    exact_variance us = Ok (unhedged_pnl_variance rep) ∧
    ∃ pct, variance_reduction_pct rep = NFloat pct ∧ in_range pct 0 100 0 ∧ py_round pct = Ok 84.
Proof.
  intros hs us. destruct (build_hedge_report [4; -2] 1 hs us) as [rep|e|] eqn:Hr;
    [|exfalso; vm_compute in Hr; discriminate..].
  destruct (hedge_report_figures [4; -2] 1 hs us rep) as (H1 & _ & _ & H4 & _ & _ & H7);
    [decide_now|decide_now|exact Hr|].
  exists rep. split; [reflexivity|]. split; [exact H1|]. split; [|split; [exact H4|]].
  - apply (inj Ok). rewrite <- H1. vm_compute. reflexivity.
  - vm_compute in Hr. apply (inj Ok) in Hr. rewrite <- Hr in H7 |- *. eexists. split; [reflexivity|].
    split; [|vm_compute; reflexivity].
    apply (H7 _ _ _ eq_refl eq_refl eq_refl); vm_compute; reflexivity.
Defined.

(** A perfect hedge is reported as 100.0, exactly: if the hedged series is one
    constant value while the unhedged one varies, the reduction is 100.0 whatever
    the size of the unhedged variance. *)
Theorem perfect_hedge (es : list Z) (rc : Z) (hs us : list num) (rep : HedgeReport) (u : float) :
  build_hedge_report es rc hs us = Ok rep → constant hs →
  unhedged_pnl_variance rep = NFloat u → fltb f_zero u = true →
  variance_reduction_pct rep = NFloat (dyadic 100 0).
Proof.
  intros Hr Hc Hu Hpos. destruct (build_hedge_report_inv _ _ _ _ _ Hr) as (_ & _ & H3 & _ & H5).
  rewrite series_variance_exact in H3 by by apply constant_finite.
  rewrite Hu in H5. cbn [num_pos] in H5. rewrite Hpos in H5.
  apply res_bind_ok in H5 as (q & Hq & H5).
  apply zero_division in Hq as ->; [|done|].
  - vm_compute in H5. by apply (inj Ok) in H5.
  - destruct (constant_variance hs Hc) as [E|E]; rewrite H3 in E; apply (inj Ok) in E; auto.
Qed.

Lemma perfect_hedge_witness :
  let hs := [NFloat f_one; NInt 1] in
  let us := [NFloat f_zero; NFloat (dyadic 3 0); NFloat f_one] in
  ∃ rep, build_hedge_report [4; -2] 1 hs us = Ok rep ∧
    variance_reduction_pct rep = NFloat (dyadic 100 0).
Proof.
  intros hs us. destruct (build_hedge_report [4; -2] 1 hs us) as [rep|e|] eqn:Hr;
    [|exfalso; vm_compute in Hr; discriminate..].
  assert (∃ u, unhedged_pnl_variance rep = NFloat u ∧ fltb f_zero u = true) as (u & Hu & Hpos).
  { vm_compute in Hr. apply (inj Ok) in Hr as <-. eexists. split; vm_compute; reflexivity. }
  exists rep. split; [reflexivity|].
  apply (perfect_hedge [4; -2] 1 hs us rep u); [exact Hr| |exact Hu|exact Hpos].
  exists 1%Q. repeat constructor; eexists; (split; [vm_compute; reflexivity|reflexivity]).
Defined.
