(* ===== verification/Sessions.v ===== *)
(** * Whole sessions ([strategy/run_synthetic_session.py],
      [run_historical_backtest.py], [run_live_session.py])

    The drivers that connect a feed, the quoter, a connection and a trade log.
    A constructor that talks to the network is an argument of the driver, as
    the result it has.  The theorems compose those of the parts: on a live
    connection a session of the quoter never raises, and the report of a
    backtest is the replay of exactly the fills the strategy was told of. *)

From stdpp Require Import strings.
From S2P Require Import Prelude Bytes PyFloat PyStruct PyStatistics Protocol Client WireAgreement.
From S2P Require Import Ticks Strategy TradeLog SessionRunner Feeds BacktestReport.

Open Scope Z_scope.

#[export] Existing Instances Synthetic.synthetic_feed Synthetic.synthetic_total
  Historical.historical_feed Historical.historical_total Historical.historical_finite
  Live.live_feed Live.live_total Live.live_finite.

(** ** Sessions that do not raise *)

Section NoRaise.
Context {F S C : Type} `{!Feed F, !Strategy S, !BookClient C, !BookClientSpec C}.
Abbreviation SS := (Session F S C).
Implicit Types s : SS.

(** An invariant of feed and strategy after [k] ticks under which prices and
    fills are handled without an exception. *)
Context (Inv : Z → F → S → Prop) (m : option Z).
Hypothesis inv_price : ∀ k f x, Inv k f x → ticks_left m k = true →
  match next_price f with
  | (f', Ok p) => ∃ x' acts, on_price p x = (x', Ok acts) ∧
      Forall (λ a, is_ok (action_bytes a) = true) acts ∧ Inv (k + 1) f' x'
  | (_, r) => r = Raise StopIteration
  end.
Hypothesis inv_fill : ∀ k f x e, Inv k f x → ∃ x', on_fill e x = (x', Ok tt) ∧ Inv k f x'.

Lemma fills_ok k f fs x : Inv k f x → ∃ x', for_each fs on_fill x = (x', Ok tt) ∧ Inv k f x'.
Proof.
  revert x. induction fs as [|e fs IH]; intros x Hx; cbn [for_each]; py_unfold; [by exists x|].
  destruct (inv_fill k f x e Hx) as (x1 & -> & H1). auto.
Qed.

Lemma drain_ok k f evs s : Inv k f (ss_strategy s) →
  ∃ s', drain evs s = (s', Ok tt) ∧ Inv k f (ss_strategy s') ∧ ss_feed s' = ss_feed s ∧
    ss_client s' = ss_client s.
Proof.
  intros Hi. destruct (drain_spec evs s) as (d & rest & s' & r & H & _ & _ & Hc & Hf & Hx & _).
  destruct (fills_ok k f (fills_of d) _ Hi) as (x' & Hx' & Hi').
  rewrite Hx in Hx'. injection Hx' as <- ->. by exists s'.
Qed.

Lemma sends_succeed acts s :
  bc_live (ss_client s) → Forall (λ a, is_ok (action_bytes a) = true) acts →
  ∃ s', for_each acts send_action s = (s', Ok tt) ∧ bc_live (ss_client s') ∧
    ss_strategy s' = ss_strategy s ∧ ss_feed s' = ss_feed s.
Proof.
  intros Hl Hacts. revert s Hl. induction Hacts as [|a acts Ha _ IH]; intros s Hl; cbn [for_each].
  { by exists s. }
  destruct (send_action_spec a s) as (s1 & r & H1 & Hs1 & Hf1 & Hn & _ & Hlv).
  destruct (Hlv Hl) as [Hl1 He]. py_unfold. rewrite H1. destruct r as [[]|e|]; [| |done].
  - destruct (IH s1 Hl1) as (s' & H & Hl' & Hs & Hf). exists s'. split_and!; try done; congruence.
  - by rewrite (He e eq_refl) in Ha.
Qed.

Lemma poll_drain_ok t k f s : Inv k f (ss_strategy s) → bc_live (ss_client s) →
  ∃ s', (events ← with_client (bc_poll_events (Some t)); drain events) s = (s', Ok tt) ∧
    Inv k f (ss_strategy s') ∧ ss_feed s' = ss_feed s ∧ bc_live (ss_client s').
Proof.
  intros Hi Hl. destruct (poll_effect t s) as (evs & c' & Hp & _ & _ & _ & Hlv). py_unfold.
  rewrite Hp. set (s1 := {| ss_feed := _; ss_strategy := _; ss_client := c'; ss_log := _ |}).
  destruct (drain_ok k f evs s1 Hi) as (s' & H & Hi' & Hf & Hc). exists s'.
  split_and!; try done. rewrite Hc. by apply Hlv.
Qed.

Lemma process_tick_ok t k f p s x' acts :
  on_price p (ss_strategy s) = (x', Ok acts) → Forall (λ a, is_ok (action_bytes a) = true) acts →
  Inv k f x' → bc_live (ss_client s) →
  ∃ s', process_tick t p s = (s', Ok tt) ∧ Inv k f (ss_strategy s') ∧ ss_feed s' = ss_feed s ∧
    bc_live (ss_client s').
Proof.
  intros Hx Hacts Hi Hl. unfold process_tick. unfold with_strategy at 1, on_field at 1.
  unfold mbind at 1, M_bind at 1. rewrite Hx.
  set (s2 := {| ss_feed := _; ss_strategy := x'; ss_client := _; ss_log := _ |}).
  destruct (sends_succeed acts s2 Hl Hacts) as (s3 & H3 & Hl3 & Hs3 & Hf3).
  unfold mbind at 1, M_bind at 1. rewrite H3.
  destruct (poll_drain_ok t k f s3) as (s4 & H4 & Hi4 & Hf4 & Hl4); [by rewrite Hs3|done|].
  exists s4. split_and!; [exact H4|done|by rewrite Hf4, Hf3|done].
Qed.

Lemma tick_loop_ok fuel t k s :
  Inv k (ss_feed s) (ss_strategy s) → bc_live (ss_client s) →
  match tick_loop fuel m t k s with
  | (s', Ok n) => (∃ f, Inv n f (ss_strategy s')) ∧ bc_live (ss_client s')
  | (_, r) => r = NoFuel
  end.
Proof.
  revert k s. induction fuel as [|fuel IH]; intros k s Hi Hl; cbn [tick_loop];
    (destruct (ticks_left m k) eqn:Hm; [|split; [by eexists|done]]); [done|].
  pose proof (inv_price k _ _ Hi Hm) as Hp. unfold with_feed at 1, on_field at 1.
  destruct (next_price (ss_feed s)) as [f' [p|e|]]; [|injection Hp as ->; split; [by eexists|done]|done].
  destruct Hp as (x' & acts & Hx & Hacts & Hi').
  set (s1 := {| ss_feed := f'; ss_strategy := _; ss_client := _; ss_log := _ |}).
  destruct (process_tick_ok t (k + 1) f' p s1 x' acts) as (s4 & H4 & Hi4 & Hf4 & Hl4); [done..|].
  py_unfold. rewrite H4. apply IH; [|done]. by rewrite Hf4.
Qed.

Lemma final_drain_ok fuel t k f s :
  Inv k f (ss_strategy s) → bc_live (ss_client s) →
  ∃ r, (final_drain fuel t s).2 = r ∧ (r = Ok tt ∨ r = NoFuel).
Proof.
  revert s. induction fuel as [|fuel IH]; intros s Hi Hl; cbn [final_drain]; [eauto|].
  destruct (poll_drain_ok t k f s Hi Hl) as (s' & H & Hi' & Hf' & Hl').
  unfold mbind, M_bind in H |- *. destruct (with_client _ s) as [s1 [[|e evs]|x|]]; [eauto| |done..].
  rewrite H. by apply IH.
Qed.

Lemma session_ok fuel t1 t2 s :
  Inv 0 (ss_feed s) (ss_strategy s) → bc_live (ss_client s) →
  match (run_strategy_loop fuel m t1 t2 s).2 with Raise _ => False | _ => True end.
Proof.
  intros Hi Hl. unfold run_strategy_loop, try_finally, mbind, M_bind, mret, M_ret.
  pose proof (tick_loop_ok fuel t1 0 s Hi Hl) as H.
  destruct (tick_loop fuel m t1 0 s) as [s1 [n|e|]]; [|done|done].
  destruct H as [[f Hi1] Hl1]. destruct (final_drain_ok fuel t2 n f s1 Hi1 Hl1) as (r & H & Hr).
  destruct (final_drain fuel t2 s1) as [s2 r2]. cbn in H. subst r2. by destruct Hr as [-> | ->].
Qed.
End NoRaise.

(** ** The quoter's orders fit the wire *)

(** The quoter of the drivers: offset 1, size 10, ids below [n], and live quotes
    with ids it has issued. *)
Record quoter_bounded (n : Z) (q : FixedOffsetQuoter) : Prop := {
  qb_offset : _offset q = 1;
  qb_size : _size q = 10;
  qb_ids : 1 ≤ _ids q ≤ n;
  qb_live : Forall (λ id, 1 ≤ id < _ids q) (live_ids q);
}.

Lemma new_quoter_bounded : quoter_bounded 1 (new_quoter 1 10).
Proof. split; [done|done|cbn; lia|constructor]. Qed.

Lemma quote_encodes q id side price :
  u64 id → i64 price → _size q = 10 → is_ok (action_bytes (quote q id side price)) = true.
Proof.
  intros Hid Hp Hs. cbn [action_bytes quote or_order_type or_order_id or_side or_price_ticks or_quantity].
  rewrite decide_False by done. rewrite encode_new_order_eq; [done|].
  split; [exact Hid|]. split; [exact Hp|]. unfold u32. cbn. rewrite Hs. lia.
Qed.

Lemma stale_encodes side q :
  Forall u64 (live_ids q) → Forall (λ a, is_ok (action_bytes a) = true) (stale_cancel side q).
Proof.
  intros Hl. unfold stale_cancel. destruct (resting side q) as [[id p]|] eqn:Hr; [|constructor].
  constructor; [|constructor]. cbn [action_bytes cr_order_id fst]. rewrite encode_cancel_eq.
  cbn [cm_client_order_id]. rewrite decide_True; [done|]. rewrite Forall_forall in Hl. apply Hl.
  unfold live_ids. destruct side; cbn [resting] in Hr; rewrite Hr; cbn; [by left|].
  destruct (_resting_buy q) as [[]|]; cbn; [by right; left|by left].
Qed.

Lemma quoter_price_bounded n q p :
  quoter_bounded n q → n + 2 < 2 ^ 64 → - 2 ^ 63 < p < 2 ^ 63 - 1 →
  Forall (λ a, is_ok (action_bytes a) = true) (quoter_on_price p q).2 ∧
  quoter_bounded (n + 2) (quoter_on_price p q).1.
Proof.
  intros [Ho Hs Hi Hl] Hn Hp. rewrite on_price_spec, Ho. cbn [fst snd].
  set (db := drifted BUY _ q). set (ds := drifted SELL _ q).
  assert (Forall u64 (live_ids q)) as Hlu.
  { eapply Forall_impl; [exact Hl|]. unfold u64. cbn. lia. }
  assert (i64 (p - 1) ∧ i64 (p + 1) ∧ u64 (_ids q) ∧ u64 (_ids q + 1)) as (P1 & P2 & I1 & I2)
    by (unfold i64, u64; lia).
  split.
  - repeat apply Forall_app_2.
    + destruct db; constructor; [by apply quote_encodes|constructor].
    + destruct ds; constructor; [destruct db; by apply quote_encodes|constructor].
    + destruct db; [by apply stale_encodes|constructor].
    + destruct ds; [by apply stale_encodes|constructor].
  - split; cbn [_offset _size _ids]; [done|done|destruct db, ds; lia|].
    unfold live_ids in *. cbn [_resting_buy _resting_sell].
    destruct db, ds, (_resting_buy q) as [[]|], (_resting_sell q) as [[]|]; cbn in *;
      rewrite ?Forall_cons in *; split_and?; try apply Forall_nil; lia.
Qed.

Lemma quoter_fill_bounded n q e : quoter_bounded n q → quoter_bounded n (quoter_on_fill e q).
Proof.
  intros [Ho Hs Hi Hl]. unfold quoter_on_fill. repeat case_match; split; try done;
    unfold live_ids in *; cbn in *; destruct (_resting_buy q) as [[]|], (_resting_sell q) as [[]|];
    cbn in *; rewrite ?Forall_cons in *; tauto.
Qed.

(** The quoter behind a feed whose prices the wire can carry. *)
Definition quoter_session_inv {F} `{!Feed F} (good : Z → F → Prop) (k : Z) (f : F)
    (q : FixedOffsetQuoter) : Prop :=
  0 ≤ k ∧ good k f ∧ quoter_bounded (1 + 2 * k) q.

(** A run of the quoter over a feed whose good states give only prices the wire
    can carry, or end, never raises. *)
Lemma quoter_session_ok {F C} `{!Feed F, !BookClient C, !BookClientSpec C}
    (good : Z → F → Prop) fuel m t1 t2 (s : Session F FixedOffsetQuoter C) :
  (∀ k f, 0 ≤ k → good k f → ticks_left m k = true →
     match next_price f with
     | (f', Ok p) => - 2 ^ 63 < p < 2 ^ 63 - 1 ∧ good (k + 1) f' ∧ 2 * k + 3 < 2 ^ 64
     | (_, r) => r = Raise StopIteration
     end) →
  good 0 (ss_feed s) → ss_strategy s = new_quoter 1 10 → bc_live (ss_client s) →
  match (run_strategy_loop fuel m t1 t2 s).2 with Raise _ => False | _ => True end.
Proof.
  intros Hgood Hg Hq Hl. apply (session_ok (quoter_session_inv good)); [| | |done].
  - intros k f q (Hk & Hgk & Hb) Hm. specialize (Hgood k f Hk Hgk Hm).
    destruct (next_price f) as [f' [p|e|]]; [|done..]. destruct Hgood as (Hp & Hg' & Hn).
    destruct (quoter_price_bounded _ q p Hb) as [Ha Hb']; [lia|done|].
    exists (quoter_on_price p q).1, (quoter_on_price p q).2. split_and!; [|done|].
    + cbn. by destruct (quoter_on_price p q).
    + split_and!; [lia|done|]. replace (1 + 2 * (k + 1)) with (1 + 2 * k + 2) by lia. done.
  - intros k f q e (Hk & Hgk & Hb). exists (quoter_on_fill e q). split; [done|].
    split_and!; [done..|]. by apply quoter_fill_bounded.
  - rewrite Hq. split_and!; [lia|done|apply new_quoter_bounded].
Qed.

(** Over the rounds of any session the quoter issues the ids 1, 2, 3, ... *)
Lemma rounds_order_ids {F} `{!Feed F} f (q : FixedOffsetQuoter) rds f' q' orders cancels :
  rounds_run f q rds f' q' → quoter_inv orders cancels q →
  quoter_inv (orders ++ order_ids (concat (rd_actions <$> rds)))
    (cancels ++ cancel_ids (concat (rd_actions <$> rds))) q'.
Proof.
  intros Hrun. revert orders cancels.
  induction Hrun as [f q|f f1 f2 q q1 q2 rd rds _ (x & Hx & Hfills) _ IH]; intros orders cancels Hi.
  { cbn. by rewrite !app_nil_r. }
  cbn [on_price quoter_strategy] in Hx. pose proof (quoter_step_inv _ _ (InPrice (rd_price rd)) q Hi) as H1.
  cbn [quoter_step] in H1. destruct (quoter_on_price (rd_price rd) q) as [x' acts].
  injection Hx as -> ->. cbn [fmap list_fmap concat]. unfold order_ids, cancel_ids in *.
  rewrite !omap_app, !app_assoc. apply IH. clear IH. revert x H1 Hfills.
  induction (fills_of (rd_polled rd)) as [|e fs IHf]; intros x H1; cbn [for_each]; py_unfold.
  - by intros [= <-].
  - apply IHf. pose proof (quoter_step_inv _ _ (InFill e) x H1) as H2. cbn in H2.
    by rewrite !app_nil_r in H2.
Qed.

(** *** Histories *)

Lemma h_actions_rounds rds tail :
  h_actions (concat (round_items <$> rds) ++ (ItEvent <$> tail)) = concat (rd_actions <$> rds).
Proof.
  rewrite h_actions_app, h_actions_ItEvent, app_nil_r.
  induction rds as [|rd rds IH]; [done|]. cbn [fmap list_fmap concat]. rewrite h_actions_app, IH.
  unfold round_items. by rewrite h_actions_app, h_actions_ItAction, h_actions_ItEvent, app_nil_r.
Qed.

Lemma h_events_rounds rds tail :
  h_events (concat (round_items <$> rds) ++ (ItEvent <$> tail)) = concat (rd_polled <$> rds) ++ tail.
Proof.
  rewrite h_events_app, h_events_ItEvent. f_equal.
  induction rds as [|rd rds IH]; [done|]. cbn [fmap list_fmap concat]. rewrite h_events_app, IH.
  unfold round_items. by rewrite h_events_app, h_events_ItEvent, h_events_ItAction, <- app_assoc.
Qed.

(** ** The report of a history *)

(** [replay.on_fill(...)] and the bookkeeping around it, for one fill. *)
Definition replay_event (f : FillEvent) (s : ReportState) : res ReportState :=
  match replay_on_fill (Side_value (incoming_side f)) (fe_quantity f) (fe_price_ticks f) (rs_replay s) with
  | (p, Ok delta) =>
      Ok {| rs_replay := p;
            trade_pnls := if delta =? 0 then trade_pnls s else trade_pnls s ++ [delta];
            equity_curve := equity_curve s ++ [List.last (equity_curve s) 0 + delta] |}
  | (_, Raise e) => Raise e
  | (_, NoFuel) => NoFuel
  end.

Fixpoint replay_events (fs : list FillEvent) (s : ReportState) : res ReportState :=
  match fs with [] => Ok s | f :: fs => s ← replay_event f s; replay_events fs s end.

Lemma report_rows_app rs1 rs2 s :
  report_rows (rs1 ++ rs2) s = (s ← report_rows rs1 s; report_rows rs2 s).
Proof.
  revert s. induction rs1 as [|r rs1 IH]; intros s; cbn [app report_rows]; [done|].
  py_unfold. by destruct (report_row r s).
Qed.

Lemma append_row_lookup fields l k v :
  k ≠ "ts"%string → row_of fields !! k = Some v →
  ∃ r, _rows (append_row fields l) = _rows l ++ [r] ∧ r !! k = Some v.
Proof. intros Hk Hv. eexists. split; [done|]. by rewrite lookup_insert_ne. Qed.

(** The row an item adds to a log, without its time stamp. *)
Definition item_fields (i : item) : list (string * pyval) :=
  match i with
  | ItAction (ActOrder r) =>
      [("event", VStr "order_sent"); ("order_id", VInt (or_order_id r));
       ("side", VInt (Side_value (or_side r))); ("price_ticks", VInt (or_price_ticks r));
       ("qty", VInt (or_quantity r))]
  | ItAction (ActCancel c) => [("event", VStr "cancel_sent"); ("order_id", VInt (cr_order_id c))]
  | ItEvent (EvAck a) =>
      [("event", VStr "ack"); ("order_id", VInt (ack_client_order_id a)); ("status", VInt (ack_status a))]
  | ItEvent (EvFill f) =>
      [("event", VStr "fill"); ("resting_id", VInt (resting_order_id f));
       ("incoming_id", VInt (incoming_order_id f));
       ("incoming_side", VInt (Side_value (incoming_side f)));
       ("price_ticks", VInt (fe_price_ticks f)); ("qty", VInt (fe_quantity f))]
  end%string.

Lemma log_item_fields i l : log_item i l = append_row (item_fields i) l.
Proof. by destruct i as [[]|[]]. Qed.

Lemma report_item i ts s :
  report_row (<["ts"%string := ts]> (row_of (item_fields i))) s =
    match i with ItEvent (EvFill f) => replay_event f s | _ => Ok s end.
Proof.
  unfold report_row, row_int, row_get.
  rewrite !lookup_insert_ne by done. unfold row_of. destruct i as [[r|c]|[a|f]];
    cbn [item_fields list_to_map foldr fst snd]; simplify_map_eq; done.
Qed.

Lemma report_history h l s :
  report_rows (rows (log_history h l)) s =
    (s ← report_rows (rows l) s; replay_events (fills_of (h_events h)) s).
Proof.
  revert l. induction h as [|i h IH]; intros l.
  { change (log_history [] l) with l. cbn [h_events omap list_omap fills_of replay_events]. py_unfold.
    by destruct (report_rows (rows l) s). }
  unfold log_history. cbn [fold_left]. fold (log_history h (log_item i l)). rewrite IH.
  rewrite log_item_fields. unfold rows at 1. cbn [append_row _rows]. rewrite report_rows_app.
  cbn [report_rows]. unfold rows. py_unfold. destruct (report_rows (_rows l) s) as [s1|e|]; [|done..].
  rewrite report_item. destruct i as [a|[a|f]]; [done|done|].
  change (fills_of (h_events (ItEvent (EvFill f) :: h))) with (f :: fills_of (h_events h)).
  cbn [replay_events]. py_unfold. by destruct (replay_event f s1).
Qed.

(** [sum(1 for r in rows if r["event"] == name)] *)
Definition count_event (name : string) (rs : list row) : nat :=
  length (filter (λ r : row, r !! "event"%string = Some (VStr name)) rs).

Lemma count_history h l :
  count_event "order_sent" (rows (log_history h l)) =
    (count_event "order_sent" (rows l) + length (order_ids (h_actions h)))%nat ∧
  count_event "fill" (rows (log_history h l)) =
    (count_event "fill" (rows l) + length (fills_of (h_events h)))%nat.
Proof.
  revert l. induction h as [|i h IH]; intros l; [cbn; lia|].
  unfold log_history. cbn [fold_left]. fold (log_history h (log_item i l)).
  destruct (IH (log_item i l)) as [-> ->]. rewrite log_item_fields. unfold rows. cbn [append_row _rows].
  unfold count_event. rewrite !filter_app, !length_app.
  assert (∀ name r, r !! "event"%string = row_of (item_fields i) !! "event"%string →
    length (filter (λ r : row, r !! "event"%string = Some (VStr name)) [r]) =
    if decide (row_of (item_fields i) !! "event"%string = Some (VStr name)) then 1%nat else 0%nat) as Hf.
  { intros name r Hr. rewrite filter_cons, Hr. by destruct (decide _). }
  rewrite !Hf by by rewrite lookup_insert_ne. clear.
  set (name := match i with ItAction (ActOrder _) => "order_sent" | ItAction (ActCancel _) => "cancel_sent"
    | ItEvent (EvAck _) => "ack" | ItEvent (EvFill _) => "fill" end%string).
  assert (row_of (item_fields i) !! "event"%string = Some (VStr name)) as ->.
  { destruct i as [[r|c]|[a|f]]; unfold row_of; cbn [item_fields list_to_map foldr fst snd];
      by simplify_map_eq. }
  subst name. unfold order_ids, h_actions, fills_of, h_events.
  destruct i as [[r|c]|[a|f]]; cbn; repeat case_decide; simplify_eq; lia.
Qed.

(** ** The drivers *)

Definition default_tick_poll_timeout : float := dyadic 7205759403792794 (-57).    (* 0.05 *)
Definition default_final_drain_timeout : float := dyadic 7205759403792794 (-55).  (* 0.2 *)

(** [feed], [FixedOffsetQuoter(1, 10)], [TradeLog()] and a client. *)
Definition quoter_session {F} (feed : F) (client : Client) (time : nat → float) :
    Session F FixedOffsetQuoter Client :=
  {| ss_feed := feed; ss_strategy := new_quoter 1 10; ss_client := client; ss_log := new_log time |}.

Definition run_quoter_session {F} `{!Feed F} (fuel : nat) (max_ticks : option Z) (feed : F)
    (client : Client) (time : nat → float) : Session F FixedOffsetQuoter Client * res Z :=
  run_strategy_loop fuel max_ticks default_tick_poll_timeout default_final_drain_timeout
    (quoter_session feed client time).

(** What a session of the quoter on an open connection has done when it returns:
    its rounds, the client it leaves, and the log. *)
Record session_done {F} `{!Feed F} (feed : F) (c : Client) (max_ticks : option Z)
    (rds : list round) (tail : list Event) (log : TradeLog) (time : nat → float) (c' : Client) : Prop := {
  sd_rounds : ∃ f q, rounds_run feed (new_quoter 1 10) rds f q ∧
    (ticks_left max_ticks (Z.of_nat (length rds)) = false ∨
     ∃ f', next_price f = (f', Raise StopIteration));
  sd_max : match max_ticks with Some m => Z.of_nat (length rds) ≤ Z.max 0 m | None => True end;
  sd_log : log = log_history (concat (round_items <$> rds) ++ (ItEvent <$> tail)) (new_log time);
  sd_ids : order_ids (concat (rd_actions <$> rds)) =
    seqZ 1 (Z.of_nat (length (order_ids (concat (rd_actions <$> rds)))));
  sd_cancels : NoDup (cancel_ids (concat (rd_actions <$> rds)));
  sd_sent : ∃ bss, res_map action_bytes (concat (rd_actions <$> rds)) = Ok bss ∧
    sk_sent (cl_sock c') = sk_sent (cl_sock c) ++ concat bss;
  sd_events : ∃ arrived,
    concat (rd_polled <$> rds) ++ tail ++ pending c' = pending c ++ arrived;
  sd_closed : sk_closed (cl_sock c') = true;
}.

Lemma quoter_session_done {F} `{!Feed F} fuel max_ticks (feed : F) c time s' n :
  run_quoter_session fuel max_ticks feed c time = (s', Ok n) →
  ∃ rds tail, session_done feed c max_ticks rds tail (ss_log s') time (ss_client s') ∧
    n = Z.of_nat (length rds).
Proof.
  intros Hrun. unfold run_quoter_session in Hrun.
  destruct (session_history fuel max_ticks default_tick_poll_timeout default_final_drain_timeout
    (quoter_session feed c time)) as (s1 & r1 & h & lost & s0 & H & He & Hc & Hok).
  rewrite H in Hrun. simplify_eq. rewrite (Hc ltac:(done)) in *.
  destruct Hok as (-> & rds & tail & f & q & -> & -> & Hrds & Hfills & Hmax & Hend).
  exists rds, tail. split; [|done]. destruct He as [Hl (bss & Hb & Hs) (arr & Hev) _].
  assert (quoter_inv [] [] (new_quoter 1 10)) as Hq by (split; cbn; [lia|done|constructor..]).
  pose proof (rounds_order_ids _ _ _ _ _ _ _ Hrds Hq) as [Hi Ho Hd _]. cbn [app] in Ho, Hd.
  rewrite h_actions_rounds in Hb. rewrite h_events_rounds in Hev.
  cbn [close_client ss_client ss_log ss_feed ss_strategy quoter_session] in *.
  split; try done.
  - exists f, q. split; [done|]. destruct Hend as [[_ Hend]|Hend]; [by left|right; eauto].
  - rewrite Ho, length_seqZ. f_equal. lia.
  - by apply NoDup_app in Hd as (_ & _ & ?).
  - by exists bss.
  - exists arr. rewrite <- app_assoc in Hev. cbn [app] in Hev. exact Hev.
Qed.

(** *** [run_synthetic_session.py] *)

Section SyntheticDriver.
Context `{!Synthetic.Random R}.

(** [run_session]: the client it leaves behind, if any, and its result. *)
Definition run_session (fuel : nat) (conn : res Client) (time : nat → float) (ticks seed : Z) :
    option Client * res TradeLog :=
  let feed := Synthetic.new_feed (R := R) 10000 seed in
  match conn with
  | Raise e => (None, Raise e)
  | NoFuel => (None, NoFuel)
  | Ok client =>
      let '(s, r) := run_quoter_session fuel (Some ticks) feed client time in
      (Some (ss_client s), _ ← r; Ok (ss_log s))
  end.

Lemma synthetic_ok fuel ticks seed c time :
  ticks ≤ 2 ^ 60 → sk_live (cl_sock c) →
  match (run_quoter_session fuel (Some ticks) (Synthetic.new_feed (R := R) 10000 seed) c time).2 with
  | Raise _ => False | _ => True end.
Proof.
  intros Ht Hl. unfold run_quoter_session.
  apply (quoter_session_ok (λ k f, Z.abs (Synthetic._price f - 10000) ≤ 2 * k)); [|cbn; lia|done|exact Hl].
  intros k f Hk Hg Hm. destruct (Synthetic.next_price_step f) as (f' & step & -> & Hp & Hs).
  cbn in Hm. bool_to_prop. lia.
Qed.

(** A synthetic session on a live connection always completes, for any number
    of ticks up to 2^60: it runs exactly [ticks] rounds on a random walk from
    10000 whose steps are at most 2 ticks, quotes under the ids 1, 2, 3, ...,
    cancels no id twice, sends exactly the encodings of its actions in order,
    logs exactly its actions and the events it received, in order, and leaves
    the client closed.  From some number of iterations on, more iterations of the
    loops change nothing. *)
Theorem synthetic_session (c : Client) (time : nat → float) (ticks seed : Z) :
  ticks ≤ 2 ^ 60 → sk_live (cl_sock c) →
  ∃ N c' log rds tail,
    (∀ fuel, (N ≤ fuel)%nat → run_session fuel (Ok c) time ticks seed = (Some c', Ok log)) ∧
    session_done (Synthetic.new_feed (R := R) 10000 seed) c (Some ticks) rds tail log time c' ∧
    Z.of_nat (length rds) = Z.max 0 ticks ∧
    Forall2 (λ p q, Z.abs (q - p) ≤ 2) (take (length rds) (10000 :: (rd_price <$> rds)))
      (rd_price <$> rds) ∧
    count_event "order_sent" (rows log) = length (order_ids (concat (rd_actions <$> rds))) ∧
    count_event "fill" (rows log) = length (fills_of (concat (rd_polled <$> rds) ++ tail)).
Proof.
  intros Ht Hl. set (feed := Synthetic.new_feed (R := R) 10000 seed).
  destruct (bounded_total ticks default_tick_poll_timeout default_final_drain_timeout
    (quoter_session feed c time)) as (s' & r & N & Hr & Hrun).
  pose proof (Hrun N ltac:(lia)) as HN. fold (run_quoter_session N (Some ticks) feed c time) in HN.
  pose proof (synthetic_ok N ticks seed c time Ht Hl) as Hok. fold feed in Hok. rewrite HN in Hok.
  destruct r as [n|e|]; [|done..].
  destruct (quoter_session_done N (Some ticks) feed c time s' n HN) as (rds & tail & Hd & Hn).
  exists N, (ss_client s'), (ss_log s'), rds, tail.
  pose proof Hd as [(f & q & Hrds & Hend) Hmax Hlog _ _ _ _ _].
  split. { intros fuel Hf. unfold run_session. fold feed. unfold run_quoter_session. by rewrite Hrun. }
  split; [exact Hd|]. split.
  { destruct Hend as [Hend|[f' Hend]]; [cbn in Hend; bool_to_prop; lia|].
    destruct (Synthetic.next_price_step f) as (f'' & step & Hstep & _). by rewrite Hstep in Hend. }
  split; [apply (Synthetic.walk_spec _ _ _ _ _ Hrds)|].
  rewrite Hlog. destruct (count_history (concat (round_items <$> rds) ++ (ItEvent <$> tail)) (new_log time))
    as [-> ->]. by rewrite h_actions_rounds, h_events_rounds.
Qed.
End SyntheticDriver.

(** *** [run_historical_backtest.py] *)

Definition _PERIODS_PER_YEAR : gmap string Z := {["1d"%string := 252; "1h"%string := 252 * 7]}.

Section Backtest.
Context (float_pow : float → float → res float).

(** [run_backtest], given the feed it builds. *)
Definition run_backtest (fuel : nat) (feed : res Historical.HistoricalPriceFeed) (conn : res Client)
    (time : nat → float) (interval : string) : option Client * res (TradeLog * BacktestReport) :=
  match feed, conn with
  | Ok feed, Ok client =>
      let '(s, r) := run_quoter_session fuel None feed client time in
      (Some (ss_client s),
       _ ← r;
       report ← build_report float_pow (rows (ss_log s))
         (NInt (default 252 (_PERIODS_PER_YEAR !! interval)));
       Ok (ss_log s, report))
  | Ok _, Raise e => (None, Raise e)
  | Ok _, NoFuel => (None, NoFuel)
  | Raise e, _ => (None, Raise e)
  | NoFuel, _ => (None, NoFuel)
  end.

Definition wire_price (p : Z) : Prop := - 2 ^ 63 < p < 2 ^ 63 - 1.

Lemma historical_ok fuel prices c time :
  Forall wire_price prices → Z.of_nat (length prices) < 2 ^ 62 → sk_live (cl_sock c) →
  match (run_quoter_session fuel None {| Historical._prices := prices; Historical._index := 0 |} c time).2
  with Raise _ => False | _ => True end.
Proof.
  intros Hp Hlen Hl. unfold run_quoter_session.
  apply (quoter_session_ok (λ k f, Historical._prices f = prices ∧ Z.of_nat (Historical._index f) = k));
    [|done|done|exact Hl].
  intros k f Hk [Hpr Hi] _. unfold next_price, Historical.historical_feed.
  destruct (Historical._prices f !! Historical._index f) as [p|] eqn:Hlk; [|done].
  rewrite Hpr in Hlk. split; [|split; [split; [done|cbn; lia]|]].
  - rewrite Forall_forall in Hp. by apply Hp, (list_elem_of_lookup_2 _ _ _ Hlk).
  - apply lookup_lt_Some in Hlk. lia.
Qed.

(** The prices of a run that exhausts the feed are all of its prices. *)
Lemma historical_prices {S} `{!Strategy S} f x rds f' x' :
  rounds_run f x rds f' (x' : S) →
  Historical._prices f' = Historical._prices f ∧
  rd_price <$> rds = take (length rds) (drop (Historical._index f) (Historical._prices f)) ∧
  Historical._index f' = (Historical._index f + length rds)%nat.
Proof.
  induction 1 as [f x|f f1 f2 x x1 x2 rd rds Hn _ _ (IH1 & IH2 & IH3)]; [cbn; split_and!; [done|done|lia]|].
  unfold next_price, Historical.historical_feed in Hn.
  destruct (Historical._prices f !! Historical._index f) as [p|] eqn:Hp; [|done].
  injection Hn as <- Hpr. cbn [Historical._prices Historical._index] in *.
  split; [done|]. split; [|cbn [length]; lia].
  rewrite (drop_S _ _ _ Hp). cbn [fmap list_fmap length take]. subst p. f_equal. exact IH2.
Qed.

(** A backtest on a live connection whose prices fit the wire always runs to the
    end of the data: its rounds are at exactly the prices of the feed, in
    order, and what it returns is the log of that session and the report whose
    P&L, trades and equity curve are the replay of exactly the fills the quoter
    was told of, in order; only computing that report can fail. *)
Theorem backtest_session (prices : list Z) (c : Client) (time : nat → float) (interval : string) :
  Forall wire_price prices → Z.of_nat (length prices) < 2 ^ 62 → sk_live (cl_sock c) →
  let feed := {| Historical._prices := prices; Historical._index := 0 |} in
  ∃ N c' log rds tail,
    (∀ fuel, (N ≤ fuel)%nat → run_backtest fuel (Ok feed) (Ok c) time interval =
      (Some c', report ← build_report float_pow (rows log)
                  (NInt (default 252 (_PERIODS_PER_YEAR !! interval))); Ok (log, report))) ∧
    session_done feed c None rds tail log time c' ∧
    rd_price <$> rds = prices ∧
    report_rows (rows log) start_report =
      replay_events (fills_of (concat (rd_polled <$> rds) ++ tail)) start_report.
Proof.
  intros Hp Hlen Hl feed.
  destruct (finite_total None default_tick_poll_timeout default_final_drain_timeout
    (quoter_session feed c time)) as (s' & r & N & Hr & Hrun).
  pose proof (Hrun N ltac:(lia)) as HN. fold (run_quoter_session N None feed c time) in HN.
  pose proof (historical_ok N prices c time Hp Hlen Hl) as Hok. fold feed in Hok. rewrite HN in Hok.
  destruct r as [n|e|]; [|done..].
  destruct (quoter_session_done N None feed c time s' n HN) as (rds & tail & Hd & Hn).
  exists N, (ss_client s'), (ss_log s'), rds, tail.
  pose proof Hd as [(f & q & Hrds & Hend) _ Hlog _ _ _ _ _].
  split. { intros fuel Hf. unfold run_backtest, run_quoter_session. by rewrite Hrun. }
  split; [exact Hd|]. split.
  - destruct (historical_prices _ _ _ _ _ Hrds) as (H1 & H2 & H3). rewrite H2. cbn [feed Historical._index
      Historical._prices drop] in *. apply take_ge.
    destruct Hend as [Hend|[f' Hend]]; [done|]. unfold next_price, Historical.historical_feed in Hend.
    destruct (Historical._prices f !! Historical._index f) eqn:Hlk; [done|].
    apply lookup_ge_None in Hlk. rewrite H1, H3 in Hlk. cbn in Hlk. lia.
  - rewrite Hlog, report_history, h_events_rounds. done.
Qed.
End Backtest.

(** *** [run_live_session.py] *)

(** Whether the IBKR connection is open at the end, the client, the result. *)
Record LiveOutcome := {
  lo_ib_connected : bool;
  lo_client : option Client;
  lo_result : res TradeLog;
}.

(** [run_live_session], given the results of [IBAsyncClient(...)] and of
    [OrderBookClient(...)] and the feed of the subscription.  Only the loop runs
    under the [try] whose [finally] disconnects. *)
Definition run_live_session (fuel : nat) (ib : res unit) (feed : Live.LiveIBKRFeed) (conn : res Client)
    (time : nat → float) : LiveOutcome :=
  match ib with
  | Raise e => {| lo_ib_connected := false; lo_client := None; lo_result := Raise e |}
  | NoFuel => {| lo_ib_connected := false; lo_client := None; lo_result := NoFuel |}
  | Ok _ =>
      match conn with
      | Raise e => {| lo_ib_connected := true; lo_client := None; lo_result := Raise e |}
      | NoFuel => {| lo_ib_connected := true; lo_client := None; lo_result := NoFuel |}
      | Ok client =>
          match run_quoter_session fuel None feed client time with
          | (s, Ok _) => {| lo_ib_connected := false; lo_client := Some (ss_client s);
                            lo_result := Ok (ss_log s) |}
          | (s, Raise e) => {| lo_ib_connected := false; lo_client := Some (ss_client s);
                               lo_result := Raise e |}
          | (s, NoFuel) => {| lo_ib_connected := true; lo_client := Some (ss_client s);
                              lo_result := NoFuel |}
          end
      end
  end.

(** A live session always ends, whatever arrives and however the clock runs, and
    however it ends the quoter's client is closed and IBKR is disconnected; when
    it returns, its log is that of a session whose prices are the first ticks
    that arrived, rounded, in order.  When the order book cannot be reached
    the IBKR connection stays open: the [finally] that closes it is not yet
    active. *)
Theorem live_session (feed : Live.LiveIBKRFeed) (conn : res Client) (time : nat → float) :
  conn ≠ NoFuel →
  ∃ N out, (∀ fuel, (N ≤ fuel)%nat → run_live_session fuel (Ok tt) feed conn time = out) ∧
    lo_result out ≠ NoFuel ∧
    match conn with
    | Ok c => lo_ib_connected out = false ∧
        (∃ c', lo_client out = Some c' ∧ sk_closed (cl_sock c') = true ∧
         ∀ log, lo_result out = Ok log → ∃ rds tail, session_done feed c None rds tail log time c' ∧
           ∃ raw rest, Live.live_pending feed = raw ++ rest ∧
             Forall2 (λ p rd, price_to_ticks p = Ok (rd_price rd)) raw rds)
    | Raise e => lo_ib_connected out = true ∧ lo_result out = Raise e
    | NoFuel => True
    end.
Proof.
  intros Hconn. destruct conn as [c|e|]; [|by exists 0%nat, {| lo_ib_connected := true; lo_client := None; lo_result := Raise e |}|done].
  destruct (finite_total None default_tick_poll_timeout default_final_drain_timeout
    (quoter_session feed c time)) as (s' & r & N & Hr & Hrun).
  pose proof (Hrun N ltac:(lia)) as HN. fold (run_quoter_session N None feed c time) in HN.
  exists N, {| lo_ib_connected := false; lo_client := Some (ss_client s');
    lo_result := _ ← r; Ok (ss_log s') |}.
  split. { intros fuel Hf. unfold run_live_session, run_quoter_session. rewrite Hrun by done. by destruct r. }
  split; [by destruct r|]. split; [done|]. exists (ss_client s'). split; [done|].
  split.
  - destruct (session_history N None default_tick_poll_timeout default_final_drain_timeout
      (quoter_session feed c time)) as (s1 & r1 & _ & _ & s0 & H & _ & Hc & _).
    unfold run_quoter_session in HN. rewrite H in HN. injection HN as -> ->. by rewrite (Hc Hr).
  - intros log. destruct r as [n|e|]; [|done..]. intros [= <-].
    destruct (quoter_session_done N None feed c time s' n HN) as (rds & tail & Hd & _).
    exists rds, tail. split; [done|]. destruct Hd as [(f & q & Hrds & _) _ _ _ _ _ _ _].
    destruct (Live.live_raw _ _ _ _ _ Hrds) as (raw & Hp & Hraw & _). by exists raw, (Live.live_pending f).
Qed.

(** ** Witnesses *)

(** A generator for the witnesses: it counts. *)
#[local, refine] Instance counter : Synthetic.Random Z := {
  rng_new seed := seed;
  randbelow n r := (r + 1, r mod n);
}.
Proof. intros n r Hn. cbn. apply Z.mod_pos_bound. lia. Defined.

Definition idle_client : Client :=
  {| cl_sock := {| sk_incoming := []; sk_sent := []; sk_faults := []; sk_closed := false |};
     cl_events := []; cl_arrivals := [] |}.

(** A client to which an ack and a fill of order 1 arrive during the second poll. *)
Definition example_fill : FillEvent :=
  {| resting_order_id := 1; incoming_order_id := 9; resting_side := BUY; fe_price_ticks := 9999;
     fe_quantity := 10; fe_timestamp := 0 |}.
Definition busy_client : Client :=
  {| cl_sock := cl_sock idle_client; cl_events := [];
     cl_arrivals := [[]; [EvAck {| ack_client_order_id := 1; ack_request_type := 1; ack_status := 0 |};
                          EvFill example_fill]] |}.
Definition no_clock : nat → float := λ _, f_zero.

Lemma idle_live : sk_live (cl_sock idle_client).
Proof. by split. Qed.
Lemma busy_live : sk_live (cl_sock busy_client).
Proof. by split. Qed.

Lemma synthetic_walk_witness :
  ∃ rds f' q', rounds_run (Synthetic.new_feed 10000 0) (new_quoter 1 10) rds f' (q' : FixedOffsetQuoter) ∧
    rd_price <$> rds = [9998; 9997] ∧ Z.abs (Synthetic._price f' - 10000) ≤ 2 * Z.of_nat (length rds).
Proof.
  set (f0 := Synthetic.new_feed 10000 0). set (q0 := new_quoter 1 10).
  set (q1 := (quoter_on_price 9998 q0).1). set (q2 := (quoter_on_price 9997 q1).1).
  set (f1 := (next_price f0).1). set (f2 := (next_price f1).1).
  set (r1 := {| rd_price := 9998; rd_actions := (quoter_on_price 9998 q0).2; rd_polled := [] |}).
  set (r2 := {| rd_price := 9997; rd_actions := (quoter_on_price 9997 q1).2; rd_polled := [] |}).
  assert (rounds_run f0 q0 [r1; r2] f2 q2) as Hrun.
  { apply (rounds_cons f0 f1 f2 q0 q1 q2 r1 [r2]); [reflexivity|by exists q1|].
    apply (rounds_cons f1 f2 f2 q1 q2 q2 r2 []); [reflexivity|by exists q2|apply rounds_nil]. }
  exists [r1; r2], f2, q2. split; [exact Hrun|]. split; [reflexivity|].
  destruct (Synthetic.synthetic_walk f0 q0 _ _ _ Hrun) as (_ & _ & _ & H). exact H.
Defined.

Definition example_live_feed : Live.LiveIBKRFeed :=
  Live.new_feed (dyadic 60 0) [[dyadic 9999 (-2); dyadic 40001 (-4)]] no_clock.

Lemma live_fifo_witness :
  ∃ rds f' q', rounds_run example_live_feed (new_quoter 1 10) rds f' (q' : FixedOffsetQuoter) ∧
    rd_price <$> rds = [9999; 10000] ∧ Live.lf_reads f' = 3%nat.
Proof.
  set (f0 := example_live_feed). set (q0 := new_quoter 1 10).
  set (q1 := (quoter_on_price 9999 q0).1). set (q2 := (quoter_on_price 10000 q1).1).
  set (f1 := (next_price f0).1). set (f2 := (next_price f1).1).
  set (r1 := {| rd_price := 9999; rd_actions := (quoter_on_price 9999 q0).2; rd_polled := [] |}).
  set (r2 := {| rd_price := 10000; rd_actions := (quoter_on_price 10000 q1).2; rd_polled := [] |}).
  assert (next_price f0 = (f1, Ok (rd_price r1))) as E1 by (vm_compute; reflexivity).
  assert (next_price f1 = (f2, Ok (rd_price r2))) as E2 by (vm_compute; reflexivity).
  assert (rounds_run f0 q0 [r1; r2] f2 q2) as Hrun.
  { apply (rounds_cons f0 f1 f2 q0 q1 q2 r1 [r2]); [exact E1|exists q1; split; reflexivity|].
    apply (rounds_cons f1 f2 f2 q1 q2 q2 r2 []); [exact E2|exists q2; split; reflexivity|apply rounds_nil]. }
  exists [r1; r2], f2, q2. split; [exact Hrun|]. split; [reflexivity|].
  destruct (Live.live_fifo f0 q0 _ _ _ Hrun) as (raw & _ & _ & _ & _ & Hr & _). exact Hr.
Defined.

(** Two daily closes; the fill of order 1 arrives after the second tick. *)
Definition example_feed : Historical.HistoricalPriceFeed :=
  {| Historical._prices := [10000; 10002]; Historical._index := 0 |}.
Definition example_start : Session Historical.HistoricalPriceFeed FixedOffsetQuoter Client :=
  quoter_session example_feed busy_client no_clock.

Lemma example_run : ∃ s, run_strategy_loop 5 None f_zero f_zero example_start = (s, Ok 2) ∧
  length (bc_sent (ss_client s)) = 110%nat.
Proof. eexists. split; [vm_compute; reflexivity|vm_compute; reflexivity]. Qed.

Lemma session_record_witness :
  ∃ s h bss, run_strategy_loop 5 None f_zero f_zero example_start = (s, Ok 2) ∧
    res_map action_bytes (h_actions h) = Ok bss ∧ length (bc_sent (ss_client s)) = 110%nat ∧
    bc_sent (ss_client s) = bc_sent (ss_client example_start) ++ concat bss ∧
    bc_closed (ss_client s) = true.
Proof.
  destruct example_run as (s & Hrun & Hlen).
  destruct (session_record 5 None f_zero f_zero example_start s (Ok 2) Hrun ltac:(discriminate))
    as (h & lost & bss & arr & _ & Hb & Hs & _ & _ & Hc).
  exists s, h, bss. split; [exact Hrun|]. split; [exact Hb|]. split; [exact Hlen|]. split; [exact Hs|exact Hc].
Defined.

Lemma session_rounds_witness :
  ∃ s rounds f q, run_strategy_loop 5 None f_zero f_zero example_start = (s, Ok 2) ∧
    length rounds = 2%nat ∧ rounds_run (ss_feed example_start) (ss_strategy example_start) rounds f q.
Proof.
  destruct example_run as (s & Hrun & _).
  destruct (session_rounds 5 None f_zero f_zero example_start s 2 Hrun)
    as (rounds & tail & f & q & Hn & _ & Hr & _).
  exists s, rounds, f, q. split; [exact Hrun|]. split; [lia|exact Hr].
Defined.

Lemma session_terminates_witness :
  ∃ s' r N, r ≠ NoFuel ∧ ∀ fuel, (N ≤ fuel)%nat →
    run_strategy_loop fuel None f_zero f_zero example_start = (s', r).
Proof. exact (session_terminates None f_zero f_zero example_start (λ _, _)). Defined.

Lemma synthetic_session_witness :
  ∃ N c' log, (∀ fuel, (N ≤ fuel)%nat →
    run_session (R := Z) fuel (Ok busy_client) no_clock 3 7 = (Some c', Ok log)) ∧
    sk_closed (cl_sock c') = true.
Proof.
  destruct (synthetic_session (R := Z) busy_client no_clock 3 7 ltac:(lia) busy_live)
    as (N & c' & log & rds & tail & Hrun & Hd & _).
  exists N, c', log. split; [exact Hrun|apply Hd].
Defined.

Lemma backtest_session_witness :
  ∃ N c' log rds tail,
    (∀ fuel, (N ≤ fuel)%nat → run_backtest (λ _ _, Ok f_zero) fuel (Ok example_feed) (Ok busy_client)
       no_clock "1d" = (Some c', report ← build_report (λ _ _, Ok f_zero) (rows log) (NInt 252); Ok (log, report))) ∧
    rd_price <$> rds = [10000; 10002] ∧
    report_rows (rows log) start_report =
      replay_events (fills_of (concat (rd_polled <$> rds) ++ tail)) start_report.
Proof.
  destruct (backtest_session (λ _ _, Ok f_zero) [10000; 10002] busy_client no_clock "1d"
    ltac:(repeat constructor; unfold wire_price; lia) ltac:(cbn; lia) busy_live)
    as (N & c' & log & rds & tail & Hrun & _ & Hp & Hr).
  exists N, c', log, rds, tail. split; [exact Hrun|]. split; [exact Hp|exact Hr].
Defined.

Lemma live_session_witness :
  ∃ N out, (∀ fuel, (N ≤ fuel)%nat →
      run_live_session fuel (Ok tt) example_live_feed (Raise ConnectionError) no_clock = out) ∧
    lo_ib_connected out = true ∧ lo_result out = Raise ConnectionError.
Proof.
  destruct (live_session example_live_feed (Raise ConnectionError) no_clock ltac:(done))
    as (N & out & Hrun & _ & Hc & Hr).
  exists N, out. split; [exact Hrun|]. split; [exact Hc|exact Hr].
Defined.
