(* ===== verification/EndToEnd.v ===== *)
(** * Client and engine together

    The Python client's bytes served by the C++ engine, the engine's bytes read
    by the Python client, and the quoter of the drivers trading on the book. *)

From S2P Require Import Prelude Bytes PyFloat PyStruct Protocol EngineProtocol OrderBook Client.
From S2P Require Import WireAgreement Server Strategy TradeLog SessionRunner.

Open Scope Z_scope.

(** ** From actions to requests *)

(** The request the engine sees for an action of a strategy. *)
Definition request_of (a : StrategyAction) : request :=
  match a with
  | ActOrder r => ReqNew
      {| wo_client_order_id := or_order_id r; wo_side := Side_value (or_side r);
         wo_order_type := OrderType_value (or_order_type r);
         wo_price_ticks := if decide (or_order_type r = MARKET) then 0 else or_price_ticks r;
         wo_quantity := or_quantity r |}
  | ActCancel c => ReqCancel {| wc_client_order_id := cr_order_id c |}
  end.

Definition perform_all (fd : Z) (acts : list StrategyAction) (s : Server) : Server :=
  fold_left (λ s a, perform fd (request_of a) s) acts s.

Lemma serve_message fd tag n body rest s s' :
  cpp_payload_size (byte_to_Z tag) = Some n → length body = n →
  dispatch fd (byte_to_Z tag) (body ++ rest) s = Some s' →
  serve fd ((tag :: body) ++ rest) s = serve fd rest s'.
Proof.
  intros Hn Hl Hd. change ((tag :: body) ++ rest) with (tag :: (body ++ rest)). unfold serve at 1.
  rewrite <- (serve_enough (length (tag :: body ++ rest)) fd rest s') by (cbn; rewrite length_app; lia).
  remember (length (tag :: body ++ rest)) as fuel. cbn [serve_buffer].
  rewrite Hn, (proj2 (Nat.ltb_ge _ _)), Hd by (rewrite length_app; lia).
  by rewrite <- Hl, drop_app_length.
Qed.

(** The encoding of an action at the front of a buffer is served as its request. *)
Lemma serve_action fd a bs rest s :
  action_bytes a = Ok bs → serve fd (bs ++ rest) s = serve fd rest (perform fd (request_of a) s).
Proof.
  intros Ha. destruct a as [r|c]; cbn [action_bytes] in Ha.
  - set (m := {| com_client_order_id := _; com_side := _; com_order_type := _; com_price_ticks := _;
      com_quantity := _ |}) in Ha.
    pose proof (encode_new_order_ok m bs Ha) as Hok. rewrite encode_new_order_eq in Ha by done.
    apply (inj Ok) in Ha as <-. pose proof (order_body_decodes m rest Hok) as Hd.
    set (body := be_encode 8 (com_client_order_id m) ++ be_encode 1 (Side_value (com_side m)) ++
      be_encode 1 (OrderType_value (com_order_type m)) ++ be_encode 8 (com_price_ticks m) ++
      be_encode 4 (com_quantity m)) in Hd |- *.
    apply (serve_message fd (tag_byte NEW_ORDER) kClientOrderMsgSize body rest s); [reflexivity| |].
    + unfold body. by rewrite !length_app, !be_encode_length.
    + change (dispatch fd (byte_to_Z (tag_byte NEW_ORDER)) (body ++ rest) s) with
        ((λ m, dispatch_new_order fd m s) <$> decode_client_order (body ++ rest)). by rewrite Hd.
  - rewrite encode_cancel_eq in Ha. cbn [cm_client_order_id] in Ha. case_decide as Hid; [|done].
    apply (inj Ok) in Ha as <-.
    pose proof (cancel_body_decodes {| cm_client_order_id := cr_order_id c |} rest Hid) as Hd.
    cbn [cm_client_order_id] in Hd.
    apply (serve_message fd (tag_byte CANCEL) kCancelMsgSize (be_encode 8 (cr_order_id c)) rest s);
      [reflexivity|by rewrite be_encode_length|].
    change (dispatch fd (byte_to_Z (tag_byte CANCEL)) (?b ++ rest) s) with
      ((λ m, dispatch_cancel fd m s) <$> cpp_decode_cancel (b ++ rest)). by rewrite Hd.
Qed.

Lemma serve_actions fd acts bss s :
  res_map action_bytes acts = Ok bss → serve fd (concat bss) s = (perform_all fd acts s, Some []).
Proof.
  rewrite res_map_Forall2. intros H. revert s. induction H as [|a bs acts bss Ha _ IH]; intros s; [done|].
  cbn [concat]. rewrite (serve_action fd a bs (concat bss) s Ha). apply IH.
Qed.

(** ** The messages of one connection *)

Definition events_to (fd : Z) (s : Server) : list Event :=
  omap (λ p, if decide (p.1 = fd) then Some p.2 else None) (sv_sent s).

Definition acks_of (evs : list Event) : list AckEvent :=
  omap (λ e, match e with EvAck a => Some a | EvFill _ => None end) evs.

(** The id and request type an action is acknowledged under. *)
Definition action_ack (a : StrategyAction) : Z * Z :=
  match a with
  | ActOrder r => (or_order_id r, MsgType_value NEW_ORDER)
  | ActCancel c => (cr_order_id c, MsgType_value CANCEL)
  end.
Definition ack_key (a : AckEvent) : Z * Z := (ack_client_order_id a, ack_request_type a).

(** [s'] has sent [fd] the events [evs] since [s], and nothing was unsent. *)
Definition sent_since (fd : Z) (s s' : Server) (evs : list Event) : Prop :=
  ∃ out, sv_sent s' = sv_sent s ++ out ∧
    evs = omap (λ p, if decide (p.1 = fd) then Some p.2 else None) out.

Lemma sent_since_trans fd s1 s2 s3 e1 e2 :
  sent_since fd s1 s2 e1 → sent_since fd s2 s3 e2 → sent_since fd s1 s3 (e1 ++ e2).
Proof.
  intros (o1 & H1 & ->) (o2 & H2 & ->). exists (o1 ++ o2). rewrite omap_app. split; [|done].
  by rewrite H2, H1, app_assoc.
Qed.

Lemma deliver_sent fd fd' s f : ∃ evs, sent_since fd s (deliver_fill fd' s f) evs ∧ acks_of evs = [].
Proof.
  rewrite deliver_fill_spec. cbv zeta.
  set (out := (λ d, (d, EvFill f)) <$> recipients fd' f s).
  exists (omap (λ p, if decide (p.1 = fd) then Some p.2 else None) out). split.
  - exists out. split; [|done]. by destruct (contains _ _).
  - subst out. induction (recipients fd' f s) as [|d ds IH]; [done|]. cbn.
    destruct (decide (d = fd)); [|exact IH]. cbn. exact IH.
Qed.

Lemma delivers_sent fd fd' fs s :
  ∃ evs, sent_since fd s (fold_left (deliver_fill fd') fs s) evs ∧ acks_of evs = [].
Proof.
  revert s. induction fs as [|f fs IH]; intros s; cbn [fold_left].
  { exists []. split; [|done]. exists []. by rewrite app_nil_r. }
  destruct (deliver_sent fd fd' s f) as (e1 & H1 & A1). destruct (IH (deliver_fill fd' s f)) as (e2 & H2 & A2).
  exists (e1 ++ e2). split; [by eapply sent_since_trans|]. unfold acks_of in *. by rewrite omap_app, A1, A2.
Qed.

(** Every action is answered with one ack, of its id and type. *)
Lemma perform_acked fd a s :
  ∃ evs, sent_since fd s (perform fd (request_of a) s) evs ∧
    ack_key <$> acks_of evs = [action_ack a].
Proof.
  destruct a as [r|c]; cbn [request_of perform action_ack].
  - unfold dispatch_new_order. cbn [wo_client_order_id].
    destruct (contains _ (book s)).
    { set (e := EvAck {| ack_client_order_id := or_order_id r; ack_request_type := kNewOrderTag; ack_status := 1 |}).
      exists [e]. split; [|done]. exists [(fd, e)]. split; [done|]. cbn. by rewrite decide_True. }
    destruct (submit _ _) as [b fills].
    match goal with |- context [fold_left _ _ ?s0] => set (s1 := s0) end.
    destruct (delivers_sent fd fd fills s1) as (evs & He & Ha).
    set (e := EvAck {| ack_client_order_id := or_order_id r; ack_request_type := kNewOrderTag; ack_status := 0 |}).
    exists ([e] ++ evs). split; [eapply sent_since_trans; [|exact He]|].
    + exists [(fd, e)]. split; [by subst s1; destruct (contains _ b)|]. cbn. by rewrite decide_True.
    + unfold acks_of in *. rewrite omap_app, fmap_app, Ha. done.
  - unfold dispatch_cancel. cbn [wc_client_order_id]. destruct (OrderBook.cancel _ _) as [b ok].
    set (e := EvAck {| ack_client_order_id := cr_order_id c; ack_request_type := kCancelTag;
      ack_status := if ok then 0 else 1 |}).
    exists [e]. split; [|done]. exists [(fd, e)]. split; [by destruct ok|]. cbn. by rewrite decide_True.
Qed.

Lemma perform_all_acked fd acts s :
  ∃ evs, sent_since fd s (perform_all fd acts s) evs ∧ ack_key <$> acks_of evs = action_ack <$> acts.
Proof.
  revert s. induction acts as [|a acts IH]; intros s; cbn [perform_all fold_left].
  { exists []. split; [|done]. exists []. by rewrite app_nil_r. }
  destruct (perform_acked fd a s) as (e1 & H1 & A1).
  destruct (IH (perform fd (request_of a) s)) as (e2 & H2 & A2).
  exists (e1 ++ e2). split; [by eapply sent_since_trans|].
  unfold acks_of in *. by rewrite omap_app, fmap_app, A1, A2.
Qed.

(** *** A client talking to the server *)

Lemma perform_all_ok fd acts bss s :
  res_map action_bytes acts = Ok bss → server_ok s → server_ok (perform_all fd acts s).
Proof.
  intros Hb Hs. pose proof (serve_ok fd (concat bss) s Hs) as H. by rewrite (serve_actions fd acts bss s Hb) in H.
Qed.

Lemma sent_events_ok fd s s' evs : server_ok s' → sent_since fd s s' evs → Forall Event_ok evs.
Proof.
  intros Hs (out & Ho & ->). pose proof (so_sent _ Hs) as Hall. rewrite Ho in Hall.
  apply Forall_app in Hall as [_ Hall]. clear Ho. induction Hall as [|[d e] out He _ IH]; cbn; [constructor|].
  destruct (decide (d = fd)); [constructor; [exact He|exact IH]|exact IH].
Qed.

(** (C4) The pipeline between a strategy and the book, over an idle connection of
    any running server.  Whatever actions the client sends, and however the
    network cuts up their bytes, the engine carries out exactly those actions, in
    order, and keeps no byte back; among the events it sends that client there
    is exactly one ack per action, in order, under the action's id and type; and
    when those events travel back, again cut up in any way, the client's reader
    thread queues exactly them, in order. *)
Theorem wire_round_trip (fd : Z) (s : Server) (acts : list StrategyAction) (bss : list bytes)
    (c : bytes) (chunks : list bytes) :
  rtc server_step new_server s → buffer_of fd s = Some [] →
  res_map action_bytes acts = Ok bss → concat (c :: chunks) = concat bss →
  let s' := fold_left (λ s c, readable fd (Received c) s) (c :: chunks) s in
  book s' = book (perform_all fd acts s) ∧ sv_sent s' = sv_sent (perform_all fd acts s) ∧
  buffer_of fd s' = Some [] ∧
  ∃ evs, sent_since fd s s' evs ∧ ack_key <$> acks_of evs = action_ack <$> acts ∧
    ∀ (r : Reader) fuel, sk_closed (rd_sock r) = false →
      stream (sk_incoming (rd_sock r)) = concat (engine_encode <$> evs) → (length evs < fuel)%nat →
      ∃ k, _read_loop fuel r = ({| rd_sock := k; rd_events := rd_events r ++ evs |}, Ok tt).
Proof.
  intros Hrun Hbuf Hb Hcat s'. pose proof (rtc_server_ok s Hrun) as Hs.
  assert (s' = put_buf fd [] (perform_all fd acts s)) as E.
  { unfold s'. rewrite server_chunks, Hcat, readable_received, Hbuf. cbn [app].
    by rewrite (serve_actions fd acts bss s Hb). }
  pose proof (perform_all_ok fd acts bss s Hb Hs) as Hs'.
  assert (buffer_of fd (perform_all fd acts s) = Some []) as Hbuf'.
  { pose proof (serve_buffer_of fd fd (concat bss) s) as H. by rewrite (serve_actions fd acts bss s Hb), Hbuf in H. }
  destruct (perform_all_acked fd acts s) as (evs & Hsent & Hack).
  rewrite E. split; [done|]. split; [done|]. split; [by rewrite buffer_put, Hbuf'|].
  exists evs. split; [exact Hsent|]. split; [done|]. intros r fuel Hc Hstr Hf.
  destruct (read_loop_frames fuel r Hc) as [k Hk]. exists k. rewrite Hk, Hstr.
  pose proof (sent_events_ok fd s _ evs Hs' Hsent) as Hok.
  set (e := EvAck {| ack_client_order_id := 0; ack_request_type := 0; ack_status := 0 |}).
  assert (Event_ok e) as He by decide_now.
  pose proof (frames_events fuel evs e [] (engine_encode e) Hok He eq_refl ltac:(done) Hf) as Hfr.
  rewrite app_nil_r in Hfr. by rewrite Hfr.
Qed.

Lemma wire_round_trip_witness :
  let s := accept 5 new_server in
  let acts := (quoter_on_price 10000 (new_quoter 1 10)).2 in
  let bs := match res_map action_bytes acts with Ok bss => concat bss | _ => [] end in
  let s' := fold_left (λ s c, readable 5 (Received c) s) [take 9 bs; drop 9 bs] s in
  length acts = 2%nat ∧ length bs = 46%nat ∧ best_bid (book s') = Some 9999 ∧
  best_ask (book s') = Some 10001 ∧ buffer_of 5 s' = Some [] ∧
  ∃ evs, sent_since 5 s s' evs ∧ ack_key <$> acks_of evs = action_ack <$> acts.
Proof.
  intros s acts bs s'. assert (rtc server_step new_server s) as Hrun.
  { eapply rtc_l; [apply (step_accept 5); cbn; set_solver|apply rtc_refl]. }
  set (bss := match res_map action_bytes acts with Ok bss => bss | _ => [] end).
  destruct (wire_round_trip 5 s acts bss (take 9 bs) [drop 9 bs] Hrun eq_refl
    ltac:(vm_compute; reflexivity) ltac:(vm_compute; reflexivity)) as (_ & _ & Hb & evs & He & Ha & _).
  split; [reflexivity|]. split; [vm_compute; reflexivity|].
  split; [vm_compute; reflexivity|]. split; [vm_compute; reflexivity|]. split; [exact Hb|].
  exists evs. split; [exact He|exact Ha].
Defined.

(** ** The quoter against the book *)

(** The actions of a strategy as operations of the book. *)
Definition book_op_of (a : StrategyAction) : book_op :=
  match a with
  | ActOrder r => Submit {| o_id := or_order_id r; o_side := or_side r; o_type := or_order_type r;
      o_price_ticks := or_price_ticks r; o_quantity := or_quantity r; o_timestamp := 0 |}
  | ActCancel c => Cancel (cr_order_id c)
  end.

Definition limit_order (id : Z) (side : Side) (price qty ts : Z) : Order :=
  {| o_id := id; o_side := side; o_type := LIMIT; o_price_ticks := price; o_quantity := qty; o_timestamp := ts |}.

Lemma trade_blocked crosses r queue inc ts :
  crosses inc (o_price_ticks r) = false → trade crosses (r :: queue) inc ts = (r :: queue, inc, ts, []).
Proof. intros H. cbn [trade]. by rewrite H, orb_true_r. Qed.

Lemma trade_filled crosses r queue inc ts :
  crosses inc (o_price_ticks r) = true → o_quantity inc = o_quantity r → 0 < o_quantity r →
  trade crosses (r :: queue) inc ts =
    (queue, set_quantity 0 inc, tick ts, [fill_of r inc (o_quantity r) ts]).
Proof.
  intros Hc Hq Hpos. cbn [trade]. rewrite Hc, Hq, (proj2 (Z.eqb_neq _ _)) by lia. cbn [orb negb].
  rewrite Z.min_id, Z.sub_diag, Z.ltb_irrefl.
  assert (trade crosses queue (set_quantity 0 inc) (tick ts) = (queue, set_quantity 0 inc, tick ts, [])) as ->;
    [|done]. by destruct queue.
Qed.

(** Orders that trade with nobody and rest. *)
Lemma spec_rest_buy id price qty b :
  id ∉ ids (pb_bids b ++ pb_asks b) → 0 < qty →
  (∀ r, head (pb_asks b) = Some r → price < o_price_ticks r) →
  let o := limit_order id BUY price qty 0 in
  spec_submit o b = ({| pb_bids := enqueue (set_timestamp (pb_ts b) o) (pb_bids b);
                        pb_asks := pb_asks b; pb_ts := tick (pb_ts b) |}, []).
Proof.
  intros Hid Hq Ha o. unfold spec_submit. rewrite decide_False by exact Hid. cbn [o o_side limit_order].
  assert (trade buy_crosses (pb_asks b) (set_timestamp (pb_ts b) o) (tick (pb_ts b)) =
    (pb_asks b, set_timestamp (pb_ts b) o, tick (pb_ts b), [])) as ->.
  { destruct (pb_asks b) as [|r asks]; [done|]. apply trade_blocked. unfold buy_crosses, is_market. cbn.
    apply Z.leb_gt. by apply Ha. }
  cbn [o_quantity set_timestamp o_type o limit_order]. by rewrite (proj2 (Z.ltb_lt 0 qty) Hq).
Qed.

Lemma spec_rest_sell id price qty b :
  id ∉ ids (pb_bids b ++ pb_asks b) → 0 < qty →
  (∀ r, head (pb_bids b) = Some r → o_price_ticks r < price) →
  let o := limit_order id SELL price qty 0 in
  spec_submit o b = ({| pb_bids := pb_bids b; pb_asks := enqueue (set_timestamp (pb_ts b) o) (pb_asks b);
                        pb_ts := tick (pb_ts b) |}, []).
Proof.
  intros Hid Hq Ha o. unfold spec_submit. rewrite decide_False by exact Hid. cbn [o o_side limit_order].
  assert (trade sell_crosses (pb_bids b) (set_timestamp (pb_ts b) o) (tick (pb_ts b)) =
    (pb_bids b, set_timestamp (pb_ts b) o, tick (pb_ts b), [])) as ->.
  { destruct (pb_bids b) as [|r bids]; [done|]. apply trade_blocked. unfold sell_crosses, is_market. cbn.
    apply Z.leb_gt. by apply Ha. }
  cbn [o_quantity set_timestamp o_type o limit_order]. by rewrite (proj2 (Z.ltb_lt 0 qty) Hq).
Qed.

(** Orders that take the best opposite order, of the same size, and are done. *)
Lemma spec_take_buy id price qty r b bids asks ts :
  b = {| pb_bids := bids; pb_asks := r :: asks; pb_ts := ts |} →
  id ∉ ids (pb_bids b ++ pb_asks b) → 0 < qty → o_price_ticks r ≤ price → o_quantity r = qty →
  let o := limit_order id BUY price qty 0 in
  spec_submit o b = ({| pb_bids := bids; pb_asks := asks; pb_ts := tick (tick ts) |},
                     [fill_of r o qty (tick ts)]).
Proof.
  intros -> Hid Hq Hp Hr o. unfold spec_submit. rewrite decide_False by exact Hid.
  cbn [o o_side limit_order pb_asks pb_ts pb_bids]. rewrite trade_filled; [|by apply Z.leb_le|by rewrite Hr|lia].
  by rewrite Hr.
Qed.

Lemma spec_take_sell id price qty r b bids asks ts :
  b = {| pb_bids := r :: bids; pb_asks := asks; pb_ts := ts |} →
  id ∉ ids (pb_bids b ++ pb_asks b) → 0 < qty → price ≤ o_price_ticks r → o_quantity r = qty →
  let o := limit_order id SELL price qty 0 in
  spec_submit o b = ({| pb_bids := bids; pb_asks := asks; pb_ts := tick (tick ts) |},
                     [fill_of r o qty (tick ts)]).
Proof.
  intros -> Hid Hq Hp Hr o. unfold spec_submit. rewrite decide_False by exact Hid.
  cbn [o o_side limit_order pb_asks pb_ts pb_bids]. rewrite trade_filled; [|by apply Z.leb_le|by rewrite Hr|lia].
  by rewrite Hr.
Qed.

Lemma enqueue_nil o : enqueue o [] = [o].
Proof. done. Qed.

Lemma enqueue_one o q :
  enqueue o [q] = if better (o_side o) (o_price_ticks o) (o_price_ticks q) then [o; q] else [q; o].
Proof.
  unfold enqueue. rewrite !filter_cons, !filter_nil.
  destruct (better (o_side o) (o_price_ticks o) (o_price_ticks q)) eqn:Hb.
  - rewrite decide_False by (intros Hn; by apply Hn). by rewrite decide_True.
  - assert (¬ worse o q) as Hn by (unfold worse; by rewrite Hb).
    rewrite decide_True by done. by rewrite decide_False.
Qed.

(** The two ticks of the examples below, at prices [p] and [p']. *)
Section TwoTicks.
Context (off size p p' : Z).
Hypotheses (Hoff : 0 < off) (Hsize : 0 < size).

Definition tick1 : FixedOffsetQuoter * list StrategyAction := quoter_on_price p (new_quoter off size).
Definition tick2 : FixedOffsetQuoter * list StrategyAction := quoter_on_price p' tick1.1.

Definition buy1 := limit_order 1 BUY (p - off) size 0.
Definition sell2 := limit_order 2 SELL (p + off) size 0.
Definition buy3 := limit_order 3 BUY (p' - off) size 0.
Definition sell4 := limit_order 4 SELL (p' + off) size 0.

Lemma tick1_ops :
  book_op_of <$> tick1.2 = [Submit buy1; Submit sell2] ∧
  tick1.1 = {| _offset := off; _size := size; _ids := 3; _resting_buy := Some (1, p - off);
               _resting_sell := Some (2, p + off) |}.
Proof. unfold tick1. rewrite on_price_spec. done. Qed.

Lemma tick2_ops : p' ≠ p →
  book_op_of <$> tick2.2 = [Submit buy3; Submit sell4; Cancel 1; Cancel 2] ∧
  tick2.1 = {| _offset := off; _size := size; _ids := 5; _resting_buy := Some (3, p' - off);
               _resting_sell := Some (4, p' + off) |}.
Proof.
  intros Hp. unfold tick2. destruct tick1_ops as [_ ->]. rewrite on_price_spec.
  unfold drifted. cbn [resting _resting_buy _resting_sell _offset snd].
  rewrite !(proj2 (Z.eqb_neq _ _)) by lia. done.
Qed.

(** The book between the ticks. *)
Definition mid_book : PBook :=
  {| pb_bids := [set_timestamp 0 buy1]; pb_asks := [set_timestamp 1 sell2]; pb_ts := 2 |}.

Lemma first_tick : run_book spec_step [Submit buy1; Submit sell2] (abs empty_book) = (mid_book, [inl []; inl []]).
Proof.
  cbn [run_book spec_step]. unfold buy1 at 1. rewrite spec_rest_buy; [|apply not_elem_of_nil|done|done].
  unfold sell2 at 1. rewrite spec_rest_sell; [done| |done|].
  - cbn. by intros Hx%list_elem_of_singleton.
  - intros r [= <-]. cbn. lia.
Qed.

Lemma new_id x bids asks : Forall (λ o, o_id o ≠ x) (bids ++ asks) → x ∉ ids (bids ++ asks).
Proof.
  intros H Hx. unfold ids in Hx. apply list_elem_of_fmap in Hx as (o & -> & Ho).
  rewrite Forall_forall in H. by apply (H o Ho).
Qed.
#[local] Ltac fresh_id := apply new_id; cbn [app mid_book pb_bids pb_asks];
  repeat (apply Forall_cons; split; [cbn; lia|]); apply Forall_nil; exact I.

(** A rise of at least twice the offset. *)
Lemma second_tick_up : 2 * off ≤ p' - p →
  run_book spec_step [Submit buy3; Submit sell4; Cancel 1; Cancel 2] mid_book =
    ({| pb_bids := []; pb_asks := [set_timestamp 4 sell4]; pb_ts := 5 |},
     [inl [fill_of (set_timestamp 1 sell2) buy3 size 3]; inl []; inr true; inr false]).
Proof.
  intros Hd. cbn [run_book spec_step]. unfold buy3 at 1.
  rewrite (spec_take_buy 3 (p' - off) size (set_timestamp 1 sell2) mid_book [set_timestamp 0 buy1] [] 2);
    [|done|fresh_id|done|cbn; lia|done].
  unfold sell4 at 1. rewrite spec_rest_sell;
    [|cbn; by intros Hx%list_elem_of_singleton|done|intros r [= <-]; cbn; lia].
  done.
Qed.

(** A fall of at least twice the offset. *)
Lemma second_tick_down : 2 * off ≤ p - p' →
  run_book spec_step [Submit buy3; Submit sell4; Cancel 1; Cancel 2] mid_book =
    ({| pb_bids := [set_timestamp 2 buy3]; pb_asks := []; pb_ts := 5 |},
     [inl []; inl [fill_of (set_timestamp 0 buy1) sell4 size 4]; inr false; inr true]).
Proof.
  intros Hd. cbn [run_book spec_step]. unfold buy3 at 1.
  rewrite spec_rest_buy; [|fresh_id|done|intros r [= <-]; cbn; lia].
  cbn [mid_book pb_bids pb_asks pb_ts]. rewrite enqueue_one.
  cbn [o_side o_price_ticks set_timestamp limit_order buy1 better].
  rewrite (proj2 (Z.ltb_ge _ _)) by lia. unfold sell4 at 1.
  erewrite (spec_take_sell 4 (p' + off) size (set_timestamp 0 buy1));
    [|reflexivity|fresh_id|done|cbn; lia|done].
  done.
Qed.

(** Anything in between. *)
Lemma second_tick_still : p' ≠ p → Z.abs (p' - p) < 2 * off →
  (run_book spec_step [Submit buy3; Submit sell4; Cancel 1; Cancel 2] mid_book) =
    ({| pb_bids := [set_timestamp 2 buy3]; pb_asks := [set_timestamp 3 sell4]; pb_ts := 4 |},
     [inl []; inl []; inr true; inr true]).
Proof.
  intros Hne Hd. cbn [run_book spec_step]. unfold buy3 at 1.
  rewrite spec_rest_buy; [|fresh_id|done|intros r [= <-]; cbn; lia].
  cbn [mid_book pb_bids pb_asks pb_ts]. rewrite enqueue_one.
  cbn [o_side o_price_ticks set_timestamp limit_order buy1 better].
  destruct (Z.ltb_spec (p - off) (p' - off)).
  - unfold sell4 at 1. rewrite spec_rest_sell;
      [|fresh_id|done|intros r [= <-]; cbn; lia].
    cbn [pb_bids pb_asks pb_ts]. rewrite enqueue_one.
    cbn [o_side o_price_ticks set_timestamp limit_order sell2 better].
    rewrite (proj2 (Z.ltb_ge _ _)) by lia. done.
  - unfold sell4 at 1. rewrite spec_rest_sell;
      [|fresh_id|done|intros r [= <-]; cbn; lia].
    cbn [pb_bids pb_asks pb_ts]. rewrite enqueue_one.
    cbn [o_side o_price_ticks set_timestamp limit_order sell2 better].
    rewrite (proj2 (Z.ltb_lt _ _)) by lia. done.
Qed.
End TwoTicks.

Lemma two_ticks_book off size p p' :
  0 < off → 0 < size → p' ≠ p →
  let ops := [Submit (buy3 off size p'); Submit (sell4 off size p'); Cancel 1; Cancel 2] in
  let '(b1, r1) := run_book book_step (book_op_of <$> (tick1 off size p).2) empty_book in
  let '(b2, r2) := run_book book_step (book_op_of <$> (tick2 off size p p').2) b1 in
  r1 = [inl []; inl []] ∧ run_book spec_step ops (mid_book off size p) = (abs b2, r2) ∧ book_ok b2.
Proof.
  intros Ho Hs Hp ops. destruct (tick1_ops off size p) as [-> _]. destruct (tick2_ops off size p p' Hp) as [-> _].
  assert (Forall op_ok [Submit (buy1 off size p); Submit (sell2 off size p)]) as H1.
  { repeat (apply Forall_cons; split; [cbn; lia|]). apply Forall_nil; exact I. }
  assert (Forall op_ok ops) as H2.
  { repeat (apply Forall_cons; split; [cbn; lia || exact I|]). apply Forall_nil; exact I. }
  pose proof (run_book_spec _ _ H1 empty_book_ok) as R1. rewrite (first_tick off size p Ho Hs) in R1.
  destruct (run_book book_step _ empty_book) as [b1 r1]. destruct R1 as [R1 Hb1].
  injection R1 as E1 E2 E3 E4. pose proof (run_book_spec _ _ H2 Hb1) as R2.
  fold ops. destruct (run_book book_step ops b1) as [b2 r2]. destruct R2 as [R2 Hb2].
  split; [done|]. split; [|done]. rewrite <- R2. f_equal. unfold mid_book, abs. by rewrite E1, E2, E3.
Qed.

(** (C37) When the quoter trades with itself.  A quoter alone on an empty book
    quotes at [p], then at [p'].  At the same price it does nothing.  If the
    price has moved by less than twice the offset, both quotes are replaced
    without a trade and both cancels succeed.  If it has risen by at least that
    much, the new buy takes the old sell, whole, at the old sell's price; if it
    has fallen, the new sell takes the old buy; in both cases the cancel of the
    quote that traded fails. *)
Theorem self_trading (off size p p' : Z) :
  0 < off → 0 < size →
  let '(b1, r1) := run_book book_step (book_op_of <$> (tick1 off size p).2) empty_book in
  let '(b2, r2) := run_book book_step (book_op_of <$> (tick2 off size p p').2) b1 in
  r1 = [inl []; inl []] ∧
  if decide (p' = p) then r2 = []
  else if decide (Z.abs (p' - p) < 2 * off) then
    r2 = [inl []; inl []; inr true; inr true] ∧
    best_bid b2 = Some (p' - off) ∧ best_ask b2 = Some (p' + off)
  else if decide (p < p') then
    r2 = [inl [{| resting_order_id := 2; incoming_order_id := 3; resting_side := SELL;
                  fe_price_ticks := p + off; fe_quantity := size; fe_timestamp := 3 |}];
          inl []; inr true; inr false]
  else
    r2 = [inl []; inl [{| resting_order_id := 1; incoming_order_id := 4; resting_side := BUY;
                          fe_price_ticks := p - off; fe_quantity := size; fe_timestamp := 4 |}];
          inr false; inr true].
Proof.
  intros Ho Hs. destruct (decide (p' = p)) as [->|Hp].
  { destruct (tick1_ops off size p) as [E1 Eq]. unfold tick2. rewrite Eq, on_price_spec. unfold drifted.
    cbn [resting _resting_buy _resting_sell _offset snd]. rewrite !Z.eqb_refl. cbn [negb app fmap list_fmap snd run_book].
    rewrite E1. assert (Forall op_ok [Submit (buy1 off size p); Submit (sell2 off size p)]) as H1.
    { repeat (apply Forall_cons; split; [cbn; lia|]). apply Forall_nil; exact I. }
    pose proof (run_book_spec _ _ H1 empty_book_ok) as R1. rewrite (first_tick off size p Ho Hs) in R1.
    destruct (run_book book_step _ empty_book) as [b1 r1]. destruct R1 as [R1 _]. by injection R1 as _ _ _ ->. }
  pose proof (two_ticks_book off size p p' Ho Hs Hp) as H. cbv zeta in H.
  destruct (run_book book_step _ empty_book) as [b1 r1].
  destruct (run_book book_step _ b1) as [b2 r2] eqn:Hrun. destruct H as (Hr1 & H & Hb2). split; [done|].
  destruct (decide (Z.abs (p' - p) < 2 * off)) as [Hd|Hd]; [|destruct (decide (p < p')) as [Hlt|Hge]].
  - rewrite second_tick_still in H by done. injection H as E1 E2 _ E4. split; [by rewrite <- E4|].
    split; [etransitivity; [apply (best_level BUY), Hb2|by rewrite <- E1]|].
    etransitivity; [apply (best_level SELL), Hb2|by rewrite <- E2].
  - rewrite second_tick_up in H by lia. by injection H as _ _ _ <-.
  - rewrite second_tick_down in H by lia. by injection H as _ _ _ <-.
Qed.

Lemma self_trading_witness :
  let '(b1, _) := run_book book_step (book_op_of <$> (tick1 1 10 10000).2) empty_book in
  let '(_, r2) := run_book book_step (book_op_of <$> (tick2 1 10 10000 10002).2) b1 in
  match r2 with
  | [inl [f]; inl []; inr true; inr false] => resting_order_id f = 2 ∧ fe_price_ticks f = 10001
  | _ => False
  end.
Proof.
  pose proof (self_trading 1 10 10000 10002 ltac:(lia) ltac:(lia)) as H.
  destruct (run_book book_step _ empty_book) as [b1 r1]. destruct (run_book book_step _ b1) as [b2 r2].
  destruct H as [_ H]. rewrite !decide_False, decide_True in H by lia. by rewrite H.
Defined.

(** (C39) A quote that trades as the incoming order is still believed to rest.
    After such a move the quoter, told of every fill, still counts both its new
    quotes as live, while the book holds only one of them; a further tick at the
    same price does not restore the missing side. *)
Theorem phantom_quote (off size p p' : Z) :
  0 < off → 0 < size → 2 * off ≤ Z.abs (p' - p) →
  let '(b1, r1) := run_book book_step (book_op_of <$> (tick1 off size p).2) empty_book in
  let '(b2, r2) := run_book book_step (book_op_of <$> (tick2 off size p p').2) b1 in
  let fills := concat ((λ r, match r with inl fs => fs | inr _ => [] end) <$> r2) in
  let q := fold_left (λ q f, quoter_on_fill f q) fills (tick2 off size p p').1 in
  live_ids q = [3; 4] ∧
  ids (all_orders b2) = [if decide (p < p') then 4 else 3] ∧
  quoter_on_price p' q = (q, []).
Proof.
  intros Ho Hs Hd. assert (p' ≠ p) as Hp by lia.
  pose proof (two_ticks_book off size p p' Ho Hs Hp) as H. cbv zeta in H.
  destruct (tick2_ops off size p p' Hp) as [_ Hq].
  destruct (run_book book_step _ empty_book) as [b1 r1]. destruct (run_book book_step _ b1) as [b2 r2].
  destruct H as (_ & H & _). intros fills q.
  assert (ids (all_orders b2) = [if decide (p < p') then 4 else 3] ∧ q = (tick2 off size p p').1) as [Hids ->].
  { unfold all_orders, q, fills. rewrite Hq. destruct (decide (p < p')).
    - rewrite second_tick_up in H by lia. injection H as E1 E2 _ <-. split; [by rewrite <- E1, <- E2|done].
    - rewrite second_tick_down in H by lia. injection H as E1 E2 _ <-. split; [by rewrite <- E1, <- E2|done]. }
  rewrite Hq. split; [done|]. split; [exact Hids|]. rewrite on_price_spec. unfold drifted.
  cbn [resting _resting_buy _resting_sell _offset snd]. by rewrite !Z.eqb_refl.
Qed.

Lemma phantom_quote_witness :
  let '(b1, _) := run_book book_step (book_op_of <$> (tick1 1 10 10000).2) empty_book in
  let '(b2, _) := run_book book_step (book_op_of <$> (tick2 1 10 10000 10002).2) b1 in
  ids (all_orders b2) = [4].
Proof.
  pose proof (phantom_quote 1 10 10000 10002 ltac:(lia) ltac:(lia) ltac:(lia)) as H.
  destruct (run_book book_step _ empty_book) as [b1 r1]. destruct (run_book book_step _ b1) as [b2 r2].
  destruct H as (_ & H & _). exact H.
Defined.

(** *** A partial fill *)

Lemma forgotten id q acts q' :
  1 ≤ id < _ids q → id ∉ live_ids q → quoter_run q acts q' →
  id ∉ cancel_ids acts ∧ id ∉ live_ids q' ∧ id < _ids q'.
Proof.
  intros Hid Hl Hrun. induction Hrun as [|acts q1 i q2 new _ (IH1 & IH2 & IH3) Hstep].
  { split; [apply not_elem_of_nil|]. split; [done|lia]. }
  unfold cancel_ids in *. rewrite omap_app, not_elem_of_app. destruct i as [p|f]; cbn [quoter_step] in Hstep.
  - rewrite on_price_spec in Hstep. injection Hstep as <- <-. unfold live_ids, stale_cancel in *.
    cbn [resting _resting_buy _resting_sell _ids] in *.
    destruct (drifted BUY _ q1), (drifted SELL _ q1), (_resting_buy q1) as [[]|], (_resting_sell q1) as [[]|];
      cbn in *; rewrite ?elem_of_cons in *; (split; [split|split]); try tauto; try lia;
      rewrite ?elem_of_cons; intros Hx; naive_solver lia.
  - injection Hstep as <- <-. split; [split; [done|apply not_elem_of_nil]|].
    unfold quoter_on_fill. repeat case_match; (split; [|done || (by destruct q1)]); try done;
      unfold live_ids in *; destruct q1 as [? ? ? [[]|] [[]|]]; cbn in *; rewrite ?elem_of_cons in *; tauto.
Qed.

(** Being told of fills makes the quoter forget exactly the quotes that were
    resting orders of them. *)
Lemma live_ids_fill f q :
  NoDup (live_ids q) → live_ids (quoter_on_fill f q) = filter (λ i, i ≠ resting_order_id f) (live_ids q).
Proof.
  destruct q as [off size n [[i pi]|] [[j pj]|]]; unfold quoter_on_fill, live_ids, is_resting; cbn; intros Hnd.
  - apply NoDup_cons in Hnd as [Hij _]. rewrite list_elem_of_singleton in Hij.
    destruct (Z.eqb_spec (resting_order_id f) i) as [<-|Hi], (Z.eqb_spec (resting_order_id f) j) as [<-|Hj];
      cbn; repeat case_decide; cbn; first [done|naive_solver].
  - destruct (Z.eqb_spec (resting_order_id f) i) as [<-|Hi]; cbn; repeat case_decide; cbn; first [done|naive_solver].
  - destruct (Z.eqb_spec (resting_order_id f) j) as [<-|Hj]; cbn; repeat case_decide; cbn; first [done|naive_solver].
  - done.
Qed.

Lemma ids_fill f q : _ids (quoter_on_fill f q) = _ids q.
Proof. unfold quoter_on_fill. repeat case_match; by destruct q. Qed.

Lemma live_ids_told told q :
  NoDup (live_ids q) →
  let q' := fold_left (λ q f, quoter_on_fill f q) told q in
  live_ids q' = filter (λ i, i ∉ resting_order_id <$> told) (live_ids q) ∧ _ids q' = _ids q.
Proof.
  revert q. induction told as [|f told IH]; intros q Hnd; cbn [fold_left].
  { split; [|done]. clear Hnd. induction (live_ids q) as [|i l IH]; [done|].
    rewrite filter_cons_True by apply not_elem_of_nil. by f_equal. }
  destruct (IH (quoter_on_fill f q)) as [IH1 IH2]; [rewrite live_ids_fill by done; by apply NoDup_filter|].
  cbv zeta in *. split; [|by rewrite IH2, ids_fill]. rewrite IH1, live_ids_fill by done.
  rewrite list_filter_filter. apply list_filter_iff. intros i. cbn [fmap list_fmap].
  rewrite not_elem_of_cons. tauto.
Qed.

(** (C38) The remainder of a quote that is hit in part is orphaned.  Take a quoter
    with any history, any book in which one of its live quotes rests, on either
    side, and any incoming order, of which one fill takes part of the quote as
    the resting order.  The rest of the quote stays in the book, as it was but
    for the quantity.  The quoter, told of that fill among others, forgets the
    quote: whatever prices and fills come next, it neither cancels nor counts it
    again.  A quote that is the resting order of no fill it is told of, such as
    one filled as the incoming order, it still counts. *)
Theorem orphaned_remainder (offset size : Z) (before : list StrategyAction) (q : FixedOffsetQuoter)
    (b : OrderBook) (inc o : Order) (f : Fill) (told : list Fill) :
  quoter_run (new_quoter offset size) before q → book_ok b → 0 ≤ o_quantity inc →
  o ∈ all_orders b → o_id o ∈ live_ids q →
  let '(b', fills) := submit inc b in
  f ∈ fills → resting_order_id f = o_id o → fe_quantity f < o_quantity o →
  set_quantity (o_quantity o - fe_quantity f) o ∈ all_orders b' ∧
  let told_q := fold_left (λ q f, quoter_on_fill f q) told q in
  (f ∈ told → ∀ acts q', quoter_run told_q acts q' → o_id o ∉ cancel_ids acts ∧ o_id o ∉ live_ids q') ∧
  (∀ id, id ∈ live_ids q → id ∉ resting_order_id <$> told → id ∈ live_ids told_q).
Proof.
  intros Hrun Hb Hq Ho Hl. apply quoter_run_inv in Hrun as [_ _ Hnd Hids].
  apply NoDup_app in Hnd as (Hnd & _ & _). apply Forall_app in Hids as [Hids _].
  pose proof (submit_remainder inc o b f Hb Hq Ho) as Hrem. destruct (submit inc b) as [b' fills].
  intros Hin Hf Hlt. split; [by apply Hrem|]. destruct (live_ids_told told q Hnd) as [Hlive Hnext].
  cbv zeta in *. set (told_q := fold_left _ _ _) in *. split.
  - intros Ht acts q' Hacts. rewrite Forall_forall in Hids.
    apply (forgotten (o_id o)) in Hacts as (H1 & H2 & _); [done|rewrite Hnext; by apply Hids|].
    rewrite Hlive, list_elem_of_filter. intros [Hn _]. apply Hn. rewrite <- Hf. by apply list_elem_of_fmap_2.
  - intros id Hid Hn. rewrite Hlive. by apply list_elem_of_filter.
Qed.

(** In a two-sided book, an incoming buy takes all of a better offer and 4 of the
    10 contracts of the sell quote 2; the buy quote 1 is not touched. *)
Lemma orphaned_remainder_witness :
  let q := (quoter_on_price 10000 (new_quoter 1 10)).1 in
  let b := (run_book book_step [Submit (limit_order 7 BUY 9990 5 0); Submit (limit_order 1 BUY 9999 10 0);
    Submit (limit_order 2 SELL 10001 10 0); Submit (limit_order 8 SELL 10000 3 0)] empty_book).1 in
  let inc := limit_order 9 BUY 10002 7 0 in
  let b' := (submit inc b).1 in
  let told := (submit inc b).2 in
  ids (all_orders b) = [1; 7; 8; 2] ∧ (fe_quantity <$> told) = [3; 4] ∧
  limit_order 2 SELL 10001 6 2 ∈ all_orders b' ∧
  let told_q := fold_left (λ q f, quoter_on_fill f q) told q in
  (∀ acts q', quoter_run told_q acts q' → 2 ∉ cancel_ids acts) ∧ 1 ∈ live_ids told_q.
Proof.
  intros q b inc b' told. assert (book_ok b) as Hok.
  { pose proof (run_book_spec [Submit (limit_order 7 BUY 9990 5 0); Submit (limit_order 1 BUY 9999 10 0);
      Submit (limit_order 2 SELL 10001 10 0); Submit (limit_order 8 SELL 10000 3 0)] empty_book
      ltac:(repeat constructor; cbn; lia) empty_book_ok) as H. subst b. destruct (run_book _ _ _). apply H. }
  set (f := {| resting_order_id := 2; incoming_order_id := 9; resting_side := SELL;
    fe_price_ticks := 10001; fe_quantity := 4; fe_timestamp := 6 |}).
  assert (f ∈ told) as Hf by (assert (told !! 1%nat = Some f) as E by (vm_compute; reflexivity);
    exact (list_elem_of_lookup_2 _ _ _ E)).
  assert (quoter_run (new_quoter 1 10) ([] ++ (quoter_on_price 10000 (new_quoter 1 10)).2) q) as Hrun.
  { apply (run_step _ _ (new_quoter 1 10) (InPrice 10000)); [apply run_start|apply surjective_pairing]. }
  assert (limit_order 2 SELL 10001 10 2 ∈ all_orders b) as Ho
    by (assert (all_orders b !! 3%nat = Some (limit_order 2 SELL 10001 10 2)) as E by (vm_compute; reflexivity);
    exact (list_elem_of_lookup_2 _ _ _ E)).
  pose proof (orphaned_remainder 1 10 _ q b inc (limit_order 2 SELL 10001 10 2) f told Hrun Hok
    ltac:(cbn; lia) Ho ltac:(decide_now)) as H.
  split; [vm_compute; reflexivity|]. split; [vm_compute; reflexivity|].
  assert (1 ∉ resting_order_id <$> told) as Hn by decide_now. subst b' told.
  destruct (submit inc b) as [b' fills]. destruct (H Hf eq_refl ltac:(cbn; lia)) as (H1 & H2 & H3).
  split; [exact H1|]. split.
  - intros acts q' Hacts. by destruct (H2 Hf acts q' Hacts).
  - apply H3; [decide_now|exact Hn].
Defined.
