(* ===== verification/HedgeSession.v ===== *)
(** * The delta-hedging session ([strategy/run_delta_hedge_backtest.py])

    The hedger's own loop: each tick marks the option book and the futures
    position to market, lets the hedger rehedge, and drains the connection.  The
    pricing client is one object, shared by the option book's valuation and the
    hedger, so it lives in the hedger's state.  The companion quoter is the
    session of [SessionRunner]; it shares the engine, not the process state. *)

From S2P Require Import Prelude Bytes PyFloat PyStruct PyStatistics Protocol Client EngineProtocol.
From S2P Require Import OrderBook Server PricingClient Strategy DeltaHedger TradeLog SessionRunner.
From S2P Require Import BacktestReport HedgeReport Feeds Sessions EndToEnd.

Open Scope Z_scope.

(** ** The loop *)

(** The hedger and the local variables of [run_hedge_backtest]. *)
Record HedgeState (P : Type) := {
  hedger : DeltaHedger P;
  unhedged_pnl : list num;
  hedged_pnl : list num;
  baseline_value : option num;
  cumulative_futures_pnl : num;
  prev_price_ticks : option Z;
}.
Arguments Build_HedgeState {P}.
Arguments hedger {P}.
Arguments unhedged_pnl {P}.
Arguments hedged_pnl {P}.
Arguments baseline_value {P}.
Arguments cumulative_futures_pnl {P}.
Arguments prev_price_ticks {P}.

Definition quarter : float := dyadic 1 (-2).   (* 0.25 *)

Section HedgeLoop.
Context {F P C : Type} `{!Feed F, !Pricer P, !BookClient C}.

Definition with_hedger {A} : M (DeltaHedger P) A → M (HedgeState P) A :=
  on_field hedger (λ h s, Build_HedgeState h (unhedged_pnl s) (hedged_pnl s) (baseline_value s)
    (cumulative_futures_pnl s) (prev_price_ticks s)).

Definition start_hedge (h : DeltaHedger P) : HedgeState P :=
  Build_HedgeState h [] [] None (NFloat f_zero) None.

Definition set_cumulative (c : num) (s : HedgeState P) : HedgeState P :=
  Build_HedgeState (hedger s) (unhedged_pnl s) (hedged_pnl s) (baseline_value s) c (prev_price_ticks s).
Definition set_prev_price (p : Z) (s : HedgeState P) : HedgeState P :=
  Build_HedgeState (hedger s) (unhedged_pnl s) (hedged_pnl s) (baseline_value s)
    (cumulative_futures_pnl s) (Some p).
Definition set_baseline (base : num) (s : HedgeState P) : HedgeState P :=
  Build_HedgeState (hedger s) (unhedged_pnl s) (hedged_pnl s) (Some base)
    (cumulative_futures_pnl s) (prev_price_ticks s).
Definition append_unhedged (u : num) (s : HedgeState P) : HedgeState P :=
  Build_HedgeState (hedger s) (unhedged_pnl s ++ [u]) (hedged_pnl s) (baseline_value s)
    (cumulative_futures_pnl s) (prev_price_ticks s).
Definition append_hedged (h : num) (s : HedgeState P) : HedgeState P :=
  Build_HedgeState (hedger s) (unhedged_pnl s) (hedged_pnl s ++ [h]) (baseline_value s)
    (cumulative_futures_pnl s) (prev_price_ticks s).

(** [cumulative_futures_pnl += position * ((price - prev) * 0.25)] *)
Definition futures_pnl (prev : option Z) (price position : Z) (cum : num) : res num :=
  match prev with
  | None => Ok cum
  | Some prev =>
      price_move_points ← num_mul (NInt (price - prev)) (NFloat quarter);
      pnl ← num_mul (NInt position) price_move_points;
      num_add cum pnl
  end.

(** The part of a tick before the rehedge. *)
Definition mark_to_market (price_ticks : Z) : M (HedgeState P) unit :=
  prev ← gets prev_price_ticks;
  position ← gets (λ s, _current_futures_position (hedger s));
  cum ← gets cumulative_futures_pnl;
  cum ← lift_res (futures_pnl prev price_ticks position cum);
  _ ← modify (set_cumulative cum);
  book ← gets (λ s, _options_book (hedger s));
  book_value ← with_hedger (with_pricer (aggregate_value book price_ticks));
  base ← gets baseline_value;
  let base := default book_value base in
  _ ← modify (set_baseline base);
  u ← lift_res (num_sub book_value base);
  _ ← modify (append_unhedged u);
  u ← lift_res (num_sub book_value base);
  h ← lift_res (num_add u cum);
  modify (append_hedged h).

#[export] Instance hedge_state_strategy : Strategy (HedgeState P) := {
  on_price p := with_hedger (hedger_on_price p);
  on_fill e := with_hedger (modify (hedger_on_fill e));
}.

Definition hedge_poll_timeout : float := dyadic 7205759403792794 (-57).    (* 0.05 *)
Definition hedge_drain_timeout : float := dyadic 7205759403792794 (-55).   (* 0.2 *)

(** One iteration of [for _ in range(ticks)]. *)
Definition hedge_tick : M (Session F (HedgeState P) C) unit :=
  price_ticks ← with_feed next_price;
  _ ← with_strategy (mark_to_market price_ticks);
  actions ← with_strategy (on_price price_ticks);
  _ ← for_each actions send_action;
  events ← with_client (bc_poll_events (Some hedge_poll_timeout));
  _ ← drain events;
  with_strategy (modify (set_prev_price price_ticks)).

Fixpoint hedge_ticks (n : nat) : M (Session F (HedgeState P) C) unit :=
  match n with
  | O => mret tt
  | S n => _ ← hedge_tick; hedge_ticks n
  end.

(** [pricing_client.close()] *)
Context (close_pricer : P → P).

Definition close_both (s : Session F (HedgeState P) C) : Session F (HedgeState P) C :=
  let s := close_client s in
  {| ss_feed := ss_feed s;
     ss_strategy :=
       let x := ss_strategy s in
       Build_HedgeState (set_pricer (close_pricer (_pricing_client (hedger x))) (hedger x))
         (unhedged_pnl x) (hedged_pnl x) (baseline_value x) (cumulative_futures_pnl x)
         (prev_price_ticks x);
     ss_client := ss_client s; ss_log := ss_log s |}.

(** [run_hedge_backtest] from the hedger's first tick on. *)
Definition run_hedge_loop (fuel : nat) (ticks : Z) : M (Session F (HedgeState P) C) unit :=
  try_finally (_ ← hedge_ticks (Z.to_nat ticks); final_drain fuel hedge_drain_timeout) close_both.

(** Both reports, from the state the loop leaves. *)
Definition hedge_reports (float_pow : float → float → res float) (s : Session F (HedgeState P) C) :
    res (TradeLog * BacktestReport * HedgeReport) :=
  report ← build_report float_pow (rows (ss_log s)) (NInt 252);
  let x := ss_strategy s in
  hedge ← build_hedge_report (_hedge_error_history (hedger x)) (_rehedge_count (hedger x))
            (hedged_pnl x) (unhedged_pnl x);
  Ok (ss_log s, report, hedge).
End HedgeLoop.

(** ** The drivers *)

Section HedgeDriver.
Context `{!Synthetic.Random R, !Pricer P} (close_pricer : P → P).

Definition RATE : float := dyadic 1080863910568919 (-55).    (* 0.03 *)

(** The option book of the driver. *)
Definition driver_book : OptionBook :=
  {| _legs := [{| strike_ticks := 30000; time_to_expiry_years := quarter;
                  vol := dyadic 3602879701896397 (-54) (* 0.2 *); is_call := true;
                  ol_quantity := 100 |}];
     _rate := RATE |}.

(** The companion thread: 0.01 and 0.1 seconds are its timeouts. *)
Definition run_quoter (fuel : nat) (conn : res Client) (time : nat → float) (ticks seed : Z) :
    option (Session (Synthetic.SyntheticPriceFeed R) FixedOffsetQuoter Client) * res Z :=
  let feed := Synthetic.new_feed (R := R) 30000 seed in
  match conn with
  | Ok client =>
      let '(s, r) := run_strategy_loop fuel (Some ticks) (dyadic 5764607523034235 (-59))
        (dyadic 3602879701896397 (-55))
        {| ss_feed := feed; ss_strategy := new_quoter 1 50; ss_client := client;
           ss_log := new_log time |} in
      (Some s, r)
  | Raise e => (None, Raise e)
  | NoFuel => (None, NoFuel)
  end.

(** [run_hedge_backtest], without the companion thread, given what the two
    constructors return: the pricing connection is opened first, and neither is
    inside the [try] that closes them. *)
Definition run_hedge_backtest (float_pow : float → float → res float) (fuel : nat)
    (pconn : res P) (conn : res Client) (time : nat → float) (ticks seed hedge_band : Z) :
    option (Session (Synthetic.SyntheticPriceFeed R) (HedgeState P) Client) *
    res (TradeLog * BacktestReport * HedgeReport) :=
  match pconn with
  | Raise e => (None, Raise e)
  | NoFuel => (None, NoFuel)
  | Ok pricing_client =>
      let hedger := new_hedger driver_book pricing_client hedge_band in
      match conn with
      | Raise e => (None, Raise e)
      | NoFuel => (None, NoFuel)
      | Ok client =>
          let feed := Synthetic.new_feed (R := R) 30000 seed in
          let '(s, r) := run_hedge_loop close_pricer fuel ticks
            {| ss_feed := feed; ss_strategy := start_hedge hedger; ss_client := client;
               ss_log := new_log time |} in
          (Some s, _ ← r; hedge_reports float_pow s)
      end
  end.
End HedgeDriver.

(** ** What the series are *)

(** A tick, as the P&L sees it: its price, the futures position held before the
    tick's rehedge, and the value of the option book. *)
Record Mark := { mk_price : Z; mk_position : Z; mk_value : num }.

(** Position times price move, summed over the ticks, in ticks. *)
Fixpoint moves_from (prev : Z) (ms : list Mark) : Z :=
  match ms with
  | [] => 0
  | m :: ms => mk_position m * (mk_price m - prev) + moves_from (mk_price m) ms
  end.
Definition moves (ms : list Mark) : Z :=
  match ms with [] => 0 | m :: ms => moves_from (mk_price m) ms end.

(** The move a mark adds after [ms]. *)
Definition move (ms : list Mark) (m : Mark) : Z :=
  match last ms with Some l => mk_position m * (mk_price m - mk_price l) | None => 0 end.

Lemma moves_from_app prev ms m :
  moves_from prev (ms ++ [m]) =
    moves_from prev ms + mk_position m * (mk_price m - default prev (mk_price <$> last ms)).
Proof.
  revert prev. induction ms as [|x ms IH]; intros prev; cbn [moves_from app]; [cbn; lia|].
  rewrite IH, last_cons. destruct (last ms); cbn; lia.
Qed.

Lemma moves_app ms m : moves (ms ++ [m]) = moves ms + move ms m.
Proof.
  destruct ms as [|x ms]; [done|]. cbn [moves app]. rewrite moves_from_app. unfold move.
  rewrite last_cons. by destruct (last ms).
Qed.

(** Every quantity the P&L computes with is an integer number of quarters below
    2^53. *)
Definition move_small (ms : list Mark) (m : Mark) : Prop :=
  small (mk_position m) ∧ small (move ms m) ∧ small (moves (ms ++ [m])) ∧
  match last ms with Some l => small (mk_price m - mk_price l) | None => True end.
Definition marks_small (ms : list Mark) : Prop :=
  ∀ k m, ms !! k = Some m → move_small (take k ms) m.

(** A float of so many quarters. *)
Definition is_quarters (x : num) (n : Z) : Prop := ∃ f, x = NFloat f ∧ repr f n (-2).

Lemma quarters_range n : small n → exact_range n (-2).
Proof. intros H. split; [exact H|lia]. Qed.

Lemma quarter_repr : repr quarter 1 (-2).
Proof. apply dyadic_repr. split; lia. Qed.

Lemma futures_pnl_quarters ms m cum n :
  is_quarters cum n → n = moves ms → move_small ms m →
  ∃ c, futures_pnl (mk_price <$> last ms) (mk_price m) (mk_position m) cum = Ok c ∧
    is_quarters c (moves (ms ++ [m])).
Proof.
  intros (f & -> & Hf) -> (S1 & S2 & S3 & S4). rewrite moves_app in *. unfold move in *.
  destruct (last ms) as [l|]; cbn [fmap option_fmap option_map futures_pnl].
  2:{ exists (NFloat f). split; [done|]. exists f. by rewrite Z.add_0_r. }
  destruct (float_of_int_repr _ S4) as (d & Hd & Rd). destruct (float_of_int_repr _ S1) as (x & Hx & Rx).
  unfold num_mul, num_op, to_float. rewrite Hd. cbn [mbind res_bind]. rewrite Hx. cbn [mbind res_bind].
  unfold num_add, num_op, to_float. cbn [mbind res_bind]. eexists. split; [reflexivity|].
  eexists. split; [reflexivity|].
  assert (repr (fmul d quarter) (mk_price m - mk_price l) (-2)) as Rm.
  { apply (fmul_repr d quarter (mk_price m - mk_price l) 0 1 (-2)); [done|apply quarter_repr|by rewrite Z.mul_1_r|by apply quarters_range]. }
  assert (repr (fmul x (fmul d quarter)) (mk_position m * (mk_price m - mk_price l)) (-2)) as Rp.
  { apply (fmul_repr x _ (mk_position m) 0 (mk_price m - mk_price l) (-2)); [done|exact Rm|done|by apply quarters_range]. }
  apply (fadd_repr _ _ (moves ms) (-2) (mk_position m * (mk_price m - mk_price l)) (-2)); [exact Hf|exact Rp|apply dy_add_same|by apply quarters_range].
Qed.

(** The series after the ticks [ms].  The k-th unhedged value is the k-th book
    value less the first one; the k-th hedged value adds the futures P&L of the
    first k ticks, which is exactly a quarter of the sum of position times
    price move. *)
Record series_ok {P} (ms : list Mark) (x : HedgeState P) : Prop := {
  sr_baseline : baseline_value x = mk_value <$> head ms;
  sr_unhedged : length (unhedged_pnl x) = length ms;
  sr_hedged : length (hedged_pnl x) = length ms;
  sr_values : ∀ k m base, ms !! k = Some m → baseline_value x = Some base →
    ∃ u h c, unhedged_pnl x !! k = Some u ∧ hedged_pnl x !! k = Some h ∧
      num_sub (mk_value m) base = Ok u ∧ num_add u c = Ok h ∧
      (marks_small ms → is_quarters c (moves (take (S k) ms)));
  sr_cumulative : marks_small ms → is_quarters (cumulative_futures_pnl x) (moves ms);
}.

Lemma marks_small_app ms m : marks_small (ms ++ [m]) → marks_small ms ∧ move_small ms m.
Proof.
  intros H. split.
  - intros k x Hk. pose proof (lookup_lt_Some _ _ _ Hk) as Hlt.
    specialize (H k x (lookup_app_l_Some _ _ _ _ Hk)). by rewrite take_app_le in H by lia.
  - specialize (H (length ms) m (list_lookup_middle ms [] m (length ms) eq_refl)). by rewrite take_app_length in H.
Qed.

Lemma start_series {P} (h : DeltaHedger P) : series_ok [] (start_hedge h).
Proof.
  split; try done. intros _. exists f_zero. split; [done|]. by apply repr_zero.
Qed.

Section HedgeTheorems.
Context {F P C : Type} `{!Feed F, !Pricer P, !BookClient C, !BookClientSpec C}.
Abbreviation SS := (Session F (HedgeState P) C).
Implicit Types s : SS.

(** The P&L part of the state; the hedger's own steps leave it alone. *)
Definition pnl_of (x : HedgeState P) : list num * list num * option num * num * option Z :=
  (unhedged_pnl x, hedged_pnl x, baseline_value x, cumulative_futures_pnl x, prev_price_ticks x).

Lemma with_hedger_pnl {A} (m : M (DeltaHedger P) A) x : pnl_of (with_hedger m x).1 = pnl_of x.
Proof. unfold with_hedger, on_field. by destruct (m (hedger x)). Qed.

Lemma fills_pnl fs x : pnl_of (for_each fs on_fill x).1 = pnl_of x.
Proof.
  revert x. induction fs as [|f fs IH]; intros x; [done|].
  cbn [for_each]. unfold mbind, M_bind. cbn [on_fill hedge_state_strategy].
  unfold with_hedger at 1, on_field at 1. unfold modify at 1. etransitivity; [apply IH|done].
Qed.

Lemma series_ok_pnl ms x x' : pnl_of x' = pnl_of x → series_ok ms x → series_ok ms x'.
Proof. intros [= E1 E2 E3 E4 _] [H1 H2 H3 H4 H5]. split; rewrite ?E1, ?E2, ?E3, ?E4; done. Qed.

Lemma aggregate_hedger b p x x' v :
  with_hedger (with_pricer (aggregate_value b p)) x = (x', Ok v) →
  pnl_of x' = pnl_of x ∧ ∃ pc, aggregate_value b p (_pricing_client (hedger x)) = (pc, Ok v) ∧
    hedger x' = set_pricer pc (hedger x).
Proof.
  intros H. split.
  - by rewrite <- (with_hedger_pnl (with_pricer (aggregate_value b p)) x), H.
  - unfold with_hedger, with_pricer, on_field in H.
    destruct (aggregate_value _ _ _) as [pc r]; simplify_eq. by exists pc.
Qed.

Lemma mark_to_market_spec p ms x x' :
  series_ok ms x → prev_price_ticks x = mk_price <$> last ms →
  mark_to_market p x = (x', Ok tt) →
  ∃ v pc, aggregate_value (_options_book (hedger x)) p (_pricing_client (hedger x)) = (pc, Ok v) ∧
    hedger x' = set_pricer pc (hedger x) ∧ prev_price_ticks x' = mk_price <$> last ms ∧
    series_ok (ms ++ [{| mk_price := p;
      mk_position := _current_futures_position (hedger x); mk_value := v |}]) x'.
Proof.
  intros Hser Hprev. unfold mark_to_market. unfold gets, modify, lift_res, mbind, M_bind.
  destruct (futures_pnl _ _ _ _) as [cum|e|] eqn:Hcum; [|done..].
  set (x1 := set_cumulative cum x). destruct (with_hedger _ x1) as [x2 [v|e|]] eqn:Hv; [|done..].
  apply aggregate_hedger in Hv as [Hp2 (pc & Hagg & Hh2)]. set (base := default v (baseline_value x2)).
  destruct (num_sub v base) as [u|e|] eqn:Hu; [|done..].
  destruct (num_add u cum) as [h|e|] eqn:Hh; [|done..].
  intros [= <-]. exists v, pc. unfold pnl_of in Hp2. cbn in Hp2. injection Hp2 as P1 P2 P3 P4 P5.
  split; [exact Hagg|]. split; [exact Hh2|]. split; [cbn; by rewrite P5|].
  destruct Hser as [S1 S2 S3 S4 S5]. set (m := {| mk_price := p; mk_position := _; mk_value := v |}).
  assert (marks_small (ms ++ [m]) → is_quarters cum (moves (ms ++ [m]))) as Hq.
  { intros [Hms Hm]%marks_small_app. rewrite Hprev in Hcum.
    destruct (futures_pnl_quarters ms m _ _ (S5 Hms) eq_refl Hm) as (c & Hc & Hcq). cbn [m mk_price mk_position] in Hc.
    rewrite Hcum in Hc. by apply (inj Ok) in Hc as ->. }
  split; cbn [append_hedged append_unhedged set_baseline baseline_value unhedged_pnl hedged_pnl cumulative_futures_pnl].
  - unfold base. rewrite P3, S1. by destruct ms.
  - rewrite P1, !length_app. cbn. lia.
  - rewrite P2, !length_app. cbn. lia.
  - intros k m' base' Hk [= <-]. rewrite P1, P2. apply lookup_app_Some in Hk as [Hk|[Hge Hk]].
    + pose proof (lookup_lt_Some _ _ _ Hk) as Hlt.
      assert (baseline_value x = Some base) as Hb.
      { unfold base. rewrite P3, S1. destruct ms; [by apply lookup_lt_Some in Hk; cbn in *; lia|done]. }
      destruct (S4 k m' base Hk Hb) as (u' & h' & c & H1 & H2 & H3 & H4 & H5).
      exists u', h', c. rewrite !lookup_app_l by lia.
      split; [done|]. split; [done|]. split; [done|]. split; [done|].
      intros [Hms _]%marks_small_app. rewrite take_app_le by lia. by apply H5.
    + apply list_lookup_singleton_Some in Hk as [Hk <-]. assert (k = length ms) as -> by lia.
      exists u, h, cum. rewrite !list_lookup_middle by lia.
      split; [done|]. split; [done|]. split; [exact Hu|]. split; [exact Hh|].
      intros Hms. rewrite take_ge by (rewrite length_app; cbn; lia). by apply Hq.
  - rewrite P4. exact Hq.
Qed.

(** What the ticks do to the hedger: each tick marks the book at the tick's
    price, answers the price, and is then told of the fills polled. *)
Inductive hedge_rounds : F → DeltaHedger P → list round → list Mark → F → DeltaHedger P → Prop :=
| hr_nil f h : hedge_rounds f h [] [] f h
| hr_cons f f1 f2 h pc h1 h2 rd m rds ms :
    next_price f = (f1, Ok (rd_price rd)) →
    mk_price m = rd_price rd → mk_position m = _current_futures_position h →
    aggregate_value (_options_book h) (rd_price rd) (_pricing_client h) = (pc, Ok (mk_value m)) →
    strategy_round rd (set_pricer pc h) h1 →
    hedge_rounds f1 h1 rds ms f2 h2 →
    hedge_rounds f h (rd :: rds) (m :: ms) f2 h2.

Lemma fills_hedger fs x x' :
  for_each fs on_fill x = (x', Ok tt) →
  for_each fs on_fill (hedger x) = (hedger x', Ok tt) ∧ pnl_of x' = pnl_of x.
Proof.
  intros H. split; [|by rewrite <- (fills_pnl fs x), H]. revert x H.
  induction fs as [|f fs IH]; intros x; cbn [for_each]; [by intros [= ->]|].
  unfold mbind, M_bind. cbn [on_fill hedge_state_strategy hedger_strategy].
  unfold with_hedger at 1, on_field at 1. unfold modify. intros H. apply IH in H. exact H.
Qed.

Lemma round_hedger rd x x' : strategy_round rd x x' →
  strategy_round rd (hedger x) (hedger x') ∧ pnl_of x' = pnl_of x.
Proof.
  intros (x1 & H1 & [H2 P2]%fills_hedger). cbn [on_price hedge_state_strategy] in H1.
  pose proof (with_hedger_pnl (hedger_on_price (rd_price rd)) x) as P1. rewrite H1 in P1.
  split; [|by rewrite P2, <- P1]. exists (hedger x1). split; [|exact H2].
  cbn [on_price hedger_strategy]. unfold with_hedger, on_field in H1.
  destruct (hedger_on_price (rd_price rd) (hedger x)). by simplify_eq.
Qed.

(** A tick is the runner's, between the marking and the bookkeeping. *)
Lemma hedge_tick_eq s :
  hedge_tick s =
    (p ← with_feed next_price; _ ← with_strategy (mark_to_market p);
     _ ← process_tick hedge_poll_timeout p; with_strategy (modify (set_prev_price p))) s.
Proof.
  unfold hedge_tick, process_tick, mbind, M_bind. destruct (with_feed next_price s) as [s1 [p|e|]]; [|done..].
  destruct (with_strategy _ s1) as [s2 [[]|e|]]; [|done..].
  destruct (with_strategy (on_price p) s2) as [s3 [acts|e|]]; [|done..].
  destruct (for_each acts _ s3) as [s4 [[]|e|]]; [|done..].
  destruct (with_client _ s4) as [s5 [evs|e|]]; [|done..]. by destruct (drain evs s5) as [? [[]|?|]].
Qed.

Lemma hedge_tick_spec ms s s' :
  series_ok ms (ss_strategy s) → prev_price_ticks (ss_strategy s) = mk_price <$> last ms →
  hedge_tick s = (s', Ok tt) →
  ∃ rd m, hedge_rounds (ss_feed s) (hedger (ss_strategy s)) [rd] [m] (ss_feed s')
      (hedger (ss_strategy s')) ∧
    effect (round_items rd) [] s s' ∧ series_ok (ms ++ [m]) (ss_strategy s') ∧
    prev_price_ticks (ss_strategy s') = Some (mk_price m).
Proof.
  intros Hser Hprev. rewrite hedge_tick_eq. unfold mbind at 1, M_bind at 1.
  unfold with_feed at 1, on_field at 1.
  destruct (next_price (ss_feed s)) as [f [p|e|]] eqn:Hf; [|done..].
  unfold mbind at 1, M_bind at 1. unfold with_strategy at 1, on_field at 1. cbn [ss_strategy].
  destruct (mark_to_market p (ss_strategy s)) as [x2 [[]|e|]] eqn:Hm; [|done..].
  destruct (mark_to_market_spec p ms (ss_strategy s) x2 Hser Hprev Hm) as (v & pc & Hv & Hh2 & Hp2 & Hs2).
  match goal with |- context [(process_tick _ _ ≫= _) ?s0] => set (s2 := s0) end.
  assert (effect [] [] s s2) as He2 by by (eapply effect_same; [apply effect_refl|..]).
  unfold mbind at 1, M_bind at 1.
  destruct (process_tick_spec hedge_poll_timeout p s2) as (s3 & r & hi & lost & H3 & He3 & Hf3 & Hok).
  rewrite H3. destruct r as [[]|e|]; [|done..]. destruct (Hok eq_refl) as (-> & rd & -> & Hrd & Hround).
  apply round_hedger in Hround as [Hround Hpnl]. intros [= <-]. cbn [s2 ss_strategy] in Hround, Hpnl.
  exists rd, {| mk_price := p; mk_position := _current_futures_position (hedger (ss_strategy s));
                mk_value := v |}.
  split; [|split; [|split; [|done]]].
  - econstructor; cbn; rewrite ?Hrd; [exact Hf|done|done|exact Hv| |].
    + rewrite Hh2 in Hround. exact Hround.
    + rewrite Hf3. constructor.
  - eapply effect_same; [by apply (effect_trans [] _ _ _ s2)|done..].
  - destruct (series_ok_pnl _ _ _ Hpnl Hs2). by split.
Qed.

Lemma hedge_rounds_cons f1 f2 f3 h1 h2 h3 rd m rds ms :
  hedge_rounds f1 h1 [rd] [m] f2 h2 → hedge_rounds f2 h2 rds ms f3 h3 →
  hedge_rounds f1 h1 (rd :: rds) (m :: ms) f3 h3.
Proof. inversion 1 as [|???????????????? Hn]; subst. inversion Hn; subst. by econstructor. Qed.

Lemma hedge_ticks_spec n ms s s' :
  series_ok ms (ss_strategy s) → prev_price_ticks (ss_strategy s) = mk_price <$> last ms →
  hedge_ticks n s = (s', Ok tt) →
  ∃ rds ms', length rds = n ∧ length ms' = n ∧
    hedge_rounds (ss_feed s) (hedger (ss_strategy s)) rds ms' (ss_feed s') (hedger (ss_strategy s')) ∧
    effect (concat (round_items <$> rds)) [] s s' ∧ series_ok (ms ++ ms') (ss_strategy s').
Proof.
  revert ms s. induction n as [|n IH]; intros ms s Hser Hprev; cbn [hedge_ticks].
  { intros [= <-]. exists [], []. rewrite app_nil_r. do 2 (split; [done|]).
    split; [constructor|]. split; [apply effect_refl|done]. }
  unfold mbind, M_bind. destruct (hedge_tick s) as [s1 [[]|e|]] eqn:Ht; [|done..]. intros Hrun.
  destruct (hedge_tick_spec ms s s1 Hser Hprev Ht) as (rd & m & Hr & He & Hs1 & Hp1).
  destruct (IH (ms ++ [m]) s1 Hs1) as (rds & ms' & Hl & Hlm & Hrr & He' & Hs'); [by rewrite last_snoc, Hp1|done|].
  exists (rd :: rds), (m :: ms'). rewrite <- app_assoc in Hs'. split; [cbn; lia|]. split; [cbn; lia|].
  split; [by eapply hedge_rounds_cons|]. split; [by eapply effect_trans|done].
Qed.
(** *** The loop ends *)

Class PricerTotal : Prop := price_option_total r : always_ends (price_option (P := P) r).

Section Total.
Context `{!FeedTotal F, !PricerTotal}.

Lemma sum_legs_total (f : OptionLeg → M P float) legs acc :
  (∀ l, always_ends (f l)) → always_ends (sum_legs f legs acc).
Proof.
  intros Hf. revert acc. induction legs as [|l legs IH]; intros acc; cbn [sum_legs]; [apply total_ret|].
  apply total_bind; [apply Hf|intros x]. apply total_bind; [apply total_lift, num_op_fuel|intros t].
  apply total_bind; [apply total_lift, num_op_fuel|intros a]. apply IH.
Qed.

Lemma aggregate_total b p :
  always_ends (aggregate_value b p) ∧ always_ends (aggregate_delta b p).
Proof.
  pose proof price_option_total as Hp.
  split; apply sum_legs_total; intros l; apply total_bind; auto with total.
Qed.

Lemma futures_pnl_fuel prev p pos cum : fuel_free (futures_pnl prev p pos cum).
Proof.
  unfold futures_pnl. destruct prev; [|done]. repeat (apply fuel_free_bind; [apply num_op_fuel|intros]).
  apply num_op_fuel.
Qed.

Lemma mark_to_market_total p : always_ends (mark_to_market p).
Proof.
  unfold mark_to_market, with_hedger, with_pricer.
  repeat first [apply total_bind; [|intros] | apply total_gets | apply total_modify
    | apply total_lift, futures_pnl_fuel | apply total_lift, num_op_fuel
    | apply total_on_field, total_on_field, aggregate_total].
Qed.

#[export] Instance hedge_state_total : StrategyTotal (HedgeState P).
Proof.
  split; cbn [on_price on_fill hedge_state_strategy]; intros; unfold with_hedger.
  - apply (total_on_field hedger). unfold hedger_on_price, with_pricer.
    repeat first [apply total_bind; [|intros] | apply total_gets | apply total_modify
      | apply total_lift, num_round_fuel | apply total_on_field, aggregate_total
      | apply total_ret | case_match].
  - by apply (total_on_field hedger), total_modify.
Qed.
Lemma hedge_tick_total (s : SS) : (hedge_tick s).2 ≠ NoFuel.
Proof.
  rewrite hedge_tick_eq.
  apply total_bind; [apply total_on_field; exact next_price_total|intros p].
  apply total_bind; [apply total_on_field, mark_to_market_total|intros _].
  apply total_bind; [exact (process_tick_total hedge_poll_timeout p)|intros _].
  apply total_on_field, total_modify.
Qed.

Lemma hedge_ticks_total n : always_ends (hedge_ticks n : M SS unit).
Proof.
  induction n as [|n IH]; [apply total_ret|]. cbn [hedge_ticks].
  apply total_bind; [exact hedge_tick_total|by intros []].
Qed.

Lemma hedge_loop_more close n s fuel fuel' :
  (run_hedge_loop close fuel n s).2 ≠ NoFuel → (fuel ≤ fuel')%nat →
  run_hedge_loop close fuel' n s = run_hedge_loop close fuel n s.
Proof.
  unfold run_hedge_loop, try_finally, mbind, M_bind.
  destruct (hedge_ticks _ s) as [s1 [[]|e|]]; [|done..]. intros Hd Hf.
  assert (final_drain fuel' hedge_drain_timeout s1 = final_drain fuel hedge_drain_timeout s1) as ->; [|done].
  assert ((final_drain fuel hedge_drain_timeout s1).2 ≠ NoFuel) as Hd'.
  { by destruct (final_drain fuel hedge_drain_timeout s1) as [? [| |]]. }
  clear Hd. induction Hf as [|fuel' Hle IH]; [done|]. by rewrite final_drain_more by by rewrite IH.
Qed.

Lemma hedge_loop_total close n s : ∃ s' r N, r ≠ NoFuel ∧
  ∀ fuel, (N ≤ fuel)%nat → run_hedge_loop close fuel n s = (s', r).
Proof.
  assert (∃ N, (run_hedge_loop close N n s).2 ≠ NoFuel) as [N HN].
  { unfold run_hedge_loop, try_finally, mbind, M_bind. pose proof (hedge_ticks_total (Z.to_nat n) s) as Ht.
    destruct (hedge_ticks (Z.to_nat n) s) as [s1 [[]|e|]]; [|by exists 0%nat|done].
    exists (Datatypes.S (length (bc_pending (ss_client s1)))).
    pose proof (final_drain_total _ hedge_drain_timeout s1 (Nat.lt_succ_diag_r _)) as Hd.
    by destruct (final_drain _ hedge_drain_timeout s1) as [? [| |]]. }
  destruct (run_hedge_loop close N n s) as [s' r] eqn:E. exists s', r, N. split; [done|].
  intros fuel Hf. rewrite <- E. apply hedge_loop_more; [by rewrite E|done].
Qed.

(** What the session's history and series are, once it has returned. *)
Record hedge_done (close : P → P) (h : DeltaHedger P) (s s' : SS) (ticks : Z)
    (rds : list round) (ms : list Mark) (tail : list Event) : Prop := {
  hd_length : length rds = Z.to_nat ticks ∧ length ms = Z.to_nat ticks;
  hd_rounds : ∃ h1 h2, hedge_rounds (ss_feed s) h rds ms (ss_feed s') h1 ∧
    for_each (fills_of tail) on_fill h1 = (h2, Ok tt) ∧
    hedger (ss_strategy s') = set_pricer (close (_pricing_client h2)) h2;
  hd_log : ss_log s' = log_history (concat (round_items <$> rds) ++ (ItEvent <$> tail)) (ss_log s);
  hd_series : series_ok ms (ss_strategy s');
  hd_closed : bc_closed (ss_client s') = true;
}.

Lemma hedge_loop_done close fuel ticks h s s' :
  ss_strategy s = start_hedge h → run_hedge_loop close fuel ticks s = (s', Ok tt) →
  ∃ rds ms tail, hedge_done close h s s' ticks rds ms tail.
Proof.
  intros Hs. unfold run_hedge_loop, try_finally, mbind, M_bind.
  destruct (hedge_ticks _ s) as [s1 [[]|e|]] eqn:Ht; [|done..].
  destruct (hedge_ticks_spec (Z.to_nat ticks) [] s s1) as (rds & ms & Hl & Hlm & Hr & He & Hser);
    [rewrite Hs; apply start_series|by rewrite Hs|done|].
  destruct (final_drain_spec fuel hedge_drain_timeout s1) as (s2 & r & tail & lost & H2 & He2 & Hf2 & Hx).
  rewrite H2. destruct r as [[]|e|]; [|done..]. intros [= <-].
  destruct (Hx eq_refl) as [-> [Hh Hp]%fills_hedger].
  exists rds, ms, tail. split; cbn [close_both close_client ss_feed ss_strategy ss_client ss_log hedger].
  - done.
  - exists (hedger (ss_strategy s1)), (hedger (ss_strategy s2)). rewrite Hf2. rewrite Hs in Hr. done.
  - by apply (effect_trans _ _ _ _ _ _ He He2).
  - apply (series_ok_pnl _ (ss_strategy s1)); [|exact Hser]. rewrite <- Hp. done.
  - apply bc_close_spec.
Qed.

(** (C11) Profit attribution.  The hedging session always ends, and closes its
    connections however it ends.  When it returns, it has run exactly [ticks]
    ticks, none if that is negative; each tick marked the option book at the
    feed's next price with the position held before its own rehedge, the fills
    of a tick, and of the final drain, reached the hedger in order, and the log
    is the session's history.  The k-th unhedged value is the book's value at
    tick k less its value at tick 1; the k-th hedged value adds the futures P&L
    of the first k ticks, which, as long as the quantities are below 2^53, is
    exactly a quarter of the sum of position times price move. *)
Theorem hedge_attribution (close : P → P) (ticks : Z) (h : DeltaHedger P) s :
  ss_strategy s = start_hedge h →
  ∃ s' r N, r ≠ NoFuel ∧ (∀ fuel, (N ≤ fuel)%nat → run_hedge_loop close fuel ticks s = (s', r)) ∧
    bc_closed (ss_client s') = true ∧
    (r = Ok tt → ∃ rds ms tail, hedge_done close h s s' ticks rds ms tail).
Proof.
  intros Hs. destruct (hedge_loop_total close ticks s) as (s' & r & N & Hr & Hrun).
  exists s', r, N. split; [done|]. split; [done|]. pose proof (Hrun N ltac:(lia)) as HN. split.
  - unfold run_hedge_loop, try_finally in HN. destruct (_ ≫= _) as [s1 r1]. destruct r1; simplify_eq;
      apply bc_close_spec.
  - intros ->. by apply (hedge_loop_done close N ticks h s s').
Qed.
End Total.
End HedgeTheorems.

(** *** A short session *)

(** A pricer that answers every call with the spot as price and delta 0.5. *)
#[local] Instance spot_pricer : Pricer unit := λ r s,
  (s, Ok {| g_price := dyadic (pr_spot_ticks r) (-2); g_delta := dyadic 1 (-1); g_gamma := f_zero;
            g_vega := f_zero; g_theta := f_zero; g_rho := f_zero |}).

(** The sale of the first tick is filled before the second, which sees the price
    fall from 10000 to 9998: the futures gain 50 * 2 * 0.25 = 25. *)
Definition short_session : Session Historical.HistoricalPriceFeed (HedgeState unit) Client :=
  {| ss_feed := {| Historical._prices := [10000; 9998]; Historical._index := 0 |};
     ss_strategy := start_hedge (new_hedger driver_book tt 5);
     ss_client :=
       {| cl_sock := cl_sock idle_client; cl_events := [];
          cl_arrivals := [[EvFill {| resting_order_id := 7; incoming_order_id := 1;
            resting_side := BUY; fe_price_ticks := 9999; fe_quantity := 50; fe_timestamp := 0 |}]] |};
     ss_log := new_log no_clock |}.

Lemma short_run :
  ∃ s, run_hedge_loop id 3 2 short_session = (s, Ok tt) ∧
    hedged_pnl (ss_strategy s) = [NFloat f_zero; NFloat (dyadic (-25) 0)] ∧
    unhedged_pnl (ss_strategy s) = [NFloat f_zero; NFloat (dyadic (-50) 0)].
Proof. eexists. split; [vm_compute; reflexivity|]. split; vm_compute; reflexivity. Qed.

Lemma hedge_attribution_witness :
  ∃ s' rds ms tail, hedge_done id (new_hedger driver_book tt 5) short_session s' 2 rds ms tail ∧
    hedged_pnl (ss_strategy s') = [NFloat f_zero; NFloat (dyadic (-25) 0)].
Proof.
  assert (PricerTotal (P := unit)) as Ht by by intros r s.
  destruct (hedge_attribution id 2 (new_hedger driver_book tt 5) short_session eq_refl)
    as (s' & r & N & _ & Hrun & _ & Hd).
  destruct short_run as (s & Hs & Hh & _).
  assert (s' = s ∧ r = Ok tt) as [-> ->].
  { pose proof (hedge_loop_more id 2 short_session 3 (Nat.max N 3) ltac:(by rewrite Hs) ltac:(lia)) as Hm.
    pose proof (eq_trans (eq_sym (Hrun (Nat.max N 3) ltac:(lia))) (eq_trans Hm Hs)) as Hx.
    injection Hx as -> ->. split; reflexivity. }
  destruct (Hd eq_refl) as (rds & ms & tail & H). exists s, rds, ms, tail. split; [exact H|exact Hh].
Defined.

(** ** Ids shared with the companion quoter *)

(** Both strategies of the driver number their orders from 1 on the same engine.
    When the next id of the hedger is that of an order resting on the engine,
    whoever owns it, the rehedge is refused: the engine answers one ack of status
    1 and changes nothing, so nothing trades and the hedger's position stays, but
    the rehedge is counted and the id used up. *)
Theorem id_collision `{!Pricer P} (fd p : Z) (s : Server) (h h' : DeltaHedger P) acts :
  contains (_ids h) (book s) = true → hedger_on_price p h = (h', Ok acts) → acts ≠ [] →
  perform_all fd acts s = send_ack fd (_ids h) kNewOrderTag 1 s ∧
  _current_futures_position h' = _current_futures_position h ∧
  _rehedge_count h' = _rehedge_count h + 1 ∧ _ids h' = _ids h + 1.
Proof.
  intros Hid Hp Ha. rewrite hedger_on_price_eq in Hp.
  destruct (hedge_target h p) as [pc [t|e|]]; [|done..]. cbn [record_error set_pricer] in Hp.
  cbv zeta in Hp. destruct (_ <=? _); simplify_eq/=. split; [|done].
  unfold perform_all. cbn [fold_left request_of perform or_order_id]. unfold dispatch_new_order.
  cbn [wo_client_order_id]. by rewrite Hid.
Qed.

(** The quoter (connection 5) has quoted once under the ids 1 and 2; the hedger
    (connection 6) wants to sell 50 futures. *)
Lemma id_collision_witness :
  let s0 := accept 6 (accept 5 new_server) in
  let s := perform_all 5 (quoter_on_price 30000 (new_quoter 1 50)).2 s0 in
  let h := new_hedger driver_book tt 5 in
  let '(h', r) := hedger_on_price 30000 h in
  ∃ acts, r = Ok acts ∧ perform_all 6 acts s = send_ack 6 1 kNewOrderTag 1 s ∧
    _current_futures_position h' = 0 ∧ _rehedge_count h' = 1.
Proof.
  intros s0 s h. destruct (hedger_on_price 30000 h) as [h' r] eqn:E.
  set (acts := [ActOrder {| or_order_id := 1; or_side := SELL; or_order_type := MARKET;
    or_price_ticks := 0; or_quantity := 50 |}]).
  assert (r = Ok acts) as ->.
  { change r with (snd (h', r)). rewrite <- E. vm_compute. reflexivity. }
  exists acts. split; [reflexivity|].
  destruct (id_collision 6 30000 s h h' acts ltac:(vm_compute; reflexivity) E ltac:(discriminate))
    as (H1 & H2 & H3 & _).
  split; [exact H1|]. split; [exact H2|exact H3].
Defined.
