(* ===== verification/PricedSession.v ===== *)
(** * The hedging session over the wire

    [HedgeSession] runs the hedging driver against any pricer.  Here the pricer
    is the pricing server: a reference pricer answers every request with the
    server's function and keeps the requests, and a session of the real client,
    on any connection whose stream holds the server's replies to those requests,
    is simulated step by step.  What is then proved of the reference session
    holds of the session over the wire. *)

From S2P Require Import Prelude Bytes PyFloat FloatBounds PyStruct PyStatistics Protocol Client.
From S2P Require Import PricingClient Pricing Strategy DeltaHedger TradeLog SessionRunner.
From S2P Require Import PricedHedge BacktestReport HedgeReport Feeds Sessions HedgeSession.

Open Scope Z_scope.

(** ** Simulation of one pricer by another *)

Section Simulation.
(** States of two pricers; [Grow] orders the states of the first, and the
    simulation holds up to a state that is [Within] a given end. *)
Context {P Q : Type} (Grow : P → P → Prop) (Within : P → Prop) (Rel : P → Q → Prop).
Context (grow_pre : PreOrder Grow) (within_grow : ∀ p p', Grow p p' → Within p' → Within p).

(** Two states that hold the two pricers. *)
Record View (A B : Type) := { pr : A → P; rel : A → B → Prop }.
Arguments pr {A B}.
Arguments rel {A B}.

Definition simul {A B X} (v : View A B) (m1 : M A X) (m2 : M B X) : Prop :=
  ∀ a a' r, m1 a = (a', r) →
    Grow (pr v a) (pr v a') ∧
    (Within (pr v a') → ∀ b, rel v a b → ∃ b', m2 b = (b', r) ∧ rel v a' b').

Lemma sim_ret {A B X} (v : View A B) (x : X) : simul v (mret x) (mret x).
Proof. intros a a' r [= <- <-]. split; [reflexivity|]. intros _ b Hb. by exists b. Qed.

Lemma sim_lift {A B X} (v : View A B) (x : res X) : simul v (lift_res x) (lift_res x).
Proof. intros a a' r [= <- <-]. split; [reflexivity|]. intros _ b Hb. by exists b. Qed.

Lemma sim_raise {A B X} (v : View A B) e : simul v (raise (A := X) e) (raise e).
Proof. exact (sim_lift v (Raise e)). Qed.

Lemma sim_bind {A B X Y} (v : View A B) (m1 : M A X) m2 (k1 : X → M A Y) k2 :
  simul v m1 m2 → (∀ x, simul v (k1 x) (k2 x)) → simul v (m1 ≫= k1) (m2 ≫= k2).
Proof.
  intros Hm Hk a a' r. unfold mbind, M_bind.
  destruct (m1 a) as [a1 r1] eqn:H1. destruct (Hm _ _ _ H1) as [G1 S1].
  destruct r1 as [x|e|]; [intros H2|intros [= <- <-]|intros [= <- <-]].
  - destruct (Hk x _ _ _ H2) as [G2 S2]. split; [by etransitivity|]. intros W b Hb.
    destruct (S1 (within_grow _ _ G2 W) b Hb) as (b1 & Eb & Hb1). rewrite Eb. by apply S2.
  - split; [done|]. intros W b Hb. destruct (S1 W b Hb) as (b1 & Eb & Hb1). rewrite Eb. by exists b1.
  - split; [done|]. intros W b Hb. destruct (S1 W b Hb) as (b1 & Eb & Hb1). rewrite Eb. by exists b1.
Qed.

Lemma sim_gets {A B X} (v : View A B) (f : A → X) g :
  (∀ a b, rel v a b → f a = g b) → simul v (gets f) (gets g).
Proof.
  intros Hf a a' r [= <- <-]. split; [reflexivity|]. intros _ b Hb. exists b.
  unfold gets. by rewrite (Hf a b Hb).
Qed.

Lemma sim_modify {A B} (v : View A B) (f : A → A) (g : B → B) :
  (∀ a, pr v (f a) = pr v a) → (∀ a b, rel v a b → rel v (f a) (g b)) → simul v (modify f) (modify g).
Proof.
  intros Hp Hr a a' r [= <- <-]. rewrite Hp. split; [reflexivity|]. intros _ b Hb.
  exists (g b). split; [done|]. by apply Hr.
Qed.

Lemma sim_for_each {A B X} (v : View A B) (l : list X) f g :
  (∀ x, simul v (f x) (g x)) → simul v (for_each l f) (for_each l g).
Proof.
  intros H. induction l as [|x l IH]; cbn [for_each]; [apply sim_ret|]. by apply sim_bind.
Qed.

(** A field that holds the pricers. *)
Lemma sim_on_field {A B A' B' X} (v : View A B) (w : View A' B') get1 set1 get2 set2 (m1 : M A' X) m2 :
  (∀ a, pr v a = pr w (get1 a)) → (∀ x a, pr v (set1 x a) = pr w x) →
  (∀ a b, rel v a b → rel w (get1 a) (get2 b)) →
  (∀ a b x y, rel v a b → rel w x y → rel v (set1 x a) (set2 y b)) →
  simul w m1 m2 → simul v (on_field get1 set1 m1) (on_field get2 set2 m2).
Proof.
  intros P1 P2 R1 R2 Hm a a' r. unfold on_field. destruct (m1 (get1 a)) as [x rx] eqn:H1.
  intros [= <- <-]. destruct (Hm _ _ _ H1) as [G S]. rewrite P1, P2. split; [done|]. intros W b Hb.
  destruct (S W _ (R1 _ _ Hb)) as (y & Ey & Hy). rewrite Ey. eexists. split; [done|]. by apply R2.
Qed.

(** A field without a pricer, equal on both sides. *)
Lemma sim_other_field {A B T X} (v : View A B) get1 set1 get2 set2 (m : M T X) :
  (∀ x a, pr v (set1 x a) = pr v a) → (∀ a b, rel v a b → get1 a = get2 b) →
  (∀ a b x, rel v a b → rel v (set1 x a) (set2 x b)) →
  simul v (on_field get1 set1 m) (on_field get2 set2 m).
Proof.
  intros P2 R1 R2 a a' r. unfold on_field. destruct (m (get1 a)) as [x rx] eqn:H1.
  intros [= <- <-]. rewrite P2. split; [reflexivity|]. intros _ b Hb.
  rewrite <- (R1 _ _ Hb), H1. eexists. split; [done|]. by apply R2.
Qed.

(** *** The states of the driver *)

(** A hedger, without its pricer. *)
Definition bare {T} (h : DeltaHedger T) : DeltaHedger unit :=
  Build_DeltaHedger (_options_book h) tt (_hedge_band h) (_ids h) (_current_futures_position h)
    (_my_order_ids h) (_hedge_error_history h) (_rehedge_count h).

Ltac bare_fields := split; [done|]; unfold bare; cbn; congruence.

Definition pricer_view : View P Q := {| pr := id; rel := Rel |}.
Definition hedger_view : View (DeltaHedger P) (DeltaHedger Q) :=
  {| pr := _pricing_client;
     rel h k := Rel (_pricing_client h) (_pricing_client k) ∧ bare h = bare k |}.
Definition state_view : View (HedgeState P) (HedgeState Q) :=
  {| pr x := pr hedger_view (hedger x);
     rel x y := rel hedger_view (hedger x) (hedger y) ∧ pnl_of x = pnl_of y |}.

Context {F C : Type}.
Definition session_view : View (Session F (HedgeState P) C) (Session F (HedgeState Q) C) :=
  {| pr s := pr state_view (ss_strategy s);
     rel s t := rel state_view (ss_strategy s) (ss_strategy t) ∧
       (ss_feed s, ss_client s, ss_log s) = (ss_feed t, ss_client t, ss_log t) |}.

Context `{!Pricer P, !Pricer Q, !Feed F, !BookClient C}.
Context (sim_price : ∀ r, simul pricer_view (price_option r) (price_option r)).

Lemma sim_sum_legs f g legs acc :
  (∀ l, simul pricer_view (f l) (g l)) → simul pricer_view (sum_legs f legs acc) (sum_legs g legs acc).
Proof.
  intros Hf. revert acc. induction legs as [|l legs IH]; intros acc; cbn [sum_legs]; [apply sim_ret|].
  repeat (apply sim_bind; [auto using sim_lift|intros ?]). apply IH.
Qed.

Lemma sim_aggregate b p :
  simul pricer_view (aggregate_value b p) (aggregate_value b p) ∧
  simul pricer_view (aggregate_delta b p) (aggregate_delta b p).
Proof. split; apply sim_sum_legs; intros l; (apply sim_bind; [apply sim_price|intros g; apply sim_ret]). Qed.

Lemma sim_with_pricer {X} (m1 : M P X) m2 :
  simul pricer_view m1 m2 → simul hedger_view (with_pricer m1) (with_pricer m2).
Proof. apply sim_on_field; [done|done|by intros ?? []|]. intros a b x y [_ [= ]] Hxy. by bare_fields. Qed.

Lemma sim_hedger_on_price p : simul hedger_view (hedger_on_price p) (hedger_on_price p).
Proof.
  unfold hedger_on_price. apply sim_bind; [apply sim_gets; by intros a b [_ [= ]]|intros bk].
  apply sim_bind; [apply sim_with_pricer, sim_aggregate|intros d].
  apply sim_bind; [apply sim_lift|intros t].
  apply sim_bind; [apply sim_gets; by intros a b [_ [= ]]|intros pos].
  apply sim_bind; [apply sim_modify; [done|intros a b [H [= ]]; by bare_fields]|intros _].
  apply sim_bind; [apply sim_gets; by intros a b [_ [= ]]|intros band].
  destruct (_ <=? _); [apply sim_ret|].
  apply sim_bind; [apply sim_gets; by intros a b [_ [= ]]|intros id].
  apply sim_bind; [apply sim_modify; [done|intros a b [H [= ]]; by bare_fields]|intros _].
  apply sim_ret.
Qed.

(** The hedger inside the state of the driver. *)
Lemma sim_with_hedger {X} (m1 : M (DeltaHedger P) X) m2 :
  simul hedger_view m1 m2 → simul state_view (with_hedger m1) (with_hedger m2).
Proof. apply sim_on_field; [done|done|by intros ?? []|]. intros a b x y [_ [= ]] Hxy. split; [done|]. unfold pnl_of. cbn. congruence. Qed.

Lemma sim_set_field f g :
  (∀ a : HedgeState P, hedger (f a) = hedger a) → (∀ b : HedgeState Q, hedger (g b) = hedger b) →
  (∀ a b, pnl_of a = pnl_of b → pnl_of (f a) = pnl_of (g b)) → simul state_view (modify f) (modify g).
Proof.
  intros Hf Hg Hp. apply sim_modify; [intros a; cbn; by rewrite Hf|].
  intros a b [H1 H2]. split; [by rewrite Hf, Hg|by apply Hp].
Qed.

Lemma sim_mark p : simul state_view (mark_to_market p) (mark_to_market p).
Proof.
  unfold mark_to_market.
  apply sim_bind; [apply sim_gets; by intros a b [_ [= ]]|intros prev].
  apply sim_bind; [apply sim_gets; by intros a b [[_ [= ]] _]|intros pos].
  apply sim_bind; [apply sim_gets; by intros a b [_ [= ]]|intros cum].
  apply sim_bind; [apply sim_lift|intros cum'].
  apply sim_bind; [apply sim_set_field; [done..|]; intros a b [= ]; unfold pnl_of; cbn; congruence|intros _].
  apply sim_bind; [apply sim_gets; by intros a b [[_ [= ]] _]|intros bk].
  apply sim_bind; [apply sim_with_hedger, sim_with_pricer, sim_aggregate|intros v].
  apply sim_bind; [apply sim_gets; by intros a b [_ [= ]]|intros base].
  apply sim_bind; [apply sim_set_field; [done..|]; intros a b [= ]; unfold pnl_of; cbn; congruence|intros _].
  apply sim_bind; [apply sim_lift|intros u].
  apply sim_bind; [apply sim_set_field; [done..|]; intros a b [= ]; unfold pnl_of; cbn; congruence|intros _].
  apply sim_bind; [apply sim_lift|intros u'].
  apply sim_bind; [apply sim_lift|intros h].
  apply sim_set_field; [done..|]; intros a b [= ]; unfold pnl_of; cbn; congruence.
Qed.

(** *** The loop *)

Lemma sim_with_strategy {X} (m1 : M (HedgeState P) X) m2 :
  simul state_view m1 m2 → simul session_view (with_strategy m1) (with_strategy m2).
Proof. apply sim_on_field; [done|done|by intros ?? []|]. intros a b x y [_ [= ]] Hxy. split; [done|]. cbn. congruence. Qed.

Lemma sim_with_client {X} (m : M C X) : simul session_view (with_client m) (with_client m).
Proof. apply sim_other_field; [done|by intros a b [_ [= ]]|]. intros a b x [H [= ]]. split; [done|]. cbn. congruence. Qed.

Lemma sim_with_feed {X} (m : M F X) : simul session_view (with_feed m) (with_feed m).
Proof. apply sim_other_field; [done|by intros a b [_ [= ]]|]. intros a b x [H [= ]]. split; [done|]. cbn. congruence. Qed.

Lemma sim_with_log f : simul session_view (with_log f) (with_log f).
Proof. apply sim_modify; [done|]. intros a b [H [= ]]. split; [done|]. cbn. congruence. Qed.

Lemma sim_on_fill e : simul state_view (on_fill e) (on_fill e).
Proof.
  apply sim_with_hedger, sim_modify.
  - intros h. unfold hedger_on_fill. by destruct (decide _).
  - intros h k [H E]. pose proof E as [= ]. unfold hedger_on_fill.
    replace (_my_order_ids k) with (_my_order_ids h) by done.
    destruct (decide _); [|by split]. bare_fields.
Qed.

Lemma sim_drain evs : simul session_view (drain evs) (drain evs).
Proof.
  apply sim_for_each. intros [a|f]; cbn [drain_event]; [apply sim_with_log|].
  apply sim_bind; [apply sim_with_log|intros _]. apply sim_with_strategy, sim_on_fill.
Qed.

Lemma sim_send a : simul session_view (send_action a) (send_action a).
Proof. destruct a; cbn [send_action]; (apply sim_bind; [apply sim_with_client|intros _; apply sim_with_log]). Qed.

Lemma sim_tick : simul session_view hedge_tick hedge_tick.
Proof.
  unfold hedge_tick. apply sim_bind; [apply sim_with_feed|intros p].
  apply sim_bind; [apply sim_with_strategy, sim_mark|intros _].
  apply sim_bind; [apply sim_with_strategy, sim_with_hedger, sim_hedger_on_price|intros acts].
  apply sim_bind; [apply sim_for_each; exact sim_send|intros _].
  apply sim_bind; [apply sim_with_client|intros evs].
  apply sim_bind; [apply sim_drain|intros _].
  apply sim_with_strategy, sim_set_field; [done..|]; intros a b [= ]; unfold pnl_of; cbn; congruence.
Qed.

Lemma sim_ticks n : simul session_view (hedge_ticks n) (hedge_ticks n).
Proof. induction n as [|n IH]; cbn [hedge_ticks]; [apply sim_ret|]. apply sim_bind; [apply sim_tick|by intros []]. Qed.

Lemma sim_final fuel t : simul session_view (final_drain fuel t) (final_drain fuel t).
Proof.
  induction fuel as [|fuel IH]; cbn [final_drain]; [exact (sim_lift session_view NoFuel)|].
  apply sim_bind; [apply sim_with_client|intros [|e evs]]; [apply sim_ret|].
  apply sim_bind; [apply sim_drain|by intros _].
Qed.

(** The whole loop: the states before the pricers are closed are related. *)
Lemma sim_loop close1 close2 fuel ticks s s' r :
  run_hedge_loop close1 fuel ticks s = (s', r) → r ≠ NoFuel →
  ∃ s0, s' = close_both close1 s0 ∧ Grow (pr session_view s) (pr session_view s0) ∧
    (Within (pr session_view s0) → ∀ t, rel session_view s t →
      ∃ t0, run_hedge_loop close2 fuel ticks t = (close_both close2 t0, r) ∧ rel session_view s0 t0).
Proof.
  intros Hrun Hr.
  pose proof (sim_bind session_view _ _ (λ _, final_drain fuel hedge_drain_timeout) (λ _, final_drain fuel hedge_drain_timeout)
    (sim_ticks (Z.to_nat ticks)) (λ _, sim_final fuel hedge_drain_timeout)) as Hsim.
  unfold run_hedge_loop, try_finally in Hrun.
  destruct ((_ ← hedge_ticks (Z.to_nat ticks); final_drain fuel hedge_drain_timeout) s) as [s0 r0] eqn:E.
  assert (r0 = r ∧ s' = close_both close1 s0) as [-> ->] by (destruct r0; simplify_eq; by split).
  destruct (Hsim _ _ _ E) as [G S]. exists s0. split; [done|]. split; [done|].
  intros W t Ht. destruct (S W t Ht) as (t0 & Et & Ht0). exists t0. split; [|done].
  unfold run_hedge_loop, try_finally. rewrite Et. by destruct r.
Qed.
End Simulation.

(** ** The server as a pricer *)

Section Wire.
Context {platform : F64Math} {platform_ok : F64MathOk}.

(** The reference pricer: the server's function, and the requests so far. *)
Definition Served : Type := list PriceRequest.
#[export] Instance served_pricer : Pricer Served := λ req asked, (asked ++ [req], Ok (server_answer req)).

Lemma served_total : PricerTotal (P := Served).
Proof. by intros r s. Qed.

Lemma requests_snoc rs bs r body :
  requests rs = Ok bs → pack_request r = Ok body →
  requests (rs ++ [r]) = Ok (bs ++ Z_to_byte PRICE_REQUEST_TAG :: body).
Proof.
  intros Hrs Hb. unfold requests in *. rewrite res_map_app. cbn [res_map]. rewrite Hb.
  destruct (res_map pack_request rs) as [bodies|e|]; [|done..]. cbn [mbind res_bind] in *.
  apply (inj Ok) in Hrs as <-. rewrite fmap_app, concat_app. cbn. by rewrite app_nil_r.
Qed.

(** A client that has sent the requests [asked] of [all], and whose stream holds
    the server's replies to the others, and then [rest]. *)
Definition serving (all : Served) (sent0 rest : bytes) (asked : Served) (c : PricingClient) : Prop :=
  sk_live (_sock c) ∧
  (∃ bs, requests asked = Ok bs ∧ sk_sent (_sock c) = sent0 ++ bs) ∧
  ∃ todo bs, all = asked ++ todo ∧ requests todo = Ok bs ∧
    pc_stream c = serve server_answer (length todo) bs ++ rest.

Lemma sim_served all sent0 rest r :
  Forall PriceRequest_ok all →
  simul prefix (λ asked, asked `prefix_of` all) (pricer_view (serving all sent0 rest))
    (price_option (P := Served) r) (price_option (P := PricingClient) r).
Proof.
  intros Hok asked asked' res [= <- <-]. split; [by apply prefix_app_r|].
  cbn [pr pricer_view rel]. intros [todo' Hall] c (Hl & (bs0 & Hbs0 & Hs0) & todo & bs & Ha & Hbs & Hst).
  change (all = (asked ++ [r]) ++ todo') in Hall. rewrite Hall, <- app_assoc in Ha. apply (inj (app asked)) in Ha. cbn in Ha. subst todo.
  assert (PriceRequest_ok r) as Hr by (rewrite Hall, !Forall_app in Hok; by destruct Hok as [[_ []%Forall_cons] _]).
  assert (Greeks_ok (server_answer r)) as Hg by by apply greeks_valid, request_params_ok.
  destruct (request_body r Hr) as (body & Hb & Hbl & Hdec).
  destruct (requests_cons _ _ body bs Hb Hbs) as (tl & Htl & ->).
  cbn [length] in Hst. rewrite (serve_cons server_answer _ body tl r Hdec Hbl), <- app_assoc in Hst.
  destruct (price_reply r _ c _ Hr Hg Hl Hst) as (c' & body' & Hp & Hb' & Hs & Hst' & Hl').
  rewrite Hb in Hb'. apply (inj Ok) in Hb' as <-.
  exists c'. split; [exact Hp|]. split; [done|]. split.
  - exists (bs0 ++ Z_to_byte PRICE_REQUEST_TAG :: body). split; [by apply requests_snoc|].
    by rewrite Hs, Hs0, <- app_assoc.
  - exists todo', tl. split; [by rewrite Hall|]. by split.
Qed.

(** *** What a tick asks, and the targets it gets *)

Lemma sum_legs_ask spot rate (f : Greeks → float) legs acc (asked asked' : Served) r :
  sum_legs (λ l, g ← price_option (leg_request spot rate l); mret (f g)) legs acc asked = (asked', r) →
  r ≠ NoFuel ∧ ∀ v, r = Ok v → asked' = asked ++ (leg_request spot rate <$> legs) ∧
    weigh ((λ l, (f (server_answer (leg_request spot rate l)), ol_quantity l)) <$> legs) acc = Ok v.
Proof.
  revert acc asked. induction legs as [|l legs IH]; intros acc asked; cbn [sum_legs fmap list_fmap weigh].
  { intros [= <- <-]. split; [done|]. intros v [= <-]. by rewrite app_nil_r. }
  set (x := f (server_answer (leg_request spot rate l))).
  pose proof (num_op_fuel Z.mul fmul (NFloat x) (NInt (ol_quantity l))) as F1. fold num_mul in F1.
  assert (∀ k : float → M Served num, ((g ← price_option (leg_request spot rate l); mret (f g)) ≫= k) asked =
    k x (asked ++ [leg_request spot rate l])) as -> by done.
  destruct (num_mul _ _) as [t|e|]; [| |done].
  2:{ intros H. unfold mbind, M_bind, lift_res in H. apply pair_equal_spec in H as [_ <-]. by split. }
  pose proof (num_op_fuel Z.add fadd acc t) as F2. fold num_add in F2.
  assert (∀ k : num → M Served num, (lift_res (Ok t) ≫= k) = k t) as -> by done. cbn [mbind res_bind].
  destruct (num_add acc t) as [a|e|]; [| |done].
  2:{ intros H. unfold mbind, M_bind, lift_res in H. apply pair_equal_spec in H as [_ <-]. by split. }
  assert (∀ k : num → M Served num, (lift_res (Ok a) ≫= k) = k a) as -> by done.
  intros H. destruct (IH a _ H) as [Hn Hv]. split; [done|]. intros v Hr. destruct (Hv v Hr) as [-> Hw].
  by rewrite <- app_assoc.
Qed.

Lemma tick_asks b spot (asked asked' : Served) v :
  (aggregate_value b spot asked = (asked', Ok v) → asked' = asked ++ book_requests b spot) ∧
  (aggregate_delta b spot asked = (asked', Ok v) → asked' = asked ++ book_requests b spot ∧
     weigh (served_deltas b spot) (NInt 0) = Ok v).
Proof.
  split; intros H; [apply (sum_legs_ask _ _ g_price) in H as [_ H]|apply (sum_legs_ask _ _ g_delta) in H as [_ H]];
    by destruct (H v eq_refl).
Qed.

Lemma fills_keep fs (h h' : DeltaHedger Served) :
  for_each fs on_fill h = (h', Ok tt) →
  _options_book h' = _options_book h ∧ _pricing_client h' = _pricing_client h ∧
  _hedge_error_history h' = _hedge_error_history h.
Proof.
  revert h. induction fs as [|f fs IH]; intros h; cbn [for_each]; [by intros [= <-]|].
  unfold mbind, M_bind. cbn [on_fill hedger_strategy]. unfold modify at 1. intros H.
  destruct (IH _ H) as (E1 & E2 & E3). unfold hedger_on_fill in *. by destruct (decide _).
Qed.

(** A tick that succeeds: the delta is asked for, and the recorded error is that
    of a target within the contracts of the book. *)
Lemma tick_target rd (h h' : DeltaHedger Served) :
  let b := _options_book h in
  strategy_round rd h h' →
  _options_book h' = b ∧ _pricing_client h' = _pricing_client h ++ book_requests b (rd_price rd) ∧
  ∃ target, _hedge_error_history h' = _hedge_error_history h ++ [_current_futures_position h - target] ∧
    (Forall PriceRequest_ok (book_requests b (rd_price rd)) → contracts b < 2 ^ 53 → Z.abs target ≤ contracts b).
Proof.
  intros b (h1 & H1 & H2). apply fills_keep in H2 as (-> & -> & ->).
  cbn [on_price hedger_strategy] in H1. rewrite hedger_on_price_eq in H1. unfold hedge_target in H1. fold b in H1.
  destruct (aggregate_delta b (rd_price rd) (_pricing_client h)) as [asked [d|e|]] eqn:Hd; [|done..].
  apply tick_asks in Hd as [-> Hw]. cbn [mbind res_bind] in H1.
  destruct (num_round (num_opp d)) as [t|e|] eqn:Ht; [|done..]. cbv zeta in H1.
  assert (_options_book h1 = b ∧ _pricing_client h1 = _pricing_client h ++ book_requests b (rd_price rd) ∧
    _hedge_error_history h1 = _hedge_error_history h ++ [_current_futures_position h - t]) as (-> & -> & ->)
    by (destruct (_ <=? _); simplify_eq/=; done).
  split; [done|]. split; [done|]. exists t. split; [done|]. intros Hok Hc.
  destruct (served_target b (rd_price rd) Hok Hc) as [Hyes Hno].
  destruct (decide (priceable b (rd_price rd))) as [Hp|Hp].
  - destruct (Hyes Hp) as (v & t' & Hv & Ht' & Hle). rewrite Hw in Hv. apply (inj Ok) in Hv as <-.
    rewrite Ht in Ht'. by apply (inj Ok) in Ht' as <-.
  - rewrite (Hno Hp) in Hw. apply (inj Ok) in Hw as <-. done.
Qed.

(** What the ticks ask for: the book's options for its value, and again for its
    delta. *)
Definition asked_for (b : OptionBook) (ms : list Mark) : list PriceRequest :=
  concat ((λ m, book_requests b (mk_price m) ++ book_requests b (mk_price m)) <$> ms).

(** The recorded errors are those of targets within the contracts. *)
Definition within_contracts (b : OptionBook) (ms : list Mark) (errors : list Z) : Prop :=
  Forall2 (λ m e, Z.abs (mk_position m - e) ≤ contracts b) ms errors.

Lemma rounds_targets {F} `{!Feed F} (f f' : F) (h h' : DeltaHedger Served) rds ms :
  hedge_rounds f h rds ms f' h' →
  _options_book h' = _options_book h ∧
  _pricing_client h' = _pricing_client h ++ asked_for (_options_book h) ms ∧
  ∃ errors, _hedge_error_history h' = _hedge_error_history h ++ errors ∧
    (contracts (_options_book h) < 2 ^ 53 → Forall PriceRequest_ok (asked_for (_options_book h) ms) →
     within_contracts (_options_book h) ms errors).
Proof.
  induction 1 as [f h|f f1 f2 h pc h1 h2 rd m rds ms Hf Hpr Hpos Hv Hround _ IH].
  { split; [done|]. split; [by rewrite app_nil_r|]. exists []. split; [by rewrite app_nil_r|]. intros _ _. constructor. }
  apply tick_asks in Hv as ->. apply tick_target in Hround as (Eb & Ep & target & Ee & Ht).
  cbn [set_pricer _options_book _pricing_client _hedge_error_history _current_futures_position] in *.
  rewrite Eb in IH. destruct IH as (Eb' & Ep' & errors & Ee' & Hin). split; [done|]. split.
  - rewrite Ep', Ep. unfold asked_for. cbn [fmap list_fmap concat]. by rewrite Hpr, <- !app_assoc.
  - exists (_current_futures_position h - target :: errors). split; [by rewrite Ee', Ee, <- app_assoc|].
    intros Hc. unfold asked_for. cbn [fmap list_fmap concat]. rewrite !Forall_app, Hpr. intros [[Hok _] Hoks].
    constructor; [|by apply Hin]. rewrite Hpos. replace (_ - (_ - target)) with target by lia. by apply Ht.
Qed.

(** Two sessions that differ at most in the pricer. *)
Definition same_session {F C T U} (s : Session F (HedgeState T) C) (t : Session F (HedgeState U) C) : Prop :=
  bare (hedger (ss_strategy s)) = bare (hedger (ss_strategy t)) ∧
  pnl_of (ss_strategy s) = pnl_of (ss_strategy t) ∧
  (ss_feed s, ss_client s, ss_log s) = (ss_feed t, ss_client t, ss_log t).

Definition asked_in {F C} (s : Session F (HedgeState Served) C) : Served := _pricing_client (hedger (ss_strategy s)).

Section Session.
Context {F C : Type} `{!Feed F, !FeedTotal F, !BookClient C, !BookClientSpec C}.
Context (feed : F) (client : C) (log : TradeLog) (b : OptionBook) (band : Z).

Definition session_with {T} (p : T) : Session F (HedgeState T) C :=
  {| ss_feed := feed; ss_strategy := start_hedge (new_hedger b p band); ss_client := client; ss_log := log |}.

(** The real client follows the reference session, on every stream of replies. *)
Lemma wire_follows fuel ticks s r c sent rest :
  run_hedge_loop id fuel ticks (session_with (T := Served) []) = (s, r) → r ≠ NoFuel →
  Forall PriceRequest_ok (asked_in s) → sk_live (_sock c) → requests (asked_in s) = Ok sent →
  pc_stream c = serve server_answer (length (asked_in s)) sent ++ rest →
  ∃ t, run_hedge_loop pricing_close fuel ticks (session_with c) = (t, r) ∧ same_session s t ∧
    let k := _pricing_client (hedger (ss_strategy t)) in
    sk_sent (_sock k) = sk_sent (_sock c) ++ sent ∧ sk_closed (_sock k) = true.
Proof.
  intros Hrun Hr Hok Hl Hs Hst. set (all := asked_in s) in *.
  destruct (sim_loop prefix (λ p, p `prefix_of` all) (serving all (sk_sent (_sock c)) rest) _
    (λ p p' H1 H2, transitivity H1 H2) (λ q, sim_served all _ rest q Hok) id pricing_close fuel ticks _ s r Hrun Hr)
    as (s0 & Es & _ & Hsim).
  assert (asked_in s0 = all) as E0 by (unfold all; by rewrite Es).
  destruct (Hsim ltac:(change (asked_in s0 `prefix_of` all); by rewrite E0) (session_with c)) as (t0 & Ht & Hrel).
  { split; [|done]. split; [|done]. split; [|done]. split; [done|]. split.
    - exists []. split; [done|]. by rewrite app_nil_r.
    - exists all, sent. by split. }
  exists (close_both pricing_close t0). split; [exact Ht|].
  destruct Hrel as [[[(Hlive & (bs & Hbs & Hsent) & todo & bs' & Hall & Hbs' & Hst0) Hbare] Hpnl] Hrest].
  change (_pricing_client (hedger (ss_strategy s0))) with (asked_in s0) in Hbs, Hall. rewrite E0 in Hbs, Hall.
  rewrite Hs in Hbs. apply (inj Ok) in Hbs as <-.
  assert (todo = []) as ->.
  { rewrite <- (app_nil_r all) in Hall at 1. by apply (inj (app all)) in Hall. }
  split; [|split; [exact Hsent|done]].
  rewrite Es. split; [|split].
  - cbn. unfold bare in *. cbn in *. congruence.
  - exact Hpnl.
  - cbn. injection Hrest. congruence.
Qed.

(** (C14) The hedging driver's session against the pricing server.  Run against
    the server's function, the session ends; when it succeeds, each tick has
    asked for every option of the book once for its value and once for its
    delta, and has recorded the error of a target that is never larger than the
    contracts of the book.  Run by the real client, on any connection on which
    the server's replies to those requests arrive, in any chunks, the session
    is the same: the same outcome, trade log, orders, positions and P&L; the
    client has sent exactly those requests and is closed. *)
Theorem session_over_wire (ticks : Z) :
  ∃ N s r, r ≠ NoFuel ∧
    (∀ fuel, (N ≤ fuel)%nat → run_hedge_loop id fuel ticks (session_with (T := Served) []) = (s, r)) ∧
    (r = Ok tt → ∃ rds ms tail,
       hedge_done id (new_hedger b [] band) (session_with []) s ticks rds ms tail ∧
       asked_in s = asked_for b ms ∧
       (contracts b < 2 ^ 53 → Forall PriceRequest_ok (asked_in s) →
        within_contracts b ms (_hedge_error_history (hedger (ss_strategy s))))) ∧
    ∀ c sent rest,
      Forall PriceRequest_ok (asked_in s) → sk_live (_sock c) → requests (asked_in s) = Ok sent →
      pc_stream c = serve server_answer (length (asked_in s)) sent ++ rest →
      ∃ t, (∀ fuel, (N ≤ fuel)%nat → run_hedge_loop pricing_close fuel ticks (session_with c) = (t, r)) ∧
        same_session s t ∧
        let k := _pricing_client (hedger (ss_strategy t)) in
        sk_sent (_sock k) = sk_sent (_sock c) ++ sent ∧ sk_closed (_sock k) = true.
Proof.
  pose proof served_total as Htotal.
  destruct (hedge_loop_total id ticks (session_with (T := Served) [])) as (s & r & N & Hr & Hrun).
  exists N, s, r. split; [done|]. split; [done|]. pose proof (Hrun N ltac:(lia)) as HN. split.
  - intros ->. destruct (hedge_loop_done id N ticks (new_hedger (P := Served) b [] band) (session_with (T := Served) []) s eq_refl HN) as (rds & ms & tail & Hd).
    exists rds, ms, tail. split; [done|]. destruct Hd as [_ (h1 & h2 & Hrounds & Htail & Hh) _ _ _].
    apply rounds_targets in Hrounds as (_ & Ep & errors & Ee & Hin). apply fills_keep in Htail as (_ & Ep2 & Ee2).
    unfold asked_in. rewrite Hh. cbn [set_pricer _pricing_client _hedge_error_history id]. rewrite Ep2, Ee2, Ep, Ee.
    split; [done|]. exact Hin.
  - intros c sent rest Hok Hl Hs Hst.
    destruct (wire_follows N ticks s r c sent rest HN Hr Hok Hl Hs Hst) as (t & Ht & Hsame & Hk).
    exists t. split; [|by split]. intros fuel Hf. rewrite <- Ht.
    apply hedge_loop_more; [by rewrite Ht|done].
Qed.
End Session.
End Wire.

(** ** The driver's own book and feed *)

Section Driver.
Context {platform : F64Math} {platform_ok : F64MathOk} `{!Synthetic.Random R}.

Lemma synthetic_marks (f f' : Synthetic.SyntheticPriceFeed R) (h h' : DeltaHedger Served) rds ms :
  hedge_rounds f h rds ms f' h' →
  Forall (λ m, Z.abs (mk_price m - Synthetic._price f) ≤ 2 * Z.of_nat (length ms)) ms.
Proof.
  induction 1 as [f h|f f1 f2 h pc h1 h2 rd m rds ms Hf Hpr _ _ _ _ IH]; [constructor|].
  destruct (Synthetic.next_price_step f) as (f1' & step & Hf' & Hp & Hs). rewrite Hf in Hf'.
  injection Hf' as <- Hrd. cbn [length]. constructor; [lia|].
  eapply Forall_impl; [exact IH|]. cbn. intros x Hx. lia.
Qed.

(** A session of the driver that succeeds has asked only for requests the wire
    can carry, and none of its targets exceeds the hundred contracts. *)
Theorem driver_targets (fuel : nat) (ticks seed band : Z) (client : Client) (log : TradeLog) s :
  ticks ≤ 2 ^ 60 →
  run_hedge_loop id fuel ticks
    (session_with (Synthetic.new_feed (R := R) 30000 seed) client log driver_book band (T := Served) []) = (s, Ok tt) →
  Forall PriceRequest_ok (asked_in s) ∧
  ∃ ms, asked_in s = asked_for driver_book ms ∧ Z.of_nat (length ms) = Z.max 0 ticks ∧
    Forall2 (λ m e, Z.abs (mk_position m - e) ≤ 100) ms (_hedge_error_history (hedger (ss_strategy s))).
Proof.
  intros Hticks Hrun. pose proof served_total as Htotal.
  destruct (hedge_loop_done id fuel ticks (new_hedger (P := Served) driver_book [] band)
    (session_with (Synthetic.new_feed (R := R) 30000 seed) client log driver_book band (T := Served) []) s eq_refl Hrun)
    as (rds & ms & tail & [[_ Hlen] (h1 & h2 & Hrounds & Htail & Hh) _ _ _]).
  pose proof (synthetic_marks _ _ _ _ _ _ Hrounds) as Hprices.
  apply rounds_targets in Hrounds as (_ & Ep & errors & Ee & Hin). apply fills_keep in Htail as (_ & Ep2 & Ee2).
  cbn [new_hedger _options_book _pricing_client _hedge_error_history app] in *.
  assert (asked_in s = asked_for driver_book ms) as E.
  { unfold asked_in. rewrite Hh. cbn [set_pricer _pricing_client id]. by rewrite Ep2. }
  assert (Forall PriceRequest_ok (asked_for driver_book ms)) as Hok.
  { unfold asked_for. apply Forall_concat, Forall_fmap. eapply Forall_impl; [exact Hprices|].
    intros m Hm. cbn [session_with ss_feed Synthetic.new_feed Synthetic._price] in Hm.
    assert (Forall PriceRequest_ok (book_requests driver_book (mk_price m))) as H1; [|cbn [compose]; by apply Forall_app_2].
    apply Forall_singleton. split; [unfold i64; cbn; lia|]. split; [unfold i64; cbn; lia|].
    split; [|split]; vm_compute; reflexivity. }
  split; [by rewrite E|]. exists ms. split; [exact E|]. split; [lia|].
  rewrite Hh. cbn [set_pricer _hedge_error_history id]. rewrite Ee2, Ee.
  apply Hin; [vm_compute; reflexivity|exact Hok].
Qed.
End Driver.

(** Two ticks at 30010 and 30012 against a stand-in for the platform, the
    replies arriving in pieces of eleven bytes. *)
Definition example_hedge {T} (p : T) : Session Historical.HistoricalPriceFeed (HedgeState T) Client :=
  session_with {| Historical._prices := [30010; 30012]; Historical._index := 0 |} idle_client (new_log no_clock)
    driver_book 5 p.

#[local] Instance example_platform : F64Math := Lanes.math.
Definition example_asked : Served := asked_in (run_hedge_loop id 1 2 (example_hedge (T := Served) [])).1.
Definition example_pricing : PricingClient :=
  let bs := serve server_answer 4 (from_res [] (requests example_asked)) in
  {| _sock := {| sk_incoming := (λ i, Data (take 11 (drop (11 * i) bs))) <$> seq 0 18;
                 sk_sent := []; sk_faults := []; sk_closed := false |} |}.

Example wire_example :
  let '(t, r) := run_hedge_loop pricing_close 1 2 (example_hedge example_pricing) in
  r = Ok tt ∧ length example_asked = 4%nat ∧ sk_sent (_sock (_pricing_client (hedger (ss_strategy t)))) =
    from_res [] (requests example_asked).
Proof. vm_compute. done. Qed.

#[local] Instance PriceRequest_ok_dec r : Decision (PriceRequest_ok r).
Proof. unfold PriceRequest_ok. apply _. Defined.

Lemma session_over_wire_witness :
  ∃ N s t, run_hedge_loop id N 2 (example_hedge (T := Served) []) = (s, Ok tt) ∧
    run_hedge_loop pricing_close N 2 (example_hedge example_pricing) = (t, Ok tt) ∧ same_session s t ∧
    ∃ ms, asked_in s = asked_for driver_book ms.
Proof.
  destruct (@session_over_wire Lanes.math Lanes.math_ok _ _ _ _ _ _
    {| Historical._prices := [30010; 30012]; Historical._index := 0 |} idle_client (new_log no_clock) driver_book 5 2)
    as (N & s & r & Hr & Hrun & Hok & Hwire).
  set (s1 := (run_hedge_loop id 1 2 (example_hedge (T := Served) [])).1).
  assert (run_hedge_loop id 1 2 (example_hedge (T := Served) []) = (s1, Ok tt)) as H1.
  { rewrite (surjective_pairing (run_hedge_loop id 1 2 _)). apply pair_equal_spec. split; [reflexivity|]. vm_compute. reflexivity. }
  assert (asked_in s1 = example_asked) as Easked by reflexivity. clearbody s1.
  assert (s = s1 ∧ r = Ok tt) as [-> ->].
  { pose proof (hedge_loop_more id 2 (example_hedge (T := Served) []) 1 (Nat.max N 1) ltac:(by rewrite H1) ltac:(lia)) as Hm.
    pose proof (eq_trans (eq_sym (Hrun (Nat.max N 1) ltac:(lia))) (eq_trans Hm H1)) as Hx.
    apply pair_equal_spec in Hx. exact Hx. }
  rewrite Easked in Hwire. destruct (Hwire example_pricing (from_res [] (requests example_asked)) []) as (t & Ht & Hsame & _).
  - decide_now.
  - split; reflexivity.
  - vm_compute. reflexivity.
  - vm_compute. reflexivity.
  - exists N, s1, t. split; [exact (Hrun N ltac:(lia))|]. split; [exact (Ht N ltac:(lia))|]. split; [exact Hsame|].
    destruct (Hok eq_refl) as (rds & ms & tail & _ & Ha & _). exists ms. exact Ha.
Defined.
