(* ===== verification/LiveClient.v ===== *)
(** * The IBKR connection ([strategy/orderbook_client/live_ib_client.py])

    Two threads share an [IBAsyncClient]: the worker connects, waits for a
    subscription, registers a handler and then runs the event loop; the caller
    constructs the client, subscribes and disconnects.  Each step below is one
    access to the shared state, so every interleaving of the two is covered; what
    the IBKR library answers is chosen by the step. *)

From stdpp Require Import strings.
From S2P Require Import Prelude PyFloat Protocol Ticks Client Strategy SessionRunner Feeds.

Open Scope Z_scope.

#[local] Existing Instance Live.live_feed.

Definition DELAYED_MARKET_DATA_TYPE : Z := 3.

(** ** Prices *)

Record Ticker := { tk_last : float; tk_bid : float; tk_ask : float; tk_close : float }.

Definition f_two : float := dyadic 1 1.

(** [_best_price]: last, else the midpoint of bid and ask, else close.  [None] in
    the program is an [Ok None] here; the division is the only operation that
    could raise. *)
Definition _best_price (ticker : Ticker) : res (option float) :=
  if negb (is_nan (tk_last ticker)) then Ok (Some (tk_last ticker)) else
  if negb (is_nan (tk_bid ticker)) && negb (is_nan (tk_ask ticker)) then
    mid ← fdiv (fadd (tk_bid ticker) (tk_ask ticker)) f_two; Ok (Some mid)
  else if negb (is_nan (tk_close ticker)) then Ok (Some (tk_close ticker))
  else Ok None.

(** The price of an update, if it has one. *)
Definition tick_of (tk : Ticker) : option float :=
  match _best_price tk with Ok p => p | _ => None end.

Lemma f_two_repr : repr f_two 1 1.
Proof. by apply dyadic_repr. Qed.

(** The division by 2 never raises. *)
Lemma best_price_ok tk : ∃ p, _best_price tk = Ok p ∧ tick_of tk = p.
Proof.
  unfold tick_of, _best_price. change f_two with (S754_finite false 4503599627370496 (-51)).
  repeat case_match; eexists; split; try reflexivity; by simplify_eq/=.
Qed.

Lemma midpoint_exact b a nb na :
  repr b nb (-2) → repr a na (-2) → Z.abs (nb + na) < 2 ^ 53 →
  ∃ z, fdiv (fadd b a) f_two = Ok z ∧ repr z (nb + na) (-3).
Proof.
  intros Hb Ha Hs. assert (repr (fadd b a) (nb + na) (-2)) as H.
  { apply (fadd_repr b a nb (-2) na (-2)); [done|done|apply dy_add_same|split; lia]. }
  apply (fdiv_repr _ _ (nb + na) (-2) 1 1); [done|apply f_two_repr|done| |split; lia].
  apply dyeq_same. lia.
Qed.

Lemma repr_not_nan x n k : repr x n k → is_nan x = false.
Proof. intros (H & _). by destruct x. Qed.

(** A number of eighths rounds to a nearest tick. *)
Lemma eighths_to_ticks z n :
  repr z n (-3) → Z.abs n < 2 ^ 53 → ∃ t, price_to_ticks z = Ok t ∧ Z.abs (2 * t - n) ≤ 1.
Proof.
  intros Hz Hn. destruct (div_tick_exact z n (-3) Hz) as (x & Hx & Hr); [split; lia|].
  destruct (py_round_nearest x) as (t & Ht & Hq); [apply Hr|].
  exists t. unfold price_to_ticks. rewrite Hx. split; [exact Ht|].
  rewrite (repr_fQval x _ _ Hr) in Hq. unfold dyQ in Hq. cbn [fst snd] in Hq.
  change (Qpower 2 (-3 + 2)) with (1 # 2)%Q in Hq.
  rewrite Qabs_Qle_condition in Hq. unfold Qle, Qminus, Qplus, Qmult, Qopp, inject_Z in Hq. cbn in Hq. lia.
Qed.

(** What the feed quotes.  When bid and ask are on the tick grid, the feed's price
    is the last trade if there is one; otherwise it is the midpoint, which rounds
    to a tick between bid and ask, off the exact midpoint by at most half a tick. *)
Theorem best_price_between (tk : Ticker) (nb na : Z) :
  repr (tk_bid tk) nb (-2) → repr (tk_ask tk) na (-2) → nb ≤ na → Z.abs (nb + na) < 2 ^ 53 →
  if is_nan (tk_last tk) then
    ∃ p t, _best_price tk = Ok (Some p) ∧ price_to_ticks p = Ok t ∧ nb ≤ t ≤ na ∧
      Z.abs (2 * t - (nb + na)) ≤ 1
  else _best_price tk = Ok (Some (tk_last tk)).
Proof.
  intros Hb Ha Hle Hs. unfold _best_price. destruct (is_nan (tk_last tk)); cbn [negb]; [|done].
  rewrite (repr_not_nan _ _ _ Hb), (repr_not_nan _ _ _ Ha). cbn [negb andb].
  destruct (midpoint_exact _ _ nb na Hb Ha Hs) as (z & -> & Hz).
  destruct (eighths_to_ticks z _ Hz Hs) as (t & Ht & Hn).
  exists z, t. split; [done|]. split; [done|]. split; [lia|done].
Qed.

(** A bid of 4787.25 and an ask of 4787.50: the midpoint is a tie and goes to the
    even tick, 4787.50. *)
Lemma best_price_between_witness :
  let tk := {| tk_last := S754_nan; tk_bid := dyadic 19149 (-2); tk_ask := dyadic 19150 (-2);
               tk_close := S754_nan |} in
  ∃ p t, _best_price tk = Ok (Some p) ∧ price_to_ticks p = Ok t ∧ 19149 ≤ t ≤ 19150.
Proof.
  intros tk.
  destruct (best_price_between tk 19149 19150 ltac:(by apply dyadic_repr) ltac:(by apply dyadic_repr)
    ltac:(lia) ltac:(lia)) as (p & t & H1 & H2 & H3 & _).
  exists p, t. split; [exact H1|]. split; [exact H2|exact H3].
Defined.

(** ** The shared state *)

Section LiveClient.
(** Contracts, qualified contracts and callbacks. *)
Context {K Q Cb : Type}.

(** [default_es_contract], for the library's constructor of futures. *)
Definition default_es_contract (Future : string → string → string → K) (expiry : string) : K :=
  Future "ES"%string expiry "CME"%string.

(** [_ib] is whether the [IB] object exists and is connected; an event is
    whether it has been set. *)
Record IBAsyncClient := {
  _ib : option bool;
  _connect_error : option PyExc;
  _connected : bool;
  _subscribe_requested : bool;
  _subscribed : bool;
  _pending_contract : option K;
  _pending_on_tick : option Cb;
}.

(** The attributes [__init__] sets before it starts the thread. *)
Definition new_client : IBAsyncClient :=
  {| _ib := None; _connect_error := None; _connected := false; _subscribe_requested := false;
     _subscribed := false; _pending_contract := None; _pending_on_tick := None |}.

Definition set_ib (x : option bool) (c : IBAsyncClient) : IBAsyncClient :=
  Build_IBAsyncClient x (_connect_error c) (_connected c) (_subscribe_requested c) (_subscribed c)
    (_pending_contract c) (_pending_on_tick c).
Definition set_connect_error (e : PyExc) (c : IBAsyncClient) : IBAsyncClient :=
  Build_IBAsyncClient (_ib c) (Some e) (_connected c) (_subscribe_requested c) (_subscribed c)
    (_pending_contract c) (_pending_on_tick c).
Definition set_connected (c : IBAsyncClient) : IBAsyncClient :=
  Build_IBAsyncClient (_ib c) (_connect_error c) true (_subscribe_requested c) (_subscribed c)
    (_pending_contract c) (_pending_on_tick c).
Definition set_requested (c : IBAsyncClient) : IBAsyncClient :=
  Build_IBAsyncClient (_ib c) (_connect_error c) (_connected c) true (_subscribed c)
    (_pending_contract c) (_pending_on_tick c).
Definition set_subscribed (c : IBAsyncClient) : IBAsyncClient :=
  Build_IBAsyncClient (_ib c) (_connect_error c) (_connected c) (_subscribe_requested c) true
    (_pending_contract c) (_pending_on_tick c).
Definition set_contract (k : K) (c : IBAsyncClient) : IBAsyncClient :=
  Build_IBAsyncClient (_ib c) (_connect_error c) (_connected c) (_subscribe_requested c)
    (_subscribed c) (Some k) (_pending_on_tick c).
Definition set_on_tick (cb : Cb) (c : IBAsyncClient) : IBAsyncClient :=
  Build_IBAsyncClient (_ib c) (_connect_error c) (_connected c) (_subscribe_requested c)
    (_subscribed c) (_pending_contract c) (Some cb).

(** Where [_thread_main] is. *)
Inductive worker :=
| WInit                                         (* before [self._ib = IB()] *)
| WConnect                                      (* in the [try] *)
| WFailed                                       (* the error is stored *)
| WConnected                                    (* the [try] is done *)
| WWait                                         (* [_subscribe_requested.wait()] *)
| WQualify                                      (* woken *)
| WCallback (k : option K)                      (* [reqMktData] has returned *)
| WHandler (k : option K) (cb : option Cb)      (* [on_tick] is read *)
| WRun (k : option K) (cb : option Cb)          (* in [self._ib.run()] *)
| WEnd (h : option (option K * option Cb)).     (* returned or died; the handler registered *)

(** Where the caller is. *)
Inductive caller :=
| CWait                  (* [self._connected.wait(...)] in [__init__] *)
| CCheck                 (* the wait returned [True] *)
| CRaised (e : PyExc)    (* [__init__] has raised *)
| CReady                 (* outside any call *)
| CSub1 (cb : Cb)        (* [subscribe]: the contract is stored *)
| CSub2                  (* and the callback *)
| CSubWait.              (* [self._subscribed.wait(...)] *)

(** The client, the two threads, and what has happened: the subscriptions begun,
    the updates the event loop has delivered, and the callbacks' calls. *)
Record LiveState := {
  lv_client : IBAsyncClient;
  lv_worker : worker;
  lv_caller : caller;
  lv_calls : list (K * Cb);
  lv_updates : list Ticker;
  lv_ticks : list (Cb * float);
}.

(** The thread has just been started. *)
Definition started : LiveState :=
  {| lv_client := new_client; lv_worker := WInit; lv_caller := CWait; lv_calls := [];
     lv_updates := []; lv_ticks := [] |}.

Definition worker_at (w : worker) (f : IBAsyncClient → IBAsyncClient) (s : LiveState) : LiveState :=
  {| lv_client := f (lv_client s); lv_worker := w; lv_caller := lv_caller s;
     lv_calls := lv_calls s; lv_updates := lv_updates s; lv_ticks := lv_ticks s |}.
Definition caller_at (c : caller) (f : IBAsyncClient → IBAsyncClient) (s : LiveState) : LiveState :=
  {| lv_client := f (lv_client s); lv_worker := lv_worker s; lv_caller := c;
     lv_calls := lv_calls s; lv_updates := lv_updates s; lv_ticks := lv_ticks s |}.

(** ** The worker *)

(** The [try] block: [connect], then [reqMarketDataType]. *)
Definition connect (connected data_type : res unit) (s : LiveState) : LiveState :=
  match connected with
  | Ok _ =>
      match data_type with
      | Raise e => worker_at WFailed (λ c, set_connect_error e (set_ib (Some true) c)) s
      | _ => worker_at WConnected (set_ib (Some true)) s
      end
  | Raise e => worker_at WFailed (set_connect_error e) s
  | NoFuel => s
  end.

(** [qualifyContracts(...)[0]] and [reqMktData]; an exception ends the thread. *)
Definition qualify (qualified : res (list Q)) (data : Q → res unit) (s : LiveState) : LiveState :=
  let k := _pending_contract (lv_client s) in
  match (l ← qualified; q ← match l with q :: _ => Ok q | [] => Raise IndexError end; data q) with
  | Ok _ => worker_at (WCallback k) id s
  | Raise _ => worker_at (WEnd None) id s
  | NoFuel => s
  end.

(** [_on_update]. *)
Definition on_update (tk : Ticker) (cb : option Cb) (s : LiveState) : LiveState :=
  {| lv_client := lv_client s; lv_worker := lv_worker s; lv_caller := lv_caller s;
     lv_calls := lv_calls s; lv_updates := lv_updates s ++ [tk];
     lv_ticks := lv_ticks s ++
       match tick_of tk, cb with Some p, Some cb => [(cb, p)] | _, _ => [] end |}.

(** ** The caller *)

Definition check_error (s : LiveState) : LiveState :=
  match _connect_error (lv_client s) with
  | Some e => caller_at (CRaised e) id s
  | None => caller_at CReady id s
  end.

Definition begin_subscribe (k : K) (cb : Cb) (s : LiveState) : LiveState :=
  {| lv_client := set_contract k (lv_client s); lv_worker := lv_worker s; lv_caller := CSub1 cb;
     lv_calls := lv_calls s ++ [(k, cb)]; lv_updates := lv_updates s; lv_ticks := lv_ticks s |}.

Definition disconnect (s : LiveState) : LiveState :=
  caller_at (lv_caller s) (λ c, match _ib c with Some _ => set_ib (Some false) c | None => c end) s.

(** ** The steps *)

(** What a step is: the program's own, or one its environment asks for. *)
Inductive label := LInternal | LUpdate | LSubscribe | LDisconnect.

Inductive live_step : label → LiveState → LiveState → Prop :=
| st_init s : lv_worker s = WInit →
    live_step LInternal s (worker_at WConnect (set_ib (Some false)) s)
| st_connect s c d : lv_worker s = WConnect → c ≠ NoFuel → d ≠ NoFuel →
    live_step LInternal s (connect c d s)
| st_failed s : lv_worker s = WFailed →
    live_step LInternal s (worker_at (WEnd None) set_connected s)
| st_connected s : lv_worker s = WConnected →
    live_step LInternal s (worker_at WWait set_connected s)
| st_woken s : lv_worker s = WWait → _subscribe_requested (lv_client s) = true →
    live_step LInternal s (worker_at WQualify id s)
| st_qualify s r d : lv_worker s = WQualify → r ≠ NoFuel → (∀ q, d q ≠ NoFuel) →
    live_step LInternal s (qualify r d s)
| st_callback s k : lv_worker s = WCallback k →
    live_step LInternal s (worker_at (WHandler k (_pending_on_tick (lv_client s))) id s)
| st_signal s k cb : lv_worker s = WHandler k cb →
    live_step LInternal s (worker_at (WRun k cb) set_subscribed s)
| st_update s k cb tk : lv_worker s = WRun k cb →
    live_step LUpdate s (on_update tk cb s)
| st_run_returns s k cb : lv_worker s = WRun k cb →
    live_step LInternal s (worker_at (WEnd (Some (k, cb))) id s)
| st_connect_wait s : lv_caller s = CWait → _connected (lv_client s) = true →
    live_step LInternal s (caller_at CCheck id s)
| st_connect_timeout s : lv_caller s = CWait → _connected (lv_client s) = false →
    live_step LInternal s (caller_at (CRaised RuntimeError) id s)
| st_check s : lv_caller s = CCheck → live_step LInternal s (check_error s)
| st_subscribe s k cb : lv_caller s = CReady → live_step LSubscribe s (begin_subscribe k cb s)
| st_sub1 s cb : lv_caller s = CSub1 cb →
    live_step LInternal s (caller_at CSub2 (set_on_tick cb) s)
| st_sub2 s : lv_caller s = CSub2 → live_step LInternal s (caller_at CSubWait set_requested s)
| st_sub_wait s : lv_caller s = CSubWait → _subscribed (lv_client s) = true →
    live_step LInternal s (caller_at CReady id s)
| st_sub_timeout s : lv_caller s = CSubWait → _subscribed (lv_client s) = false →
    live_step LInternal s (caller_at CReady id s)
| st_disconnect s : lv_caller s = CReady → live_step LDisconnect s (disconnect s).

(** [live_run ls s s']: the steps of [ls] lead from [s] to [s']. *)
Inductive live_run : list label → LiveState → LiveState → Prop :=
| lrun_nil s : live_run [] s s
| lrun_snoc ls l s1 s2 s3 : live_run ls s1 s2 → live_step l s2 s3 → live_run (ls ++ [l]) s1 s3.

(** ** What every interleaving keeps *)

Definition knows_contract (s : LiveState) (k : K) : Prop := ∃ cb, (k, cb) ∈ lv_calls s.
Definition knows_callback (s : LiveState) (cb : Cb) : Prop := ∃ k, (k, cb) ∈ lv_calls s.

(** The worker has connected. *)
Definition past_connect (w : worker) : bool :=
  match w with WInit | WConnect | WFailed | WConnected => false | _ => true end.

(** The handler the worker has registered. *)
Definition registered (w : worker) : option (option K * option Cb) :=
  match w with WRun k cb => Some (k, cb) | WEnd h => h | _ => None end.

Definition is_registered (w : worker) : bool :=
  match registered w with Some _ => true | None => false end.

Definition worker_ok (s : LiveState) : Prop :=
  match lv_worker s with
  | WQualify => _subscribe_requested (lv_client s) = true
  | WCallback k => _subscribe_requested (lv_client s) = true ∧ ∃ k', k = Some k' ∧ knows_contract s k'
  | WHandler k cb | WRun k cb | WEnd (Some (k, cb)) =>
      ∃ k' cb', k = Some k' ∧ cb = Some cb' ∧ knows_contract s k' ∧ knows_callback s cb'
  | WEnd None => True
  | _ => True
  end.

Definition caller_ok (s : LiveState) : Prop :=
  let c := lv_client s in
  match lv_caller s with
  | CWait => _subscribe_requested c = false
  | CCheck => _connected c = true ∧ _subscribe_requested c = false
  | CRaised e => (e = RuntimeError ∨ _connect_error c = Some e) ∧ _subscribe_requested c = false
  | CReady => _connected c = true ∧ _connect_error c = None
  | CSub1 cb => _connected c = true ∧ _connect_error c = None ∧ knows_callback s cb ∧
      is_Some (_pending_contract c)
  | CSub2 => _connected c = true ∧ _connect_error c = None ∧ is_Some (_pending_contract c) ∧
      is_Some (_pending_on_tick c)
  | CSubWait => _connected c = true ∧ _connect_error c = None ∧ _subscribe_requested c = true
  end.

Record live_ok (s : LiveState) : Prop := {
  lk_connected : _connected (lv_client s) = past_connect (lv_worker s);
  lk_error : match lv_worker s with
    | WFailed => is_Some (_connect_error (lv_client s))
    | WEnd None => True
    | _ => _connect_error (lv_client s) = None
    end;
  lk_subscribed : _subscribed (lv_client s) = is_registered (lv_worker s);
  lk_requested : _subscribe_requested (lv_client s) = true →
    is_Some (_pending_contract (lv_client s)) ∧ is_Some (_pending_on_tick (lv_client s));
  lk_contract k : _pending_contract (lv_client s) = Some k → knows_contract s k;
  lk_callback cb : _pending_on_tick (lv_client s) = Some cb → knows_callback s cb;
  lk_worker : worker_ok s;
  lk_caller : caller_ok s;
  lk_ticks : match registered (lv_worker s) with
    | Some (_, Some cb) => lv_ticks s = pair cb <$> omap tick_of (lv_updates s)
    | _ => lv_updates s = [] ∧ lv_ticks s = []
    end;
}.

Lemma started_ok : live_ok started.
Proof. by split. Qed.

#[local] Ltac live_split :=
  split; unfold worker_ok, caller_ok, knows_contract, knows_callback in *; cbn in *; eauto;
  try done; try (intros; tauto).
#[local] Ltac caller_cases c := destruct c; cbn in *; intuition congruence.
#[local] Ltac worker_cases w :=
  destruct w as [| | | | | | | | |[[]|]]; cbn in *; set_unfold; naive_solver.

Lemma begin_subscribe_ok k cb s :
  lv_caller s = CReady → live_ok s → live_ok (begin_subscribe k cb s).
Proof.
  intros Hc [H1 H2 H3 H4 H5 H6 H7 H8 H9].
  assert (∀ k', knows_contract s k' → knows_contract (begin_subscribe k cb s) k') as Mk.
  { unfold knows_contract. cbn. set_unfold. naive_solver. }
  assert (∀ cb', knows_callback s cb' → knows_callback (begin_subscribe k cb s) cb') as Mc.
  { unfold knows_callback. cbn. set_unfold. naive_solver. }
  assert (knows_contract (begin_subscribe k cb s) k ∧ knows_callback (begin_subscribe k cb s) cb) as [Nk Nc].
  { unfold knows_contract, knows_callback. cbn. set_unfold. naive_solver. }
  unfold caller_ok in H8. rewrite Hc in H8. split; try done; cbn.
  - intros Hr. split; [done|]. by apply H4.
  - by intros k' [= <-].
  - auto.
  - unfold worker_ok in *. cbn. destruct (lv_worker s) as [| | | | | | | | |[[]|]]; naive_solver.
  - unfold caller_ok. cbn. naive_solver.
Qed.

Lemma live_step_ok l s s' : live_step l s s' → live_ok s → live_ok s'.
Proof.
  intros Hstep Hok. pose proof Hok as [H1 H2 H3 H4 H5 H6 H7 H8 H9].
  destruct Hstep as [s Hw|s r d Hw Hr Hd|s Hw|s Hw|s Hw Hq|s r d Hw Hr Hd|s k Hw|s k cb Hw|s k cb tk Hw
    |s k cb Hw|s Hc Ht|s Hc Ht|s Hc|s k cb Hc|s cb Hc|s Hc|s Hc Ht|s Hc Ht|s Hc];
    [..|by apply begin_subscribe_ok| | | | |];
    destruct s as [[ib err conn req sub pk pcb] w c calls ups ticks];
    unfold worker_ok, caller_ok, knows_contract, knows_callback in *; cbn in *; subst.
  - live_split.
  - unfold connect. destruct r as [[]|e|]; [destruct d as [[]|e|]| |]; try done; live_split; caller_cases c.
  - live_split. caller_cases c.
  - live_split. caller_cases c.
  - live_split.
  - unfold qualify. cbn. destruct r as [[|q l]|e|]; [|pose proof (Hd q); cbn; destruct (d q)| |];
      try done; live_split. destruct (H4 eq_refl) as [[k ->] _]. eauto.
  - live_split. destruct H7 as [Hr (k' & -> & Hk)]. destruct (H4 Hr) as [_ [cb' ->]]. naive_solver.
  - live_split. destruct H9 as [-> ->]. by destruct cb.
  - destruct H7 as (k' & cb' & -> & -> & Hk & Hcb). live_split; [naive_solver|]. rewrite omap_app, fmap_app, H9. cbn.
    by destruct (tick_of tk).
  - live_split.
  - live_split.
  - live_split.
  - unfold check_error. cbn. destruct err as [e|]; live_split.
  - live_split; destruct H8 as (? & ? & ? & ?); [naive_solver|naive_solver|done].
  - live_split. worker_cases w.
  - live_split.
  - live_split.
  - unfold disconnect. cbn. destruct ib; live_split.
Qed.

Lemma live_run_ok ls s : live_run ls started s → live_ok s.
Proof.
  remember started as s0 eqn:E. induction 1 as [|ls l s1 s2 s3 _ IH Hs]; subst.
  - apply started_ok.
  - eapply live_step_ok; [exact Hs|auto].
Qed.

Lemma known_single s k cb :
  lv_calls s = [(k, cb)] → (∀ k', knows_contract s k' → k' = k) ∧ (∀ cb', knows_callback s cb' → cb' = cb).
Proof.
  intros Hc. unfold knows_contract, knows_callback. rewrite Hc. split.
  - intros k' [cb' H]. apply list_elem_of_singleton in H. by injection H.
  - intros cb' [k' H]. apply list_elem_of_singleton in H. by injection H.
Qed.

Lemma ticks_single s k cb : live_ok s → lv_calls s = [(k, cb)] →
  match registered (lv_worker s) with
  | Some h => h = (Some k, Some cb) ∧ lv_ticks s = pair cb <$> omap tick_of (lv_updates s)
  | None => lv_updates s = [] ∧ lv_ticks s = []
  end.
Proof.
  intros [_ _ _ _ _ _ H7 _ H9] Hc. destruct (known_single s k cb Hc) as [Hk Hcb].
  unfold worker_ok in H7. destruct (lv_worker s) as [| | | | | | | |k0 c0|[[k0 c0]|]]; cbn in *; try done;
    destruct H7 as (k' & cb' & -> & -> & Hk' & Hc'); apply Hk in Hk' as ->; apply Hcb in Hc' as ->; done.
Qed.

(** (C25) Safety of the two threads, over every interleaving.  An error of the connection
    is never swallowed: once one is stored, the constructor has raised it, or a
    timeout, or has not returned, and no callback is ever called; the constructor
    raises nothing else.  [subscribe] is told of a subscription exactly when the
    worker has registered a handler.  A client that is subscribed to once registers
    that contract with that callback, never a mixture with stale values, and the
    callback has been called with the price of each update that has one, in order,
    and nothing else has been called. *)
Theorem live_client_safety (ls : list label) (s : LiveState) :
  live_run ls started s →
  (∀ e, _connect_error (lv_client s) = Some e →
     lv_ticks s = [] ∧ match lv_caller s with
       | CWait | CCheck => True | CRaised e' => e' = RuntimeError ∨ e' = e | _ => False end) ∧
  (∀ e, lv_caller s = CRaised e → e = RuntimeError ∨ _connect_error (lv_client s) = Some e) ∧
  _subscribed (lv_client s) = is_registered (lv_worker s) ∧
  (∀ k cb, lv_calls s = [(k, cb)] →
     match registered (lv_worker s) with
     | Some h => h = (Some k, Some cb) ∧ lv_ticks s = pair cb <$> omap tick_of (lv_updates s)
     | None => lv_updates s = [] ∧ lv_ticks s = []
     end).
Proof.
  intros Hrun. pose proof (live_run_ok ls s Hrun) as Hok. pose proof Hok as [H1 H2 H3 H4 H5 H6 H7 H8 H9].
  split; [|split; [|split; [done|intros k cb; by apply ticks_single]]].
  - intros e He. unfold caller_ok in H8. rewrite He in H2, H8. split.
    + destruct (lv_worker s) as [| | | | | | | | |[[]|]]; cbn in *; try done; by destruct H9.
    + destruct (lv_caller s); [done|done| |naive_solver..].
      destruct H8 as [[->|[= ->]] _]; auto.
  - intros e He. unfold caller_ok in H8. rewrite He in H8. tauto.
Qed.

(** ** Every call returns *)

Definition worker_left (w : worker) : nat :=
  match w with
  | WInit => 8 | WConnect => 7 | WConnected => 6 | WWait => 5 | WQualify => 4
  | WCallback _ => 3 | WHandler _ _ => 2 | WFailed | WRun _ _ => 1 | WEnd _ => 0
  end.
Definition caller_left (c : caller) : nat :=
  match c with
  | CWait | CSub2 => 2 | CCheck | CSubWait => 1 | CSub1 _ => 3 | CRaised _ | CReady => 0
  end.

Definition count (p : label → bool) (ls : list label) : nat := length (filter (λ l, p l = true) ls).
Definition internal (l : label) : bool := match l with LInternal => true | _ => false end.
Definition subscribes (l : label) : bool := match l with LSubscribe => true | _ => false end.

Lemma live_step_measure l s s' : live_step l s s' →
  (worker_left (lv_worker s') + caller_left (lv_caller s') + (if internal l then 1 else 0) ≤
   worker_left (lv_worker s) + caller_left (lv_caller s) + (if subscribes l then 3 else 0))%nat.
Proof.
  intros Hstep. destruct Hstep as [s Hw|s r d Hw Hr Hd|s Hw|s Hw|s Hw Hq|s r d Hw Hr Hd|s k Hw|s k cb Hw
    |s k cb tk Hw|s k cb Hw|s Hc Ht|s Hc Ht|s Hc|s k cb Hc|s cb Hc|s Hc|s Hc Ht|s Hc Ht|s Hc];
    destruct s as [[] w c calls ups ticks]; cbn in *; subst; cbn; try lia.
  - unfold connect. destruct r as [[]|e|]; [destruct d as [[]|e|]| |]; try done; cbn; lia.
  - unfold qualify. cbn. destruct r as [[|q l]|e|]; [|pose proof (Hd q); cbn; destruct (d q)| |];
      try done; cbn; lia.
  - unfold check_error. cbn. case_match; cbn; lia.
Qed.

Lemma live_run_measure ls s s' : live_run ls s s' →
  (worker_left (lv_worker s') + caller_left (lv_caller s') + count internal ls ≤
   worker_left (lv_worker s) + caller_left (lv_caller s) + 3 * count subscribes ls)%nat.
Proof.
  induction 1 as [s|ls l s1 s2 s3 _ IH Hs]; [cbn; lia|]. apply live_step_measure in Hs.
  unfold count in *. rewrite !filter_app, !length_app.
  assert (∀ p : label → bool, length (filter (λ l, p l = true) [l]) = if p l then 1%nat else 0%nat) as Hc.
  { intros p. rewrite filter_cons. destruct (p l); by rewrite ?decide_True, ?decide_False by done. }
  rewrite !Hc. destruct (internal l), (subscribes l); lia.
Qed.

(** (C26) Neither thread can run forever by itself, and the caller never blocks: up to
    any point at most 10 steps of the program plus 3 for each subscription have
    been taken, and whenever the caller is inside a call, it has a step that brings
    the call's end closer, whatever the worker does. *)
Theorem live_client_returns (ls : list label) (s : LiveState) :
  live_run ls started s →
  (count internal ls ≤ 10 + 3 * count subscribes ls)%nat ∧
  match lv_caller s with
  | CReady | CRaised _ => True
  | c => ∃ s', live_step LInternal s s' ∧ (caller_left (lv_caller s') < caller_left c)%nat
  end.
Proof.
  intros Hrun. split; [apply live_run_measure in Hrun; cbn in Hrun; lia|].
  destruct (lv_caller s) as [| |e| |cb| |] eqn:Hc; try done.
  - destruct (_connected (lv_client s)) eqn:Ht; eexists; (split; [by constructor|cbn; lia]).
  - eexists. split; [by constructor|]. unfold check_error. case_match; cbn; lia.
  - eexists. split; [by constructor|cbn; lia].
  - eexists. split; [by constructor|cbn; lia].
  - destruct (_subscribed (lv_client s)) eqn:Ht; eexists; (split; [by constructor|cbn; lia]).
Qed.

(** ** Runs *)

#[local] Tactic Notation "take_step" hyp(R) uconstr(st) :=
  eapply lrun_snoc in R; [|eapply st; first [eassumption|reflexivity|done]].

(** The constructor returns and the subscription is requested. *)
Lemma requested_run (k : K) (cb : Cb) : ∃ ls s,
  live_run ls started s ∧ lv_worker s = WWait ∧ lv_caller s = CSubWait ∧ lv_calls s = [(k, cb)] ∧
  _subscribe_requested (lv_client s) = true ∧ _connect_error (lv_client s) = None ∧
  _subscribed (lv_client s) = false ∧ _pending_contract (lv_client s) = Some k ∧
  _pending_on_tick (lv_client s) = Some cb ∧ lv_updates s = [] ∧ lv_ticks s = [].
Proof.
  pose proof (lrun_nil started) as R.
  take_step R st_init.
  take_step R (st_connect _ (Ok tt) (Ok tt)).
  take_step R st_connected.
  take_step R st_connect_wait.
  take_step R st_check.
  take_step R (st_subscribe _ k cb).
  take_step R st_sub1.
  take_step R st_sub2.
  eexists _, _. split; [exact R|]. done.
Qed.

(** From there the worker registers the handler, and delivers [tks]. *)
Lemma updates_run (k : K) (cb : Cb) (q : Q) (tks : list Ticker) : ∃ ls s,
  live_run ls started s ∧ lv_worker s = WRun (Some k) (Some cb) ∧ lv_calls s = [(k, cb)] ∧
  lv_updates s = tks ∧ lv_ticks s = pair cb <$> omap tick_of tks.
Proof.
  induction tks as [|tk tks IH] using rev_ind.
  - destruct (requested_run k cb) as (ls & s & R & Hw & _ & Hc & Hr & _ & _ & Hk & Hcb & Hu & Ht).
    take_step R st_woken.
    take_step R (st_qualify _ (Ok [q]) (λ _, Ok tt)).
    take_step R st_callback.
    take_step R st_signal.
    eexists _, _. split; [exact R|]. cbn. by rewrite Hk, Hcb, Hc, Hu, Ht.
  - destruct IH as (ls & s & R & Hw & Hc & Hu & Ht). take_step R (st_update _ _ _ tk).
    eexists _, _. split; [exact R|]. cbn. rewrite Hw, Hc, Hu, Ht, omap_app, fmap_app.
    split; [done|]. split; [done|]. split; [done|]. f_equal. cbn. by destruct (tick_of tk).
Qed.

(** *** A failed subscription *)

Lemma dead_worker ls s s' : live_run ls s s' →
  lv_worker s = WEnd None → lv_worker s' = WEnd None ∧ lv_ticks s' = lv_ticks s.
Proof.
  induction 1 as [s|ls l s1 s2 s3 _ IH Hs]; [done|]. intros Hw. destruct (IH Hw) as [Hw2 <-].
  destruct Hs; try congruence; try done. unfold check_error. by case_match.
Qed.

(** A subscription that fails is not reported.  The contract may be unknown to IBKR:
    then the worker dies, [subscribe] times out and returns as if it had succeeded,
    no error is stored anywhere, and no callback is ever called, whatever happens
    next. *)
Theorem subscribe_failure_silent (k : K) (cb : Cb) : ∃ ls s,
  live_run ls started s ∧ lv_caller s = CReady ∧ lv_calls s = [(k, cb)] ∧
  _connect_error (lv_client s) = None ∧ _subscribed (lv_client s) = false ∧
  ∀ ls' s', live_run ls' s s' → lv_ticks s' = [].
Proof.
  destruct (requested_run k cb) as (ls & s & R & Hw & Hca & Hc & Hr & He & Hs & _ & _ & _ & Ht).
  take_step R st_woken.
  take_step R (st_qualify _ (Ok []) (λ _, Ok tt)).
  take_step R st_sub_timeout.
  eexists _, _. split; [exact R|]. split; [done|]. split; [exact Hc|]. split; [exact He|].
  split; [exact Hs|]. intros ls' s' Hrun. destruct (dead_worker _ _ _ Hrun eq_refl) as [_ ->]. exact Ht.
Qed.

(** ** The feed on top *)

(** (C27) A session fed by the client.  When the feed has subscribed once and its queue
    receives the calls of its callback, in whatever batches, the prices of any run
    of the strategy loop are those of the first updates that carried a price, in
    order, each rounded to the tick grid. *)
Theorem live_prices {S} `{!Strategy S} (ls : list label) (s : LiveState) (k : K) (cb : Cb)
    (duration : float) (arrivals : list (list float)) (clock : nat → float) (x x' : S) rds f' :
  live_run ls started s → lv_calls s = [(k, cb)] →
  concat arrivals = snd <$> lv_ticks s →
  rounds_run (Live.new_feed duration arrivals clock) x rds f' x' →
  ∃ raw rest, omap tick_of (lv_updates s) = raw ++ rest ∧
    Forall2 (λ p rd, price_to_ticks p = Ok (rd_price rd)) raw rds.
Proof.
  intros Hrun Hc Ha Hrds. destruct (Live.live_raw _ _ _ _ _ Hrds) as (raw & Hp & Hraw & _).
  exists raw, (Live.live_pending f'). split; [|exact Hraw]. rewrite <- Hp.
  change (Live.live_pending _) with (concat arrivals). rewrite Ha.
  pose proof (ticks_single s k cb (live_run_ok ls s Hrun) Hc) as Ht.
  destruct (registered _); [destruct Ht as [_ ->]|by destruct Ht as [-> ->]].
  rewrite <- list_fmap_compose. symmetry. apply list_fmap_id.
Qed.
End LiveClient.

(** ** Witnesses *)

Definition mid_ticker : Ticker :=
  {| tk_last := S754_nan; tk_bid := dyadic 19149 (-2); tk_ask := dyadic 19151 (-2); tk_close := S754_nan |}.
Definition empty_ticker : Ticker :=
  {| tk_last := S754_nan; tk_bid := S754_nan; tk_ask := S754_nan; tk_close := S754_nan |}.
Definition last_ticker : Ticker :=
  {| tk_last := dyadic 19160 (-2); tk_bid := S754_nan; tk_ask := S754_nan; tk_close := S754_nan |}.

Lemma live_client_safety_witness :
  ∃ ls (s : LiveState (K := Z) (Cb := Z)), live_run (Q := Z) ls started s ∧
    registered (lv_worker s) = Some (Some 7, Some 1) ∧
    lv_ticks s = [(1, dyadic 19150 (-2)); (1, dyadic 19160 (-2))].
Proof.
  destruct (updates_run (Q := Z) 7 1 0 [empty_ticker; mid_ticker; last_ticker])
    as (ls & s & R & Hw & Hc & Hu & _).
  exists ls, s. split; [exact R|].
  destruct (live_client_safety ls s R) as (_ & _ & _ & H). specialize (H 7 1 Hc).
  rewrite Hw in H |- *. destruct H as [_ H]. rewrite Hu in H.
  split; [reflexivity|]. rewrite H. vm_compute. reflexivity.
Defined.

Lemma live_client_returns_witness :
  ∃ ls (s : LiveState (K := Z) (Cb := Z)), live_run (Q := Z) ls started s ∧ lv_caller s = CSubWait ∧
    ∃ s', live_step (Q := Z) LInternal s s' ∧ caller_left (lv_caller s') = 0%nat.
Proof.
  destruct (requested_run (Q := Z) 7 1) as (ls & s & R & _ & Hca & _).
  exists ls, s. split; [exact R|]. split; [exact Hca|].
  destruct (live_client_returns ls s R) as [_ H]. rewrite Hca in H. destruct H as (s' & Hs & Hl).
  exists s'. split; [exact Hs|]. cbn in Hl. lia.
Defined.

Lemma live_prices_witness :
  ∃ rds f', rounds_run (Live.new_feed (dyadic 60 0) [[dyadic 19150 (-2)]; [dyadic 19160 (-2)]]
      (λ _, f_zero)) (new_quoter 1 10) rds f' (quoter_on_price 19150 (new_quoter 1 10)).1 ∧
    ∃ raw rest, omap tick_of [empty_ticker; mid_ticker; last_ticker] = raw ++ rest ∧
      Forall2 (λ p rd, price_to_ticks p = Ok (rd_price rd)) raw rds ∧ length raw = 1%nat.
Proof.
  set (f0 := Live.new_feed _ _ _). set (q0 := new_quoter 1 10). set (q1 := (quoter_on_price 19150 q0).1).
  set (f1 := (next_price f0).1).
  set (r1 := {| rd_price := 19150; rd_actions := (quoter_on_price 19150 q0).2; rd_polled := [] |}).
  assert (next_price f0 = (f1, Ok (rd_price r1))) as E1 by (vm_compute; reflexivity).
  assert (rounds_run f0 q0 [r1] f1 q1) as Hrun.
  { apply (rounds_cons f0 f1 f1 q0 q1 q1 r1 []); [exact E1|exists q1; split; reflexivity|apply rounds_nil]. }
  exists [r1], f1. split; [exact Hrun|].
  destruct (updates_run (Q := Z) 7 1 0 [empty_ticker; mid_ticker; last_ticker])
    as (ls & s & R & _ & Hc & Hu & Ht).
  assert (concat [[dyadic 19150 (-2)]; [dyadic 19160 (-2)]] = snd <$> lv_ticks s) as Ha.
  { rewrite Ht. vm_compute. reflexivity. }
  destruct (live_prices ls s 7 1 (dyadic 60 0) _ (λ _, f_zero) q0 q1 [r1] f1 R Hc Ha Hrun)
    as (raw & rest & Hp & Hraw).
  rewrite Hu in Hp. exists raw, rest. split; [exact Hp|]. split; [exact Hraw|].
  apply Forall2_length in Hraw. exact Hraw.
Defined.
