(* ===== verification/Drivers.v ===== *)
(** * The command line drivers ([strategy/run_*.py])

    The [main] functions, from the parsed arguments on: what they run, what
    they print and what they write.  The arguments are records with the
    defaults of the parsers; the printed text is the text, and a written file
    is the table of cells handed to the [csv] module.  What the drivers reach
    outside the process is a parameter: the constructor of a connection, the
    opening of a file, the download, the clock. *)

From stdpp Require Import strings.
From S2P Require Import Prelude Bytes PyFloat FloatBounds PyStruct PyStatistics PyText Protocol Client.
From S2P Require Import PricingClient Ticks Strategy DeltaHedger TradeLog SessionRunner Feeds.
From S2P Require Import BacktestReport HedgeReport Sessions HedgeSession LiveClient.

Open Scope Z_scope.

(** ** What a driver leaves behind *)

Record World := {
  w_cache : Historical.fs;                      (* the cached downloads *)
  w_tables : gmap string (list (list pyval));   (* the CSV files written, by path *)
  w_out : list string;                          (* the lines printed *)
}.

Definition say (lines : list string) (w : World) : World :=
  {| w_cache := w_cache w; w_tables := w_tables w; w_out := w_out w ++ lines |}.
Definition store (path : string) (table : list (list pyval)) (w : World) : World :=
  {| w_cache := w_cache w; w_tables := <[path := table]> (w_tables w); w_out := w_out w |}.
Definition set_cache (d : Historical.fs) (w : World) : World :=
  {| w_cache := d; w_tables := w_tables w; w_out := w_out w |}.

(** [print(line)] *)
Definition print (line : string) : M World unit := modify (say [line]).

(** The argument of [--csv], which is ignored when it is the empty string. *)
Definition csv_path (csv : option string) : option string := path ← csv; if decide (path = "") then None else Some path.

(** The lines every session prints first. *)
Definition print_counts (rs : list row) : M World unit :=
  let orders_sent := Z.of_nat (count_event "order_sent" rs) in
  let fills := Z.of_nat (count_event "fill" rs) in
  _ ← print ("orders sent: " +:+ str_int orders_sent);
  print ("fills received: " +:+ str_int fills).

(** ** The arguments *)

Record SyntheticArgs := {
  sy_host : string; sy_port : Z; sy_ticks : Z; sy_seed : Z; sy_csv : option string;
}.
Definition synthetic_defaults : SyntheticArgs :=
  {| sy_host := "127.0.0.1"; sy_port := 9999; sy_ticks := 200; sy_seed := 42; sy_csv := None |}.

Record BacktestArgs := {
  bt_host : string; bt_port : Z; bt_ticker : string; bt_start : string; bt_end : string;
  bt_interval : string; bt_cache_dir : string; bt_csv : option string;
}.
(** [os.path.dirname(__file__)] and the two required arguments are given. *)
Definition _DEFAULT_CACHE_DIR (dirname : string) : string := Historical.path_join dirname "data".
Definition backtest_defaults (dirname start end_ : string) : BacktestArgs :=
  {| bt_host := "127.0.0.1"; bt_port := 9999; bt_ticker := "ES=F"; bt_start := start; bt_end := end_;
     bt_interval := "1d"; bt_cache_dir := _DEFAULT_CACHE_DIR dirname; bt_csv := None |}.

Record LiveArgs := {
  lv_host : string; lv_port : Z; lv_ib_host : string; lv_ib_port : Z; lv_ib_client_id : Z;
  lv_expiry : string; lv_duration : float; lv_csv : option string;
}.

Record HedgeArgs := {
  hg_host : string; hg_port : Z; hg_pricing_host : string; hg_pricing_port : Z;
  hg_ticks : Z; hg_seed : Z; hg_hedge_band : Z;
}.
Definition hedge_defaults : HedgeArgs :=
  {| hg_host := "127.0.0.1"; hg_port := 9999; hg_pricing_host := "127.0.0.1"; hg_pricing_port := 9998;
     hg_ticks := 300; hg_seed := 42; hg_hedge_band := 5 |}.

(** ** The drivers *)

Section Mains.
(** [OrderBookClient(host, port)], [open(path, "w")], [time.time()]. *)
Context (connect : string → Z → res Client) (open_error : string → option PyExc) (time : nat → float).

(** [if args.csv: log.to_csv(args.csv); print(...)] *)
Definition dump_csv (csv : option string) (log : TradeLog) : M World unit :=
  match csv_path csv with
  | None => mret tt
  | Some path =>
      match open_error path with
      | Some e => raise e
      | None => _ ← modify (store path (to_csv log)); print ("trade log written to " +:+ path)
      end
  end.

(** *** [run_synthetic_session.py] *)

Definition synthetic_main (R : Type) `{!Synthetic.Random R} (fuel : nat) (args : SyntheticArgs) : M World unit :=
  log ← lift_res (run_session (R := R) fuel (connect (sy_host args) (sy_port args)) time (sy_ticks args) (sy_seed args)).2;
  _ ← print_counts (rows log);
  _ ← print ("trade log length: " +:+ str_int (Z.of_nat (length (rows log))));
  dump_csv (sy_csv args) log.

(** *** [run_historical_backtest.py] *)

Section Backtest.
Context (float_pow : float → float → res float) (float_repr : float → string) (float_parse : string → res float).
(** [yf.download(...)["Close"]] *)
Context (download : string → string → string → string → res Historical.CloseData).

Definition open_feed (args : BacktestArgs) : M World Historical.HistoricalPriceFeed :=
  on_field w_cache set_cache
    (Historical.new_feed float_repr float_parse (bt_ticker args) (bt_start args) (bt_end args) (bt_interval args)
       (bt_cache_dir args) (Historical.yfinance_downloader download)).

(** The figures of the report. *)
Definition print_report (report : BacktestReport) : M World unit :=
  sharpe ← lift_res (format_fixed 2 (sharpe_ratio report));
  _ ← print ("Sharpe ratio: " +:+ sharpe);
  tick_price ← lift_res (ticks_to_price 1);
  dollars_per_tick ← lift_res (num_mul (NFloat tick_price) (NInt 50));
  dollars ← lift_res (num_mul (NInt (max_drawdown_ticks report)) dollars_per_tick);
  dollars ← lift_res (format_fixed 2 dollars);
  _ ← print ("Max drawdown: " +:+ str_int (max_drawdown_ticks report) +:+ " ticks ($" +:+ dollars +:+ ")");
  win ← lift_res (format_percent 1 (win_rate report));
  print ("Win rate: " +:+ win).

Definition backtest_main (fuel : nat) (args : BacktestArgs) : M World unit :=
  feed ← open_feed args;
  '(log, report) ← lift_res (run_backtest float_pow fuel (Ok feed) (connect (bt_host args) (bt_port args)) time (bt_interval args)).2;
  _ ← print_counts (rows log);
  _ ← print_report report;
  dump_csv (bt_csv args) log.
End Backtest.

(** *** [run_live_session.py] *)

Section Live.
(** [IBAsyncClient(host, port, client_id)]; the library's contracts; the ticks
    that arrive after the subscription. *)
Context {K : Type} (ib_connect : string → Z → Z → res unit) (Future : string → string → string → K).
Context (arrivals : K → list (list float)) (monotonic : nat → float).

Definition live_outcome (fuel : nat) (args : LiveArgs) : LiveOutcome :=
  let ib_client := ib_connect (lv_ib_host args) (lv_ib_port args) (lv_ib_client_id args) in
  let contract := default_es_contract Future (lv_expiry args) in
  run_live_session fuel ib_client (Live.new_feed (lv_duration args) (arrivals contract) monotonic)
    (connect (lv_host args) (lv_port args)) time.

Definition live_main (fuel : nat) (args : LiveArgs) : M World unit :=
  log ← lift_res (lo_result (live_outcome fuel args));
  _ ← print_counts (rows log);
  _ ← print ("trade log length: " +:+ str_int (Z.of_nat (length (rows log))));
  dump_csv (lv_csv args) log.
End Live.

(** *** [run_delta_hedge_backtest.py] *)

Section Hedge.
Context {R P : Type} `{!Synthetic.Random R, !Pricer P} (close_pricer : P → P).
Context (float_pow : float → float → res float) (connect_pricing : string → Z → res P).

Definition hedge_outcome (fuel : nat) (args : HedgeArgs) :
    option (Session (Synthetic.SyntheticPriceFeed R) (HedgeState P) Client) *
    res (TradeLog * BacktestReport * HedgeReport) :=
  run_hedge_backtest close_pricer float_pow fuel (connect_pricing (hg_pricing_host args) (hg_pricing_port args))
    (connect (hg_host args) (hg_port args)) time (hg_ticks args) (hg_seed args) (hg_hedge_band args).

(** The companion thread: its own connection, 500 more ticks, the next seed. *)
Definition companion (connect : string → Z → res Client) (fuel : nat) (args : HedgeArgs) :
    option (Session (Synthetic.SyntheticPriceFeed R) FixedOffsetQuoter Client) * res Z :=
  run_quoter fuel (connect (hg_host args) (hg_port args)) time (hg_ticks args + 500) (hg_seed args + 1).

Definition print_figure (label : string) (x : res string) (unit_ : string) : M World unit :=
  text ← lift_res x; print (label +:+ text +:+ unit_).

Definition hedge_main (fuel : nat) (args : HedgeArgs) : M World unit :=
  '(log, backtest_report, hedge_report) ← lift_res (hedge_outcome fuel args).2;
  let fills := Z.of_nat (count_event "fill" (rows log)) in
  _ ← print ("rehedge orders sent: " +:+ str_int (rehedge_count hedge_report));
  _ ← print ("fills received:      " +:+ str_int fills);
  _ ← print_figure "mean |hedge error|:  " (format_fixed 2 (mean_abs_hedge_error_contracts hedge_report)) " contracts";
  _ ← print_figure "hedged P&L variance:   " (format_fixed 4 (hedged_pnl_variance hedge_report)) "";
  _ ← print_figure "unhedged P&L variance: " (format_fixed 4 (unhedged_pnl_variance hedge_report)) "";
  _ ← print_figure "variance reduction:    " (format_fixed 1 (variance_reduction_pct hedge_report)) "%";
  print_figure "(futures-only Sharpe: " (format_fixed 2 (sharpe_ratio backtest_report)) ")".
End Hedge.
End Mains.

(** ** What the drivers print *)

Lemma say_say l1 l2 w : say l2 (say l1 w) = say (l1 ++ l2) w.
Proof. unfold say. cbn. by rewrite <- app_assoc. Qed.

Lemma say_store l path t w : say l (store path t w) = store path t (say l w).
Proof. done. Qed.

Lemma print_say line w : print line w = (say [line] w, Ok tt).
Proof. done. Qed.

(** The rest of a driver after a line is printed. *)
Lemma print_then {A} line (k : unit → M World A) w : (print line ≫= k) w = k tt (say [line] w).
Proof. done. Qed.

Lemma lift_then {A B} (x : A) (r : res A) (k : A → M World B) w : r = Ok x → (lift_res r ≫= k) w = k x w.
Proof. by intros ->. Qed.

Lemma lift_raise {A B} e (r : res A) (k : A → M World B) w : r = Raise e → (lift_res r ≫= k) w = (w, Raise e).
Proof. by intros ->. Qed.

Definition counts_text (rs : list row) : list string :=
  ["orders sent: " +:+ str_int (Z.of_nat (count_event "order_sent" rs));
   "fills received: " +:+ str_int (Z.of_nat (count_event "fill" rs))].

Lemma counts_then {A} rs (k : unit → M World A) w : (print_counts rs ≫= k) w = k tt (say (counts_text rs) w).
Proof. unfold print_counts, mbind, M_bind. by rewrite !print_say, say_say. Qed.

Lemma history_rows h l : length (rows (log_history h l)) = (length (rows l) + length (h_actions h) + length (h_events h))%nat.
Proof.
  revert l. induction h as [|i h IH]; intros l; [cbn; lia|].
  unfold log_history. cbn [fold_left]. fold (log_history h (log_item i l)). rewrite IH.
  rewrite log_item_fields. unfold rows. cbn [append_row _rows]. rewrite length_app. unfold h_actions, h_events.
  destruct i; cbn; lia.
Qed.

(** The world after a session whose lines and log are given, and how [main]
    ends: with the table in the file named on the command line, if any. *)
Definition finished (open_error : string → option PyExc) (csv : option string) (log : TradeLog)
    (lines : list string) (w : World) : World * res unit :=
  match csv_path csv with
  | None => (say lines w, Ok tt)
  | Some path =>
      match open_error path with
      | Some e => (say lines w, Raise e)
      | None => (store path (to_csv log) (say (lines ++ ["trade log written to " +:+ path]) w), Ok tt)
      end
  end.

(** ** The figures of a backtest *)

Lemma report_floats float_pow rs periods rep :
  build_report float_pow rs periods = Ok rep →
  (∃ s, sharpe_ratio rep = NFloat s) ∧ (∃ v, win_rate rep = NFloat v) ∧ max_drawdown_ticks rep ≤ 0.
Proof.
  unfold build_report. intros H.
  destruct (report_rows rs start_report) as [s|e|]; [|done..]. cbn [mbind res_bind] in H.
  destruct (_sharpe_ratio float_pow (trade_pnls s) periods) as [sh|e|] eqn:Hs; [|done..]. cbn [mbind res_bind] in H.
  pose proof (max_drawdown_spec (equity_curve s)) as Hd.
  destruct (_max_drawdown (equity_curve s)) as [dd|e|]; [|done..]. cbn [mbind res_bind] in H.
  destruct (_win_rate (trade_pnls s)) as [wr|e|] eqn:Hw; [|done..]. cbn [mbind res_bind] in H.
  apply (inj Ok) in H as <-. cbn [sharpe_ratio win_rate max_drawdown_ticks]. split; [|split; [|apply Hd]].
  - unfold _sharpe_ratio in Hs. destruct (_ <? 2)%nat; [apply (inj Ok) in Hs; eauto|].
    destruct (mean _) as [m|e|]; [|done..]. destruct (stdev _) as [sd|e|]; [|done..]. cbn [mbind res_bind] in Hs.
    destruct (feqb sd f_zero); [apply (inj Ok) in Hs; eauto|].
    destruct (num_div m (NFloat sd)) as [q|e|]; [|done..]. cbn [mbind res_bind] in Hs.
    destruct (to_float periods) as [p|e|]; [|done..]. cbn [mbind res_bind] in Hs.
    destruct (float_pow p half) as [pw|e|]; [|done..]. cbn [mbind res_bind] in Hs.
    destruct q as [z|x]; cbn [num_mul num_op to_float] in Hs; [destruct (float_of_int z); [|done..]|];
      cbn [mbind res_bind] in Hs; apply (inj Ok) in Hs; eauto.
  - unfold _win_rate in Hw. destruct (trade_pnls s); [apply (inj Ok) in Hw; eauto|].
    destruct (int_truediv _ _); [|done..]. cbn [mbind res_bind] in Hw. apply (inj Ok) in Hw. eauto.
Qed.

(** Twelve and a half dollars a tick: the text of the drawdown in dollars, as the
    format [.2f] writes it: the sign after the dollar sign and no thousands
    separator, so 120 ticks give [$-1500.00].  The sample output in
    [docs/historical-backtest-design-doc.md] shows [$1,500.00]. *)
Definition drawdown_dollars (dd : Z) : string :=
  if dd =? 0 then "0.00" else "-" +:+ decimal_text 2 (1250 * - dd).

Definition backtest_text (rs : list row) (rep : BacktestReport) (s v : float) : list string :=
  counts_text rs ++
  ["Sharpe ratio: " +:+ format_float 2 s;
   "Max drawdown: " +:+ str_int (max_drawdown_ticks rep) +:+ " ticks ($" +:+ drawdown_dollars (max_drawdown_ticks rep) +:+ ")";
   "Win rate: " +:+ format_float 1 (fmul v (dyadic 100 0)) +:+ "%"].

(** The dollars are exact. *)
Lemma drawdown_text dd :
  25 * Z.abs dd < 2 ^ 53 → dd ≤ 0 →
  ∃ p d x, ticks_to_price 1 = Ok p ∧ num_mul (NFloat p) (NInt 50) = Ok d ∧
    num_mul (NInt dd) d = Ok x ∧ format_fixed 2 x = Ok (drawdown_dollars dd).
Proof.
  intros Hs Hle. eexists _, _. 
  destruct (float_of_int_repr dd ltac:(lia)) as (f & Hf & Rf).
  set (dpt := dyadic 25 (-1)). exists (NFloat (fmul f dpt)).
  split; [reflexivity|]. split; [vm_compute; reflexivity|]. split.
  { unfold num_mul, num_op, to_float. rewrite Hf. cbn [mbind res_bind]. do 2 f_equal. }
  unfold format_fixed. cbn [to_float mbind res_bind]. f_equal. unfold drawdown_dollars.
  destruct (Z.eqb_spec dd 0) as [->|Hne].
  { vm_compute in Hf. apply (inj Ok) in Hf as <-. vm_compute. reflexivity. }
  assert (repr (fmul f dpt) (25 * dd) (-1)) as Rx.
  { apply (fmul_repr f dpt dd 0 25 (-1)); [exact Rf|apply dyadic_repr; split; lia| |split; lia].
    replace (dd * 25) with (25 * dd) by lia. reflexivity. }
  rewrite (format_exact 2 _ _ _ (1250 * dd) Rx); [|unfold dyeq; cbn [fst snd]|lia].
  2:{ change (10 ^ Z.of_nat 2) with 100. change (2 ^ (-1 - Z.min (-1) 0)) with 1.
      change (2 ^ (0 - Z.min (-1) 0)) with 2. lia. }
  replace (1250 * dd <? 0) with true by (symmetry; apply Z.ltb_lt; lia).
  by replace (Z.abs (1250 * dd)) with (1250 * - dd) by lia.
Qed.

Lemma print_report_eq {A} rs rep s v (k : unit → M World A) w :
  sharpe_ratio rep = NFloat s → win_rate rep = NFloat v → max_drawdown_ticks rep ≤ 0 →
  25 * Z.abs (max_drawdown_ticks rep) < 2 ^ 53 →
  (_ ← print_counts rs; _ ← print_report rep; k tt) w = k tt (say (backtest_text rs rep s v) w).
Proof.
  intros Hs Hv Hle Hsmall. rewrite counts_then. unfold backtest_text. rewrite <- say_say.
  set (w1 := say _ w). destruct (drawdown_text _ Hsmall Hle) as (p & d & x & Hp & Hd & Hx & Ht).
  unfold print_report, mbind, M_bind, lift_res. rewrite Hs, Hv. cbn [format_fixed to_float mbind res_bind].
  rewrite Hp, Hd, Hx, Ht.
  change (format_percent 1 (NFloat v)) with (Ok (format_float 1 (fmul v (dyadic 100 0)) +:+ "%")%string).
  repeat (rewrite print_say; cbv beta iota). by rewrite !say_say.
Qed.

Section Theorems.
Context (connect : string → Z → res Client) (open_error : string → option PyExc) (time : nat → float).

Lemma dump_finished csv log lines w :
  dump_csv open_error csv log (say lines w) = finished open_error csv log lines w.
Proof.
  unfold dump_csv, finished. destruct (csv_path csv) as [path|]; [|done].
  destruct (open_error path); [done|]. py_unfold. by rewrite print_say, say_store, say_say.
Qed.

(** The lines of a session that counts its log. *)
Definition session_text (rds : list round) (tail : list Event) : list string :=
  let actions := concat (rd_actions <$> rds) in
  let events := concat (rd_polled <$> rds) ++ tail in
  ["orders sent: " +:+ str_int (Z.of_nat (length (order_ids actions)));
   "fills received: " +:+ str_int (Z.of_nat (length (fills_of events)));
   "trade log length: " +:+ str_int (Z.of_nat (length actions + length events))].

Lemma counts_session {F} `{!Feed F} feed c m rds tail log c' :
  session_done (F := F) feed c m rds tail log time c' →
  counts_text (rows log) = take 2 (session_text rds tail) ∧
  length (rows log) = (length (concat (rd_actions <$> rds)) + length (concat (rd_polled <$> rds) ++ tail))%nat.
Proof.
  intros [_ _ -> _ _ _ _ _]. unfold counts_text.
  destruct (count_history (concat (round_items <$> rds) ++ (ItEvent <$> tail)) (new_log time)) as [-> ->].
  rewrite history_rows, h_actions_rounds, h_events_rounds. done.
Qed.

(** Printing the three lines and writing the table. *)
Lemma summary_finished {F} `{!Feed F} feed c m rds tail log c' csv w :
  session_done (F := F) feed c m rds tail log time c' →
  (_ ← print_counts (rows log);
   _ ← print ("trade log length: " +:+ str_int (Z.of_nat (length (rows log))));
   dump_csv open_error csv log) w = finished open_error csv log (session_text rds tail) w.
Proof.
  intros Hd. destruct (counts_session _ _ _ _ _ _ _ Hd) as [Hc Hl].
  rewrite counts_then, print_then, say_say, Hc, Hl. by rewrite dump_finished.
Qed.

(** (C5) [run_synthetic_session.py], on a server that is reached: the session
    runs exactly the asked ticks on a walk of steps of at most two ticks, under
    the ids 1, 2, 3, ..., logs exactly what it did and leaves the client
    closed; then the three lines printed count its orders, the fills it was
    told of and all its actions and events, and the CSV file holds the log.
    When the server is not reached, [main] raises and prints nothing. *)
Theorem synthetic_main_runs {R} `{!Synthetic.Random R} (args : SyntheticArgs) :
  sy_ticks args ≤ 2 ^ 60 →
  match connect (sy_host args) (sy_port args) with
  | Ok c => sk_live (cl_sock c) →
      ∃ N c' log rds tail,
        session_done (Synthetic.new_feed (R := R) 10000 (sy_seed args)) c (Some (sy_ticks args)) rds tail log time c' ∧
        Z.of_nat (length rds) = Z.max 0 (sy_ticks args) ∧
        Forall2 (λ p q, Z.abs (q - p) ≤ 2) (take (length rds) (10000 :: (rd_price <$> rds))) (rd_price <$> rds) ∧
        ∀ fuel w, (N ≤ fuel)%nat → synthetic_main connect open_error time R fuel args w =
          finished open_error (sy_csv args) log (session_text rds tail) w
  | Raise e => ∀ fuel w, synthetic_main connect open_error time R fuel args w = (w, Raise e)
  | NoFuel => True
  end.
Proof.
  intros Ht. destruct (connect _ _) as [c|e|] eqn:Hconn; [|intros fuel w|done].
  2:{ unfold synthetic_main. by rewrite Hconn. }
  intros Hl. destruct (synthetic_session (R := R) c time (sy_ticks args) (sy_seed args) Ht Hl)
    as (N & c' & log & rds & tail & Hrun & Hd & Hlen & Hwalk & _).
  exists N, c', log, rds, tail. split; [done|]. split; [done|]. split; [done|]. intros fuel w Hf.
  unfold synthetic_main. rewrite Hconn, (Hrun fuel Hf). cbn [snd]. rewrite (lift_then log) by done.
  by apply (summary_finished _ _ _ _ _ _ _ _ _ Hd).
Qed.

(** *** The backtest *)

Section Backtest.
Context (float_pow : float → float → res float) (float_repr : float → string) (float_parse : string → res float).
Context (download : string → string → string → string → res Historical.CloseData).
Abbreviation main := (backtest_main connect open_error time float_pow float_repr float_parse download).
Abbreviation feed_of := (open_feed float_repr float_parse download).

(** (C23) [run_historical_backtest.py], on a server that is reached and closes
    that fit the wire: the session runs exactly the closes of the cache, in
    order; the report, when it can be computed, replays exactly the fills the
    quoter was told of, and the lines printed are its figures, the drawdown
    both in ticks and, at 12.50 dollars a tick, in dollars and cents.  The amount
    is exact; its layout is the code's ([drawdown_dollars]), which is not that of
    the sample output in the design document: a drawdown of 120 ticks is printed
    as [$-1500.00], not as [$1,500.00].
    Nothing is printed when the feed, the connection or the report fails, but a
    download stays in the cache. *)
Theorem backtest_main_runs (args : BacktestArgs) (w : World) (d : Historical.fs) (prices : list Z) (c : Client) :
  feed_of args w = (set_cache d w, Ok {| Historical._prices := prices; Historical._index := 0 |}) →
  Forall wire_price prices → Z.of_nat (length prices) < 2 ^ 62 →
  connect (bt_host args) (bt_port args) = Ok c → sk_live (cl_sock c) → (∀ x y, fuel_free (float_pow x y)) →
  ∃ N c' log rds tail,
    session_done {| Historical._prices := prices; Historical._index := 0 |} c None rds tail log time c' ∧
    rd_price <$> rds = prices ∧
    report_rows (rows log) start_report = replay_events (fills_of (concat (rd_polled <$> rds) ++ tail)) start_report ∧
    ∀ fuel, (N ≤ fuel)%nat →
      match build_report float_pow (rows log) (NInt (default 252 (_PERIODS_PER_YEAR !! bt_interval args))) with
      | Ok rep => 25 * Z.abs (max_drawdown_ticks rep) < 2 ^ 53 →
          ∃ s v, sharpe_ratio rep = NFloat s ∧ win_rate rep = NFloat v ∧
            main fuel args w = finished open_error (bt_csv args) log (backtest_text (rows log) rep s v) (set_cache d w)
      | Raise e => main fuel args w = (set_cache d w, Raise e)
      | NoFuel => False
      end.
Proof.
  intros Hfeed Hp Hlen Hconn Hl Hpow.
  destruct (backtest_session float_pow prices c time (bt_interval args) Hp Hlen Hl)
    as (N & c' & log & rds & tail & Hrun & Hd & Hpr & Hrep).
  exists N, c', log, rds, tail. split; [done|]. split; [done|]. split; [done|]. intros fuel Hf.
  set (periods := NInt _) in *.
  assert (main fuel args w =
    ('(log, report) ← lift_res (report ← build_report float_pow (rows log) periods; Ok (log, report));
     _ ← print_counts (rows log); _ ← print_report report; dump_csv open_error (bt_csv args) log) (set_cache d w)) as ->.
  { unfold backtest_main. unfold mbind at 1, M_bind at 1. rewrite Hfeed, Hconn, (Hrun fuel Hf). done. }
  pose proof (build_report_fuel float_pow (rows log) periods Hpow) as Hfuel.
  destruct (build_report float_pow (rows log) periods) as [rep|e|] eqn:Hb; [|by apply lift_raise|done].
  intros Hsmall. destruct (report_floats _ _ _ _ Hb) as ([s Hs] & [v Hv] & Hle). exists s, v.
  split; [done|]. split; [done|]. rewrite (lift_then (log, rep)) by done.
  rewrite (print_report_eq (rows log) rep s v (λ _, dump_csv open_error (bt_csv args) log)) by done.
  by rewrite dump_finished.
Qed.

(** A feed that cannot be opened, or a server that cannot be reached. *)
Lemma backtest_main_fails args w d r fuel :
  feed_of args w = (set_cache d w, r) →
  match r, connect (bt_host args) (bt_port args) with
  | Raise e, _ | Ok _, Raise e => main fuel args w = (set_cache d w, Raise e)
  | _, _ => True
  end.
Proof.
  intros Hfeed. destruct (connect _ _) as [c|e|] eqn:Hconn, r as [f|e'|]; try done;
    unfold backtest_main; unfold mbind at 1, M_bind at 1; by rewrite Hfeed, ?Hconn.
Qed.
End Backtest.

(** *** The live session *)

Section Live.
Context {K : Type} (ib_connect : string → Z → Z → res unit) (Future : string → string → string → K).
Context (arrivals : K → list (list float)) (monotonic : nat → float).
Abbreviation outcome := (live_outcome connect time ib_connect Future arrivals monotonic).
Abbreviation main := (live_main connect open_error time ib_connect Future arrivals monotonic).
Abbreviation ib_of args := (ib_connect (lv_ib_host args) (lv_ib_port args) (lv_ib_client_id args)).
Abbreviation contract_of args := (default_es_contract Future (lv_expiry args)).


(** When IBKR cannot be reached the order book is never contacted. *)
Lemma live_main_no_ib args e fuel w : ib_of args = Raise e → main fuel args w = (w, Raise e).
Proof. intros Hib. unfold live_main, live_outcome. by rewrite Hib. Qed.
End Live.

(** *** The hedging session *)

Section Hedge.
Context {R P : Type} `{!Synthetic.Random R, !Pricer P, !PricerTotal (P := P)} (close_pricer : P → P).
Context (float_pow : float → float → res float) (connect_pricing : string → Z → res P).
Abbreviation outcome := (hedge_outcome connect time (R := R) close_pricer float_pow connect_pricing).
Abbreviation main := (hedge_main connect time (R := R) close_pricer float_pow connect_pricing).

Definition hedge_text (rs : list row) (rep : BacktestReport) (h : HedgeReport) (m hv uv pct sh : float) : list string :=
  ["rehedge orders sent: " +:+ str_int (rehedge_count h);
   "fills received:      " +:+ str_int (Z.of_nat (count_event "fill" rs));
   "mean |hedge error|:  " +:+ format_float 2 m +:+ " contracts";
   "hedged P&L variance:   " +:+ format_float 4 hv +:+ "";
   "unhedged P&L variance: " +:+ format_float 4 uv +:+ "";
   "variance reduction:    " +:+ format_float 1 pct +:+ "%";
   "(futures-only Sharpe: " +:+ format_float 2 sh +:+ ")"].

Lemma figure_then {A} label x u f (k : unit → M World A) d w :
  to_float x = Ok f →
  (print_figure label (format_fixed d x) u ≫= k) w = k tt (say [label +:+ format_float d f +:+ u] w).
Proof. intros Hf. unfold print_figure, format_fixed. by rewrite Hf. Qed.

(** [run_delta_hedge_backtest.py] always ends; it prints its seven lines, with
    the figures of the two reports, when the session and both reports succeed,
    and otherwise raises what they raise and prints nothing. *)
Theorem hedge_main_runs (args : HedgeArgs) :
  (∀ x y, fuel_free (float_pow x y)) →
  connect (hg_host args) (hg_port args) ≠ NoFuel →
  connect_pricing (hg_pricing_host args) (hg_pricing_port args) ≠ NoFuel →
  ∃ N s r, (∀ fuel, (N ≤ fuel)%nat → outcome fuel args = (s, r)) ∧
    (∀ x, s = Some x → bc_closed (ss_client x) = true) ∧
    match r with
    | Ok (log, rep, h) => ∀ m hv uv pct sh,
        to_float (mean_abs_hedge_error_contracts h) = Ok m → to_float (hedged_pnl_variance h) = Ok hv →
        to_float (unhedged_pnl_variance h) = Ok uv → to_float (variance_reduction_pct h) = Ok pct →
        to_float (sharpe_ratio rep) = Ok sh →
        ∀ fuel w, (N ≤ fuel)%nat → main fuel args w = (say (hedge_text (rows log) rep h m hv uv pct sh) w, Ok tt)
    | Raise e => ∀ fuel w, (N ≤ fuel)%nat → main fuel args w = (w, Raise e)
    | NoFuel => False
    end.
Proof.
  intros Hpow Hc Hp.
  assert (∃ N s r, (∀ fuel, (N ≤ fuel)%nat → outcome fuel args = (s, r)) ∧ r ≠ NoFuel ∧
    (∀ x, s = Some x → bc_closed (ss_client x) = true)) as (N & s & r & Hrun & Hfuel & Hcl).
  { unfold hedge_outcome, run_hedge_backtest. destruct (connect_pricing _ _) as [pc|e|]; [|by exists 0%nat, None, (Raise e)|done].
    destruct (connect _ _) as [c|e|]; [|by exists 0%nat, None, (Raise e)|done].
    set (s0 := {| ss_feed := _; ss_strategy := _; ss_client := c; ss_log := _ |}).
    destruct (hedge_loop_total close_pricer (hg_ticks args) s0) as (s' & r & N & Hr & Hrun).
    exists N, (Some s'), (_ ← r; hedge_reports float_pow s'). split; [intros fuel Hf; by rewrite Hrun|]. split.
    { apply fuel_free_bind; [exact Hr|intros _]. unfold hedge_reports.
      apply fuel_free_bind; [by apply build_report_fuel|intros ?].
      apply fuel_free_bind; [apply build_hedge_report_fuel|done]. }
    intros x [= <-]. pose proof (Hrun N ltac:(lia)) as HN. unfold run_hedge_loop, try_finally in HN.
    destruct (_ ≫= _) as [s1 r1]. destruct r1; simplify_eq; apply bc_close_spec. }
  exists N, s, r. split; [exact Hrun|]. split; [exact Hcl|].
  destruct r as [[[log rep] h]|e|]; [intros m hv uv pct sh Hm Hhv Huv Hpct Hsh fuel w Hf|intros fuel w Hf|done].
  - unfold hedge_main. rewrite (Hrun fuel Hf). cbn [snd]. rewrite (lift_then (log, rep, h)) by done.
    cbv zeta. rewrite !print_then.
    rewrite (figure_then _ _ _ m) by done. rewrite (figure_then _ _ _ hv) by done.
    rewrite (figure_then _ _ _ uv) by done. rewrite (figure_then _ _ _ pct) by done.
    unfold print_figure, format_fixed. rewrite Hsh. cbn [mbind res_bind]. rewrite (lift_then _ _ _ _ eq_refl), print_say.
    by rewrite !say_say.
  - unfold hedge_main. rewrite (Hrun fuel Hf). by apply lift_raise.
Qed.
End Hedge.
End Theorems.

(** ** Witnesses *)

#[local, refine] Instance counter : Synthetic.Random Z := {
  rng_new seed := seed;
  randbelow n r := (r + 1, r mod n);
}.
Proof. intros n r Hn. cbn. apply Z.mod_pos_bound. lia. Defined.

(** A server that is reached, and a disk with one directory that cannot be
    written to. *)
Definition reachable : string → Z → res Client := λ _ _, Ok busy_client.
Definition read_only : string → option PyExc := λ p, if decide (p = "/x.csv") then Some OSError else None.
Definition new_world : World := {| w_cache := ∅; w_tables := ∅; w_out := [] |}.

(** What a session of three ticks prints. *)
Example synthetic_text :
  w_out (synthetic_main reachable read_only no_clock Z 9
    {| sy_host := "h"; sy_port := 1; sy_ticks := 3; sy_seed := 7; sy_csv := Some "t.csv" |} new_world).1 =
  ["orders sent: 6"; "fills received: 1"; "trade log length: 12"; "trade log written to t.csv"]%string.
Proof. vm_compute. reflexivity. Qed.

Lemma synthetic_main_runs_witness :
  let args := {| sy_host := "h"; sy_port := 1; sy_ticks := 3; sy_seed := 7; sy_csv := Some "t.csv" |} in
  ∃ N log rds tail, length rds = 3%nat ∧ ∀ fuel, (N ≤ fuel)%nat →
    synthetic_main reachable read_only no_clock Z fuel args new_world =
      (store "t.csv" (to_csv log) (say (session_text rds tail ++ ["trade log written to t.csv"]) new_world), Ok tt).
Proof.
  intros args.
  destruct (synthetic_main_runs reachable read_only no_clock (R := Z) args ltac:(cbn; lia) busy_live)
    as (N & c' & log & rds & tail & _ & Hlen & _ & H).
  exists N, log, rds, tail. split; [cbn in Hlen; lia|]. intros fuel Hf. exact (H fuel new_world Hf).
Defined.

(** Two cached closes, of 2500 and 2500.5 points; two fills of a round trip
    that loses four ticks. *)
Definition two_closes (s : string) : res float :=
  if decide (s = "2500.0"%string) then Ok (dyadic 2500 0)
  else if decide (s = "2500.5"%string) then Ok (dyadic 5001 (-1)) else Raise ValueError.
Definition backtest_args : BacktestArgs := backtest_defaults "strategy" "2024-01-01" "2024-06-01".
Definition backtest_world : World :=
  {| w_cache := {["strategy/data/ES_F_1d_2024-01-01_2024-06-01.csv"%string :=
       [["close"%string]; ["2500.0"%string]; ["2500.5"%string]]]}; w_tables := ∅; w_out := [] |}.
Definition losing_fill (side : Side) (price : Z) : Event :=
  EvFill {| resting_order_id := 8; incoming_order_id := 9; resting_side := side; fe_price_ticks := price;
            fe_quantity := 10; fe_timestamp := 0 |}.
Definition losing_client : Client :=
  {| cl_sock := cl_sock idle_client; cl_events := [];
     cl_arrivals := [[losing_fill SELL 10000]; [losing_fill BUY 9996]] |}.
Definition losing : string → Z → res Client := λ _ _, Ok losing_client.
Definition no_download : string → string → string → string → res Historical.CloseData :=
  λ _ _ _ _, Raise OSError.
Abbreviation example_backtest :=
  (backtest_main losing read_only no_clock (λ _ _, Ok f_zero) (λ _, ""%string) two_closes no_download).

Example backtest_text_ex :
  w_out (example_backtest 9 backtest_args backtest_world).1 =
  ["orders sent: 4"; "fills received: 2"; "Sharpe ratio: 0.00"; "Max drawdown: -40 ticks ($-500.00)";
   "Win rate: 0.0%"]%string.
Proof. vm_compute. reflexivity. Qed.

Lemma backtest_main_runs_witness :
  ∃ N log rds tail, rd_price <$> rds = [10000; 10002] ∧
    report_rows (rows log) start_report = replay_events (fills_of (concat (rd_polled <$> rds) ++ tail)) start_report ∧
    ∀ fuel rep, (N ≤ fuel)%nat → build_report (λ _ _, Ok f_zero) (rows log) (NInt 252) = Ok rep →
      25 * Z.abs (max_drawdown_ticks rep) < 2 ^ 53 →
      ∃ s v, example_backtest fuel backtest_args backtest_world =
        (say (backtest_text (rows log) rep s v) backtest_world, Ok tt).
Proof.
  destruct (backtest_main_runs losing read_only no_clock (λ _ _, Ok f_zero) (λ _, ""%string) two_closes no_download
    backtest_args backtest_world (w_cache backtest_world) [10000; 10002] losing_client)
    as (N & c' & log & rds & tail & _ & Hp & Hr & H).
  - vm_compute. reflexivity.
  - repeat constructor; unfold wire_price; lia.
  - cbn. lia.
  - reflexivity.
  - by split.
  - done.
  - exists N, log, rds, tail. split; [exact Hp|]. split; [exact Hr|]. intros fuel rep Hf Hb Hsmall.
    specialize (H fuel Hf). cbn [backtest_args backtest_defaults bt_interval] in H.
    change (default 252 (_PERIODS_PER_YEAR !! "1d"%string)) with 252 in H. rewrite Hb in H.
    destruct (H Hsmall) as (s & v & _ & _ & Hm). exists s, v. exact Hm.
Defined.

