(* ===== verification/RiskEngine.v ===== *)
(** * The risk engine ([risk/src/main.rs], [limits.rs], [risk_log.rs])

    A process that subscribes to every fill of the engine, folds the fills into
    its position tracker, and sends a market order against the position when
    it exceeds a limit.  The stream of the server is a list of bytes that ends
    when the server closes it; [read_exact] waits for all the bytes it asks
    for, so how the network cut them does not matter.  A failed [expect] and an
    integer overflow panic: the process ends with the state it has. *)

From S2P Require Import Prelude Bytes PyFloat FloatBounds PyStruct Protocol EngineProtocol WireAgreement RustProtocol.
From S2P Require Import TradeLog BacktestReport RiskPosition.

Open Scope Z_scope.

(** ** Limits *)

Record RiskLimits := { max_abs_position : Z }.
Record FlattenAction := { fa_side : Side; fa_quantity : Z }.

#[export] Instance FlattenAction_eq_dec : EqDecision FlattenAction.
Proof. solve_decision. Defined.

(** [abs] panics on the least [i64]; [as u32] keeps the low 32 bits. *)
Definition check_breach (limits : RiskLimits) (net_position : Z) : option (option FlattenAction) :=
  a ← chk (Z.abs net_position);
  if a <=? max_abs_position limits then Some None
  else Some (Some {| fa_side := if 0 <? net_position then SELL else BUY;
                     fa_quantity := Z.abs net_position mod 2 ^ 32 |}).

(** ** The log: a line is kept as the values printed into it *)

Inductive LogLine :=
| position_update (net_position realized_pnl_ticks unrealized_pnl_ticks : Z) (ts : float)
| halt (net_position max_abs_position order_id : Z) (ts : float).

(** ** State and panics *)

Definition FLATTEN_ORDER_ID_BASE : Z := 1000000000.

Record RiskEngine := {
  re_position : PositionTracker;
  re_next_flatten_id : Z;
  re_log : list LogLine;
  re_sent : bytes;            (* written to the socket *)
  re_clock : nat;             (* readings of the system clock so far *)
  re_faults : list bool;      (* which of the next writes fail, none beyond the end *)
}.

(** A computation that may panic: the state it leaves, and a value unless it panicked. *)
Definition P (A : Type) : Type := RiskEngine → RiskEngine * option A.

#[export] Instance P_ret : MRet P := λ A a s, (s, Some a).
#[export] Instance P_bind : MBind P := λ A B f m s,
  match m s with (s', Some a) => f a s' | (s', None) => (s', None) end.

Definition get_state : P RiskEngine := λ s, (s, Some s).
(** An arithmetic result, checked for overflow, or an [unwrap]. *)
Definition unwrap {A} (o : option A) : P A := λ s, (s, o).

Definition set_position (t : PositionTracker) : P unit := λ s,
  ({| re_position := t; re_next_flatten_id := re_next_flatten_id s; re_log := re_log s;
      re_sent := re_sent s; re_clock := re_clock s; re_faults := re_faults s |}, Some tt).
Definition set_next_id (id : Z) : P unit := λ s,
  ({| re_position := re_position s; re_next_flatten_id := id; re_log := re_log s;
      re_sent := re_sent s; re_clock := re_clock s; re_faults := re_faults s |}, Some tt).

(** A write and its [expect]. *)
Definition write (log : list LogLine) (sent : bytes) : P unit := λ s,
  let s' ok :=
    {| re_position := re_position s; re_next_flatten_id := re_next_flatten_id s;
       re_log := re_log s ++ (if ok : bool then log else []);
       re_sent := re_sent s ++ (if ok then sent else []);
       re_clock := re_clock s; re_faults := tail (re_faults s) |} in
  if default false (head (re_faults s)) then (s' false, None) else (s' true, Some tt).
Definition log_line (l : LogLine) : P unit := write [l] [].
Definition write_all (buf : bytes) : P unit := write [] buf.

Definition checked_u64 (n : Z) : option Z := if decide (u64 n) then Some n else None.

Section Engine.
(** The successive readings of the system clock. *)
Context (clock : nat → float) (limits : RiskLimits).

Definition now_secs : P float := λ s,
  ({| re_position := re_position s; re_next_flatten_id := re_next_flatten_id s; re_log := re_log s;
      re_sent := re_sent s; re_clock := S (re_clock s); re_faults := re_faults s |},
   Some (clock (re_clock s))).

Definition flatten_msg (order_id : Z) (action : FlattenAction) : ClientOrderMsg :=
  {| com_client_order_id := order_id; com_side := fa_side action; com_order_type := MARKET;
     com_price_ticks := 0; com_quantity := fa_quantity action |}.

(** The body of [if tag_buf\[0\] == MsgType::Fill as u8]. *)
Definition handle_fill (payload : bytes) : P unit :=
  fill ← unwrap (Rust.decode_fill payload);
  s ← get_state;
  position ← unwrap (tracker_on_fill (Rust.incoming_side fill) (fe_quantity fill) (fe_price_ticks fill)
    (re_position s));
  _ ← set_position position;
  ts ← now_secs;
  unrealized ← unwrap (unrealized_pnl_ticks position);
  _ ← log_line (position_update (pt_net_position position) (pt_realized_pnl_ticks position) unrealized ts);
  breach ← unwrap (check_breach limits (pt_net_position position));
  match breach with
  | None => mret tt
  | Some action =>
      s ← get_state;
      let order_id := re_next_flatten_id s in
      next ← unwrap (checked_u64 (order_id + 1));
      _ ← set_next_id next;
      _ ← write_all (Rust.encode_new_order (flatten_msg order_id action));
      log_line (halt (pt_net_position position) (max_abs_position limits) order_id ts)
  end.

(** ** The main loop *)

Inductive risk_exit := ServerClosed | UnknownTag (tag : Z) | ClosedMidMessage | Panicked.

Definition read_exact (n : nat) (stream : bytes) : option (bytes * bytes) :=
  if (n <=? length stream)%nat then Some (take n stream, drop n stream) else None.

(** [None] is the end of the fuel. *)
Fixpoint risk_loop (fuel : nat) (stream : bytes) (s : RiskEngine) : RiskEngine * option risk_exit :=
  match fuel with
  | O => (s, None)
  | S fuel =>
      match read_exact 1 stream with
      | None => (s, Some ServerClosed)
      | Some (tag_buf, stream) =>
          let tag := byte_to_Z (nth 0 tag_buf x00) in
          match Rust.payload_size tag with
          | None => (s, Some (UnknownTag tag))
          | Some size =>
              match read_exact size stream with
              | None => (s, Some ClosedMidMessage)
              | Some (payload, stream) =>
                  if tag =? MsgType_value FILL then
                    match handle_fill payload s with
                    | (s, Some _) => risk_loop fuel stream s
                    | (s, None) => (s, Some Panicked)
                    end
                  else risk_loop fuel stream s
              end
          end
      end
  end.

Definition new_engine (faults : list bool) : RiskEngine :=
  {| re_position := new_tracker; re_next_flatten_id := FLATTEN_ORDER_ID_BASE; re_log := [];
     re_sent := []; re_clock := 0; re_faults := faults |}.

(** [main], from the subscription on.  Every message takes a byte. *)
Definition risk_main (faults : list bool) (stream : bytes) : RiskEngine * option risk_exit :=
  match write_all Rust.encode_subscribe_fills (new_engine faults) with
  | (s, Some _) => risk_loop (S (length stream)) stream s
  | (s, None) => (s, Some Panicked)
  end.

(** ** What a session does *)

(** A fill from the incoming side, as the tracker is told it. *)
Definition triple (f : FillEvent) : Z * Z * Z :=
  (Side_value (Rust.incoming_side f), fe_quantity f, fe_price_ticks f).
Definition fills_of (es : list Event) : list FillEvent :=
  omap (λ e, match e with EvFill f => Some f | EvAck _ => None end) es.

Definition breaches (net : Z) : bool := max_abs_position limits <? Z.abs net.

(** The order that brings [net] back to zero. *)
Definition flatten_order (order_id net : Z) : ClientOrderMsg :=
  {| com_client_order_id := order_id; com_side := if 0 <? net then SELL else BUY;
     com_order_type := MARKET; com_price_ticks := 0; com_quantity := Z.abs net |}.

(** The positions after each of a run of fills, from [net]. *)
Fixpoint positions (net : Z) (fs : list FillEvent) : list Z :=
  match fs with
  | [] => []
  | f :: fs => let net := net + signed_qty (triple f) in net :: positions net fs
  end.

(** One flattening order per fill that leaves the position beyond the limit. *)
Definition flatten_orders (order_id : Z) (nets : list Z) : list ClientOrderMsg :=
  imap (λ i net, flatten_order (order_id + Z.of_nat i) net) (List.filter breaches nets).

(** The trackers after each of a run of fills. *)
Fixpoint trackers (t : PositionTracker) (fs : list FillEvent) : list PositionTracker :=
  match fs with
  | [] => []
  | f :: fs => let t := default t (tracker_all [triple f] t) in t :: trackers t fs
  end.

(** The log of such a run: the position after each fill, and the halt line of a
    breach right after its position. *)
Fixpoint log_of (k : nat) (order_id : Z) (ts : list PositionTracker) : list LogLine :=
  match ts with
  | [] => []
  | t :: ts =>
      let net := pt_net_position t in
      position_update net (pt_realized_pnl_ticks t) (default 0 (unrealized_pnl_ticks t)) (clock k) ::
      (if breaches net
       then halt net (max_abs_position limits) order_id (clock k) :: log_of (S k) (order_id + 1) ts
       else log_of (S k) order_id ts)
  end.

(** The state a run of fills leaves, when nothing panics. *)
Definition session_of (fs : list FillEvent) (s : RiskEngine) : RiskEngine :=
  let t := re_position s in
  let orders := flatten_orders (re_next_flatten_id s) (positions (pt_net_position t) fs) in
  {| re_position := List.last (trackers t fs) t;
     re_next_flatten_id := re_next_flatten_id s + Z.of_nat (length orders);
     re_log := re_log s ++ log_of (re_clock s) (re_next_flatten_id s) (trackers t fs);
     re_sent := re_sent s ++ concat (Rust.encode_new_order <$> orders);
     re_clock := re_clock s + length fs;
     re_faults := re_faults s |}.

(** How a stream without a complete message ends the loop. *)
Definition stop_of (stream : bytes) : option risk_exit :=
  match stream with
  | [] => Some ServerClosed
  | tag :: body =>
      match Rust.payload_size (byte_to_Z tag) with
      | None => Some (UnknownTag (byte_to_Z tag))
      | Some n => if (length body <? n)%nat then Some ClosedMidMessage else None
      end
  end.

#[local] Arguments Rust.encode_new_order : simpl never.

(** ** One fill *)

Lemma side_of_triple (side : Side) : (if Side_value side =? 0 then BUY else SELL) = side.
Proof. by destruct side. Qed.

Lemma check_breach_ok net : i64 (Z.abs net) → Z.abs net < 2 ^ 32 → check_breach limits net =
  Some (if breaches net then Some {| fa_side := if 0 <? net then SELL else BUY; fa_quantity := Z.abs net |} else None).
Proof.
  intros Hi Hn. unfold check_breach, breaches. rewrite chk_ok by done. cbn [mbind option_bind].
  rewrite Z.mod_small by lia.
  by destruct (Z.leb_spec (Z.abs net) (max_abs_position limits)), (Z.ltb_spec (max_abs_position limits) (Z.abs net)); try lia.
Qed.

(** The fill [f] is processed: the tracker accepts it, and the position it leaves fits. *)
Lemma handle_fill_ok f s t u :
  FillEvent_ok f → re_faults s = [] → tracker_all [triple f] (re_position s) = Some t →
  pt_net_position t = pt_net_position (re_position s) + signed_qty (triple f) →
  unrealized_pnl_ticks t = Some u → Z.abs (pt_net_position t) < 2 ^ 32 → u64 (re_next_flatten_id s + 1) →
  handle_fill (encode_WireFill (wire_fill f)) s = (session_of [f] s, Some tt).
Proof.
  intros Hf Hfaults Ht Hnet Hu Hn Hid.
  assert (tracker_on_fill (Rust.incoming_side f) (fe_quantity f) (fe_price_ticks f) (re_position s) = Some t) as Ht'.
  { unfold triple in Ht. cbn [tracker_all] in Ht. rewrite side_of_triple in Ht.
    by destruct (tracker_on_fill _ _ _ _). }
  destruct s as [pos next log sent k faults]. cbn [re_position re_next_flatten_id re_faults] in *. subst faults.
  unfold handle_fill, session_of, flatten_orders. cbn [positions trackers re_position].
  rewrite Ht, <- Hnet. cbn [default from_option id]. cbn [List.filter].
  unfold mbind, P_bind, unwrap, get_state, set_position, now_secs, log_line, set_next_id, write_all, write, mret, P_ret.
  rewrite Rust.decode_fill_engine by done. cbn. rewrite Ht'. cbn. rewrite Hu. cbn.
  rewrite check_breach_ok by (unfold i64; lia).
  destruct (breaches (pt_net_position t)); cbn.
  - unfold checked_u64. rewrite decide_True by done. cbn.
    unfold flatten_msg, flatten_order. cbn. by rewrite !Nat.add_1_r, !app_nil_r, Z.add_0_r, <- !app_assoc.
  - by rewrite !Nat.add_1_r, !app_nil_r, Z.add_0_r.
Qed.

(** ** A run of fills *)

Lemma flatten_orders_cons id n ns :
  flatten_orders id (n :: ns) =
    if breaches n then flatten_order id n :: flatten_orders (id + 1) ns else flatten_orders id ns.
Proof.
  unfold flatten_orders. cbn [List.filter]. destruct (breaches n); [|done].
  rewrite imap_cons, Z.add_0_r. f_equal. apply imap_ext. intros i x _. cbn. f_equal. lia.
Qed.

Lemma trackers_last t fs f : List.last (trackers t (f :: fs)) t =
  let t1 := default t (tracker_all [triple f] t) in List.last (trackers t1 fs) t1.
Proof.
  cbn [trackers]. set (t1 := default _ _). clearbody t1. revert t t1.
  induction fs as [|g fs IH]; intros t t1; cbn [trackers]; [done|].
  cbv zeta. set (t2 := default t1 _). by rewrite (IH t1 t2), <- (IH t t2).
Qed.

Lemma session_of_cons f fs s :
  pt_net_position (re_position (session_of [f] s)) = pt_net_position (re_position s) + signed_qty (triple f) →
  session_of (f :: fs) s = session_of fs (session_of [f] s).
Proof.
  set (t1 := re_position (session_of [f] s)). intros Hnet. unfold session_of at 1 2.
  rewrite trackers_last. change (default _ (tracker_all _ _)) with t1. cbv zeta.
  cbn [positions trackers log_of re_position re_next_flatten_id re_log re_sent re_clock re_faults].
  fold t1. change (default _ (tracker_all _ _)) with t1.
  unfold session_of. fold t1.
  cbn [positions trackers log_of re_position re_next_flatten_id re_log re_sent re_clock re_faults List.last length].
  change (default _ (tracker_all _ _)) with t1.
  rewrite <- Hnet, !flatten_orders_cons. destruct (breaches (pt_net_position t1)); cbn [flatten_orders imap List.filter fmap list_fmap concat length].
  all: f_equal; rewrite <- ?app_assoc; cbn [app]; rewrite ?app_nil_r, ?Nat.add_1_r, ?Z.add_0_r;
    change (Z.of_nat 1) with 1; try done; try lia.
Qed.

Lemma loop_event fuel e rest s :
  risk_loop (S fuel) (engine_encode e ++ rest) s =
    match e with
    | EvAck _ => risk_loop fuel rest s
    | EvFill f =>
        match handle_fill (encode_WireFill (wire_fill f)) s with
        | (s, Some _) => risk_loop fuel rest s
        | (s, None) => (s, Some Panicked)
        end
    end.
Proof.
  assert (∀ tag payload, engine_encode e = tag :: payload → Rust.payload_size (byte_to_Z tag) = Some (length payload) →
    risk_loop (S fuel) (engine_encode e ++ rest) s =
      if byte_to_Z tag =? MsgType_value FILL then
        match handle_fill payload s with
        | (s, Some _) => risk_loop fuel rest s
        | (s, None) => (s, Some Panicked)
        end
      else risk_loop fuel rest s) as H.
  { intros tag payload -> Hs. cbn [risk_loop app]. unfold read_exact at 1. cbn [length Nat.leb take drop nth].
    rewrite Hs. unfold read_exact. rewrite drop_0, length_app, (proj2 (Nat.leb_le _ _)) by lia.
    by rewrite take_app_length, drop_app_length. }
  destruct e as [a|f]; cbn [engine_encode] in *.
  - rewrite (H _ _ eq_refl); [done|]. by rewrite encode_WireAck_length.
  - rewrite (H _ _ eq_refl); [done|]. by rewrite encode_WireFill_length.
Qed.

Lemma loop_stop fuel stream x s : stop_of stream = Some x → risk_loop (S fuel) stream s = (s, Some x).
Proof.
  intros H. destruct stream as [|tag body]; cbn [stop_of] in H.
  { by injection H as <-. }
  cbn [risk_loop]. unfold read_exact at 1. cbn [length Nat.leb take drop nth].
  destruct (Rust.payload_size (byte_to_Z tag)) as [n|]; [|by injection H as <-].
  destruct (Nat.ltb_spec (length body) n); [|done]. injection H as <-.
  unfold read_exact. by rewrite drop_0, (proj2 (Nat.leb_gt _ _)).
Qed.

Lemma volume_cons f fs : volume (f :: fs) = f.1.2 + volume fs.
Proof. done. Qed.

Lemma volume_nonneg k fs : Forall (fill_in k) fs → 0 ≤ volume fs.
Proof.
  intros H. apply sumZ_nonneg, Forall_fmap. eapply Forall_impl; [exact H|]. intros ? [? _]. cbn. lia.
Qed.

Lemma room_le k v v' : v' ≤ v → 0 ≤ k → room k v → room k v'.
Proof.
  intros Hv Hk (H1 & H2 & H3). split; [done|]. split; [lia|].
  assert (0 < 2 ^ k) by (apply Z.pow_pos_nonneg; lia). nia.
Qed.

(** The state before a run of fills whose total volume is [w], after fills of volume [v]. *)
Record ready (k v : Z) (fs : list FillEvent) (s : RiskEngine) : Prop := {
  rd_tracker : tracker_in k v (re_position s);
  rd_volume : 0 ≤ v;
  rd_room : room k (v + volume (triple <$> fs));
  rd_small : v + volume (triple <$> fs) < 2 ^ 32;
  rd_fills : Forall (fill_in k) (triple <$> fs);
  rd_ids : 0 ≤ re_next_flatten_id s ∧ re_next_flatten_id s + Z.of_nat (length fs) < 2 ^ 64;
  rd_faults : re_faults s = [];
}.

Lemma fill_step k v f fs s :
  FillEvent_ok f → ready k v (f :: fs) s →
  handle_fill (encode_WireFill (wire_fill f)) s = (session_of [f] s, Some tt) ∧
  ready k (v + fe_quantity f) fs (session_of [f] s) ∧
  pt_net_position (re_position (session_of [f] s)) = pt_net_position (re_position s) + signed_qty (triple f).
Proof.
  intros Hf [Ht Hv Hroom Hsmall Hfills Hids Hfaults].
  cbn [fmap list_fmap] in *. rewrite volume_cons in *. cbn [triple fst snd] in *.
  apply Forall_cons in Hfills as [Hfill Hfills]. pose proof (volume_nonneg k _ Hfills) as Hvol.
  pose proof Hfill as [Hq _]. cbn [fst snd] in Hq.
  destruct (tracker_step_in k v (re_position s) (Side_value (Rust.incoming_side f)) (fe_quantity f) (fe_price_ticks f))
    as (t & Hon & Hin & Hnet); [eapply room_le; [|apply Hroom|exact Hroom]; lia|done|done|done|].
  destruct (unrealized_in k (v + fe_quantity f) t) as (u & Hu & _);
    [eapply room_le; [|apply Hroom|exact Hroom]; lia|done|].
  assert (tracker_all [triple f] (re_position s) = Some t) as Hall.
  { unfold triple. cbn [tracker_all]. by rewrite Hon. }
  assert (re_position (session_of [f] s) = t) as Hpos.
  { unfold session_of. cbn [re_position trackers]. by rewrite Hall. }
  pose proof (ti_net _ _ _ Hin) as Hnetb. cbn [length] in Hids.
  split; [|split].
  - eapply handle_fill_ok; [done|done|exact Hall|exact Hnet|exact Hu|lia|]. unfold u64. lia.
  - split; [by rewrite Hpos|lia|by rewrite <- Z.add_assoc|lia|done| |done].
    unfold session_of, flatten_orders. cbn [re_next_flatten_id]. rewrite length_imap. cbn [positions List.filter].
    destruct (breaches _); cbn [length]; lia.
  - by rewrite Hpos.
Qed.

Lemma loop_events k v es fuel tail x s :
  Forall Event_ok es → ready k v (fills_of es) s → stop_of tail = Some x → (length es < fuel)%nat →
  risk_loop fuel (concat (engine_encode <$> es) ++ tail) s = (session_of (fills_of es) s, Some x).
Proof.
  intros Hes. revert v fuel s. induction Hes as [|e es He Hes IH]; intros v fuel s Hs Hx Hfuel;
    cbn [length] in Hfuel; (destruct fuel as [|fuel]; [lia|]).
  { cbn [fmap list_fmap concat app]. rewrite (loop_stop _ _ x) by done. f_equal.
    unfold session_of. cbn. rewrite !app_nil_r, Z.add_0_r, Nat.add_0_r. by destruct s. }
  cbn [fmap list_fmap concat]. rewrite <- app_assoc, loop_event. destruct e as [a|f]; cbn [fills_of omap list_omap] in *.
  { apply (IH v); [done|done|lia]. }
  destruct (fill_step k v f (fills_of es) s) as (-> & Hr & Hnet); [done|done|].
  rewrite (IH (v + fe_quantity f)) by (done || lia). by rewrite <- session_of_cons.
Qed.

End Engine.

(** ** Sessions *)

#[local] Arguments Rust.encode_new_order : simpl never.

Section Sessions.
Context (clock : nat → float) (limits : RiskLimits).

Lemma ready_nets k v fs s : ready k v fs s → Forall FillEvent_ok fs →
  pt_net_position <$> trackers (re_position s) fs = positions (pt_net_position (re_position s)) fs.
Proof.
  intros Hs Hfs. revert v s Hs. induction Hfs as [|f fs Hf Hfs IH]; intros v s Hs; [done|].
  destruct (fill_step clock limits k v f fs s) as (_ & Hr & Hnet); [done|done|].
  specialize (IH _ _ Hr). cbn [trackers positions fmap list_fmap].
  change (re_position (session_of clock limits [f] s)) with (default (re_position s) (tracker_all [triple f] (re_position s)))
    in *. by rewrite Hnet in *; f_equal.
Qed.

Lemma positions_last net fs : List.last (positions net fs) net = net + net_after (triple <$> fs).
Proof.
  assert (∀ d, positions net fs ≠ [] → List.last (positions net fs) d = net + net_after (triple <$> fs)) as H.
  { revert net. induction fs as [|f fs IH]; intros net d Hne; [done|]. cbn [positions].
    destruct fs as [|g fs]; [unfold net_after; cbn; autorewrite with velo_rw; lia|].
    change (List.last (?x :: positions ?n (g :: fs)) d) with (List.last (positions n (g :: fs)) d).
    rewrite IH by done. unfold net_after. cbn [fmap list_fmap]. autorewrite with velo_rw. lia. }
  destruct fs; [unfold net_after; cbn; autorewrite with velo_rw; lia|]. by apply H.
Qed.

Lemma last_fmap {A B} (f : A → B) l d : f (List.last l d) = List.last (f <$> l) (f d).
Proof. induction l as [|a [|b l] IH]; [done..|exact IH]. Qed.

Lemma session_net k v fs s : ready k v fs s → Forall FillEvent_ok fs →
  pt_net_position (re_position (session_of clock limits fs s)) =
    pt_net_position (re_position s) + net_after (triple <$> fs).
Proof.
  intros Hs Hfs. unfold session_of. cbn [re_position].
  rewrite last_fmap, (ready_nets k v) by done. apply positions_last.
Qed.

Lemma length_volume k fs : Forall (fill_in k) fs → Z.of_nat (length fs) ≤ volume fs.
Proof.
  induction 1 as [|f fs [Hf _] _ IH]; [done|]. rewrite volume_cons. cbn [length]. lia.
Qed.

Lemma fill_events_ok es : Forall Event_ok es → Forall FillEvent_ok (fills_of es).
Proof. induction 1 as [|[a|f] es He _ IH]; [constructor|done|by constructor]. Qed.

Lemma start_ready k fs :
  0 ≤ k → Forall (fill_in k) (triple <$> fs) → room k (volume (triple <$> fs)) →
  volume (triple <$> fs) < 2 ^ 32 → ready k 0 fs (write_all Rust.encode_subscribe_fills (new_engine [])).1.
Proof.
  intros Hk Hf Hr Hv. pose proof (length_volume k _ Hf) as Hl. rewrite length_fmap in Hl.
  split; [by apply new_tracker_in|done|by rewrite Z.add_0_l|by rewrite Z.add_0_l|done| |done].
  cbn. unfold FLATTEN_ORDER_ID_BASE. lia.
Qed.

(** (C6) A session of the risk engine: on any events of the order book server
    (fills of [k]-bit prices whose volume stays below [2^32] and leaves the P&L
    room in an [i64], acks in between), followed by the end of the stream, an
    unknown tag or a truncated message, on connections that accept every write
    ([faults] is empty: each write is followed by an [expect]), the process never
    panics and stops for that reason; it has sent the subscription and then, for each fill that left
    the position beyond the limit and no other, one market order against the
    position and of its exact size, with consecutive ids from 1000000000; its
    log has one position line per fill with the running sum of the fills, and a
    halt line right after each breach; its position is the signed sum of all
    fills. *)
Theorem risk_session (k : Z) (es : list Event) (tail : bytes) (x : risk_exit) :
  let fs := fills_of es in
  Forall Event_ok es → Forall (fill_in k) (triple <$> fs) → room k (volume (triple <$> fs)) →
  volume (triple <$> fs) < 2 ^ 32 → stop_of tail = Some x →
  ∃ s, risk_main clock limits [] (concat (engine_encode <$> es) ++ tail) = (s, Some x) ∧
    re_sent s = Rust.encode_subscribe_fills ++
      concat (Rust.encode_new_order <$> flatten_orders limits FLATTEN_ORDER_ID_BASE (positions 0 fs)) ∧
    re_log s = log_of clock limits 0 FLATTEN_ORDER_ID_BASE (trackers new_tracker fs) ∧
    pt_net_position <$> trackers new_tracker fs = positions 0 fs ∧
    pt_net_position (re_position s) = net_after (triple <$> fs).
Proof.
  intros fs Hes Hf Hr Hv Hx. pose proof (start_ready k fs (proj1 (proj1 Hr)) Hf Hr Hv) as Hs.
  pose proof (fill_events_ok es Hes) as Hfok.
  assert (length es ≤ length (concat (engine_encode <$> es) ++ tail))%nat as Hlen.
  { rewrite length_app. clear. induction es as [|e es IH]; [cbn; lia|]. cbn [fmap list_fmap concat length].
    rewrite length_app. assert (1 ≤ length (engine_encode e))%nat by (destruct e; cbn; lia). lia. }
  eexists. split; [|split; [|split; [|split]]].
  - unfold risk_main. apply (loop_events clock limits k 0); [done|exact Hs|done|lia].
  - done.
  - done.
  - exact (ready_nets k 0 fs _ Hs Hfok).
  - rewrite (session_net k 0) by done. done.
Qed.

(** A failed flattening order leaves no trace of the breach: when the write
    of the order fails, the process panics before it writes the halt line, so
    the log ends with the position line. *)
Theorem failed_flatten_is_silent (f : FillEvent) (s : RiskEngine) (t : PositionTracker) (u : Z) :
  FillEvent_ok f → tracker_all [triple f] (re_position s) = Some t → unrealized_pnl_ticks t = Some u →
  Z.abs (pt_net_position t) < 2 ^ 32 → breaches limits (pt_net_position t) = true →
  u64 (re_next_flatten_id s + 1) → re_faults s = [false; true] →
  ∃ s', handle_fill clock limits (encode_WireFill (wire_fill f)) s = (s', None) ∧
    re_log s' = re_log s ++ [position_update (pt_net_position t) (pt_realized_pnl_ticks t) u (clock (re_clock s))] ∧
    re_sent s' = re_sent s.
Proof.
  intros Hf Ht Hu Hn Hb Hid Hfaults.
  assert (tracker_on_fill (Rust.incoming_side f) (fe_quantity f) (fe_price_ticks f) (re_position s) = Some t) as Ht'.
  { unfold triple in Ht. cbn [tracker_all] in Ht. rewrite side_of_triple in Ht. by destruct (tracker_on_fill _ _ _ _). }
  destruct s as [pos next log sent k faults]. cbn [re_position re_next_flatten_id re_faults] in *. subst faults.
  unfold handle_fill, mbind, P_bind, unwrap, get_state, set_position, now_secs, log_line, set_next_id, write_all, write, mret, P_ret.
  rewrite Rust.decode_fill_engine by done. cbn. rewrite Ht'. cbn. rewrite Hu. cbn.
  rewrite check_breach_ok by (unfold i64; lia). rewrite Hb. cbn.
  unfold checked_u64. rewrite decide_True by done. eexists. split; [reflexivity|]. cbn. by rewrite !app_nil_r.
Qed.
End Sessions.

(** ** Examples *)

Definition example_fill (resting : Side) (qty price : Z) : FillEvent :=
  {| resting_order_id := 1; incoming_order_id := 2; resting_side := resting;
     fe_price_ticks := price; fe_quantity := qty; fe_timestamp := 3 |}.
Definition example_clock : nat → float := λ n, dyadic (Z.of_nat n) 0.

(** Two buys of 60 against a limit of 100, and a stream cut after a tag byte. *)
Lemma risk_session_witness :
  let ack := EvAck {| ack_client_order_id := 9; ack_request_type := 1; ack_status := 0 |} in
  let es := [EvFill (example_fill SELL 60 101); ack; EvFill (example_fill SELL 60 102)] in
  ∃ s, risk_main example_clock {| max_abs_position := 100 |} []
      (concat (engine_encode <$> es) ++ [tag_byte FILL]) = (s, Some ClosedMidMessage) ∧
    re_sent s = Rust.encode_subscribe_fills ++
      Rust.encode_new_order (flatten_order FLATTEN_ORDER_ID_BASE 120) ∧
    pt_net_position (re_position s) = 120.
Proof.
  intros ack es.
  destruct (risk_session example_clock {| max_abs_position := 100 |} 10 es [tag_byte FILL] ClosedMidMessage)
    as (s & H1 & H2 & _ & _ & H3);
    [repeat constructor; vm_compute; congruence|repeat constructor; vm_compute; congruence
    |repeat split; vm_compute; congruence|vm_compute; reflexivity|vm_compute; reflexivity|].
  exists s. split; [exact H1|]. split; [rewrite H2; vm_compute; reflexivity|rewrite H3; vm_compute; reflexivity].
Defined.

(** The subscription and the first position line are written, the order is not. *)
Lemma failed_flatten_is_silent_witness :
  let f := example_fill SELL 120 101 in
  let s := {| re_position := new_tracker; re_next_flatten_id := FLATTEN_ORDER_ID_BASE; re_log := [];
              re_sent := Rust.encode_subscribe_fills; re_clock := 0; re_faults := [false; true] |} in
  ∃ s', handle_fill example_clock {| max_abs_position := 100 |} (encode_WireFill (wire_fill f)) s = (s', None) ∧
    re_log s' = [position_update 120 0 0 (example_clock 0)].
Proof.
  intros f s. pose (t := default new_tracker (tracker_all [triple f] new_tracker)).
  destruct (failed_flatten_is_silent example_clock {| max_abs_position := 100 |} f s t 0) as (s' & H1 & H2 & _);
    [repeat split; vm_compute; congruence|vm_compute; reflexivity|vm_compute; reflexivity|vm_compute; reflexivity
    |vm_compute; reflexivity|repeat split; vm_compute; congruence|reflexivity|].
  exists s'. split; [exact H1|]. rewrite H2. vm_compute. reflexivity.
Defined.
