(* ===== verification/FlattenLoop.v ===== *)
(** * The risk engine against the matching engine

    A flattening order goes through the same book as every other order, and its
    fills come back to the risk engine on the subscribed stream: one fill per
    resting order it consumes.  This file closes the loop of [RiskEngine] and
    [Server]: when one flattening order is enough, and what happens when it is
    filled in pieces. *)

From S2P Require Import Prelude Bytes PyFloat FloatBounds PyStruct Protocol EngineProtocol WireAgreement RustProtocol.
From S2P Require Import TradeLog BacktestReport RiskPosition RiskEngine OrderBook Server.

Open Scope Z_scope.

#[local] Arguments Rust.encode_new_order : simpl never.

(** ** A run of fills against the position *)

(** The fills of an order against a position of sign [g]. *)
Definition reducing (g : Z) (f : FillEvent) : Prop :=
  0 < fe_quantity f ∧ signed_qty (triple f) = - g * fe_quantity f.

Lemma executed_volume fs : executed fs = volume (triple <$> fs).
Proof. unfold executed, volume. by rewrite <- list_fmap_compose. Qed.

Lemma executed_cons f fs : executed (f :: fs) = fe_quantity f + executed fs.
Proof. done. Qed.

Lemma reducing_executed g fs : Forall (reducing g) fs → 0 ≤ executed fs.
Proof.
  intros H. apply sumZ_nonneg, Forall_fmap. eapply Forall_impl; [exact H|]. intros f [? _]. cbn. lia.
Qed.

Lemma reducing_net g fs : Forall (reducing g) fs → net_after (triple <$> fs) = - g * executed fs.
Proof.
  induction 1 as [|f fs [_ Hf] _ IH]; [unfold net_after, executed; cbn; autorewrite with velo_rw; lia|].
  rewrite executed_cons. unfold net_after in *. cbn [fmap list_fmap]. autorewrite with velo_rw. lia.
Qed.

(** The position shrinks towards zero without crossing it. *)
Lemma reducing_positions g net fs : g = 1 ∨ g = -1 → Forall (reducing g) fs → executed fs ≤ g * net →
  Forall (λ n, 0 ≤ g * n ≤ g * net) (positions net fs).
Proof.
  intros Hg H. revert net. induction H as [|f fs [Hq Hs] Hfs IH]; intros net Hle; cbn [positions]; [constructor|].
  rewrite executed_cons in Hle. pose proof (reducing_executed g fs Hfs).
  set (net1 := net + signed_qty (triple f)).
  assert (g * net1 = g * net - fe_quantity f) as Hnet1 by (unfold net1; rewrite Hs; destruct Hg as [->| ->]; lia).
  constructor; [lia|]. eapply Forall_impl; [apply IH; lia|]. intros n Hn. cbn in *. lia.
Qed.

Section Flatten.
Context (clock : nat → float) (limits : RiskLimits).

(** No order is sent for fills that only reduce the position exactly when the
    first of them brings it within the limit. *)
Lemma reducing_orders g id net f fs :
  g = 1 ∨ g = -1 → Forall (reducing g) (f :: fs) → executed (f :: fs) ≤ g * net →
  flatten_orders limits id (positions net (f :: fs)) = [] ↔ g * net - fe_quantity f ≤ max_abs_position limits.
Proof.
  intros Hg [Hf Hfs]%Forall_cons Hle. rewrite executed_cons in Hle. pose proof (reducing_executed g fs Hfs).
  cbn [positions]. set (net1 := net + signed_qty (triple f)). destruct Hf as [Hq Hs].
  assert (g * net1 = g * net - fe_quantity f) as Hnet1 by (unfold net1; rewrite Hs; destruct Hg as [->| ->]; lia).
  rewrite flatten_orders_cons. unfold breaches at 1. destruct (Z.ltb_spec (max_abs_position limits) (Z.abs net1)) as [Hb|Hb].
  - split; [done|]. destruct Hg as [->| ->]; lia.
  - split; [destruct Hg as [->| ->]; lia|]. intros _. unfold flatten_orders.
    enough (List.filter (breaches limits) (positions net1 fs) = []) as -> by done.
    pose proof (reducing_positions g net1 fs Hg Hfs ltac:(lia)) as Hp.
    induction Hp as [|n ns Hn _ IH]; [done|]. cbn [List.filter]. unfold breaches at 1.
    rewrite (proj2 (Z.ltb_ge _ _)); [done|]. destruct Hg as [->| ->]; lia.
Qed.

Lemma encoded_nil orders : concat (Rust.encode_new_order <$> orders) = [] ↔ orders = [].
Proof. by destruct orders. Qed.

(** ** The fills of a flattening order *)

Lemma resting_side_of side levels : levels_ok side levels → Forall (λ o, o_side o = side) (flat levels).
Proof.
  intros [H _]. unfold flat. apply Forall_concat, Forall_fmap. eapply Forall_impl; [exact H|].
  intros l [_ Hl]. cbn. eapply Forall_impl; [exact Hl|]. by intros o (_ & ? & _).
Qed.

(** The order as the server submits it. *)
Definition flatten_submit (id net : Z) : Order := order_of (wire_order (flatten_order id net)).

Lemma flatten_submit_fields id net :
  o_id (flatten_submit id net) = id ∧ o_side (flatten_submit id net) = (if 0 <? net then SELL else BUY) ∧
  o_type (flatten_submit id net) = MARKET ∧ o_quantity (flatten_submit id net) = Z.abs net.
Proof. unfold flatten_submit, flatten_order. cbn. by destruct (0 <? net). Qed.

Lemma flatten_fills id net b :
  net ≠ 0 → book_ok b → contains id b = false →
  let o := flatten_submit id net in
  let '(b', fills) := submit o b in
  Forall (reducing (Z.sgn net)) fills ∧ executed fills ≤ Z.abs net ∧
  (executed fills = Z.abs net ∨ opp_queue o b' = []) ∧
  (∀ f, f ∈ fills → ∃ r, r ∈ opp_queue o b ∧ fe_price_ticks f = o_price_ticks r).
Proof.
  intros Hnet Hb Hc o. destruct (flatten_submit_fields id net) as (Hid & Hside & Hty & Hqty). fold o in Hid, Hside, Hty, Hqty.
  pose proof (submit_fills_spec o b Hb ltac:(lia) ltac:(by rewrite Hid)) as H.
  destruct (submit o b) as [b' fills]. destruct H as (_ & Hf & _ & Hleft & _ & Hstop).
  rewrite Hqty in *. split; [|split; [lia|split]].
  - eapply Forall_impl; [exact Hf|]. intros f (Hq & _ & _ & r & Hr & _ & Hrs & _). split; [done|].
    assert (o_side r = OrderBook.opposite (o_side o)) as Hopp.
    { revert r Hr Hrs. apply (Forall_forall (λ r, _ → o_side r = _)). unfold opp_queue. rewrite Hside.
      destruct (0 <? net); eapply Forall_impl; try (eapply resting_side_of, Hb); cbn; congruence. }
    unfold triple, signed_qty, Rust.incoming_side. rewrite Hrs, Hopp, Hside.
    destruct (Z.ltb_spec 0 net); cbn; nia.
  - destruct (decide (Z.abs net - executed fills = 0)); [left; lia|right]. specialize (Hstop ltac:(done)).
    destruct (opp_queue o b') as [|r q]; [done|]. specialize (Hstop r eq_refl). exfalso. revert Hstop.
    assert (is_market o = true) as Hm by (unfold is_market; by rewrite Hty).
    destruct (o_side o); cbn [crosses_of]; unfold buy_crosses, sell_crosses; by rewrite Hm.
  - intros f Hin. rewrite Forall_forall in Hf. destruct (Hf f Hin) as (_ & _ & _ & r & Hr & _ & _ & Hp). by exists r.
Qed.

Lemma fills_of_fills fs : fills_of (EvFill <$> fs) = fs.
Proof. induction fs as [|f fs IH]; [done|]. exact (f_equal (cons f) IH). Qed.

(** A state that has room for twice the position. *)
Definition flatten_ready (k v : Z) (s : RiskEngine) : Prop :=
  let net := Z.abs (pt_net_position (re_position s)) in
  tracker_in k v (re_position s) ∧ 0 ≤ v ∧ room k (v + net) ∧ v + net < 2 ^ 32 ∧
  0 ≤ re_next_flatten_id s < 2 ^ 63 ∧ re_faults s = [].

Lemma flatten_ready_fills k v s fs :
  flatten_ready k v s → Forall (fill_in k) (triple <$> fs) →
  executed fs ≤ Z.abs (pt_net_position (re_position s)) → ready k v fs s.
Proof.
  intros (Ht & Hv & Hr & Hs & Hid & Hf) Hfs Hx. rewrite executed_volume in Hx.
  pose proof (volume_nonneg k _ Hfs). pose proof (length_volume k _ Hfs) as Hl. rewrite length_fmap in Hl.
  split; [done|done| |lia|done|lia|done]. eapply room_le; [|apply Hr|exact Hr]. lia.
Qed.

(** (C7) What a flattening order does.  The risk engine holds a position beyond
    its limit and its market order, of the size of the position, is executed
    against a sound book of [k]-bit prices.  Reading the fills back, it never
    panics and ends with the position reduced by exactly what was executed:
    flat, or with the opposite side of the book exhausted.  It sends no further
    order in exactly the case that the first fill alone brings the position
    within the limit; otherwise it flattens again while its first order is
    already executing. *)
Theorem flatten_response (k v id : Z) (b : OrderBook) (s : RiskEngine) :
  let net := pt_net_position (re_position s) in
  let o := flatten_submit id net in
  let '(b', fills) := submit o b in
  book_ok b → book_fits b → u64 id → contains id b = false →
  breaches limits net = true → 0 ≤ max_abs_position limits → flatten_ready k v s →
  (∀ r, r ∈ opp_queue o b → Z.abs (o_price_ticks r) ≤ 2 ^ k) →
  ∃ s', risk_loop clock limits (S (length fills)) (concat (engine_encode <$> (EvFill <$> fills))) s
      = (s', Some ServerClosed) ∧
    pt_net_position (re_position s') = net - Z.sgn net * executed fills ∧
    (pt_net_position (re_position s') = 0 ∨ opp_queue o b' = []) ∧
    (re_sent s' = re_sent s ↔
      ∀ f, head fills = Some f → Z.abs net - fe_quantity f ≤ max_abs_position limits).
Proof.
  intros net o. destruct (submit o b) as [b' fills] eqn:Hsub.
  intros Hb Hfit Hid Hc Hbr Hlim Hready Hprices. unfold breaches in Hbr. apply Z.ltb_lt in Hbr.
  assert (net ≠ 0) as Hnet by (intros H0; rewrite H0 in Hbr; cbn in Hbr; lia).
  pose proof (flatten_fills id net b Hnet Hb Hc) as H. cbv zeta in H. fold o in H. rewrite Hsub in H.
  destruct H as (Hred & Hex & Hdone & Hp).
  assert (Forall FillEvent_ok fills) as Hok.
  { destruct (flatten_submit_fields id net) as (Ho & _ & _ & Hq). fold o in Ho, Hq.
    assert (order_fits o) as Hofit.
    { split; [by rewrite Ho|]. split; [done|]. rewrite Hq. destruct Hready as (_ & ? & _ & ? & _).
      unfold u32. fold net. lia. }
    pose proof (submit_fits o b Hb Hfit Hofit ltac:(by rewrite Ho)) as H. rewrite Hsub in H. apply H. }
  assert (Forall (fill_in k) (triple <$> fills)) as Hin.
  { apply Forall_fmap, Forall_forall. intros f Hf. rewrite Forall_forall in Hred. destruct (Hred f Hf) as [Hq _].
    destruct (Hp f Hf) as (r & Hr & Hpr). split; cbn; [done|]. rewrite Hpr. by apply Hprices. }
  pose proof (flatten_ready_fills k v s fills Hready Hin Hex) as Hs.
  assert (fills_of (EvFill <$> fills) = fills) as Hfs by apply fills_of_fills.
  pose proof (loop_events clock limits k v (EvFill <$> fills) (S (length fills)) [] ServerClosed s) as Hloop.
  rewrite Hfs, length_fmap, app_nil_r in Hloop.
  eexists. split; [apply Hloop; [by apply Forall_fmap|done|done|lia]|].
  rewrite (session_net clock limits k v) by done. rewrite (reducing_net (Z.sgn net)) by done. fold net.
  split; [lia|]. split; [destruct Hdone as [->|]; [left; nia|by right]|].
  unfold session_of. cbn [re_sent]. fold net.
  transitivity (concat (Rust.encode_new_order <$> flatten_orders limits (re_next_flatten_id s) (positions net fills)) = []).
  { split; [|intros ->; by rewrite app_nil_r]. rewrite <- (app_nil_r (re_sent s)) at 2. apply app_inv_head. }
  rewrite encoded_nil. destruct fills as [|f fills]; [done|].
  rewrite (reducing_orders (Z.sgn net)); [|lia|done|lia].
  replace (Z.sgn net * net) with (Z.abs net) by lia. cbn [head]. split; [by intros ? ? [= <-]|by intros H; apply H].
Qed.
End Flatten.

(** ** The loop through the server *)

(** The server and the risk engine on its connection [fd]; [w_seen] messages of
    the server have been read. *)
Record World := { w_server : Server; w_risk : RiskEngine; w_seen : nat }.

(** The risk engine reads what the server has sent it and waits for more; the
    server then receives what it wrote. *)
Definition exchange (clock : nat → float) (limits : RiskLimits) (fd : Z) (w : World) : World :=
  let es := omap (λ '(to, e), if to =? fd then Some e else None) (drop (w_seen w) (sv_sent (w_server w))) in
  let stream := concat (engine_encode <$> es) in
  let risk := (risk_loop clock limits (S (length stream)) stream (w_risk w)).1 in
  let out := drop (length (re_sent (w_risk w))) (re_sent risk) in
  {| w_server := readable fd (Received out) (w_server w); w_risk := risk;
     w_seen := length (sv_sent (w_server w)) |}.

(** A maker on connection 5, a taker on 6, the risk engine on 7: the maker offers
    205 lots and bids for 50 and then for 1000, the taker buys 205. *)
Definition example_world : World :=
  let order id side ty price qty :=
    Rust.encode_new_order {| com_client_order_id := id; com_side := side; com_order_type := ty;
                             com_price_ticks := price; com_quantity := qty |} in
  let risk := (write_all Rust.encode_subscribe_fills (new_engine [])).1 in
  let sv := accept 7 (accept 6 (accept 5 new_server)) in
  let sv := readable 7 (Received (re_sent risk)) sv in
  let sv := readable 5 (Received (order 1 SELL LIMIT 101 205 ++ order 2 BUY LIMIT 100 50 ++
                                  order 3 BUY LIMIT 99 1000)) sv in
  {| w_server := readable 6 (Received (order 4 BUY MARKET 0 205)) sv; w_risk := risk; w_seen := 0 |}.

Definition halts (s : RiskEngine) : list (Z * Z) :=
  omap (λ l, match l with halt net _ id _ => Some (net, id) | position_update _ _ _ _ => None end) (re_log s).

(** Flattening can overshoot.  With a limit of 100, a position of 205 is
    flattened by a market order that the book fills as 50 and 155.  After the
    first fill the position is still 155, so a second order for 155 follows;
    the first order then completes and the position is 0; the second order
    makes it -155, a breach of the other side, which the third order cannot
    repair because no offers are left.  One breach has led to three flattening
    orders and ends beyond the limit, on the other side, with nothing to wake
    the risk engine again. *)
Theorem flatten_overshoots :
  let step := exchange example_clock {| max_abs_position := 100 |} 7 in
  let nets := (λ n, pt_net_position (re_position (w_risk (Nat.iter n step example_world)))) <$> [1; 2; 3; 4]%nat in
  nets = [205; 0; -155; -155] ∧
  halts (w_risk (Nat.iter 4 step example_world)) =
    [(205, 1000000000); (155, 1000000001); (-155, 1000000002)] ∧
  flat (asks_ (book (w_server (Nat.iter 4 step example_world)))) = [].
Proof. split; [|split]; vm_compute; reflexivity. Qed.

(** The same breach with 205 bid at the best price: one order is enough. *)
Definition example_breach : RiskEngine :=
  {| re_position := {| pt_net_position := 205; pt_realized_pnl_ticks := 0; pt_last_trade_price_ticks := 101;
                       pt_avg_entry_price_ticks := dyadic 101 0 |};
     re_next_flatten_id := FLATTEN_ORDER_ID_BASE + 1; re_log := []; re_sent := []; re_clock := 1; re_faults := [] |}.

Definition example_bids : list book_op :=
  [Submit (example_order 2 BUY LIMIT 100 205); Submit (example_order 3 BUY LIMIT 99 1000)].

Lemma flatten_response_witness :
  let b := (run_book book_step example_bids empty_book).1 in
  let fills := (submit (flatten_submit FLATTEN_ORDER_ID_BASE 205) b).2 in
  ∃ s', risk_loop example_clock {| max_abs_position := 100 |} (S (length fills))
      (concat (engine_encode <$> (EvFill <$> fills))) example_breach = (s', Some ServerClosed) ∧
    pt_net_position (re_position s') = 0 ∧ re_sent s' = [].
Proof.
  intros b fills.
  assert (book_ok b) as Hb.
  { assert (Forall op_ok example_bids) as H by (repeat constructor; cbn; lia).
    pose proof (run_book_spec _ _ H empty_book_ok) as Hr. unfold b.
    destruct (run_book book_step example_bids empty_book). apply Hr. }
  pose proof (flatten_response example_clock {| max_abs_position := 100 |} 7 205 FLATTEN_ORDER_ID_BASE b example_breach) as H.
  cbv zeta in H. change (pt_net_position (re_position example_breach)) with 205 in H.
  assert (fe_quantity <$> fills = [205]) as Hq by (vm_compute; reflexivity). unfold fills in *. clear fills.
  destruct (submit (flatten_submit FLATTEN_ORDER_ID_BASE 205) b) as [b' fills]. cbn [snd] in *.
  destruct H as (s' & H1 & H2 & _ & H3).
  - exact Hb.
  - split; [repeat constructor; vm_compute; congruence|split; vm_compute; congruence].
  - split; vm_compute; congruence.
  - vm_compute. reflexivity.
  - vm_compute. reflexivity.
  - vm_compute. congruence.
  - split; [|repeat split; vm_compute; congruence].
    split; [vm_compute; congruence..|]. split; [reflexivity|]. split; [reflexivity|vm_compute; congruence].
  - apply Forall_forall. repeat constructor; vm_compute; congruence.
  - exists s'. split; [exact H1|]. destruct fills as [|f [|]]; cbn in Hq; [discriminate| |discriminate].
    assert (fe_quantity f = 205) as Hf by congruence. unfold executed in H2. cbn in H2. rewrite Hf in H2. split; [exact H2|].
    apply H3. intros ? [= <-]. rewrite Hf. vm_compute. congruence.
Defined.
