(* ===== verification/RustText.v ===== *)
(** * The Rust string operations the FIX parser uses

    A [&str] is a list of bytes that is valid UTF-8.  The file defines the
    validation, searching, splitting, number parsing and number formatting of
    the Rust standard library on such lists, and the lemmas about text that is
    a sequence of delimited fields. *)

From Stdlib Require Import Strings.String Strings.Byte.
From stdpp Require Import strings.
From S2P Require Import Prelude Bytes PyFloat.

Open Scope Z_scope.

#[export] Instance byte_eq_dec : EqDecision byte.
Proof. intros a b. destruct (Byte.byte_eq_dec a b); [by left|by right]. Defined.

(** The bytes of an ASCII literal. *)
Definition str (s : string) : bytes := list_byte_of_string s.

(** ** UTF-8 *)

Definition between (lo hi : Z) (b : byte) : bool := (lo <=? byte_to_Z b) && (byte_to_Z b <=? hi).
Definition is_cont : byte → bool := between 0x80 0xBF.

(** The second byte allowed after a lead byte of a three or four byte sequence. *)
Definition second_ok (lead : Z) : byte → bool :=
  if lead =? 0xE0 then between 0xA0 0xBF
  else if lead =? 0xED then between 0x80 0x9F
  else if lead =? 0xF0 then between 0x90 0xBF
  else if lead =? 0xF4 then between 0x80 0x8F
  else is_cont.

(** [std::str::from_utf8] succeeds. *)
Fixpoint utf8_ok (bs : bytes) : bool :=
  match bs with
  | [] => true
  | b0 :: bs0 =>
      if byte_to_Z b0 <? 0x80 then utf8_ok bs0 else
      match bs0 with
      | [] => false
      | b1 :: bs1 =>
          if between 0xC2 0xDF b0 then is_cont b1 && utf8_ok bs1 else
          match bs1 with
          | [] => false
          | b2 :: bs2 =>
              if between 0xE0 0xEF b0 then second_ok (byte_to_Z b0) b1 && is_cont b2 && utf8_ok bs2 else
              match bs2 with
              | [] => false
              | b3 :: bs3 =>
                  between 0xF0 0xF4 b0 && second_ok (byte_to_Z b0) b1 && is_cont b2 && is_cont b3 && utf8_ok bs3
              end
          end
      end
  end.

(** [str::is_char_boundary]: slicing anywhere else panics. *)
Definition is_char_boundary (text : bytes) (i : nat) : bool :=
  match drop i text with [] => (i =? length text)%nat | b :: _ => negb (is_cont b) end.

(** ** Searching and splitting *)

Definition SOH : byte := x01.
Definition EQUALS : byte := x3d.

(** [text.match_indices(c)], the positions, from [i] on. *)
Fixpoint match_indices (c : byte) (i : nat) (text : bytes) : list nat :=
  match text with
  | [] => []
  | b :: text => if decide (b = c) then i :: match_indices c (S i) text else match_indices c (S i) text
  end.

Fixpoint starts_with (pat text : bytes) : bool :=
  match pat, text with
  | [], _ => true
  | p :: pat, b :: text => bool_decide (p = b) && starts_with pat text
  | _ :: _, [] => false
  end.

(** [text.rfind(pat)], for a non-empty [pat]. *)
Fixpoint rfind (pat text : bytes) : option nat :=
  match text with
  | [] => None
  | b :: rest =>
      match rfind pat rest with
      | Some i => Some (S i)
      | None => if starts_with pat text then Some O else None
      end
  end.

(** [text.split(c)]. *)
Fixpoint split (c : byte) (text : bytes) : list bytes :=
  match text with
  | [] => [[]]
  | b :: text =>
      if decide (b = c) then [] :: split c text else
      match split c text with [] => [[b]] | w :: ws => (b :: w) :: ws end
  end.

(** [text.split_once(c)]. *)
Fixpoint split_once (c : byte) (text : bytes) : option (bytes * bytes) :=
  match text with
  | [] => None
  | b :: text =>
      if decide (b = c) then Some ([], text)
      else '(l, r) ← split_once c text; Some (b :: l, r)
  end.

(** ** Numbers *)

Definition digit_of (b : byte) : option Z :=
  if between 48 57 b then Some (byte_to_Z b - 48) else None.

Fixpoint digits_value (v : Z) (s : bytes) : option Z :=
  match s with
  | [] => Some v
  | b :: s => d ← digit_of b; digits_value (10 * v + d) s
  end.

(** [s.parse()] to a [w]-bit unsigned integer: an optional plus sign, at least
    one digit, no overflow. *)
Definition parse_uint (w : Z) (s : bytes) : option Z :=
  let s := match s with b :: s' => if decide (b = x2b) then s' else s | [] => [] end in
  match s with
  | [] => None
  | _ => v ← digits_value 0 s; if v <? 2 ^ w then Some v else None
  end.

Definition digit (d : Z) : byte := Z_to_byte (48 + d).

(** The decimal digits of [n], in front of [acc]. *)
Fixpoint show_digits (fuel : nat) (n : Z) (acc : bytes) : bytes :=
  match fuel with
  | O => acc
  | S fuel =>
      let acc := digit (n mod 10) :: acc in
      if n <? 10 then acc else show_digits fuel (n / 10) acc
  end.
(** [format!("{n}")], [n >= 0]; one digit per bit is enough. *)
Definition show (n : Z) : bytes := show_digits (S (Z.to_nat (Z.log2 n))) n [].

(** [format!("{n:0w$}")]. *)
Definition show_padded (w : nat) (n : Z) : bytes := replicate (w - length (show n)) (digit 0) ++ show n.

(** [format!("{x:.2}")]: the exact value rounded to two places, ties to even. *)
Definition show_fixed2 (x : float) : bytes :=
  match x with
  | S754_nan => str "NaN"
  | S754_infinity s => if s then str "-inf" else str "inf"
  | S754_zero s => (if s then str "-" else []) ++ str "0.00"
  | S754_finite s m e =>
      let n := if 0 <=? e then 100 * Zpos m * 2 ^ e else div_rne (100 * Zpos m) (2 ^ (- e)) in
      (if s then str "-" else []) ++ show (n / 100) ++ str "." ++ show_padded 2 (n mod 100)
  end.

(** [bytes.iter().fold(0u8, |acc, &b| acc.wrapping_add(b))] *)
Definition wrapping_sum (bs : bytes) : Z := foldl (λ acc b, (acc + byte_to_Z b) mod 256) 0 bs.

(** ** UTF-8 lemmas *)

Definition is_ascii (b : byte) : Prop := byte_to_Z b < 128.
#[export] Instance is_ascii_dec b : Decision (is_ascii b).
Proof. unfold is_ascii. apply _. Defined.

Lemma ascii_not_cont b : is_ascii b → is_cont b = false.
Proof. unfold is_ascii, is_cont, between. intros. by rewrite (proj2 (Z.leb_gt _ _)) by lia. Qed.

Lemma utf8_ascii_cons b bs : is_ascii b → utf8_ok (b :: bs) = utf8_ok bs.
Proof. unfold is_ascii. intros. cbn [utf8_ok]. by rewrite (proj2 (Z.ltb_lt _ _)) by done. Qed.

Lemma utf8_ascii bs : Forall is_ascii bs → utf8_ok bs = true.
Proof. induction 1; [done|]. by rewrite utf8_ascii_cons. Qed.

(** Valid text is empty or starts with a character. *)
Lemma utf8_char a : utf8_ok a = true →
  a = [] ∨ ∃ c rest, a = c ++ rest ∧ c ≠ [] ∧ utf8_ok rest = true ∧ ∀ x, utf8_ok (c ++ x) = utf8_ok x.
Proof.
  intros Ha. destruct a as [|b0 a]; [by left|right]. cbn [utf8_ok] in Ha.
  destruct (byte_to_Z b0 <? 128) eqn:H0.
  { exists [b0], a. split_and!; [done..|]. intros x. cbn [app utf8_ok]. by rewrite H0. }
  destruct a as [|b1 a]; [done|]. destruct (between 194 223 b0) eqn:H1.
  { apply andb_true_iff in Ha as [Hc Ha]. exists [b0; b1], a. split_and!; [done..|].
    intros x. cbn [app utf8_ok]. by rewrite H0, H1, Hc. }
  destruct a as [|b2 a]; [done|]. destruct (between 224 239 b0) eqn:H2.
  { apply andb_true_iff in Ha as [Hc Ha]. exists [b0; b1; b2], a. split_and!; [done..|].
    intros x. cbn [app utf8_ok]. by rewrite H0, H1, H2, Hc. }
  destruct a as [|b3 a]; [done|]. apply andb_true_iff in Ha as [Hc Ha].
  exists [b0; b1; b2; b3], a. split_and!; [done..|].
  intros x. cbn [app utf8_ok]. by rewrite H0, H1, H2, Hc.
Qed.

Lemma utf8_app a b : utf8_ok a = true → utf8_ok b = true → utf8_ok (a ++ b) = true.
Proof.
  intros Ha Hb. remember (length a) as n eqn:Hn. revert a Hn Ha.
  induction (lt_wf n) as [n _ IH]. intros a -> Ha.
  destruct (utf8_char a Ha) as [->|(c & rest & -> & Hc & Hr & Hx)]; [done|].
  rewrite <- app_assoc, Hx. apply (IH (length rest)); [|done|done].
  rewrite length_app. destruct c; [done|cbn; lia].
Qed.

(** ** Number lemmas *)

Definition is_digit (b : byte) : Prop := 48 ≤ byte_to_Z b ≤ 57.

Lemma digit_value d : 0 ≤ d < 10 → byte_to_Z (digit d) = 48 + d.
Proof. intros. unfold digit. rewrite byte_to_Z_of_Z. apply Z.mod_small. lia. Qed.

Lemma digit_is_digit d : 0 ≤ d < 10 → is_digit (digit d).
Proof. intros. unfold is_digit. rewrite digit_value; lia. Qed.

Lemma digit_of_digit d : 0 ≤ d < 10 → digit_of (digit d) = Some d.
Proof.
  intros. unfold digit_of, between. rewrite digit_value by done.
  rewrite (proj2 (Z.leb_le _ _)), (proj2 (Z.leb_le _ _)) by lia. cbn. f_equal. lia.
Qed.

Lemma digits_value_app v s1 s2 : digits_value v (s1 ++ s2) = v' ← digits_value v s1; digits_value v' s2.
Proof.
  revert v. induction s1 as [|b s1 IH]; intros v; cbn [app digits_value]; [done|].
  destruct (digit_of b); [|done]. apply IH.
Qed.

Lemma show_digits_spec fuel n acc :
  0 ≤ n < 2 ^ Z.of_nat fuel →
  ∃ s, show_digits fuel n acc = s ++ acc ∧ Forall is_digit s ∧ digits_value 0 s = Some n ∧
    (fuel = O ∨ s ≠ []).
Proof.
  revert n acc. induction fuel as [|fuel IH]; intros n acc Hn.
  { assert (n = 0) as -> by (cbn in Hn; lia). exists []. split; [done|]. split; [constructor|]. split; [done|by left]. }
  cbn [show_digits]. cbv zeta. rewrite Nat2Z.inj_succ, Z.pow_succ_r in Hn by lia.
  pose proof (Z.mod_pos_bound n 10 ltac:(lia)) as Hm. destruct (Z.ltb_spec n 10).
  - exists [digit (n mod 10)]. split; [done|]. split; [repeat constructor; by apply digit_is_digit|].
    split; [|by right]. cbn [digits_value]. rewrite digit_of_digit by done. cbn [mbind option_bind digits_value]. f_equal. rewrite Z.mod_small; lia.
  - destruct (IH (n / 10) (digit (n mod 10) :: acc)) as (s & -> & Hd & Hv & _).
    { split; [apply Z.div_pos; lia|]. apply Z.div_lt_upper_bound; lia. }
    exists (s ++ [digit (n mod 10)]). split; [by rewrite <- app_assoc|].
    split; [apply Forall_app; split; [done|repeat constructor; by apply digit_is_digit]|].
    split; [|right; by destruct s]. rewrite digits_value_app, Hv. cbn [mbind option_bind digits_value].
    rewrite digit_of_digit by done. cbn. f_equal. pose proof (Z.div_mod n 10). lia.
Qed.

Lemma show_spec n : 0 ≤ n → show n ≠ [] ∧ Forall is_digit (show n) ∧ digits_value 0 (show n) = Some n.
Proof.
  intros Hn. unfold show.
  destruct (show_digits_spec (S (Z.to_nat (Z.log2 n))) n []) as (s & -> & Hd & Hv & Hs).
  { split; [done|]. rewrite Nat2Z.inj_succ, Z2Nat.id by apply Z.log2_nonneg.
    destruct (decide (n = 0)) as [->|]; [done|]. apply Z.log2_spec. lia. }
  rewrite app_nil_r. by destruct Hs.
Qed.

Lemma digits_not_plus s : Forall is_digit s → match s with b :: s' => if decide (b = x2b) then s' else s | [] => [] end = s.
Proof.
  destruct 1 as [|b s Hb _]; [done|]. rewrite decide_False; [done|]. intros ->. revert Hb. unfold is_digit. cbn. lia.
Qed.

Lemma parse_digits w s v : s ≠ [] → Forall is_digit s → digits_value 0 s = Some v → v < 2 ^ w → parse_uint w s = Some v.
Proof.
  intros Hs Hd Hv Hw. unfold parse_uint. rewrite digits_not_plus by done. destruct s; [done|].
  rewrite Hv. cbn [mbind option_bind]. by rewrite (proj2 (Z.ltb_lt _ _)).
Qed.

Lemma parse_show w n : 0 ≤ n < 2 ^ w → parse_uint w (show n) = Some n.
Proof. intros [Hn Hw]. destruct (show_spec n Hn) as (? & ? & ?). by apply parse_digits. Qed.

(** The three digits of a checksum. *)
Lemma show_padded3 c : 0 ≤ c < 256 →
  length (show_padded 3 c) = 3%nat ∧ Forall is_digit (show_padded 3 c) ∧ parse_uint 32 (show_padded 3 c) = Some c.
Proof.
  intros Hc. pose (good n := (length (show_padded 3 n) =? 3)%nat && forallb (between 48 57) (show_padded 3 n) &&
    bool_decide (parse_uint 32 (show_padded 3 n) = Some n)).
  assert (forallb good (Z.of_nat <$> seq 0 256) = true) as H by (vm_compute; reflexivity).
  rewrite forallb_forall in H. specialize (H c). unfold good in H.
  rewrite !andb_true_iff, Nat.eqb_eq, bool_decide_eq_true in H.
  destruct H as [[H1 H2] H3].
  { apply list_elem_of_In, list_elem_of_fmap. exists (Z.to_nat c). split; [lia|]. apply elem_of_seq. lia. }
  split; [done|]. split; [|done]. apply Forall_forall. intros b Hb. rewrite forallb_forall in H2.
  apply list_elem_of_In, H2 in Hb. unfold between in Hb. bool_to_prop. unfold is_digit. lia.
Qed.

(** ** Delimiters *)

Section Delimited.
Context (c : byte).
Implicit Types (w r : bytes).

Lemma split_app w r : c ∉ w → split c (w ++ (c :: r)) = w :: split c r.
Proof.
  induction w as [|b w IH]; intros Hw; cbn [app split]; [by rewrite decide_True|].
  apply not_elem_of_cons in Hw as [Hb Hw]. rewrite decide_False by congruence. by rewrite IH.
Qed.

Lemma split_once_app w r : c ∉ w → split_once c (w ++ (c :: r)) = Some (w, r).
Proof.
  induction w as [|b w IH]; intros Hw; cbn [app split_once]; [by rewrite decide_True|].
  apply not_elem_of_cons in Hw as [Hb Hw]. rewrite decide_False by congruence. by rewrite IH.
Qed.

Lemma match_indices_app i w r : match_indices c i (w ++ r) = match_indices c i w ++ match_indices c (i + length w) r.
Proof.
  revert i. induction w as [|b w IH]; intros i; cbn [app match_indices length]; [by rewrite Nat.add_0_r|].
  rewrite IH, Nat.add_succ_comm. by destruct (decide (b = c)).
Qed.

Lemma match_indices_clean i w : c ∉ w → match_indices c i w = [].
Proof.
  revert i. induction w as [|b w IH]; intros i Hw; cbn [match_indices]; [done|].
  apply not_elem_of_cons in Hw as [Hb Hw]. rewrite decide_False by congruence. by apply IH.
Qed.

Lemma rfind_clean pat w : c ∉ w → rfind (c :: pat) w = None.
Proof.
  induction w as [|b w IH]; intros Hw; cbn [rfind]; [done|].
  apply not_elem_of_cons in Hw as [Hb Hw]. rewrite IH by done. cbn [starts_with]. by rewrite bool_decide_eq_false_2.
Qed.
End Delimited.

Lemma rfind_app_r pat a b i : rfind pat b = Some i → rfind pat (a ++ b) = Some (length a + i)%nat.
Proof. intros H. induction a as [|x a IH]; cbn [app rfind length]; [done|]. by rewrite IH. Qed.

Lemma starts_with_app pat r : starts_with pat (pat ++ r) = true.
Proof. induction pat as [|p pat IH]; [done|]. cbn [app starts_with]. by rewrite bool_decide_eq_true_2, IH. Qed.

Lemma starts_with_prefix pat text : starts_with pat text = true → ∃ r, text = pat ++ r.
Proof.
  revert text. induction pat as [|p pat IH]; intros text H; [by exists text|].
  destruct text as [|b text]; [done|]. cbn [starts_with] in H. apply andb_true_iff in H as [->%bool_decide_eq_true H].
  destruct (IH text H) as (r & ->). by exists r.
Qed.

Lemma rfind_none pat text : pat ≠ [] → rfind pat text = None → ∀ j, starts_with pat (drop j text) = false.
Proof.
  intros Hpat. induction text as [|b text IH]; cbn [rfind]; intros Hr j.
  { rewrite drop_nil. by destruct pat. }
  destruct (rfind pat text); [done|]. destruct (starts_with pat (b :: text)) eqn:Hb; [done|].
  destruct j; cbn [drop]; [done|by apply IH].
Qed.

(** The last occurrence. *)
Lemma rfind_spec pat text m : pat ≠ [] →
  rfind pat text = Some m ↔
    starts_with pat (drop m text) = true ∧ ∀ j, (m < j)%nat → starts_with pat (drop j text) = false.
Proof.
  intros Hpat. revert m. induction text as [|b text IH]; intros m; cbn [rfind].
  { rewrite drop_nil. split; [done|]. intros [H _]. by destruct pat. }
  destruct (rfind pat text) as [i|] eqn:Hr.
  - destruct (proj1 (IH i) eq_refl) as [H1 H2]. split.
    + intros [= <-]. split; [done|]. intros [|j] Hj; [lia|]. cbn [drop]. apply H2. lia.
    + intros [H3 H4]. f_equal. destruct m as [|m]; [pose proof (H4 (S i) ltac:(lia)) as H5; cbn [drop] in H5; congruence|]. cbn [drop] in H3.
      destruct (decide (m < i)%nat) as [Hlt|]; [pose proof (H4 (S i) ltac:(lia)) as H5; cbn in H5; congruence|].
      destruct (decide (i < m)%nat); [|lia]. by rewrite (H2 m) in H3.
  - pose proof (rfind_none pat text Hpat Hr) as Hno.
    destruct (starts_with pat (b :: text)) eqn:Hb; split.
    + intros [= <-]. split; [done|]. intros [|j] Hj; [lia|]. cbn [drop]. apply Hno.
    + intros [H1 H2]. destruct m as [|m]; [done|]. cbn [drop] in H1. by rewrite Hno in H1.
    + done.
    + intros [H1 _]. destruct m as [|m]; cbn [drop] in H1; [congruence|]. by rewrite Hno in H1.
Qed.

(** ** The checksum is a sum *)

Lemma wrapping_sum_acc a bs : 0 ≤ a < 256 →
  foldl (λ acc b, (acc + byte_to_Z b) mod 256) a bs = (a + sumZ (byte_to_Z <$> bs)) mod 256.
Proof.
  revert a. induction bs as [|b bs IH]; intros a Ha; cbn [foldl fmap list_fmap]; autorewrite with velo_rw.
  { rewrite Z.add_0_r. by rewrite Z.mod_small. }
  rewrite IH by (apply Z.mod_pos_bound; lia). rewrite Z.add_mod_idemp_l by lia. f_equal. lia.
Qed.

Lemma wrapping_sum_eq bs : wrapping_sum bs = sumZ (byte_to_Z <$> bs) mod 256.
Proof. apply wrapping_sum_acc. lia. Qed.

Lemma wrapping_sum_range bs : 0 ≤ wrapping_sum bs < 256.
Proof. rewrite wrapping_sum_eq. apply Z.mod_pos_bound. lia. Qed.

(** Changing one byte changes the checksum. *)
Lemma wrapping_sum_insert bs i a b :
  bs !! i = Some a → a ≠ b → wrapping_sum (<[i := b]> bs) ≠ wrapping_sum bs.
Proof.
  intros Hi Hab. rewrite !wrapping_sum_eq. rewrite insert_take_drop by (by eapply lookup_lt_Some).
  rewrite <- (take_drop_middle bs i a Hi) at 3. rewrite !fmap_app. cbn [fmap list_fmap]. autorewrite with velo_rw.
  set (x := sumZ _). set (y := sumZ (byte_to_Z <$> drop _ _)). pose proof (byte_to_Z_range a). pose proof (byte_to_Z_range b).
  assert (byte_to_Z a ≠ byte_to_Z b) as Hne by (intros H'; by apply byte_to_Z_inj in H').
  intros H'. apply Z.cong_iff_0 in H'.
  replace (x + (byte_to_Z b + y) - (x + (byte_to_Z a + y))) with (byte_to_Z b - byte_to_Z a) in H' by lia.
  apply Z.mod_divide in H' as [k Hk]; lia.
Qed.
