(* ===== verification/FixParser.v ===== *)
(** * The FIX parser ([risk/src/fix.rs])

    Validation of a [NewOrderSingle]: checksum, body length and required tags,
    then the fields as a list (zero copy) or as a map (naive); and the builder
    of the fixtures.  Arithmetic is checked, as in a build with overflow checks:
    a panic is an outcome of its own. *)

From Stdlib Require Import Strings.String.
From stdpp Require Import strings.
From S2P Require Import Prelude Bytes PyFloat RustText.

Open Scope Z_scope.

Definition TAG_BEGIN_STRING : Z := 8.
Definition TAG_BODY_LENGTH : Z := 9.
Definition TAG_MSG_TYPE : Z := 35.
Definition TAG_CL_ORD_ID : Z := 11.
Definition TAG_SYMBOL : Z := 55.
Definition TAG_SIDE : Z := 54.
Definition TAG_ORDER_QTY : Z := 38.
Definition TAG_ORD_TYPE : Z := 40.
Definition TAG_PRICE : Z := 44.
Definition TAG_CHECKSUM : Z := 10.

Inductive FixParseError :=
| NotUtf8
| EmptyMessage
| MissingDelimiter
| InvalidTag (s : bytes)
| MissingRequiredTag (tag : Z)
| MalformedChecksumField
| MalformedField (tag : Z)
| ChecksumMismatch (expected computed : Z)
| BodyLengthMismatch (declared actual : Z)
| UnexpectedMsgType (s : bytes).

#[export] Instance FixParseError_eq_dec : EqDecision FixParseError.
Proof. solve_decision. Defined.

(** The outcome of a Rust function that returns a [Result] and may panic. *)
Inductive outcome (A : Type) := Done (a : A) | Err (e : FixParseError) | Panic.
Arguments Done {A} a.
Arguments Err {A} e.
Arguments Panic {A}.

#[export] Instance outcome_eq_dec `{EqDecision A} : EqDecision (outcome A).
Proof. solve_decision. Defined.

#[export] Instance outcome_ret : MRet outcome := λ A a, Done a.
#[export] Instance outcome_bind : MBind outcome := λ A B f m,
  match m with Done a => f a | Err e => Err e | Panic => Panic end.

Definition ok_or {A} (o : option A) (e : FixParseError) : outcome A :=
  match o with Some a => Done a | None => Err e end.
(** [if bad { return Err(e) }] *)
Definition reject (bad : bool) (e : FixParseError) : outcome unit := if bad then Err e else Done tt.
(** A condition whose failure is a panic. *)
Definition guard (ok : bool) : outcome unit := if ok then Done tt else Panic.

Abbreviation field := (Z * bytes)%type.

(** The loop over [text.split(SOH)]. *)
Fixpoint parse_fields (segments : list bytes) : outcome (list field) :=
  match segments with
  | [] => Done []
  | s :: segments =>
      match s with
      | [] => parse_fields segments
      | _ =>
          '(tag_str, value) ← ok_or (split_once EQUALS s) MissingDelimiter;
          tag ← ok_or (parse_uint 32 tag_str) (InvalidTag tag_str);
          fields ← parse_fields segments;
          Done ((tag, value) :: fields)
      end
  end.

(** The closure [get]: the first field with the tag. *)
Definition get (fields : list field) (tag : Z) : option bytes :=
  snd <$> List.find (λ f, f.1 =? tag) fields.

(** The loop over the required tags. *)
Fixpoint require_tags (fields : list field) (tags : list Z) : outcome unit :=
  match tags with
  | [] => Done tt
  | t :: tags => _ ← ok_or (get fields t) (MissingRequiredTag t); require_tags fields tags
  end.

Definition marker : bytes := SOH :: str "10=".

Definition validate_and_parse_fields (raw : bytes) : outcome (list field) :=
  _ ← reject (negb (utf8_ok raw)) NotUtf8;
  let text := raw in
  _ ← reject (bool_decide (text = [])) EmptyMessage;
  let soh_positions := match_indices SOH 0 text in
  _ ← reject (length soh_positions <? 3)%nat MissingDelimiter;
  marker_pos ← ok_or (rfind marker text) (MissingRequiredTag TAG_CHECKSUM);
  let computed := wrapping_sum (take (S marker_pos) text) in
  let value_start := (marker_pos + length marker)%nat in
  _ ← reject (length text <? value_start + 3)%nat MalformedChecksumField;
  _ ← guard (is_char_boundary text value_start && is_char_boundary text (value_start + 3));
  let checksum_str := take 3 (drop value_start text) in
  declared ← ok_or (parse_uint 32 checksum_str) MalformedChecksumField;
  let declared_checksum := declared mod 256 in
  _ ← reject (negb (declared_checksum =? computed)) (ChecksumMismatch declared_checksum computed);
  fields ← parse_fields (split SOH text);
  _ ← reject ((length fields <? 2)%nat || negb (default 0 (fields.*1 !! 0%nat) =? TAG_BEGIN_STRING))
        (MissingRequiredTag TAG_BEGIN_STRING);
  _ ← reject (negb (default 0 (fields.*1 !! 1%nat) =? TAG_BODY_LENGTH)) (MissingRequiredTag TAG_BODY_LENGTH);
  let body_start := S (default 0%nat (soh_positions !! 1%nat)) in
  declared_body_len ← ok_or (parse_uint 64 (default [] (fields.*2 !! 1%nat))) (MalformedField TAG_BODY_LENGTH);
  _ ← guard (body_start <=? marker_pos)%nat;
  let actual_body_len := Z.of_nat (marker_pos - body_start + 1) in
  _ ← reject (negb (declared_body_len =? actual_body_len))
        (BodyLengthMismatch declared_body_len actual_body_len);
  msg_type ← ok_or (get fields TAG_MSG_TYPE) (MissingRequiredTag TAG_MSG_TYPE);
  _ ← reject (negb (bool_decide (msg_type = str "D"))) (UnexpectedMsgType msg_type);
  _ ← require_tags fields [TAG_CL_ORD_ID; TAG_SYMBOL; TAG_SIDE; TAG_ORDER_QTY; TAG_ORD_TYPE];
  _ ← reject (bool_decide (get fields TAG_ORD_TYPE = Some (str "2")) && bool_decide (get fields TAG_PRICE = None))
        (MissingRequiredTag TAG_PRICE);
  Done fields.

(** [collect] into a [HashMap]: a later field replaces an earlier one. *)
Definition to_map (fields : list field) : gmap Z bytes :=
  fold_left (λ m f, <[f.1 := f.2]> m) fields ∅.

Definition parse_naive (raw : bytes) : outcome (gmap Z bytes) :=
  fields ← validate_and_parse_fields raw; Done (to_map fields).

(** A [FixField] is the pair of its tag and value. *)
Definition parse_zero_copy (raw : bytes) : outcome (list field) :=
  fields ← validate_and_parse_fields raw; Done fields.

(** ** The builder *)

Record NewOrderSingleFields := {
  seq_num : Z;
  cl_ord_id : bytes;
  symbol : bytes;
  side : bytes;        (* one char, as its UTF-8 bytes *)
  order_qty : Z;
  ord_type : bytes;    (* one char *)
  price : option float;
}.

Definition build_new_order_single (f : NewOrderSingleFields) : bytes :=
  let body := str "35=D" ++ [SOH] in
  let body := body ++ str "49=SENDER" ++ [SOH] in
  let body := body ++ str "56=TARGET" ++ [SOH] in
  let body := body ++ str "34=" ++ show (seq_num f) ++ [SOH] in
  let body := body ++ str "52=20260101-00:00:00" ++ [SOH] in
  let body := body ++ str "11=" ++ cl_ord_id f ++ [SOH] in
  let body := body ++ str "55=" ++ symbol f ++ [SOH] in
  let body := body ++ str "54=" ++ side f ++ [SOH] in
  let body := body ++ str "38=" ++ show (order_qty f) ++ [SOH] in
  let body := body ++ str "40=" ++ ord_type f ++ [SOH] in
  let body := match price f with Some p => body ++ str "44=" ++ show_fixed2 p ++ [SOH] | None => body end in
  let body := body ++ str "59=0" ++ [SOH] in
  let message := str "8=FIX.4.2" ++ [SOH] ++ str "9=" ++ show (Z.of_nat (length body)) ++ [SOH] in
  let message := message ++ body in
  let checksum := wrapping_sum message in
  message ++ str "10=" ++ show_padded 3 checksum ++ [SOH].

Definition sample_fields : NewOrderSingleFields :=
  {| seq_num := 1; cl_ord_id := str "ORDER1"; symbol := str "ESZ5"; side := str "1"; order_qty := 10;
     ord_type := str "2"; price := Some (dyadic 4800 0) |}.

(** ** Malformed messages that panic *)

(** Two malformed messages make the parser panic, although malformed input
    is meant to be rejected with an error: a message with an empty body and a
    correct checksum, where the computation of the body length goes below zero;
    and a valid UTF-8 text whose checksum field is two digits and a two-byte
    character, where the slice of three bytes ends inside the character. *)
Theorem fix_malformed_panics :
  let empty_body := str "8=FIX.4.2" ++ [SOH] ++ str "9=0" ++ [SOH] ++ str "10=198" ++ [SOH] in
  let split_char := str "8=FIX.4.2" ++ [SOH] ++ str "9=0" ++ [SOH] ++ str "10=19" ++ [xc3; xa9] ++ [SOH] in
  wrapping_sum (str "8=FIX.4.2" ++ [SOH] ++ str "9=0" ++ [SOH]) = 198 ∧
  parse_naive empty_body = Panic ∧ parse_zero_copy empty_body = Panic ∧
  utf8_ok split_char = true ∧ parse_naive split_char = Panic ∧ parse_zero_copy split_char = Panic.
Proof. split_and!; vm_compute; reflexivity. Qed.

(** ** Corruption *)

Lemma marker_ne : marker ≠ [].
Proof. done. Qed.

Lemma done_bind {A B} (m : outcome A) (f : A → outcome B) b : m ≫= f = Done b → ∃ a, m = Done a ∧ f a = Done b.
Proof. destruct m as [a| |]; [|done..]. intros H. by exists a. Qed.

Lemma reject_done b e u : reject b e = Done u → b = false.
Proof. by destruct b. Qed.
Lemma guard_done b u : guard b = Done u → b = true.
Proof. by destruct b. Qed.
Lemma ok_or_done {A} (o : option A) e a : ok_or o e = Done a → o = Some a.
Proof. destruct o; [by intros [= ->]|done]. Qed.

(** Take the next step of an accepted message apart. *)
Ltac accept H x Hx :=
  apply done_bind in H as (x & Hx & H);
  first [apply reject_done in Hx | apply guard_done in Hx | apply ok_or_done in Hx | idtac].

(** What the checks up to the checksum have established. *)
Lemma accepted_checksum raw fields : validate_and_parse_fields raw = Done fields →
  ∃ m declared, rfind marker raw = Some m ∧ (m + 7 ≤ length raw)%nat ∧
    is_char_boundary raw (m + 4) && is_char_boundary raw (m + 7) = true ∧
    parse_uint 32 (take 3 (drop (m + 4) raw)) = Some declared ∧
    declared mod 256 = wrapping_sum (take (S m) raw).
Proof.
  unfold validate_and_parse_fields. intros H. accept H x1 H1. accept H x2 H2. accept H x3 H3.
  accept H m Hm. accept H x5 H5. accept H x6 H6. accept H declared Hd. accept H x8 H8. clear H.
  exists m, declared. change (length marker) with 4%nat in *. rewrite <- Nat.add_assoc in H5, H6.
  change (4 + 3)%nat with 7%nat in *. apply negb_false_iff, Z.eqb_eq in H8. apply Nat.ltb_ge in H5. done.
Qed.

Lemma drop_insert_high (text : bytes) i j b : (i < j)%nat → drop j (<[i := b]> text) = drop j text.
Proof. intros. by apply drop_insert_lt. Qed.

Lemma boundary_insert text i j b : (i < j)%nat → is_char_boundary (<[i := b]> text) j = is_char_boundary text j.
Proof. intros. unfold is_char_boundary. by rewrite drop_insert_high, length_insert. Qed.

(** The last marker is not moved by a change in front of it. *)
Lemma rfind_insert text i m b : rfind marker text = Some m → (i < m)%nat → rfind marker (<[i := b]> text) = Some m.
Proof.
  rewrite !rfind_spec by apply marker_ne. intros [H1 H2] Hi. split; [by rewrite drop_insert_high by lia|].
  intros j Hj. rewrite drop_insert_high by lia. by apply H2.
Qed.

(** (C18) The checksum catches every corrupted byte: if a message is accepted, then
    after replacing any single byte in front of its checksum field by a
    different one it is rejected, with a checksum mismatch unless the new bytes
    are not UTF-8 or too few delimiters are left; it does not panic and is not
    rejected for any other reason. *)
Theorem fix_corruption_detected (raw : bytes) (fields : list field) (m i : nat) (a b : byte) :
  validate_and_parse_fields raw = Done fields → rfind marker raw = Some m →
  (i < m)%nat → raw !! i = Some a → a ≠ b →
  validate_and_parse_fields (<[i := b]> raw) =
    if negb (utf8_ok (<[i := b]> raw)) then Err NotUtf8
    else if (length (match_indices SOH 0 (<[i := b]> raw)) <? 3)%nat then Err MissingDelimiter
    else Err (ChecksumMismatch (wrapping_sum (take (S m) raw)) (wrapping_sum (take (S m) (<[i := b]> raw)))).
Proof.
  intros Hacc Hm Hi Ha Hab. apply accepted_checksum in Hacc as (m' & declared & Hm' & Hl & Hc & Hd & Hs).
  assert (m' = m) as -> by congruence.
  unfold validate_and_parse_fields. destruct (utf8_ok (<[i := b]> raw)); [|done]. cbn [negb reject mbind outcome_bind].
  assert (<[i := b]> raw ≠ []) as Hne.
  { intros H. apply (f_equal length) in H. rewrite length_insert in H. apply lookup_lt_Some in Ha. destruct raw; cbn in *; lia. }
  rewrite bool_decide_eq_false_2 by done. cbn [reject].
  destruct (length (match_indices SOH 0 _) <? 3)%nat; [done|]. cbn [reject mbind outcome_bind].
  rewrite (rfind_insert raw i m b) by done. cbn [ok_or mbind outcome_bind]. cbv zeta. change (length marker) with 4%nat.
  rewrite <- Nat.add_assoc. change (4 + 3)%nat with 7%nat.
  rewrite length_insert, (proj2 (Nat.ltb_ge _ _)) by done. cbn [reject mbind outcome_bind].
  rewrite !boundary_insert, Hc by lia. cbn [guard mbind outcome_bind].
  rewrite drop_insert_high, Hd by lia. cbn [ok_or mbind outcome_bind]. rewrite Hs.
  rewrite take_insert_lt by lia.
  rewrite (proj2 (Z.eqb_neq _ _)); [done|]. intros H. symmetry in H. revert H.
  apply (wrapping_sum_insert _ _ a); [|done]. rewrite lookup_take_lt; [done|lia].
Qed.

Lemma fix_corruption_detected_witness :
  let raw := build_new_order_single sample_fields in
  let raw' := <[80%nat := x58]> raw in
  raw !! 80%nat = Some x45 ∧ validate_and_parse_fields raw' = Err (ChecksumMismatch 100 119).
Proof.
  intros raw raw'. split; [vm_compute; reflexivity|].
  pose (fields := match validate_and_parse_fields raw with Done f => f | _ => [] end).
  assert (validate_and_parse_fields raw = Done fields) as Hf by (vm_compute; reflexivity).
  pose proof (fix_corruption_detected raw fields (Nat.sub (length raw) 8) 80 x45 x58 Hf
    ltac:(vm_compute; reflexivity) ltac:(vm_compute; lia) ltac:(vm_compute; reflexivity) ltac:(discriminate)) as H.
  subst raw'. rewrite H. vm_compute. reflexivity.
Defined.

(** ** Framed messages *)

Definition render_field (f : field) : bytes := show f.1 ++ (EQUALS :: (f.2 ++ [SOH])).
Definition render (fs : list field) : bytes := concat (render_field <$> fs).

(** A tag that fits and a value without a delimiter. *)
Definition field_ok (f : field) : Prop := 0 ≤ f.1 < 2 ^ 32 ∧ (SOH ∉ f.2) ∧ utf8_ok f.2 = true.

Definition head_fields (body : list field) : list field :=
  [(TAG_BEGIN_STRING, str "FIX.4.2"); (TAG_BODY_LENGTH, show (Z.of_nat (length (render body))))].
Definition trailer (body : list field) : field :=
  (TAG_CHECKSUM, show_padded 3 (wrapping_sum (render (head_fields body ++ body)))).

(** A body between its begin string and body length and its checksum. *)
Definition framed (body : list field) : list field := head_fields body ++ body ++ [trailer body].
Definition frame (body : list field) : bytes := render (framed body).

(** The checks that depend on the fields only. *)
Definition judge (fields : list field) : outcome (list field) :=
  msg_type ← ok_or (get fields TAG_MSG_TYPE) (MissingRequiredTag TAG_MSG_TYPE);
  _ ← reject (negb (bool_decide (msg_type = str "D"))) (UnexpectedMsgType msg_type);
  _ ← require_tags fields [TAG_CL_ORD_ID; TAG_SYMBOL; TAG_SIDE; TAG_ORDER_QTY; TAG_ORD_TYPE];
  _ ← reject (bool_decide (get fields TAG_ORD_TYPE = Some (str "2")) && bool_decide (get fields TAG_PRICE = None))
        (MissingRequiredTag TAG_PRICE);
  Done fields.

Lemma render_app a b : render (a ++ b) = render a ++ render b.
Proof. unfold render. by rewrite fmap_app, concat_app. Qed.

Lemma digit_not c s : ¬ is_digit c → Forall is_digit s → c ∉ s.
Proof. intros Hc Hs Hin. rewrite Forall_forall in Hs. by apply Hc, Hs. Qed.

Lemma SOH_not_digit : ¬ is_digit SOH.
Proof. unfold is_digit. cbn. lia. Qed.
Lemma EQUALS_not_digit : ¬ is_digit EQUALS.
Proof. unfold is_digit. cbn. lia. Qed.

Lemma show_digits_only n : 0 ≤ n → Forall is_digit (show n).
Proof. intros. by apply show_spec. Qed.

Lemma digits_ascii s : Forall is_digit s → Forall is_ascii s.
Proof. intros H. eapply Forall_impl; [exact H|]. unfold is_digit, is_ascii. lia. Qed.

(** A field up to its delimiter. *)
Definition field_text (f : field) : bytes := show f.1 ++ (EQUALS :: f.2).

Lemma render_field_text f : render_field f = field_text f ++ [SOH].
Proof. unfold render_field, field_text. by rewrite <- app_assoc. Qed.

Lemma field_text_clean f : field_ok f → SOH ∉ field_text f.
Proof.
  intros (Ht & Hv & _). unfold field_text. rewrite not_elem_of_app, not_elem_of_cons. split; [|split; [done|done]].
  eapply digit_not; [apply SOH_not_digit|]. apply show_digits_only. lia.
Qed.

Lemma render_cons f fs : render (f :: fs) = field_text f ++ (SOH :: render fs).
Proof. unfold render. cbn [fmap list_fmap concat]. by rewrite render_field_text, <- app_assoc. Qed.

Lemma render_utf8 fs : Forall field_ok fs → utf8_ok (render fs) = true.
Proof.
  induction 1 as [|f fs (Ht & _ & Hu) _ IH]; [done|]. rewrite render_cons. unfold field_text. rewrite <- app_assoc. cbn [app].
  apply utf8_app; [apply utf8_ascii, digits_ascii, show_digits_only; lia|]. rewrite utf8_ascii_cons by done.
  apply utf8_app; [done|]. by rewrite utf8_ascii_cons.
Qed.

Lemma parse_fields_render fs : Forall field_ok fs → parse_fields (split SOH (render fs)) = Done fs.
Proof.
  induction 1 as [|f fs Hf _ IH]; [done|]. rewrite render_cons, split_app by by apply field_text_clean.
  destruct Hf as (Ht & _ & _). destruct (show_spec f.1 ltac:(lia)) as (Hne & Hd & _). cbn [parse_fields].
  destruct (field_text f) as [|b r] eqn:He; [unfold field_text in He; by destruct (show f.1)|].
  rewrite <- He. unfold field_text. rewrite split_once_app by (eapply digit_not; [apply EQUALS_not_digit|done]).
  cbn [ok_or mbind outcome_bind]. rewrite parse_show by done. cbn [ok_or mbind outcome_bind]. rewrite IH.
  by destruct f.
Qed.

Lemma delimiters_render i fs : Forall field_ok fs → length (match_indices SOH i (render fs)) = length fs.
Proof.
  intros H. revert i. induction H as [|f fs Hf _ IH]; intros i; [done|].
  rewrite render_cons, match_indices_app, match_indices_clean by by apply field_text_clean.
  cbn [app match_indices]. rewrite decide_True by done. cbn [length]. by rewrite IH.
Qed.

(** The delimiter of the second field is the last byte of the first two. *)
Lemma second_delimiter f g fs : field_ok f → field_ok g →
  match_indices SOH 0 (render (f :: g :: fs)) !! 1%nat = Some (length (render [f; g]) - 1)%nat.
Proof.
  intros Hf Hg. rewrite !render_cons, !match_indices_app, match_indices_clean by by apply field_text_clean.
  cbn [app match_indices]. rewrite decide_True by done. cbn [lookup list_lookup].
  rewrite match_indices_app, match_indices_clean by by apply field_text_clean.
  cbn [app match_indices]. rewrite decide_True by done. cbn [lookup list_lookup]. f_equal.
  change (render []) with (@nil byte). rewrite length_app. cbn [length]. rewrite length_app. cbn [length]. lia.
Qed.

(** The last marker is in front of the checksum. *)
Lemma marker_render fs f c : SOH ∉ c → rfind marker (render (fs ++ [f]) ++ str "10=" ++ c ++ [SOH]) =
  Some (length (render (fs ++ [f])) - 1)%nat.
Proof.
  intros Hc. rewrite render_app. change (render [f]) with (render_field f ++ []). rewrite app_nil_r, render_field_text.
  rewrite (app_assoc (render fs)), <- app_assoc. cbn [app].
  rewrite (rfind_app_r marker _ _ 0); [f_equal; rewrite !length_app; cbn [length]; lia|].
  cbn [rfind]. change (SOH :: str "10=" ++ c ++ [SOH]) with (marker ++ c ++ [SOH]).
  rewrite starts_with_app.
  enough (rfind marker (str "10=" ++ c ++ [SOH]) = None) as -> by done.
  assert (∀ w, SOH ∉ w → rfind marker (w ++ [SOH]) = None) as H.
  { clear. induction w as [|b w IH]; intros Hw; [done|]. apply not_elem_of_cons in Hw as [Hb Hw].
    cbn [app rfind]. rewrite IH by done. cbn [starts_with marker]. by rewrite bool_decide_eq_false_2. }
  rewrite app_assoc. apply H. rewrite not_elem_of_app. split; [|done]. vm_compute. intros Hin.
  repeat (apply elem_of_cons in Hin as [Hin|Hin]; [discriminate|]). by apply elem_of_nil in Hin.
Qed.

Lemma trailer_ok body : length (trailer body).2 = 3%nat ∧ Forall is_digit (trailer body).2 ∧
  parse_uint 32 (trailer body).2 = Some (wrapping_sum (render (head_fields body ++ body))).
Proof. apply show_padded3, wrapping_sum_range. Qed.

Lemma framed_ok body : Forall field_ok body → Forall field_ok (framed body).
Proof.
  intros H. destruct (trailer_ok body) as (_ & Hd & _).
  pose proof (show_digits_only (Z.of_nat (length (render body))) ltac:(lia)) as Hs.
  unfold framed, head_fields. cbn [app]. repeat apply Forall_cons_2.
  - split; [change (0 ≤ 8 < 2 ^ 32); lia|]. split; [|done]. vm_compute. intros Hin.
    repeat (apply elem_of_cons in Hin as [Hin|Hin]; [discriminate|]). by apply elem_of_nil in Hin.
  - split; [change (0 ≤ 9 < 2 ^ 32); lia|]. split; [by eapply digit_not; [apply SOH_not_digit|]|].
    by apply utf8_ascii, digits_ascii.
  - apply Forall_app. split; [done|]. apply Forall_singleton.
    split; [change (0 ≤ 10 < 2 ^ 32); lia|]. split; [by eapply digit_not; [apply SOH_not_digit|]|].
    by apply utf8_ascii, digits_ascii.
Qed.

Lemma frame_eq body : frame body = render (head_fields body ++ body) ++ str "10=" ++ (trailer body).2 ++ [SOH].
Proof.
  unfold frame, framed. rewrite app_assoc, render_app. f_equal.
  change (render [trailer body]) with (render_field (trailer body) ++ []). by rewrite app_nil_r.
Qed.

Lemma render_length fs : (length fs ≤ length (render fs))%nat.
Proof.
  induction fs as [|f fs IH]; [done|]. rewrite render_cons, length_app. cbn [length]. lia.
Qed.

Lemma framed_marker body : body ≠ [] → rfind marker (frame body) = Some (length (render (head_fields body ++ body)) - 1)%nat.
Proof.
  intros Hb. destruct (exists_last Hb) as (fs & f & ->). rewrite frame_eq. rewrite (app_assoc (head_fields _)).
  apply marker_render. destruct (trailer_ok (fs ++ [f])) as (_ & Hd & _). by eapply digit_not; [apply SOH_not_digit|].
Qed.

Lemma boundary_of text i b r : drop i text = b :: r → is_ascii b → is_char_boundary text i = true.
Proof. intros Hd Hb. unfold is_char_boundary. by rewrite Hd, ascii_not_cont. Qed.

(** A correctly framed message is judged by its fields alone: the checksum, the
    body length and the delimiters are in order. *)
Lemma frame_judged body : Forall field_ok body → body ≠ [] → Z.of_nat (length (frame body)) < 2 ^ 64 →
  validate_and_parse_fields (frame body) = judge (framed body).
Proof.
  intros Hok Hb Hlen. pose proof (framed_ok body Hok) as Hf. destruct (trailer_ok body) as (Hc3 & Hcd & Hcp).
  pose proof (framed_marker body Hb) as Hm. set (p := render (head_fields body ++ body)) in *.
  set (ck := (trailer body).2) in *.
  assert (length p = length (render (head_fields body)) + length (render body))%nat as Hp.
  { unfold p. by rewrite render_app, length_app. }
  pose proof (render_length body) as Hrb. pose proof (render_length (head_fields body)) as Hrh.
  assert (0 < length body)%nat as Hb0 by (destruct body; [done|cbn; lia]).
  assert (length (head_fields body) = 2)%nat as Hh2 by done.
  assert (frame body = p ++ str "10=" ++ ck ++ [SOH]) as Htext by apply frame_eq.
  assert (length (frame body) = length p + 7)%nat as Hl.
  { rewrite Htext, !length_app, Hc3. done. }
  assert (drop (length p + 3) (frame body) = ck ++ [SOH]) as Hd4.
  { rewrite Htext, <- drop_drop, drop_app_length. done. }
  assert (drop (length p + 6) (frame body) = [SOH]) as Hd7.
  { replace (length p + 6)%nat with (length p + 3 + 3)%nat by lia. rewrite <- drop_drop, Hd4, <- Hc3. apply drop_app_length. }
  pose proof (render_utf8 _ Hf) as Hu8. pose proof (delimiters_render 0 _ Hf) as Hdel.
  pose proof (parse_fields_render _ Hf) as Hpf. fold (frame body) in Hu8, Hdel, Hpf.
  unfold validate_and_parse_fields. rewrite Hu8. cbn [negb reject mbind outcome_bind].
  rewrite bool_decide_eq_false_2 by (intros He; rewrite He in Hl; cbn in Hl; lia). cbn [reject mbind outcome_bind].
  rewrite Hdel.
  assert ((length (framed body) <? 3)%nat = false) as ->.
  { apply Nat.ltb_ge. unfold framed. rewrite !length_app. cbn [length]. lia. }
  cbn [reject mbind outcome_bind]. rewrite Hm. cbn [ok_or mbind outcome_bind]. cbv zeta.
  change (length marker) with 4%nat. replace (length p - 1 + 4)%nat with (length p + 3)%nat by lia.
  replace (length p + 3 + 3)%nat with (length p + 6)%nat by lia. replace (S (length p - 1)) with (length p) by lia.
  rewrite (proj2 (Nat.ltb_ge _ _)) by lia. cbn [reject mbind outcome_bind].
  assert (take 3 (ck ++ [SOH]) = ck) as Hck by (rewrite <- Hc3; apply take_app_length).
  rewrite Hd4, Hck, Hcp.
  assert (is_char_boundary (frame body) (length p + 3) = true) as ->.
  { destruct ck as [|c ck']; [done|]. eapply boundary_of; [exact Hd4|]. apply Forall_cons in Hcd as [Hcd _].
    unfold is_digit, is_ascii in *. lia. }
  assert (is_char_boundary (frame body) (length p + 6) = true) as -> by (eapply boundary_of; [exact Hd7|done]).
  cbn [andb guard ok_or mbind outcome_bind].
  assert (take (length p) (frame body) = p) as -> by (rewrite Htext; apply take_app_length).
  rewrite Z.mod_small by apply wrapping_sum_range. rewrite Z.eqb_refl. cbn [negb reject mbind outcome_bind].
  rewrite Hpf. cbn [mbind outcome_bind].
  assert ((length (framed body) <? 2)%nat = false) as ->.
  { apply Nat.ltb_ge. unfold framed. rewrite !length_app. cbn [length]. lia. }
  cbn [framed head_fields app fmap list_fmap fst snd lookup list_lookup default from_option id].
  rewrite !Z.eqb_refl. cbn [orb negb reject mbind outcome_bind].
  assert (match_indices SOH 0 (frame body) !! 1%nat = Some (length (render (head_fields body)) - 1)%nat) as ->.
  { apply (second_delimiter _ _ (body ++ [trailer body])); unfold framed, head_fields in Hf; cbn [app] in Hf;
      [by apply Forall_cons in Hf as [? _]|by apply Forall_cons in Hf as [_ [? _]%Forall_cons]]. }
  cbn [default from_option id]. rewrite parse_show by lia. cbn [ok_or mbind outcome_bind].
  replace (S (length (render (head_fields body)) - 1)) with (length (render (head_fields body))) by lia.
  rewrite (proj2 (Nat.leb_le _ _)) by lia. cbn [guard mbind outcome_bind].
  replace (length p - 1 - length (render (head_fields body)) + 1)%nat with (length (render body)) by lia.
  rewrite Z.eqb_refl. done.
Qed.

(** ** The builder's messages *)

Definition body_fields (f : NewOrderSingleFields) : list field :=
  [(35, str "D"); (49, str "SENDER"); (56, str "TARGET"); (34, show (seq_num f)); (52, str "20260101-00:00:00");
   (11, cl_ord_id f); (55, symbol f); (54, side f); (38, show (order_qty f)); (40, ord_type f)] ++
  (match price f with Some p => [(44, show_fixed2 p)] | None => [] end) ++ [(59, str "0")].

Definition text_ok (s : bytes) : Prop := (SOH ∉ s) ∧ utf8_ok s = true.
Definition order_ok (f : NewOrderSingleFields) : Prop :=
  0 ≤ seq_num f ∧ 0 ≤ order_qty f ∧ text_ok (cl_ord_id f) ∧ text_ok (symbol f) ∧ text_ok (side f) ∧ text_ok (ord_type f).

Lemma render_field_tag n v t : show n ++ [EQUALS] = t → render_field (n, v) = t ++ v ++ [SOH].
Proof. intros <-. unfold render_field. by rewrite <- app_assoc. Qed.

Lemma build_frame f : build_new_order_single f = frame (body_fields f).
Proof.
  assert (∀ body, render body = concat (render_field <$> body)) as Hr by done.
  assert (str "35=D" ++ [SOH] ++ str "49=SENDER" ++ [SOH] ++ str "56=TARGET" ++ [SOH] ++ str "34=" ++ show (seq_num f) ++ [SOH] ++
    str "52=20260101-00:00:00" ++ [SOH] ++ str "11=" ++ cl_ord_id f ++ [SOH] ++ str "55=" ++ symbol f ++ [SOH] ++
    str "54=" ++ side f ++ [SOH] ++ str "38=" ++ show (order_qty f) ++ [SOH] ++ str "40=" ++ ord_type f ++ [SOH] ++
    match price f with Some p => str "44=" ++ show_fixed2 p ++ [SOH] | None => [] end ++ str "59=0" ++ [SOH]
    = render (body_fields f)) as Hbody.
  { rewrite Hr. unfold body_fields. destruct (price f) as [p|]; cbn [app fmap list_fmap concat];
      repeat (erewrite render_field_tag; [|vm_compute; reflexivity]); rewrite <- ?app_assoc; reflexivity. }
  assert (∀ body, render (head_fields body) =
    str "8=FIX.4.2" ++ [SOH] ++ str "9=" ++ show (Z.of_nat (length (render body))) ++ [SOH]) as Hhead.
  { intros body. rewrite Hr. unfold head_fields. cbn [fmap list_fmap concat].
    repeat (erewrite render_field_tag; [|vm_compute; reflexivity]). rewrite <- ?app_assoc, ?app_nil_r. reflexivity. }
  rewrite frame_eq. unfold build_new_order_single, trailer. cbn [snd]. rewrite render_app, Hhead, <- Hbody.
  destruct (price f) as [p|]; cbv zeta; rewrite <- ?app_assoc; reflexivity.
Qed.

Lemma text_ascii s : Forall (λ b, is_ascii b ∧ b ≠ SOH) s → text_ok s.
Proof.
  intros H. split; [|apply utf8_ascii; eapply Forall_impl; [exact H|]; by intros ? []].
  rewrite Forall_forall in H. intros Hin. by destruct (H _ Hin).
Qed.

Lemma digits_text s : Forall is_digit s → Forall (λ b, is_ascii b ∧ b ≠ SOH) s.
Proof.
  intros H. eapply Forall_impl; [exact H|]. intros b Hb. split; [unfold is_digit, is_ascii in *; lia|].
  intros ->. by apply SOH_not_digit.
Qed.

Lemma padded_digits w n : 0 ≤ n → Forall is_digit (show_padded w n).
Proof.
  intros. unfold show_padded. apply Forall_app. split; [|by apply show_digits_only].
  apply Forall_replicate. by apply digit_is_digit.
Qed.

Lemma div_rne_nonneg a b : 0 ≤ a → 0 < b → 0 ≤ div_rne a b.
Proof.
  intros. unfold div_rne. pose proof (Z.div_pos a b). destruct (_ ?= _); [destruct (Z.even _)|..]; lia.
Qed.

Lemma fixed2_text p : text_ok (show_fixed2 p).
Proof.
  apply text_ascii. destruct p as [s| | |s m e]; [destruct s; decide_now|destruct s; decide_now|decide_now|].
  cbn [show_fixed2]. cbv zeta. set (n := if 0 <=? e then _ else _).
  assert (0 ≤ n) as Hn.
  { subst n. destruct (Z.leb_spec 0 e); [pose proof (Z.pow_pos_nonneg 2 e); nia|].
    apply div_rne_nonneg; [lia|apply Z.pow_pos_nonneg; lia]. }
  apply Forall_app. split; [destruct s; decide_now|]. apply Forall_app.
  split; [apply digits_text, show_digits_only, Z.div_pos; lia|]. apply Forall_app. split; [decide_now|].
  apply digits_text, padded_digits, Z.mod_pos_bound. lia.
Qed.

Lemma show_text n : 0 ≤ n → text_ok (show n).
Proof. intros. by apply text_ascii, digits_text, show_digits_only. Qed.

Lemma body_fields_ok f : order_ok f → Forall field_ok (body_fields f).
Proof.
  intros (Hs & Hq & Hid & Hsym & Hside & Hty).
  assert (∀ n v, 0 ≤ n < 2 ^ 32 → text_ok v → field_ok (n, v)) as Hf by (intros n v Hn [? ?]; done).
  unfold body_fields. cbn [app].
  repeat (apply Forall_cons; split; [apply Hf; [lia|]; (assumption || (by apply show_text) || (apply text_ascii; decide_now))|]).
  apply Forall_app. split; [|apply Forall_singleton, Hf; [lia|apply text_ascii; decide_now]].
  destruct (price f) as [p|]; [|constructor]. apply Forall_singleton, Hf; [lia|]. apply fixed2_text.
Qed.

(** (C19) Round trip: the message built for an order whose texts are valid and
    contain no delimiter is parsed by both parsers into exactly its fields, in
    order, between the begin string and body length and the checksum; unless it
    is a limit order without a price, which both reject for that. *)
Theorem fix_round_trip (f : NewOrderSingleFields) :
  order_ok f → Z.of_nat (length (build_new_order_single f)) < 2 ^ 64 →
  let fields := framed (body_fields f) in
  if bool_decide (ord_type f = str "2") && bool_decide (price f = None) then
    parse_zero_copy (build_new_order_single f) = Err (MissingRequiredTag TAG_PRICE) ∧
    parse_naive (build_new_order_single f) = Err (MissingRequiredTag TAG_PRICE)
  else
    parse_zero_copy (build_new_order_single f) = Done fields ∧
    parse_naive (build_new_order_single f) = Done (to_map fields) ∧
    get fields TAG_CL_ORD_ID = Some (cl_ord_id f) ∧ get fields TAG_SYMBOL = Some (symbol f) ∧
    get fields TAG_SIDE = Some (side f) ∧ get fields TAG_ORDER_QTY = Some (show (order_qty f)) ∧
    get fields TAG_ORD_TYPE = Some (ord_type f) ∧ get fields TAG_PRICE = show_fixed2 <$> price f.
Proof.
  intros Hok Hlen fields. rewrite build_frame in *.
  pose proof (frame_judged (body_fields f) (body_fields_ok f Hok) ltac:(by destruct (price f)) Hlen) as Hj.
  fold fields in Hj. unfold parse_zero_copy, parse_naive. rewrite Hj. clear Hj.
  assert (get fields TAG_MSG_TYPE = Some (str "D") ∧ get fields TAG_CL_ORD_ID = Some (cl_ord_id f) ∧
    get fields TAG_SYMBOL = Some (symbol f) ∧ get fields TAG_SIDE = Some (side f) ∧
    get fields TAG_ORDER_QTY = Some (show (order_qty f)) ∧ get fields TAG_ORD_TYPE = Some (ord_type f) ∧
    get fields TAG_PRICE = show_fixed2 <$> price f) as (G0 & G1 & G2 & G3 & G4 & G5 & G6).
  { unfold get, fields, framed, body_fields, head_fields. cbn [app]. destruct (price f); cbn [app]; do 6 (split; [reflexivity|]); reflexivity. }
  unfold judge. rewrite G0. cbn [ok_or mbind outcome_bind].
  rewrite (bool_decide_eq_true_2 (str "D" = str "D")) by done. cbn [negb reject mbind outcome_bind require_tags].
  rewrite G1, G2, G3, G4, G5, G6. cbn [ok_or mbind outcome_bind].
  assert (bool_decide (Some (ord_type f) = Some (str "2")) = bool_decide (ord_type f = str "2")) as ->
    by (apply bool_decide_ext; split; [apply (inj Some)|apply (f_equal Some)]).
  assert (bool_decide (show_fixed2 <$> price f = None) = bool_decide (price f = None)) as ->
    by (apply bool_decide_ext; by destruct (price f)).
  destruct (bool_decide _ && bool_decide _); cbn [reject mbind outcome_bind]; [done|]. do 7 (split; [done|]). done.
Qed.

Lemma fix_round_trip_witness :
  parse_naive (build_new_order_single sample_fields) = Done (to_map (framed (body_fields sample_fields))) ∧
  get (framed (body_fields sample_fields)) TAG_PRICE = Some (str "4800.00").
Proof.
  assert (order_ok sample_fields) as Hok.
  { split; [cbn; lia|]. split; [cbn; lia|]. repeat split; try (vm_compute; reflexivity); decide_now. }
  pose proof (fix_round_trip sample_fields Hok ltac:(vm_compute; reflexivity)) as H.
  destruct H as (_ & H1 & _ & _ & _ & _ & _ & H2). split; [exact H1|]. rewrite H2. vm_compute. reflexivity.
Defined.

(** ** The two parsers *)

Lemma to_map_app fs f : to_map (fs ++ [f]) = <[f.1 := f.2]> (to_map fs).
Proof. unfold to_map. by rewrite fold_left_app. Qed.

(** The map holds the last field of each tag. *)
Lemma to_map_lookup fs t : to_map fs !! t = get (reverse fs) t.
Proof.
  induction fs as [|f fs IH] using rev_ind; [done|]. rewrite to_map_app, reverse_snoc.
  unfold get in *. cbn [List.find]. destruct (Z.eqb_spec f.1 t) as [<-|Hne].
  - by rewrite lookup_insert_eq.
  - by rewrite lookup_insert_ne, IH.
Qed.

Lemma get_some fs t v : get fs t = Some v → (t, v) ∈ fs.
Proof.
  unfold get. destruct (List.find _ fs) as [[t' v']|] eqn:Hf; [|done]. cbn. intros [= <-].
  apply find_some in Hf as [Hin Ht%Z.eqb_eq]. cbn in Ht. subst t'. by apply list_elem_of_In.
Qed.

Lemma get_in fs t v : NoDup fs.*1 → (t, v) ∈ fs → get fs t = Some v.
Proof.
  unfold get. induction fs as [|[t' v'] fs IH]; intros Hnd Hin; [by apply elem_of_nil in Hin|].
  cbn [fmap list_fmap fst] in Hnd. apply NoDup_cons in Hnd as [Hnt Hnd]. cbn [List.find fst].
  apply elem_of_cons in Hin as [[= <- <-]|Hin]; [by rewrite Z.eqb_refl|].
  rewrite (proj2 (Z.eqb_neq _ _)); [by apply IH|]. intros ->. apply Hnt. by apply (list_elem_of_fmap_2 fst fs (t, v)).
Qed.

Lemma get_reverse fs t : NoDup fs.*1 → get (reverse fs) t = get fs t.
Proof.
  intros Hnd. assert (NoDup (reverse fs).*1) as Hnd'.
  { rewrite fmap_reverse. by apply NoDup_Permutation_proper with fs.*1; [apply reverse_Permutation|]. }
  destruct (get fs t) as [v|] eqn:H1.
  - apply get_some in H1. apply get_in; [done|]. by apply elem_of_reverse.
  - destruct (get (reverse fs) t) as [v|] eqn:H2; [|done]. apply get_some in H2. rewrite elem_of_reverse in H2.
    apply (get_in fs) in H2; [congruence|done].
Qed.

(** (C34) The two parsers accept, reject and panic on the same messages, with the
    same error.  On an accepted message the map of the naive parser holds the
    last field of every tag, so it agrees with the first field, which the
    validation and a reader of the zero copy list look at, whenever no tag is
    repeated. *)
Theorem fix_parsers_agree (raw : bytes) :
  match parse_zero_copy raw with
  | Err e => parse_naive raw = Err e
  | Panic => parse_naive raw = Panic
  | Done fields =>
      ∃ m, parse_naive raw = Done m ∧ (∀ t, m !! t = get (reverse fields) t) ∧
        (NoDup fields.*1 → ∀ t, m !! t = get fields t)
  end.
Proof.
  unfold parse_zero_copy, parse_naive. destruct (validate_and_parse_fields raw) as [fields|e|]; [|done..].
  cbn [mbind outcome_bind]. exists (to_map fields). split; [done|]. split; [apply to_map_lookup|].
  intros Hnd t. rewrite to_map_lookup. by apply get_reverse.
Qed.

(** An accepted message with two sides: the parsers disagree on it. *)
Definition two_sides : bytes :=
  frame [(35, str "D"); (11, str "A"); (55, str "ESZ5"); (54, str "1"); (38, str "10"); (40, str "1"); (54, str "2")].

Lemma fix_parsers_agree_witness :
  ∃ fields m, parse_zero_copy two_sides = Done fields ∧ parse_naive two_sides = Done m ∧
    get fields TAG_SIDE = Some (str "1") ∧ m !! TAG_SIDE = Some (str "2").
Proof.
  pose proof (fix_parsers_agree two_sides) as H.
  assert (∃ fields, parse_zero_copy two_sides = Done fields ∧ get fields TAG_SIDE = Some (str "1") ∧
    get (reverse fields) TAG_SIDE = Some (str "2")) as (fields & Hf & Hs & Hr)
    by (eexists; split; [vm_compute; reflexivity|split; vm_compute; reflexivity]).
  rewrite Hf in H. destruct H as (m & Hm & Hl & _). exists fields, m. split; [exact Hf|]. split; [exact Hm|].
  split; [exact Hs|]. by rewrite Hl.
Defined.

(** ** Panics *)

Lemma panic_bind {A B} (m : outcome A) (f : A → outcome B) :
  m ≫= f = Panic → m = Panic ∨ ∃ a, m = Done a ∧ f a = Panic.
Proof. destruct m as [a| |]; [|done|by left]. intros H. right. by exists a. Qed.

Lemma parse_fields_total ss : parse_fields ss ≠ Panic.
Proof.
  induction ss as [|s ss IH]; [done|]. cbn [parse_fields]. destruct s as [|b s]; [done|].
  destruct (split_once _ _) as [[tag v]|]; [|done]. cbn. destruct (parse_uint 32 tag); [|done]. cbn.
  by destruct (parse_fields ss).
Qed.

Lemma require_tags_total fs ts : require_tags fs ts ≠ Panic.
Proof. induction ts as [|t ts IH]; [done|]. cbn [require_tags]. by destruct (get fs t). Qed.

Lemma ascii_boundary text i : Forall is_ascii text → (i ≤ length text)%nat → is_char_boundary text i = true.
Proof.
  intros H Hi. unfold is_char_boundary. destruct (drop i text) as [|b r] eqn:Hd.
  - apply (f_equal length) in Hd. rewrite length_drop in Hd. cbn in Hd. apply Nat.eqb_eq. lia.
  - apply (Forall_drop is_ascii i) in H. rewrite Hd in H. apply Forall_cons in H as [H _]. by rewrite ascii_not_cont.
Qed.

(** A step that cannot panic itself: the panic is in what follows. *)
Ltac panic_step H Hr :=
  let x := fresh "x" in
  apply panic_bind in H as [H|(x & Hr & H)];
  [exfalso; revert H; first
    [ apply parse_fields_total | apply require_tags_total
    | match goal with |- reject ?b _ = _ → _ => by destruct b end
    | match goal with |- ok_or ?o _ = _ → _ => by destruct o end ]
  | first [apply reject_done in Hr | apply ok_or_done in Hr | idtac] ].

(** On ASCII text there is only one way to panic: the last checksum marker is
    not behind the second delimiter. *)
Theorem fix_panics_ascii (raw : bytes) :
  Forall is_ascii raw → validate_and_parse_fields raw = Panic →
  ∃ i m, match_indices SOH 0 raw !! 1%nat = Some i ∧ rfind marker raw = Some m ∧ (m ≤ i)%nat.
Proof.
  intros Ha H. unfold validate_and_parse_fields in H. cbv zeta in H.
  panic_step H H1. panic_step H H2. panic_step H H3. panic_step H Hm. panic_step H Hl.
  apply Nat.ltb_ge in Hl. rename x2 into m.
  rewrite !ascii_boundary in H by (done || lia). cbn [andb guard mbind outcome_bind] in H.
  panic_step H H5. panic_step H H6. panic_step H H7. panic_step H H8. panic_step H H9. panic_step H H10.
  destruct (match_indices SOH 0 raw !! 1%nat) as [i|] eqn:Hi.
  2:{ apply lookup_ge_None in Hi. apply Nat.ltb_ge in H3. lia. }
  exists i, m. split; [done|]. split; [done|]. cbn [default from_option id] in H.
  destruct (Nat.leb_spec (S i) m); [|lia]. exfalso. cbn [guard mbind outcome_bind] in H.
  repeat (let Hr := fresh "Hr" in panic_step H Hr). done.
Qed.
